(** * game2: the room actor of a hex-board economic game

    A shallow embedding of the Durable Object [GameRoom] (the phase engine,
    its message handlers and its timer routine [alarm]), of the board
    generator [generateGrid] and of the axial helpers it uses.

    Conventions of the embedding.
    - JavaScript numbers that the program only ever uses as integers (money,
      dice, bids, indices, coordinates, time stamps) are [Z]; [Math.floor] of
      such a number is the number itself.
    - A JavaScript object used as a dictionary ([Record<string, V>]) and a
      [Map] are association lists in insertion order: assigning to a present
      key keeps its position, assigning to a new key appends, [delete]
      removes the entry.  (Keys that look like array indices, which
      JavaScript enumerates first, are not distinguished.)
    - An array element or object found with [find] and then mutated is the
      first match inside the array: the update is written back at that
      position.
    - A key missing from the durable storage reads as the default the code
      substitutes with [??] ([[]] for players and grid, the empty buffer for
      the pending actions, [{}] for the submitted paths); only [config] and
      [winnerId] are optional.
    - [Math.random], [Date.now], [crypto.randomUUID] and the library
      [randomcolor] are read from an environment [Env] handed to each
      handler.  *)

From Stdlib Require Import ZArith List String Bool Lia Ascii DecimalString.
From Stdlib Require Import Permutation.
From Stdlib Require DecimalZ DecimalPos.
Import ListNotations.

Local Open Scope string_scope.
Local Open Scope list_scope.
Local Open Scope Z_scope.

Set Implicit Arguments.

Local Infix "+++" := String.append (at level 60, right associativity).

(* ------------------------------------------------------------------ *)
(** ** Dictionaries and arrays *)

Section Dict.
Variables (K V : Type) (keq : K -> K -> bool).

(** [obj[k]] / [map.get(k)] *)
Fixpoint dget (k : K) (d : list (K * V)) : option V :=
  match d with
  | [] => None
  | (k', v) :: t => if keq k' k then Some v else dget k t
  end.

(** [obj[k] = v] / [map.set(k, v)] *)
Fixpoint dset (k : K) (v : V) (d : list (K * V)) : list (K * V) :=
  match d with
  | [] => [(k, v)]
  | (k', v') :: t => if keq k' k then (k, v) :: t else (k', v') :: dset k v t
  end.

(** [delete obj[k]] *)
Definition ddel (k : K) (d : list (K * V)) : list (K * V) :=
  filter (fun e => negb (keq (fst e) k)) d.

(** [Object.keys(obj)] *)
Definition dkeys (d : list (K * V)) : list K := map fst d.
End Dict.

(** A JavaScript object used as a map from strings: its entries in
    insertion order, which is the order in which [Object.entries] and
    [Object.keys] enumerate keys that are not canonical array indices.  (A
    key made of digits only is enumerated by the engine before all others,
    in ascending order; for such keys the order of the list is not the
    order of the engine.) *)
Definition Rec (V : Type) : Type := list (string * V).
Definition rget {V} (k : string) (d : Rec V) : option V := dget String.eqb k d.
Definition rset {V} (k : string) (v : V) (d : Rec V) : Rec V := dset String.eqb k v d.
Definition rdel {V} (k : string) (d : Rec V) : Rec V := ddel String.eqb k d.

(** [x ?? dflt] *)
Definition orElse {A} (o : option A) (dflt : A) : A :=
  match o with Some a => a | None => dflt end.

Definition len {A} (l : list A) : Z := Z.of_nat (List.length l).

(** [arr[i]] for a numeric index; [None] is [undefined]. *)
Definition idx {A} (l : list A) (i : Z) : option A :=
  if i <? 0 then None else nth_error l (Z.to_nat i).

Fixpoint set_nth {A} (n : nat) (v : A) (l : list A) : list A :=
  match l, n with
  | [], _ => []
  | _ :: t, O => v :: t
  | h :: t, S n' => h :: set_nth n' v t
  end.

(** [arr[i] = v], used by the program only for indices inside the array. *)
Definition set_idx {A} (l : list A) (i : Z) (v : A) : list A :=
  if i <? 0 then l else set_nth (Z.to_nat i) v l.

(** [arr.findIndex(p)], [-1] when there is none. *)
Fixpoint findIndex {A} (p : A -> bool) (l : list A) : Z :=
  match l with
  | [] => -1
  | h :: t => if p h then 0 else
                let i := findIndex p t in if i <? 0 then -1 else i + 1
  end.

Fixpoint remove_nth {A} (n : nat) (l : list A) : list A :=
  match l, n with
  | [], _ => []
  | _ :: t, O => t
  | h :: t, S n' => h :: remove_nth n' t
  end.

(** [arr.splice(i, 1)] for [0 <= i]. *)
Definition splice1 {A} (i : Z) (l : list A) : list A :=
  if i <? 0 then l else remove_nth (Z.to_nat i) l.

(** Mutation of the element returned by [arr.find(p)]: the first match is
    replaced by its updated version. *)
Fixpoint update_first {A} (p : A -> bool) (f : A -> A) (l : list A) : list A :=
  match l with
  | [] => []
  | h :: t => if p h then f h :: t else h :: update_first p f t
  end.

(** Template-literal rendering of an integer. *)
Definition zstr (z : Z) : string := NilZero.string_of_int (Z.to_int z).

(* ------------------------------------------------------------------ *)
(** ** Randomness *)

(** The stream of values [Math.random] will return, each already scaled to
    an integer; [Math.floor(Math.random() * k)] reduces the next one
    modulo [k]. *)
Definition Rng := nat -> Z.

Definition rng_tail (g : Rng) : Rng := fun n => g (S n).

Definition rand_below (k : Z) (g : Rng) : Z * Rng := ((g O) mod k, rng_tail g).

(** [Math.floor(Math.random() * (max - min + 1)) + min] *)
Definition randomInt (min max : Z) (g : Rng) : Z * Rng :=
  let '(x, g') := rand_below (max - min + 1) g in (x + min, g').

(** [Math.floor(Math.random() * 6) + 1] *)
Definition randomDice (g : Rng) : Z * Rng :=
  let '(x, g') := rand_below 6 g in (x + 1, g').

(** [Array.from({ length: n }, () => randomDice())] *)
Fixpoint randomDiceArray (n : nat) (g : Rng) : list Z * Rng :=
  match n with
  | O => ([], g)
  | S n' => let '(d, g1) := randomDice g in
            let '(ds, g2) := randomDiceArray n' g1 in (d :: ds, g2)
  end.

(* ------------------------------------------------------------------ *)
(** ** Data model (worker/types.ts) *)

Inductive GamePhase :=
| lobby | round_start | market_phase | buy_phase | path_phase | auction
| round_end | ended.

Definition phase_eqb (a b : GamePhase) : bool :=
  match a, b with
  | lobby, lobby | round_start, round_start | market_phase, market_phase
  | buy_phase, buy_phase | path_phase, path_phase | auction, auction
  | round_end, round_end | ended, ended => true
  | _, _ => false
  end.

Inductive Role := Producer | Seller.

Record Axial := { aq : Z; ar : Z }.

Record CellOwner := { o_playerId : string; o_role : Role; o_roundsOwned : Z }.

Record Cell := {
  id : string; q : Z; r : Z; diceValue : Z; producer : Z; seller : Z;
  blocked : bool; owners : list CellOwner }.

Record Player := {
  playerId : string; displayName : string; color : string; money : Z;
  dice : list Z }.

Record GameConfig := {
  roundCount : Z; phase : GamePhase; roundIndex : Z;
  marketDice : option (list Z); marketMinPrice : option Z;
  phaseEndsAt : option Z }.

Record BuyAct := { cellId : string; role : Role }.

Record MarketAct := { dieIndex : Z; amount : Z }.

Inductive Conflict :=
| CellConflict (cid : string) (cell : string) (pids : list string)
| MarketConflict (cid : string) (die : Z) (pids : list string).

Definition conflictId (c : Conflict) : string :=
  match c with CellConflict i _ _ | MarketConflict i _ _ => i end.

Definition playerIds (c : Conflict) : list string :=
  match c with CellConflict _ _ l | MarketConflict _ _ l => l end.

Record PendingActions := {
  buy : Rec (list BuyAct); buyDone : Rec unit; pathReady : Rec unit;
  market : Rec MarketAct; marketSkip : Rec unit;
  auctionBids : Rec (Rec Z); conflicts : list Conflict }.

Record SubmittedPath := {
  producerId : string; sellerId : string; path : list Axial; revenue : Z }.

(** The durable key/value storage of one room, one field per key, and the
    single alarm the runtime keeps for it. *)
Record Storage := {
  config : option GameConfig;
  players : list Player;
  grid : list Cell;
  pendingActions : PendingActions;
  submittedPaths : Rec SubmittedPath;
  winnerId : option string;
  pathUsed : option (Rec (list string));
  alarmAt : option Z }.

Definition emptyPendingActions : PendingActions :=
  {| buy := []; buyDone := []; pathReady := []; market := []; marketSkip := [];
     auctionBids := []; conflicts := [] |}.

Definition STARTING_MONEY : Z := 10.
Definition MARKET_MIN_PRICE : Z := 1.
Definition MARKET_DURATION_MS : Z := 30000.
Definition AUCTION_DURATION_MS : Z := 30000.
Definition BUY_DURATION_MS : Z := 90000.
Definition PATH_DURATION_MS : Z := 90000.
Definition ROOM_CLEANUP_DELAY_MS : Z := 5 * 60000.

(** Field updates. *)
Definition with_money (m : Z) (p : Player) : Player :=
  {| playerId := playerId p; displayName := displayName p; color := color p;
     money := m; dice := dice p |}.
Definition with_dice (d : list Z) (p : Player) : Player :=
  {| playerId := playerId p; displayName := displayName p; color := color p;
     money := money p; dice := d |}.
Definition with_color (c : string) (p : Player) : Player :=
  {| playerId := playerId p; displayName := displayName p; color := c;
     money := money p; dice := dice p |}.
Definition with_owners (o : list CellOwner) (c : Cell) : Cell :=
  {| id := id c; q := q c; r := r c; diceValue := diceValue c;
     producer := producer c; seller := seller c; blocked := blocked c;
     owners := o |}.
Definition with_values (p s : Z) (c : Cell) : Cell :=
  {| id := id c; q := q c; r := r c; diceValue := diceValue c;
     producer := p; seller := s; blocked := blocked c; owners := owners c |}.

Definition with_phase (ph : GamePhase) (md : option (list Z)) (ends : option Z)
    (c : GameConfig) : GameConfig :=
  {| roundCount := roundCount c; phase := ph; roundIndex := roundIndex c;
     marketDice := md; marketMinPrice := marketMinPrice c;
     phaseEndsAt := ends |}.

Definition set_config (c : option GameConfig) (s : Storage) : Storage :=
  {| config := c; players := players s; grid := grid s;
     pendingActions := pendingActions s; submittedPaths := submittedPaths s;
     winnerId := winnerId s; pathUsed := pathUsed s; alarmAt := alarmAt s |}.
Definition set_players (ps : list Player) (s : Storage) : Storage :=
  {| config := config s; players := ps; grid := grid s;
     pendingActions := pendingActions s; submittedPaths := submittedPaths s;
     winnerId := winnerId s; pathUsed := pathUsed s; alarmAt := alarmAt s |}.
Definition set_grid (g : list Cell) (s : Storage) : Storage :=
  {| config := config s; players := players s; grid := g;
     pendingActions := pendingActions s; submittedPaths := submittedPaths s;
     winnerId := winnerId s; pathUsed := pathUsed s; alarmAt := alarmAt s |}.
Definition set_pending (pa : PendingActions) (s : Storage) : Storage :=
  {| config := config s; players := players s; grid := grid s;
     pendingActions := pa; submittedPaths := submittedPaths s;
     winnerId := winnerId s; pathUsed := pathUsed s; alarmAt := alarmAt s |}.
Definition set_submittedPaths (sp : Rec SubmittedPath) (s : Storage) : Storage :=
  {| config := config s; players := players s; grid := grid s;
     pendingActions := pendingActions s; submittedPaths := sp;
     winnerId := winnerId s; pathUsed := pathUsed s; alarmAt := alarmAt s |}.
Definition set_winnerId (w : option string) (s : Storage) : Storage :=
  {| config := config s; players := players s; grid := grid s;
     pendingActions := pendingActions s; submittedPaths := submittedPaths s;
     winnerId := w; pathUsed := pathUsed s; alarmAt := alarmAt s |}.
Definition set_pathUsed (u : option (Rec (list string))) (s : Storage) : Storage :=
  {| config := config s; players := players s; grid := grid s;
     pendingActions := pendingActions s; submittedPaths := submittedPaths s;
     winnerId := winnerId s; pathUsed := u; alarmAt := alarmAt s |}.
Definition setAlarm (t : Z) (s : Storage) : Storage :=
  {| config := config s; players := players s; grid := grid s;
     pendingActions := pendingActions s; submittedPaths := submittedPaths s;
     winnerId := winnerId s; pathUsed := pathUsed s; alarmAt := Some t |}.

Definition set_buy (b : Rec (list BuyAct)) (pa : PendingActions) : PendingActions :=
  {| buy := b; buyDone := buyDone pa; pathReady := pathReady pa;
     market := market pa; marketSkip := marketSkip pa;
     auctionBids := auctionBids pa; conflicts := conflicts pa |}.
Definition set_buyDone (b : Rec unit) (pa : PendingActions) : PendingActions :=
  {| buy := buy pa; buyDone := b; pathReady := pathReady pa;
     market := market pa; marketSkip := marketSkip pa;
     auctionBids := auctionBids pa; conflicts := conflicts pa |}.
Definition set_pathReady (b : Rec unit) (pa : PendingActions) : PendingActions :=
  {| buy := buy pa; buyDone := buyDone pa; pathReady := b;
     market := market pa; marketSkip := marketSkip pa;
     auctionBids := auctionBids pa; conflicts := conflicts pa |}.
Definition set_market (m : Rec MarketAct) (pa : PendingActions) : PendingActions :=
  {| buy := buy pa; buyDone := buyDone pa; pathReady := pathReady pa;
     market := m; marketSkip := marketSkip pa;
     auctionBids := auctionBids pa; conflicts := conflicts pa |}.
Definition set_marketSkip (m : Rec unit) (pa : PendingActions) : PendingActions :=
  {| buy := buy pa; buyDone := buyDone pa; pathReady := pathReady pa;
     market := market pa; marketSkip := m;
     auctionBids := auctionBids pa; conflicts := conflicts pa |}.
Definition set_auctionBids (a : Rec (Rec Z)) (pa : PendingActions) : PendingActions :=
  {| buy := buy pa; buyDone := buyDone pa; pathReady := pathReady pa;
     market := market pa; marketSkip := marketSkip pa;
     auctionBids := a; conflicts := conflicts pa |}.
Definition set_conflicts (c : list Conflict) (pa : PendingActions) : PendingActions :=
  {| buy := buy pa; buyDone := buyDone pa; pathReady := pathReady pa;
     market := market pa; marketSkip := marketSkip pa;
     auctionBids := auctionBids pa; conflicts := c |}.

(** [players.find((p) => p.playerId === pid)] and the mutation of its
    result. *)
Definition is_player (pid : string) (p : Player) : bool :=
  String.eqb (playerId p) pid.
Definition find_player (pid : string) (ps : list Player) : option Player :=
  find (is_player pid) ps.
Definition update_player (pid : string) (f : Player -> Player)
    (ps : list Player) : list Player :=
  update_first (is_player pid) f ps.

(** [grid.find((c) => c.id === cellId)] and the mutation of its result. *)
Definition is_cell (cid : string) (c : Cell) : bool := String.eqb (id c) cid.
Definition find_cell (cid : string) (g : list Cell) : option Cell :=
  find (is_cell cid) g.
Definition update_cell (cid : string) (f : Cell -> Cell)
    (g : list Cell) : list Cell :=
  update_first (is_cell cid) f g.

(* ------------------------------------------------------------------ *)
(** ** Axial helpers and board generation (worker/hex.ts, worker/grid.ts) *)

Definition axialEquals (a b : Axial) : bool :=
  (aq a =? aq b) && (ar a =? ar b).

Definition axialKey (a : Axial) : string := zstr (aq a) +++ "," +++ zstr (ar a).

(** The six neighbours tested by [handlePath], in the order of its literal. *)
Definition axialNeighbors (a : Axial) : list Axial :=
  [ {| aq := aq a + 1; ar := ar a |};     {| aq := aq a + 1; ar := ar a - 1 |};
    {| aq := aq a;     ar := ar a - 1 |}; {| aq := aq a - 1; ar := ar a |};
    {| aq := aq a - 1; ar := ar a + 1 |}; {| aq := aq a;     ar := ar a + 1 |} ].

Definition hexRegionCount (radius : Z) : Z := 1 + 3 * radius * (radius + 1).

(** The integers [lo, lo+1, ..., hi] of a counting [for] loop. *)
Definition zrange (lo hi : Z) : list Z :=
  map (fun k => lo + Z.of_nat k) (seq 0 (Z.to_nat (hi - lo + 1))).

Definition hexRegion (radius : Z) : list Axial :=
  flat_map
    (fun q0 =>
       map (fun r0 => {| aq := q0; ar := r0 |})
           (zrange (Z.max (- radius) (- q0 - radius))
                   (Z.min radius (- q0 + radius))))
    (zrange (- radius) radius).

(** [while (hexRegionCount(radius) < totalNeeded) radius++]; the region
    count exceeds the radius, so [totalNeeded] iterations are enough. *)
Fixpoint growRadius (fuel : nat) (totalNeeded radius : Z) : Z :=
  match fuel with
  | O => radius
  | S fuel' =>
      if hexRegionCount radius <? totalNeeded
      then growRadius fuel' totalNeeded (radius + 1)
      else radius
  end.

(** [[out[i], out[j]] = [out[j], out[i]]] *)
Definition swap {A} (i j : nat) (out : list A) : list A :=
  match nth_error out i, nth_error out j with
  | Some a, Some b => set_nth j a (set_nth i b out)
  | _, _ => out
  end.

(** The loop [for (let i = out.length - 1; i > 0; i--)] of [shuffle]. *)
Fixpoint shuffle_from {A} (i : nat) (out : list A) (g : Rng) : list A * Rng :=
  match i with
  | O => (out, g)
  | S i' =>
      let '(j, g') := rand_below (Z.of_nat i + 1) g in
      shuffle_from i' (swap i (Z.to_nat j) out) g'
  end.

Definition shuffle {A} (arr : list A) (g : Rng) : list A * Rng :=
  shuffle_from (List.length arr - 1) arr g.

(** [Array.from({ length: n }, () => randomInt(min, max))] *)
Fixpoint randomIntArray (n : nat) (min max : Z) (g : Rng) : list Z * Rng :=
  match n with
  | O => ([], g)
  | S n' => let '(d, g1) := randomInt min max g in
            let '(ds, g2) := randomIntArray n' min max g1 in (d :: ds, g2)
  end.

(** [for (face = 1; face <= 6; face += 1)
       diceValues[shuffledPlayable[face - 1]] = face] *)
Definition plantFaces (shuffledPlayable : list nat) (diceValues : list Z) : list Z :=
  fold_left
    (fun dv face =>
       match nth_error shuffledPlayable (Z.to_nat (face - 1)) with
       | Some i => set_nth i face dv
       | None => dv
       end)
    (zrange 1 6) diceValues.

(** The final [coords.map]: one cell per coordinate, two draws each. *)
Fixpoint buildCells (coords : list Axial) (i : nat) (diceValues : list Z)
    (blockedSet : list nat) (g : Rng) : list Cell * Rng :=
  match coords with
  | [] => ([], g)
  | axial :: rest =>
      let '(p, g1) := randomInt 1 9 g in
      let '(s, g2) := randomInt 1 9 g1 in
      let cell :=
        {| id := "cell-" +++ zstr (aq axial) +++ "-" +++ zstr (ar axial);
           q := aq axial; r := ar axial;
           diceValue := nth i diceValues 0;
           producer := p; seller := s;
           blocked := existsb (Nat.eqb i) blockedSet;
           owners := [] |} in
      let '(cells, g3) := buildCells rest (S i) diceValues blockedSet g2 in
      (cell :: cells, g3)
  end.

Definition generateGrid (minCells blockedCount : Z) (g : Rng) : list Cell * Rng :=
  let totalNeeded := minCells + blockedCount in
  let radius := growRadius (Z.to_nat totalNeeded) totalNeeded 1 in
  let coords := hexRegion radius in
  let totalCells := List.length coords in
  let effectiveBlockedCount :=
    Z.min blockedCount (Z.max 0 (Z.of_nat totalCells - 1)) in
  let '(shuffledIndices, g1) := shuffle (seq 0 totalCells) g in
  let blockedSet := firstn (Z.to_nat effectiveBlockedCount) shuffledIndices in
  let playableIndices :=
    filter (fun i => negb (existsb (Nat.eqb i) blockedSet)) (seq 0 totalCells) in
  let '(diceValues, g2) := randomIntArray totalCells 1 6 g1 in
  let '(diceValues', g3) :=
    if 6 <=? len playableIndices
    then let '(shuffledPlayable, g') := shuffle playableIndices g2 in
         (plantFaces shuffledPlayable diceValues, g')
    else (diceValues, g2) in
  buildCells coords 0 diceValues' blockedSet g3.

(* ------------------------------------------------------------------ *)
(** ** Player colours *)

Definition hexDigit (n : Z) : ascii :=
  match n with
  | 0 => "0" | 1 => "1" | 2 => "2" | 3 => "3" | 4 => "4" | 5 => "5"
  | 6 => "6" | 7 => "7" | 8 => "8" | 9 => "9" | 10 => "a" | 11 => "b"
  | 12 => "c" | 13 => "d" | 14 => "e" | _ => "f"
  end%char.

Definition hexByte (n : Z) : string :=
  String (hexDigit (n / 16)) (String (hexDigit (n mod 16)) EmptyString).

(** The library call [randomColor({ luminosity: 'bright' })]: by its
    documentation a string [#rrggbb]; the three bytes come from the
    random stream. *)
Definition randomColor (g : Rng) : string * Rng :=
  let n := (g O) mod 16777216 in
  ("#" +++ hexByte (n / 65536) +++ hexByte ((n / 256) mod 256)
       +++ hexByte (n mod 256), rng_tail g).

Definition hexValue (c : ascii) : option Z :=
  let n := Z.of_nat (nat_of_ascii c) in
  if (48 <=? n) && (n <=? 57) then Some (n - 48)
  else if (97 <=? n) && (n <=? 102) then Some (n - 87)
  else if (65 <=? n) && (n <=? 70) then Some (n - 55)
  else None.

(** [Number.parseInt(s, 16)] on a string without sign, blanks or [0x]
    prefix: the value of the longest prefix of hexadecimal digits, [None]
    (NaN) when there is none. *)
Fixpoint parseHex (s : string) (acc : option Z) : option Z :=
  match s with
  | EmptyString => acc
  | String c t =>
      match hexValue c with
      | Some d => parseHex t (Some (orElse acc 0 * 16 + d))
      | None => acc
      end
  end.

(** [hex.replace('#', '')]: the first [#] is dropped. *)
Fixpoint dropHash (s : string) : string :=
  match s with
  | EmptyString => EmptyString
  | String c t => if Ascii.eqb c "#"%char then t else String c (dropHash t)
  end.

Fixpoint doubleChars (s : string) : string :=
  match s with
  | EmptyString => EmptyString
  | String c t => String c (String c (doubleChars t))
  end.

(** The 32-bit view JavaScript takes of a number before [>>] and [&]; NaN
    becomes 0. *)
Definition toInt32 (n : option Z) : Z :=
  (orElse n 0 + 2147483648) mod 4294967296 - 2147483648.

Definition hexToRgb (hex : string) : Z * Z * Z :=
  let normalized := dropHash hex in
  let full := if Nat.eqb (String.length normalized) 3
              then doubleChars normalized else normalized in
  let n := toInt32 (parseHex full None) in
  (Z.land (Z.shiftr n 16) 255, Z.land (Z.shiftr n 8) 255, Z.land n 255).

(** The square of [colorDistance]: the program takes the square root and
    then only compares distances, which the square preserves. *)
Definition colorDistanceSq (a b : string) : Z :=
  let '(ar0, ag, ab) := hexToRgb a in
  let '(br, bg, bb) := hexToRgb b in
  let dr := ar0 - br in let dg := ag - bg in let db := ab - bb in
  dr * dr + dg * dg + db * db.

(** [Math.min(...xs)] of a non-empty list. *)
Definition minimum (xs : list Z) (dflt : Z) : Z :=
  match xs with
  | [] => dflt
  | x :: t => fold_left Z.min t x
  end.

(** The 24 rounds of [distinctPlayerColor]; distances are squared, so the
    sentinel 999 of an empty [existing] is squared as well. *)
Fixpoint pickColor (rounds : nat) (existing : list string) (best : string)
    (bestMinDistance : Z) (g : Rng) : string * Rng :=
  match rounds with
  | O => (best, g)
  | S rounds' =>
      let '(candidate, g') := randomColor g in
      let minDistance :=
        match existing with
        | [] => 999 * 999
        | _ => minimum (map (fun c => colorDistanceSq c candidate) existing) 0
        end in
      if minDistance >? bestMinDistance
      then pickColor rounds' existing candidate minDistance g'
      else pickColor rounds' existing best bestMinDistance g'
  end.

Definition distinctPlayerColor (existing : list string) (g : Rng) : string * Rng :=
  pickColor 24 existing "#22c55e" (-1) g.

Definition noColor (p : Player) : bool := String.eqb (color p) "".

(** [ensurePlayerColors]: [used] is the list of colours seen so far. *)
Fixpoint ensureColorsFrom (used : list string) (ps : list Player) (g : Rng)
    : list Player * Rng :=
  match ps with
  | [] => ([], g)
  | p :: rest =>
      let '(p', g1) :=
        if noColor p
        then let '(c, g') := distinctPlayerColor used g in (with_color c p, g')
        else (p, g) in
      let '(rest', g2) := ensureColorsFrom (used ++ [color p']) rest g1 in
      (p' :: rest', g2)
  end.

Definition ensurePlayerColors (ps : list Player) (g : Rng) : list Player * Rng :=
  ensureColorsFrom [] ps g.

(* ------------------------------------------------------------------ *)
(** ** Environment and outbound effects *)

Record Env := {
  now : Z;              (* Date.now() *)
  rng : Rng;            (* Math.random() of the handler *)
  paint : Rng;          (* Math.random() of broadcastState's colour backfill *)
  uuid : string         (* crypto.randomUUID().slice(0, 8) *) }.

Inductive Out :=
| OJoined (ws : nat) (pid : string)            (* { type: 'joined', playerId } *)
| OError (ws : nat) (message : string)         (* { type: 'error', message } *)
| OPathRevenue (ws : nat) (rev : Z)            (* { type: 'path_revenue', ... } *)
| OAttach (ws : nat) (pid : string)            (* ws.serializeAttachment *)
| OState                                       (* the state broadcast *)
| OCloseAll.                                   (* ws.close on every socket *)

Definition Result : Type := Storage * list Out.

(** Sequencing of two effectful steps. *)
Definition andThen (x : Result) (k : Storage -> Result) : Result :=
  let '(s, o) := x in let '(s', o') := k s in (s', o ++ o').

Definition sendTo (ws : nat) (o : nat -> Out) (s : Storage) : Result := (s, [o ws]).

(** [broadcastState]: players without a colour get one, the list is stored
    back when that happened, and every socket receives its view. *)
Definition broadcastState (e : Env) (s : Storage) : Result :=
  let hadMissingColors := existsb noColor (players s) in
  let '(ps, _) := ensurePlayerColors (players s) (paint e) in
  (if hadMissingColors then set_players ps s else s, [OState]).

(* ------------------------------------------------------------------ *)
(** ** The timer routine [alarm], one definition per phase branch *)

Definition noOwners (c : Cell) : bool :=
  match owners c with [] => true | _ => false end.

Definition ageCell (c : Cell) : Cell :=
  if noOwners c then c
  else with_values (Z.max 1 (producer c - 1)) (Z.max 1 (seller c - 1)) c.

Definition applyOwnershipAging (g : list Cell) : list Cell := map ageCell g.

(** One turn of [for (const [playerId, submitted] of
    Object.entries(submittedPaths))]. *)
Definition payRevenue (ps : list Player) (entry : string * SubmittedPath)
    : list Player :=
  let '(pid, submitted) := entry in
  match find_player pid ps with
  | None => ps
  | Some _ =>
      update_player pid
        (fun p => with_money (money p + Z.max 0 (revenue submitted)) p) ps
  end.

Definition alarm_round_start (e : Env) (s : Storage) (cfg : GameConfig) : Result :=
  let grid' := applyOwnershipAging (grid s) in
  let ps1 := map (fun p => with_money (money p + 1) p) (players s) in
  let ps2 := fold_left payRevenue (submittedPaths s) ps1 in
  let '(md, _) := randomDiceArray (Z.to_nat (len ps2 - 1)) (rng e) in
  let newConfig :=
    with_phase market_phase (Some md) (Some (now e + MARKET_DURATION_MS)) cfg in
  broadcastState e
    (setAlarm (now e + MARKET_DURATION_MS)
       (set_config (Some newConfig) (set_players ps2 (set_grid grid' s)))).

(** *** market_phase *)

(** An entry [{ playerId, amount }] of a per-die bid list. *)
Definition Bid : Type := string * Z.

Definition groupStep (minPrice : Z) (m : list (Z * list Bid))
    (entry : string * MarketAct) : list (Z * list Bid) :=
  let '(pid, act) := entry in
  if amount act <? minPrice then m
  else
    let list := orElse (dget Z.eqb (dieIndex act) m) [] in
    let list' := if existsb (fun b => String.eqb (fst b) pid) list
                 then list else list ++ [(pid, amount act)] in
    dset Z.eqb (dieIndex act) list' m.

Definition bidsByDieIndex (minPrice : Z) (mk : Rec MarketAct)
    : list (Z * list Bid) :=
  fold_left (groupStep minPrice) mk [].

Definition bestOf (start : Z) (amounts : list Z) : Z :=
  fold_left (fun best a => if a >? best then a else best) amounts start.

Definition topBidders (bestBid : Z) (bids : list Bid) : list string :=
  map fst (filter (fun b => snd b =? bestBid) bids).

Definition awardDie (bestBid die : Z) (p : Player) : Player :=
  with_dice (dice p ++ [die]) (with_money (money p - bestBid) p).

Definition MarketAcc : Type := list Player * list Z * list Conflict.

Definition marketStep (t : Z) (acc : MarketAcc) (group : Z * list Bid)
    : MarketAcc :=
  let '(ps, md, cs) := acc in
  let '(dieIdx, bids) := group in
  if (dieIdx <? 0) || (dieIdx >=? len md) then acc
  else match bids with
  | [] => acc
  | _ =>
      let bestBid := bestOf (-1) (map snd bids) in
      let winners := topBidders bestBid bids in
      match winners with
      | [w] =>
          match find_player w ps with
          | Some player =>
              if money player >=? bestBid
              then (update_player w (awardDie bestBid (orElse (idx md dieIdx) 0)) ps,
                    set_idx md dieIdx (-1), cs)
              else acc
          | None => acc
          end
      | _ =>
          (ps, md,
           cs ++ [MarketConflict ("market-" +++ zstr dieIdx +++ "-" +++ zstr t)
                                 dieIdx winners])
      end
  end.

Definition isTaken (v : Z) : bool := v =? -1.

Definition alarm_market (e : Env) (s : Storage) (cfg : GameConfig) : Result :=
  let pending := pendingActions s in
  let md0 := orElse (marketDice cfg) [] in
  let minPrice := orElse (marketMinPrice cfg) MARKET_MIN_PRICE in
  let groups := bidsByDieIndex minPrice (market pending) in
  let '(ps, md, cs) := fold_left (marketStep (now e)) groups (players s, md0, []) in
  let s1 := set_players ps s in
  match cs with
  | _ :: _ =>
      let s2 := set_pending (set_auctionBids [] (set_conflicts cs pending)) s1 in
      let newConfig :=
        with_phase auction (Some md) (Some (now e + AUCTION_DURATION_MS)) cfg in
      broadcastState e
        (setAlarm (now e + AUCTION_DURATION_MS) (set_config (Some newConfig) s2))
  | [] =>
      let newMarketDice := filter (fun v => negb (isTaken v)) md in
      let newConfig :=
        with_phase buy_phase (Some newMarketDice)
                   (Some (now e + BUY_DURATION_MS)) cfg in
      broadcastState e
        (setAlarm (now e + BUY_DURATION_MS)
           (set_pending emptyPendingActions (set_config (Some newConfig) s1)))
  end.

(** *** path_phase *)

(** [for (const p of players) if (p.dice.length === 0)
      p.dice = randomDiceArray(3)] *)
Fixpoint dealHands (ps : list Player) (g : Rng) : list Player * Rng :=
  match ps with
  | [] => ([], g)
  | p :: rest =>
      let '(p', g1) :=
        match dice p with
        | [] => let '(d, g') := randomDiceArray 3 g in (with_dice d p, g')
        | _ => (p, g)
        end in
      let '(rest', g2) := dealHands rest g1 in (p' :: rest', g2)
  end.

Definition alarm_path (e : Env) (s : Storage) (cfg : GameConfig) : Result :=
  let '(ps, _) := dealHands (players s) (rng e) in
  let newConfig := with_phase round_end (marketDice cfg) (Some (now e + 5000)) cfg in
  broadcastState e
    (setAlarm (now e + 5000) (set_config (Some newConfig) (set_players ps s))).

Definition hasRole (pid : string) (ro : Role) (o : CellOwner) : bool :=
  String.eqb (o_playerId o) pid &&
  match o_role o, ro with
  | Producer, Producer | Seller, Seller => true
  | _, _ => false
  end.

Definition computeAutoPathReady (ps : list Player) (g : list Cell) : Rec unit :=
  fold_left
    (fun ready player =>
       let hasProducer :=
         existsb (fun c => existsb (hasRole (playerId player) Producer) (owners c)) g in
       let hasSeller :=
         existsb (fun c => existsb (hasRole (playerId player) Seller) (owners c)) g in
       if negb hasProducer || negb hasSeller
       then rset (playerId player) tt ready else ready)
    ps [].

(** The common tail of the buy and auction branches: enter path_phase and,
    when every player is already ready, run [alarm] again at once (the
    nested call reads the phase just stored, path_phase). *)
Definition enterPathPhase (e : Env) (s : Storage) (cfg : GameConfig)
    (md : option (list Z)) : Result :=
  let autoPathReady := computeAutoPathReady (players s) (grid s) in
  let s1 := set_pending (set_pathReady autoPathReady emptyPendingActions) s in
  let newConfig := with_phase path_phase md (Some (now e + PATH_DURATION_MS)) cfg in
  let s2 := set_config (Some newConfig) s1 in
  andThen
    (if (0 <? len (players s)) && (len (players s) <=? len autoPathReady)
     then alarm_path e s2 newConfig
     else (setAlarm (now e + PATH_DURATION_MS) s2, []))
    (broadcastState e).

(** *** buy_phase *)

(** An element [{ playerId, cellId, role }] of [toApply]. *)
Record Claim := { c_playerId : string; c_cellId : string; c_role : Role }.

Definition roleKey (pid cell : string) : string := pid +++ ":" +++ cell.

Definition BuyIndex : Type := Rec Role * Rec (list string).

(** The inner loop over one player's queued acts; [seen] is that player's
    [Set] of cell ids. *)
Definition indexAct (pid : string) (acc : BuyIndex * list string) (act : BuyAct)
    : BuyIndex * list string :=
  let '((roleByPlayerCell, byCell), seen) := acc in
  if String.eqb (cellId act) "" || existsb (String.eqb (cellId act)) seen
  then acc
  else
    let list := orElse (rget (cellId act) byCell) [] in
    let list' := if existsb (String.eqb pid) list then list else list ++ [pid] in
    ((rset (roleKey pid (cellId act)) (role act) roleByPlayerCell,
      rset (cellId act) list' byCell),
     cellId act :: seen).

Definition indexPlayer (acc : BuyIndex) (entry : string * list BuyAct) : BuyIndex :=
  let '(pid, acts) := entry in
  fst (fold_left (indexAct pid) acts (acc, [])).

Definition indexBuys (b : Rec (list BuyAct)) : BuyIndex :=
  fold_left indexPlayer b ([], []).

Definition holdsDie (v : Z) (p : Player) : bool := existsb (Z.eqb v) (dice p).

(** One turn of [for (const [cellId, playerIds] of byCell)]. *)
Definition classifyCell (t : Z) (g : list Cell) (ps : list Player)
    (roleByPlayerCell : Rec Role) (acc : list Conflict * list Claim)
    (entry : string * list string) : list Conflict * list Claim :=
  let '(cs, toApply) := acc in
  let '(cell_id, pids) := entry in
  match pids with
  | [p0] =>
      match find_cell cell_id g, find_player p0 ps,
            rget (roleKey p0 cell_id) roleByPlayerCell with
      | Some cell, Some player, Some ro =>
          if negb (blocked cell) && holdsDie (diceValue cell) player
          then (cs, toApply ++ [{| c_playerId := p0; c_cellId := cell_id; c_role := ro |}])
          else acc
      | _, _, _ => acc
      end
  | _ =>
      (cs ++ [CellConflict ("conflict-" +++ cell_id +++ "-" +++ zstr t) cell_id pids],
       toApply)
  end.

(** [counts.set(die, (counts.get(die) ?? 0) + 1)] over a hand. *)
Definition countDice (hand : list Z) : list (Z * Z) :=
  fold_left
    (fun counts die => dset Z.eqb die (orElse (dget Z.eqb die counts) 0 + 1) counts)
    hand [].

Definition DicePool : Type := Rec (list (Z * Z)).

Definition playerDicePool (ps : list Player) : DicePool :=
  fold_left (fun pool p => rset (playerId p) (countDice (dice p)) pool) ps [].

(** One turn of [for (const act of toApply)]: the claim is kept when the
    claimant's pool still has a die of the cell's value, which it uses up. *)
Definition filterClaim (g : list Cell) (acc : DicePool * list Claim) (act : Claim)
    : DicePool * list Claim :=
  let '(pool, kept) := acc in
  match find_cell (c_cellId act) g with
  | None => acc
  | Some cell =>
      match rget (c_playerId act) pool with
      | None => acc
      | Some counts =>
          let left := orElse (dget Z.eqb (diceValue cell) counts) 0 in
          if left <=? 0 then acc
          else (rset (c_playerId act)
                     (dset Z.eqb (diceValue cell) (left - 1) counts) pool,
                kept ++ [act])
      end
  end.

Definition filteredToApply (g : list Cell) (ps : list Player)
    (toApply : list Claim) : list Claim :=
  snd (fold_left (filterClaim g) toApply (playerDicePool ps, [])).

Definition addOwner (pid : string) (ro : Role) (c : Cell) : Cell :=
  with_owners (owners c ++ [{| o_playerId := pid; o_role := ro; o_roundsOwned := 0 |}]) c.

(** [dieIdx = dice.findIndex((d) => d === v); if (dieIdx >= 0)
    dice.splice(dieIdx, 1)] *)
Definition spendDie (v : Z) (p : Player) : Player :=
  let dieIdx := findIndex (Z.eqb v) (dice p) in
  if dieIdx >=? 0 then with_dice (splice1 dieIdx (dice p)) p else p.

(** One turn of the committing loop; both [find]s succeed for a claim that
    passed the two filters. *)
Definition applyClaim (acc : list Player * list Cell) (act : Claim)
    : list Player * list Cell :=
  let '(ps, g) := acc in
  match find_cell (c_cellId act) g with
  | None => acc
  | Some cell =>
      (update_player (c_playerId act) (spendDie (diceValue cell)) ps,
       update_cell (c_cellId act) (addOwner (c_playerId act) (c_role act)) g)
  end.

Definition alarm_buy (e : Env) (s : Storage) (cfg : GameConfig) : Result :=
  let pending := pendingActions s in
  let '(roleByPlayerCell, byCell) := indexBuys (buy pending) in
  let '(cs, toApply) :=
    fold_left (classifyCell (now e) (grid s) (players s) roleByPlayerCell)
              byCell ([], []) in
  let kept := filteredToApply (grid s) (players s) toApply in
  let '(ps, g) := fold_left applyClaim kept (players s, grid s) in
  let s1 := set_grid g (set_players ps s) in
  match cs with
  | _ :: _ =>
      let s2 := set_pending (set_auctionBids [] (set_conflicts cs pending)) s1 in
      let newConfig :=
        with_phase auction (marketDice cfg)
                   (Some (now e + AUCTION_DURATION_MS)) cfg in
      broadcastState e
        (setAlarm (now e + AUCTION_DURATION_MS) (set_config (Some newConfig) s2))
  | [] => enterPathPhase e s1 cfg (marketDice cfg)
  end.

(** *** auction *)

(** [bids[pid] ?? 0] *)
Definition bidOf (bids : Rec Z) (pid : string) : Z := orElse (rget pid bids) 0.

Definition AuctionAcc : Type := list Player * list Cell * list Z.

(** The role a contender declared when queuing the buy:
    [(pending.buy[pid] ?? []).find((a) => a.cellId === cellId)?.role]. *)
Definition declaredRole (pending : PendingActions) (pid cell_id : string)
    : option Role :=
  option_map role
    (find (fun a => String.eqb (cellId a) cell_id)
          (orElse (rget pid (buy pending)) [])).

(** One turn of [for (const pid of winners)] in a cell conflict. *)
Definition cellWinner (pending : PendingActions) (cell_id : string) (bestBid : Z)
    (acc : list Player * list Cell) (pid : string) : list Player * list Cell :=
  let '(ps, g) := acc in
  match find_cell cell_id g, find_player pid ps, declaredRole pending pid cell_id with
  | Some cell, Some player, Some ro =>
      if money player <? bestBid then acc
      else if findIndex (Z.eqb (diceValue cell)) (dice player) <? 0 then acc
      else (update_player pid
              (fun p => spendDie (diceValue cell) (with_money (money p - bestBid) p)) ps,
            update_cell cell_id (addOwner pid ro) g)
  | _, _, _ => acc
  end.

Definition auctionStep (pending : PendingActions) (acc : AuctionAcc) (c : Conflict)
    : AuctionAcc :=
  let '(ps, g, md) := acc in
  let bids := orElse (rget (conflictId c) (auctionBids pending)) [] in
  let bestBid := bestOf 0 (map (bidOf bids) (playerIds c)) in
  match c with
  | MarketConflict _ dieIdx pids =>
      let bestPlayer :=
        match find (fun pid => bidOf bids pid =? bestBid) pids with
        | Some pid => Some pid
        | None => hd_error pids
        end in
      match bestPlayer with
      | Some w =>
          match find_player w ps, idx md dieIdx with
          | Some player, Some die =>
              if negb (isTaken die) && (money player >=? bestBid)
              then (update_player w (awardDie bestBid die) ps, g,
                    set_idx md dieIdx (-1))
              else acc
          | _, _ => acc
          end
      | None => acc
      end
  | CellConflict _ cell_id pids =>
      match find_cell cell_id g with
      | None => acc
      | Some _ =>
          let winners := filter (fun pid => bidOf bids pid =? bestBid) pids in
          let '(ps', g') := fold_left (cellWinner pending cell_id bestBid) winners (ps, g) in
          (ps', g', md)
      end
  end.

Definition alarm_auction (e : Env) (s : Storage) (cfg : GameConfig) : Result :=
  let pending := pendingActions s in
  let md0 := orElse (marketDice cfg) [] in
  let '(ps, g, md) :=
    fold_left (auctionStep pending) (conflicts pending) (players s, grid s, md0) in
  let s1 := set_grid g (set_players ps s) in
  let newMarketDiceAfterAuction := filter (fun v => negb (isTaken v)) md in
  enterPathPhase e s1 cfg (Some newMarketDiceAfterAuction).

(** *** round_end, ended *)

Definition myCells (g : list Cell) (pid : string) : Z :=
  len (filter (fun c => existsb (fun o => String.eqb (o_playerId o) pid) (owners c)) g).

Definition betterPlayer (g : list Cell) (best p : Player) : Player :=
  if money p >? money best then p
  else if (money p =? money best)
          && (myCells g (playerId p) >? myCells g (playerId best))
       then p else best.

Definition cleanupRoom (s : Storage) : Result :=
  ({| config := None; players := []; grid := [];
      pendingActions := emptyPendingActions; submittedPaths := [];
      winnerId := None; pathUsed := None; alarmAt := alarmAt s |},
   [OCloseAll]).

Definition alarm_round_end (e : Env) (s : Storage) (cfg : GameConfig) : Result :=
  let roundIndex' := roundIndex cfg + 1 in
  if roundIndex' >=? roundCount cfg then
    let endAt := now e + ROOM_CLEANUP_DELAY_MS in
    let newConfig :=
      {| roundCount := roundCount cfg; phase := ended; roundIndex := roundIndex';
         marketDice := marketDice cfg; marketMinPrice := marketMinPrice cfg;
         phaseEndsAt := Some endAt |} in
    match players s with
    | [] =>
        (* [best] is undefined: reading [best.playerId] throws after the
           configuration has been stored. *)
        (set_config (Some newConfig) s, [])
    | p0 :: _ =>
        let best := fold_left (betterPlayer (grid s)) (players s) p0 in
        andThen
          (broadcastState e
             (set_winnerId (Some (playerId best)) (set_config (Some newConfig) s)))
          (fun s' => (setAlarm endAt s', []))
    end
  else
    let '(md, _) := randomDiceArray (Z.to_nat (len (players s) - 1)) (rng e) in
    let newConfig :=
      {| roundCount := roundCount cfg; phase := round_start; roundIndex := roundIndex';
         marketDice := Some md; marketMinPrice := marketMinPrice cfg;
         phaseEndsAt := Some (now e + 2000) |} in
    broadcastState e
      (setAlarm (now e + 2000)
         (set_config (Some newConfig) (set_pathUsed (Some []) s))).

(** [x && now >= x] for an optional time stamp ([0] is falsy). *)
Definition deadlinePassed (e : Env) (cfg : GameConfig) : bool :=
  match phaseEndsAt cfg with
  | Some t => negb (t =? 0) && (now e >=? t)
  | None => false
  end.

Definition alarm (e : Env) (s : Storage) : Result :=
  match config s with
  | None => (s, [])
  | Some cfg =>
      match phase cfg with
      | round_start => alarm_round_start e s cfg
      | market_phase => alarm_market e s cfg
      | buy_phase => alarm_buy e s cfg
      | auction => alarm_auction e s cfg
      | path_phase => alarm_path e s cfg
      | round_end => alarm_round_end e s cfg
      | ended => if deadlinePassed e cfg then cleanupRoom s else (s, [])
      | lobby => (s, [])
      end
  end.

(* ------------------------------------------------------------------ *)
(** ** Room creation and message handlers *)

Definition initialize (rounds : Z) : Storage :=
  {| config := Some {| roundCount := rounds; phase := lobby; roundIndex := 0;
                       marketDice := None;
                       marketMinPrice := Some MARKET_MIN_PRICE;
                       phaseEndsAt := None |};
     players := []; grid := [];
     pendingActions := emptyPendingActions; submittedPaths := [];
     winnerId := None; pathUsed := None; alarmAt := None |}.

(** [config?.phase === ph] *)
Definition inPhase (ph : GamePhase) (s : Storage) : bool :=
  match config s with
  | Some cfg => phase_eqb (phase cfg) ph
  | None => false
  end.

(** The player a socket stands for: [attachment?.playerId], falsy when
    absent or empty. *)
Definition joinedAs (attached : option string) : option string :=
  match attached with
  | Some pid => if String.eqb pid "" then None else Some pid
  | None => None
  end.

Definition notJoined (e : Env) (ws : nat) (s : Storage) : Result :=
  andThen (sendTo ws (fun w => OError w "Not joined to this room.") s)
          (broadcastState e).

Definition maybeAdvanceTimedPhase (e : Env) (s : Storage) : Result :=
  match config s with
  | Some cfg =>
      let timed := match phase cfg with
                   | round_start | market_phase | buy_phase | auction
                   | path_phase | round_end => true
                   | _ => false
                   end in
      if timed && deadlinePassed e cfg then alarm e s else (s, [])
  | None => (s, [])
  end.

Definition handleJoin (e : Env) (ws : nat) (playerName : option string)
    (s : Storage) : Result :=
  if inPhase lobby s then
    let '(ps, g1) := ensurePlayerColors (players s) (rng e) in
    let name := orElse playerName ("Player " +++ zstr (len ps + 1)) in
    let '(c, _) := distinctPlayerColor (map color ps) g1 in
    let newPlayer :=
      {| playerId := uuid e; displayName := name; color := c; money := 0;
         dice := [] |} in
    andThen (set_players (ps ++ [newPlayer]) s,
             [OAttach ws (uuid e); OJoined ws (uuid e)])
            (broadcastState e)
  else (s, []).

Definition handleRejoin (e : Env) (ws : nat) (pid : string)
    (playerName : option string) (s : Storage) : Result :=
  if existsb (is_player pid) (players s) then
    andThen (s, [OAttach ws pid; OJoined ws pid]) (broadcastState e)
  else if inPhase lobby s then handleJoin e ws playerName s
  else andThen (sendTo ws (fun w => OError w "Rejoin failed for this room.") s)
               (broadcastState e).

(** [for (i...) { players[i].money = STARTING_MONEY;
                  players[i].dice = randomDiceArray(3) }] *)
Fixpoint dealStart (ps : list Player) (g : Rng) : list Player * Rng :=
  match ps with
  | [] => ([], g)
  | p :: rest =>
      let '(d, g1) := randomDiceArray 3 g in
      let '(rest', g2) := dealStart rest g1 in
      (with_dice d (with_money STARTING_MONEY p) :: rest', g2)
  end.

Definition handleStartGame (e : Env) (ws : nat) (s : Storage) : Result :=
  let '(ps, g1) := ensurePlayerColors (players s) (rng e) in
  match config s with
  | Some cfg =>
      if negb (phase_eqb (phase cfg) lobby) || (len ps <? 2)
      then sendTo ws (fun w => OError w "Need at least 2 players") s
      else
        let minCells := len ps * roundCount cfg in
        let blockedCount := Z.min 15 (Z.max 5 (minCells / 10)) in
        let '(grid', g2) := generateGrid minCells blockedCount g1 in
        let '(md, g3) := randomDiceArray (Z.to_nat (len ps - 1)) g2 in
        let '(ps', _) := dealStart ps g3 in
        let newConfig :=
          {| roundCount := roundCount cfg; phase := round_start; roundIndex := 0;
             marketDice := Some md; marketMinPrice := Some MARKET_MIN_PRICE;
             phaseEndsAt := Some (now e + 2000) |} in
        broadcastState e
          (setAlarm (now e + 2000)
             (set_submittedPaths []
                (set_pending emptyPendingActions
                   (set_grid grid' (set_players ps' (set_config (Some newConfig) s))))))
  | None => sendTo ws (fun w => OError w "Need at least 2 players") s
  end.

(** [Object.keys(a).length + Object.keys(b).length >= players.length] with
    at least one player. *)
Definition everyoneIn (count : Z) (s : Storage) : bool :=
  (0 <? len (players s)) && (len (players s) <=? count).

Definition handleMarketBid (e : Env) (ws : nat) (attached : option string)
    (die amt : Z) (s : Storage) : Result :=
  match joinedAs attached with
  | None => notJoined e ws s
  | Some pid =>
      match config s with
      | Some cfg =>
          if negb (phase_eqb (phase cfg) market_phase) then broadcastState e s
          else if (die <? 0) || (die >=? len (orElse (marketDice cfg) [])) then (s, [])
          else if amt <? orElse (marketMinPrice cfg) MARKET_MIN_PRICE then (s, [])
          else
            let pending := pendingActions s in
            let pending' :=
              set_marketSkip (rdel pid (marketSkip pending))
                (set_market (rset pid {| dieIndex := die; amount := amt |}
                                  (market pending)) pending) in
            let s1 := set_pending pending' s in
            if everyoneIn (len (market pending') + len (marketSkip pending')) s1
            then alarm e s1 else broadcastState e s1
      | None => broadcastState e s
      end
  end.

Definition handleMarketSkip (e : Env) (ws : nat) (attached : option string)
    (s : Storage) : Result :=
  match joinedAs attached with
  | None => notJoined e ws s
  | Some pid =>
      if negb (inPhase market_phase s) then broadcastState e s
      else
        let pending := pendingActions s in
        let pending' :=
          set_marketSkip (rset pid tt (marketSkip pending))
            (set_market (rdel pid (market pending)) pending) in
        let s1 := set_pending pending' s in
        if everyoneIn (len (market pending') + len (marketSkip pending')) s1
        then alarm e s1 else broadcastState e s1
  end.

Definition handleMarketRecycle (e : Env) (ws : nat) (attached : option string)
    (die : Z) (s : Storage) : Result :=
  match joinedAs attached with
  | None => (s, [])
  | Some pid =>
      if negb (inPhase market_phase s) then (s, [])
      else match find_player pid (players s) with
      | None => (s, [])
      | Some player =>
          if (die <? 0) || (die >=? len (dice player))
          then sendTo ws (fun w => OError w "Invalid die selected for recycle.") s
          else
            broadcastState e
              (set_players
                 (update_player pid
                    (fun p => with_money (money p + 3) (with_dice (splice1 die (dice p)) p))
                    (players s)) s)
      end
  end.

Definition sameCell (cell_id : string) (a : BuyAct) : bool :=
  String.eqb (cellId a) cell_id.

(** [new Map(grid.map((c) => [c.id, c]))] *)
Definition cellById (g : list Cell) : Rec Cell :=
  fold_left (fun m c => rset (id c) c m) g [].

(** The re-validation loop of [handleBuyCell] over the candidate queue. *)
Definition queueStep (byId : Rec Cell) (acc : list (Z * Z) * list BuyAct)
    (action : BuyAct) : list (Z * Z) * list BuyAct :=
  let '(dicePool, nextQueued) := acc in
  match rget (cellId action) byId with
  | None => acc
  | Some target =>
      if blocked target then acc
      else
        let left := orElse (dget Z.eqb (diceValue target) dicePool) 0 in
        if left <=? 0 then acc
        else (dset Z.eqb (diceValue target) (left - 1) dicePool,
              nextQueued ++ [action])
  end.

Definition handleBuyCell (e : Env) (ws : nat) (attached : option string)
    (cell_id : string) (ro : Role) (s : Storage) : Result :=
  match joinedAs attached with
  | None => notJoined e ws s
  | Some pid =>
      if negb (inPhase buy_phase s) then broadcastState e s
      else
        match find_cell cell_id (grid s), find_player pid (players s) with
        | Some cell, Some player =>
            if blocked cell || negb (holdsDie (diceValue cell) player)
            then sendTo ws (fun w => OError w "Invalid buy") s
            else
              let pending := pendingActions s in
              let current := orElse (rget pid (buy pending)) [] in
              let withoutCell := filter (fun a => negb (sameCell cell_id a)) current in
              let candidate := withoutCell ++ [{| cellId := cell_id; role := ro |}] in
              let nextQueued :=
                snd (fold_left (queueStep (cellById (grid s))) candidate
                               (countDice (dice player), [])) in
              if negb (existsb (sameCell cell_id) nextQueued)
              then sendTo ws
                     (fun w => OError w ("You can only queue as many "
                                 +++ zstr (diceValue cell) +++ "s as dice you own.")) s
              else
                broadcastState e
                  (set_pending
                     (set_buyDone (rdel pid (buyDone pending))
                        (set_buy (rset pid nextQueued (buy pending)) pending)) s)
        | _, _ => sendTo ws (fun w => OError w "Invalid buy") s
        end
  end.

Definition handleBuyCellCancel (e : Env) (ws : nat) (attached : option string)
    (cell_id : string) (s : Storage) : Result :=
  match joinedAs attached with
  | None => notJoined e ws s
  | Some pid =>
      if negb (inPhase buy_phase s) then broadcastState e s
      else
        let pending := pendingActions s in
        let current := orElse (rget pid (buy pending)) [] in
        let rest := filter (fun a => negb (sameCell cell_id a)) current in
        let buy' := match rest with
                    | [] => rdel pid (rset pid rest (buy pending))
                    | _ => rset pid rest (buy pending)
                    end in
        broadcastState e
          (set_pending (set_buyDone (rdel pid (buyDone pending))
                          (set_buy buy' pending)) s)
  end.

Definition handleBuyDone (e : Env) (ws : nat) (attached : option string)
    (s : Storage) : Result :=
  match joinedAs attached with
  | None => notJoined e ws s
  | Some pid =>
      if negb (inPhase buy_phase s) then broadcastState e s
      else
        let pending := pendingActions s in
        let pending' := set_buyDone (rset pid tt (buyDone pending)) pending in
        let s1 := set_pending pending' s in
        if everyoneIn (len (buyDone pending')) s1
        then alarm e s1 else broadcastState e s1
  end.

Definition handleAuctionBid (e : Env) (ws : nat) (attached : option string)
    (conflict_id : string) (amt : Z) (s : Storage) : Result :=
  match joinedAs attached with
  | None => (s, [])
  | Some pid =>
      if negb (inPhase auction s) then (s, [])
      else
        let pending := pendingActions s in
        match find (fun c => String.eqb (conflictId c) conflict_id
                              && existsb (String.eqb pid) (playerIds c))
                   (conflicts pending) with
        | None => (s, [])
        | Some _ =>
            let mine := orElse (rget conflict_id (auctionBids pending)) [] in
            broadcastState e
              (set_pending
                 (set_auctionBids
                    (rset conflict_id (rset pid (Z.max 0 amt) mine)
                          (auctionBids pending)) pending) s)
        end
  end.

(** *** Paths *)

(** [grid.find((c) => c.q === hex.q && c.r === hex.r)] *)
Definition cellAt (g : list Cell) (hex : Axial) : option Cell :=
  find (fun c => (q c =? aq hex) && (r c =? ar hex)) g.

(** [cell?.owners?.some((o) => o.playerId !== playerId)] *)
Definition enemyOwned (pid : string) (c : Cell) : bool :=
  existsb (fun o => negb (String.eqb (o_playerId o) pid)) (owners c).

Definition enemyAt (g : list Cell) (pid : string) (hex : Axial) : bool :=
  match cellAt g hex with
  | Some c => enemyOwned pid c
  | None => false
  end.

Definition computePathRevenue (g : list Cell) (pid : string)
    (producerCell sellerCell : Cell) (p : list Axial) : Z :=
  let pathLength := len p - 1 in
  (* for (let i = 1; i < path.length - 1; i++) *)
  let enemyTerritory :=
    fold_left
      (fun n i =>
         match nth_error p i with
         | Some hex => if enemyAt g pid hex then n + 1 else n
         | None => n
         end)
      (seq 1 (List.length p - 2)) 0 in
  let effectiveSeller :=
    Z.max 0 (Z.min (seller sellerCell - pathLength - 2 * enemyTerritory) 1) in
  producer producerCell * effectiveSeller.

(** The contiguity loop of [handlePath]; the result is the error it stops
    with, if any. *)
Fixpoint checkPath (blockedSet : list string) (p : list Axial) : option string :=
  match p with
  | a :: ((b :: _) as rest) =>
      if negb (existsb (fun n => (aq n =? aq b) && (ar n =? ar b)) (axialNeighbors a))
      then Some "Path not contiguous"
      else if existsb (String.eqb (axialKey b)) blockedSet
      then Some "Path crosses blocked cell"
      else checkPath blockedSet rest
  | _ => None
  end.

Definition cellAxial (c : Cell) : Axial := {| aq := q c; ar := r c |}.

Definition handlePath (e : Env) (ws : nat) (attached : option string)
    (producer_id seller_id : string) (p : list Axial) (s : Storage) : Result :=
  match joinedAs attached with
  | None => (s, [])
  | Some pid =>
      if negb (inPhase path_phase s) then (s, [])
      else
        match find_cell producer_id (grid s), find_cell seller_id (grid s) with
        | Some producerCell, Some sellerCell =>
            if negb (existsb (hasRole pid Producer) (owners producerCell)) then (s, [])
            else if negb (existsb (hasRole pid Seller) (owners sellerCell)) then (s, [])
            else
              match p, last p {| aq := 0; ar := 0 |} with
              | first :: _ :: _, final =>
                  if negb (axialEquals first (cellAxial producerCell))
                     || negb (axialEquals final (cellAxial sellerCell))
                  then sendTo ws (fun w => OError w "Invalid path endpoints") s
                  else
                    let blockedSet :=
                      map (fun c => axialKey (cellAxial c)) (filter blocked (grid s)) in
                    match checkPath blockedSet p with
                    | Some msg => sendTo ws (fun w => OError w msg) s
                    | None =>
                        let rev := computePathRevenue (grid s) pid producerCell
                                                       sellerCell p in
                        let pending := pendingActions s in
                        let s1 :=
                          set_submittedPaths
                            (rset pid {| producerId := producer_id;
                                         sellerId := seller_id; path := p;
                                         revenue := rev |} (submittedPaths s))
                            (set_pending
                               (set_pathReady (rdel pid (pathReady pending)) pending) s) in
                        andThen (s1, [OPathRevenue ws rev]) (broadcastState e)
                    end
              | _, _ => sendTo ws (fun w => OError w "Invalid path endpoints") s
              end
        | _, _ => (s, [])
        end
  end.

Definition handlePathDone (e : Env) (ws : nat) (attached : option string)
    (s : Storage) : Result :=
  match joinedAs attached with
  | None => notJoined e ws s
  | Some pid =>
      if negb (inPhase path_phase s) then broadcastState e s
      else
        let pending := pendingActions s in
        let pending' := set_pathReady (rset pid tt (pathReady pending)) pending in
        let s1 := set_pending pending' s in
        if everyoneIn (len (pathReady pending')) s1
        then alarm e s1 else broadcastState e s1
  end.

(* ------------------------------------------------------------------ *)
(** ** Dispatch and reachable states *)

(** The messages of the protocol, parsed.  Every field has the type the
    client sends it with (a number, a string, one of the two roles); a JSON
    message whose fields have other types is not a value of [Msg], so that
    [reachable] below ranges over the rooms that messages of these types
    lead to. *)
Inductive Msg :=
| Tick
| Join (playerName : option string)
| Rejoin (pid : string) (playerName : option string)
| StartGame
| BuyCell (cell_id : string) (ro : Role)
| BuyCellCancel (cell_id : string)
| BuyDone
| AuctionBid (conflict_id : string) (amt : Z)
| PathMsg (producer_id seller_id : string) (p : list Axial)
| PathDone
| MarketBid (die amt : Z)
| MarketSkip
| MarketRecycle (die : Z)
| Other.

(** [webSocketMessage] for a parsed message from socket [ws], whose
    attachment currently names [attached]. *)
Definition webSocketMessage (e : Env) (ws : nat) (attached : option string)
    (m : Msg) (s : Storage) : Result :=
  match m with
  | Tick => andThen (maybeAdvanceTimedPhase e s) (broadcastState e)
  | Join name => handleJoin e ws name s
  | Rejoin pid name => handleRejoin e ws pid name s
  | StartGame => handleStartGame e ws s
  | BuyCell c ro => handleBuyCell e ws attached c ro s
  | BuyCellCancel c => handleBuyCellCancel e ws attached c s
  | BuyDone => handleBuyDone e ws attached s
  | AuctionBid c a => handleAuctionBid e ws attached c a s
  | PathMsg pr se p => handlePath e ws attached pr se p s
  | PathDone => handlePathDone e ws attached s
  | MarketBid d a => handleMarketBid e ws attached d a s
  | MarketSkip => handleMarketSkip e ws attached s
  | MarketRecycle d => handleMarketRecycle e ws attached d s
  | Other => broadcastState e s
  end.

Inductive Event :=
| Message (ws : nat) (attached : option string) (m : Msg)
| AlarmFires
| SocketCloses.

Definition step (e : Env) (s : Storage) (ev : Event) : Result :=
  match ev with
  | Message ws attached m => webSocketMessage e ws attached m s
  | AlarmFires => alarm e s
  | SocketCloses => broadcastState e s
  end.

(** The states a room can be in: freshly created, or one event later than
    such a state. *)
Inductive reachable : Storage -> Prop :=
| reach_init : forall rounds, reachable (initialize rounds)
| reach_step : forall e s ev, reachable s -> reachable (fst (step e s ev)).

(** Running a list of events, each with its own environment. *)
Definition run (evs : list (Env * Event)) (s : Storage) : Storage :=
  fold_left (fun st x => fst (step (fst x) st (snd x))) evs s.

(* ------------------------------------------------------------------ *)
(** * Specification-side definitions *)

(** The hexes of a path strictly between its two endpoints. *)
Definition interior (p : list Axial) : list Axial := removelast (tl p).

(** Cell [c] lies on the hex. *)
Definition onHex (hex : Axial) (c : Cell) : bool :=
  (q c =? aq hex) && (r c =? ar hex).

(** Somebody other than [pid] is among the owners of [c]. *)
Definition hasStranger (pid : string) (c : Cell) : bool :=
  existsb (fun o => negb (String.eqb (o_playerId o) pid)) (owners c).

(** The hex carries a cell of the grid with an owner other than [pid]. *)
Definition enemyHex (g : list Cell) (pid : string) (hex : Axial) : bool :=
  existsb (fun c => onHex hex c && hasStranger pid c) g.

(** The number of interior hexes of the path whose cell has at least one
    owner other than the submitter [pid]. *)
Definition enemyTerritory (g : list Cell) (pid : string) (p : list Axial) : Z :=
  len (filter (enemyHex g pid) (interior p)).

(** The keys of the blocked cells, as [handlePath] collects them. *)
Definition blockedKeys (g : list Cell) : list string :=
  map (fun c => axialKey (cellAxial c)) (filter blocked g).

(** A free cell of the row [r = 0], of producer and seller value 9. *)
Definition rowCell (x : Z) (o : list CellOwner) : Cell :=
  {| id := "cell-" +++ zstr x +++ "-0"; q := x; r := 0; diceValue := 1;
     producer := 9; seller := 9; blocked := false; owners := o |}.

Definition plainPlayer (pid : string) (m : Z) (d : list Z) : Player :=
  {| playerId := pid; displayName := pid; color := "#22c55e"; money := m;
     dice := d |}.

Definition configAt (ph : GamePhase) (md : list Z) : GameConfig :=
  {| roundCount := 3; phase := ph; roundIndex := 0; marketDice := Some md;
     marketMinPrice := Some MARKET_MIN_PRICE; phaseEndsAt := Some 1000 |}.

Definition roomAt (ph : GamePhase) (md : list Z) (ps : list Player)
    (g : list Cell) (pa : PendingActions) : Storage :=
  {| config := Some (configAt ph md); players := ps; grid := g;
     pendingActions := pa; submittedPaths := []; winnerId := None;
     pathUsed := None; alarmAt := None |}.

Definition quietEnv : Env :=
  {| now := 5000; rng := fun n => Z.of_nat n; paint := fun _ => 0; uuid := "cafe0001" |}.

(** ** Invariants of reachable rooms *)

(** A player record as every handler leaves it: coloured and solvent. *)
Definition okPlayer (p : Player) : Prop := noColor p = false /\ 0 <= money p.

(** Blocked cells have no owners. *)
Definition blockedUnowned (c : Cell) : Prop := blocked c = true -> owners c = [].

(** What the rest of the grid must keep fixed: identities and blocked
    flags, position by position. *)
Definition shape (g : list Cell) : list (string * bool) :=
  map (fun c => (id c, blocked c)) g.

(** The cell a cell id resolves to, if any, is not blocked. *)
Definition openTarget (g : list Cell) (cid : string) : Prop :=
  forall c, find_cell cid g = Some c -> blocked c = false.

Definition buysOpen (g : list Cell) (b : Rec (list BuyAct)) : Prop :=
  Forall (fun entry => Forall (fun a => openTarget g (cellId a)) (snd entry)) b.

Definition conflictOpen (g : list Cell) (c : Conflict) : Prop :=
  match c with
  | CellConflict _ cell _ => openTarget g cell
  | MarketConflict _ _ _ => True
  end.

Record Inv (s : Storage) : Prop := {
  inv_players : Forall okPlayer (players s);
  inv_grid : Forall blockedUnowned (grid s);
  inv_buys : buysOpen (grid s) (buy (pendingActions s));
  inv_conflicts : Forall (conflictOpen (grid s)) (conflicts (pendingActions s)) }.

(** What a resolution loop over the pair (players, grid) keeps, relative to
    the grid [g0] it started from. *)
Definition keeps (g0 : list Cell) (acc : list Player * list Cell) : Prop :=
  Forall okPlayer (fst acc) /\ Forall blockedUnowned (snd acc) /\
  shape g0 = shape (snd acc).

(** ** A concrete game *)

(** An environment with a fixed arithmetic random stream. *)
Definition demoEnv (seed : nat) (newId : string) : Env :=
  {| now := 1000 * Z.of_nat seed;
     rng := fun n => Z.of_nat (n * 7 + seed * 13 + n * n);
     paint := fun _ => 0; uuid := newId |}.

Definition ann : option string := Some "aaaaaaaa".
Definition bob : option string := Some "bbbbbbbb".

Definition hexAt (x y : Z) : Axial := {| aq := x; ar := y |}.

(** Two players join a three-round room and start it. *)
Definition opening : list (Env * Event) :=
  [ (demoEnv 1 "aaaaaaaa", Message 1 None (Join (Some "Ann")));
    (demoEnv 2 "bbbbbbbb", Message 2 None (Join None));
    (demoEnv 3 "", Message 1 ann StartGame) ].

(** Round 0: nobody bids; Ann buys a producer and a seller cell with her
    two dice of value 4 and submits the two-hex path between them. *)
Definition roundZero : list (Env * Event) :=
  [ (demoEnv 4 "", AlarmFires);
    (demoEnv 5 "", AlarmFires);
    (demoEnv 6 "", Message 1 ann (BuyCell "cell-0--1" Producer));
    (demoEnv 7 "", Message 1 ann (BuyCell "cell-0--2" Seller));
    (demoEnv 8 "", AlarmFires);
    (demoEnv 9 "", Message 1 ann
       (PathMsg "cell-0--1" "cell-0--2" [hexAt 0 (-1); hexAt 0 (-2)]));
    (demoEnv 10 "", AlarmFires);
    (demoEnv 11 "", AlarmFires) ].

(** Round 1 and the end of it: only the timer fires; no path is submitted. *)
Definition idleRound : list (Env * Event) :=
  [ (demoEnv 13 "", AlarmFires); (demoEnv 14 "", AlarmFires);
    (demoEnv 15 "", AlarmFires); (demoEnv 16 "", AlarmFires) ].

Definition startedRoom : Storage := run opening (initialize 3).

(** At the round_start of round 1, before its resolution. *)
Definition roundOneStart : Storage := run roundZero startedRoom.

(** After that resolution (market phase of round 1). *)
Definition roundOneMarket : Storage :=
  fst (step (demoEnv 12 "") roundOneStart AlarmFires).

(** At the round_start of round 2, before its resolution. *)
Definition roundTwoStart : Storage := run idleRound roundOneMarket.

Definition roundTwoMarket : Storage :=
  fst (step (demoEnv 17 "") roundTwoStart AlarmFires).

(** The phase a player action is addressed to; [tick], [rejoin] and
    unknown messages are not tied to a phase. *)
Definition addressedTo (m : Msg) : option GamePhase :=
  match m with
  | Join _ | StartGame => Some lobby
  | MarketBid _ _ | MarketSkip | MarketRecycle _ => Some market_phase
  | BuyCell _ _ | BuyCellCancel _ | BuyDone => Some buy_phase
  | AuctionBid _ _ => Some auction
  | PathMsg _ _ _ | PathDone => Some path_phase
  | Tick | Rejoin _ _ | Other => None
  end.

(** What socket [ws] and the room get back for an action that arrives in
    another phase than the one it is addressed to: nothing at all, the
    state broadcast, or an error to [ws]. *)
Definition wrongPhaseAnswer (ws : nat) (attached : option string) (m : Msg)
    : list Out :=
  match m with
  | StartGame => [OError ws "Need at least 2 players"]
  | Join _ | MarketRecycle _ | AuctionBid _ _ | PathMsg _ _ _ => []
  | MarketBid _ _ | MarketSkip | BuyCell _ _ | BuyCellCancel _ | BuyDone
  | PathDone =>
      match joinedAs attached with
      | Some _ => [OState]
      | None => [OError ws "Not joined to this room."; OState]
      end
  | Tick | Rejoin _ _ | Other => []
  end.

(** The revenue a round_start pays to a player id out of the stored
    submissions. *)
Definition storedRevenue (sps : Rec SubmittedPath) (pid : string) : Z :=
  match rget pid sps with
  | Some sp => Z.max 0 (revenue sp)
  | None => 0
  end.

(** The sum of what the entries filed under [pid] pay. *)
Fixpoint totalRevenue (sps : Rec SubmittedPath) (pid : string) : Z :=
  match sps with
  | [] => 0
  | (k, sp) :: t =>
      (if String.eqb k pid then Z.max 0 (revenue sp) else 0) + totalRevenue t pid
  end.

(** Two player records that differ at most in colour. *)
Definition sameButColour (p p' : Player) : Prop :=
  playerId p' = playerId p /\ displayName p' = displayName p /\
  money p' = money p /\ dice p' = dice p.

(** A player record with [amt] more money. *)
Definition credit (amt : Z) (p : Player) : Player := with_money (money p + amt) p.

(** ** Buy-phase dice accounting *)

(** A claim of player [pid] on a cell whose die value is [v]. *)
Definition claimOf (g : list Cell) (pid : string) (v : Z) (cl : Claim) : bool :=
  String.eqb (c_playerId cl) pid &&
  match find_cell (c_cellId cl) g with
  | Some c => diceValue c =? v
  | None => false
  end.

(** The claims of [pid] for die value [v], in the order of the list. *)
Definition claimsFor (g : list Cell) (pid : string) (v : Z) (l : list Claim)
    : list Claim :=
  filter (claimOf g pid v) l.

(** The dice of value [v] that [pid] has left in the pool. *)
Definition poolLeft (pool : DicePool) (pid : string) (v : Z) : Z :=
  match rget pid pool with
  | Some counts => orElse (dget Z.eqb v counts) 0
  | None => 0
  end.

(** Three free cells that all need a 3, and a fourth that needs a 5. *)
Definition threeCell (name : string) (x : Z) (v : Z) : Cell :=
  {| id := name; q := x; r := 0; diceValue := v; producer := 5; seller := 5;
     blocked := false; owners := [] |}.

Definition threesGrid : list Cell :=
  [threeCell "a" 0 3; threeCell "b" 1 3; threeCell "c" 2 3; threeCell "d" 3 5].

Definition ownerRec (pid : string) (ro : Role) : CellOwner :=
  {| o_playerId := pid; o_role := ro; o_roundsOwned := 0 |}.

(** The list [toApply] that buy-phase resolution builds at time [t]: the
    valid single-claimant claims, in the order of the map [byCell]. *)
Definition buyClaims (t : Z) (s : Storage) : list Claim :=
  let '(roles, byCell) := indexBuys (buy (pendingActions s)) in
  snd (fold_left (classifyCell t (grid s) (players s) roles) byCell ([], [])).

(** ** Auction outcomes *)

(** What a winning contender's record becomes: the bid is paid and the
    first die of value [v] is removed. *)
Definition settle (best v : Z) (p : Player) : Player :=
  spendDie v (with_money (money p - best) p).

(** The owner record a tied top bidder [pid] obtains in a cell conflict,
    if they are a solvent player who declared a role for the cell and
    still hold a die of value [v]. *)
Definition grant (pending : PendingActions) (cell_id : string) (best v : Z)
    (ps : list Player) (pid : string) : option CellOwner :=
  match find_player pid ps, declaredRole pending pid cell_id with
  | Some player, Some ro =>
      if (best <=? money player) && holdsDie v player
      then Some (ownerRec pid ro) else None
  | _, _ => None
  end.

Definition grants (pending : PendingActions) (cell_id : string) (best v : Z)
    (ps : list Player) (ws : list string) : list CellOwner :=
  flat_map (fun pid => match grant pending cell_id best v ps pid with
                       | Some o => [o]
                       | None => []
                       end) ws.

(** The contenders of a conflict whose bid equals [best]. *)
Definition topContenders (bids : Rec Z) (best : Z) (pids : list string)
    : list string :=
  filter (fun pid => bidOf bids pid =? best) pids.

(** A cell auction: "p1" and "p2" tie at 4 for cell "a", "p3" bids 2. *)
Definition cellAuctionRoom : Storage :=
  roomAt auction []
    [plainPlayer "p1" 10 [3]; plainPlayer "p2" 10 [5; 3]; plainPlayer "p3" 10 [3]]
    threesGrid
    (set_auctionBids [("conflict-a-0", [("p1", 4); ("p2", 4); ("p3", 2)])]
       (set_conflicts [CellConflict "conflict-a-0" "a" ["p1"; "p2"; "p3"]]
          (set_buy [("p1", [{| cellId := "a"; role := Producer |}]);
                    ("p2", [{| cellId := "a"; role := Seller |}]);
                    ("p3", [{| cellId := "a"; role := Producer |}])]
                   emptyPendingActions))).

(** A market auction over die 0 (value 4): "p1" and "p2" tied in the market
    phase, in that order; in the auction "p2" was first to bid 5, then
    "p1" bid 5 as well. *)
Definition marketAuctionRoom : Storage :=
  roomAt auction [4; 2]
    [plainPlayer "p1" 10 [1]; plainPlayer "p2" 10 [2]]
    threesGrid
    (set_auctionBids [("market-0-0", [("p2", 5); ("p1", 5)])]
       (set_conflicts [MarketConflict "market-0-0" 0 ["p1"; "p2"]]
          (set_market [("p1", {| dieIndex := 0; amount := 3 |});
                       ("p2", {| dieIndex := 0; amount := 3 |})]
                      emptyPendingActions))).

(** ** The layout of the board *)

(** What no event changes about a cell once the board is generated. *)
Definition site (c : Cell) : string * Axial * Z * bool :=
  (id c, cellAxial c, diceValue c, blocked c).

(** The identifier [generateGrid] gives the cell at the coordinates of
    [c]. *)
Definition cellName (c : Cell) : string :=
  "cell-" +++ zstr (q c) +++ "-" +++ zstr (r c).

(** A board as [generateGrid] lays it out: no two cells share coordinates
    or an identifier, and every cell is named after its coordinates. *)
Record GridOk (g : list Cell) : Prop := {
  grid_coords : NoDup (map cellAxial g);
  grid_ids : NoDup (map id g);
  grid_names : Forall (fun c => id c = cellName c) g }.

(** The example game, round 0: Ann buys the producer cell (0,-1) and the
    seller cell (2,-1) with her two dice of value 4, Bob buys the cell
    (1,-1) between them with his 6; the timer then opens the path phase. *)
Definition enemyRoom : Storage :=
  run [ (demoEnv 4 "", AlarmFires); (demoEnv 5 "", AlarmFires);
        (demoEnv 6 "", Message 1 ann (BuyCell "cell-0--1" Producer));
        (demoEnv 7 "", Message 1 ann (BuyCell "cell-2--1" Seller));
        (demoEnv 8 "", Message 2 bob (BuyCell "cell-1--1" Producer));
        (demoEnv 9 "", AlarmFires) ] startedRoom.

(** Ann's path from (0,-1) to (2,-1) across Bob's cell. *)
Definition enemyPath : list Axial := [hexAt 0 (-1); hexAt 1 (-1); hexAt 2 (-1)].

(** ** The auction loop inside [alarm] *)

(** The players, the grid and the market dice as the loop over the
    conflicts has them once it has resolved the conflicts [resolved],
    starting from what the room stores. *)
Definition auctionAfter (s : Storage) (cfg : GameConfig)
    (resolved : list Conflict) : AuctionAcc :=
  fold_left (auctionStep (pendingActions s)) resolved
    (players s, grid s, orElse (marketDice cfg) []).

(** What entering the path phase may do to a player record: nothing, or,
    when the phase is skipped at once, a fresh hand of three dice for a
    player who has none (the colour is left aside). *)
Definition sameOrRehanded (p p' : Player) : Prop :=
  playerId p' = playerId p /\ money p' = money p /\
  (dice p' = dice p \/
   (dice p = [] /\ len (dice p') = 3 /\ Forall (fun v => 1 <= v <= 6) (dice p'))).

(** The example game, round 0, market phase: Ann and Bob both bid 3 on the
    only die (a 5), so the phase resolves at once into an auction over the
    conflict "market-0-6000", whose contenders are Ann and Bob in that
    order. *)
Definition tieAuctionRoom : Storage :=
  run [ (demoEnv 4 "", AlarmFires);
        (demoEnv 5 "", Message 1 ann (MarketBid 0 3));
        (demoEnv 6 "", Message 2 bob (MarketBid 0 3)) ] startedRoom.

(** Bob is the first to bid 5 in that auction ... *)
Definition bobFirstRoom : Storage :=
  fst (step (demoEnv 7 "") tieAuctionRoom
         (Message 2 bob (AuctionBid "market-0-6000" 5))).

(** ... and Ann bids 5 after him. *)
Definition bothBidRoom : Storage :=
  fst (step (demoEnv 8 "") bobFirstRoom
         (Message 1 ann (AuctionBid "market-0-6000" 5))).

(** The example game, round 0, buy phase: Ann and Bob both queue the cell
    (0,-1), which needs a 4, Ann as producer and Bob as seller; the timer
    turns that into an auction, where both bid 4. *)
Definition cellBidRoom : Storage :=
  run [ (demoEnv 4 "", AlarmFires); (demoEnv 5 "", AlarmFires);
        (demoEnv 6 "", Message 1 ann (BuyCell "cell-0--1" Producer));
        (demoEnv 7 "", Message 2 bob (BuyCell "cell-0--1" Seller));
        (demoEnv 8 "", AlarmFires);
        (demoEnv 9 "", Message 1 ann (AuctionBid "conflict-cell-0--1-8000" 4));
        (demoEnv 10 "", Message 2 bob (AuctionBid "conflict-cell-0--1-8000" 4)) ]
      startedRoom.

(** ** Market resolution *)

Definition toBid (e : string * MarketAct) : Bid := (fst e, amount (snd e)).

(** A buffered bid counts for die [i] when it reaches the minimum price
    and names that die. *)
Definition bidsFor (minPrice i : Z) (e : string * MarketAct) : bool :=
  (minPrice <=? amount (snd e)) && (dieIndex (snd e) =? i).

(** The bids at or above the minimum price on die [i], in the order in
    which they entered the buffer. *)
Definition bidsOn (minPrice i : Z) (mk : Rec MarketAct) : list Bid :=
  map toBid (filter (bidsFor minPrice i) mk).

(** What the map [bidsByDieIndex] must hold once the prefix [pre] of the
    buffer has been read. *)
Definition grouped (minPrice : Z) (pre : Rec MarketAct) (m : list (Z * list Bid))
    : Prop :=
  NoDup (dkeys m) /\
  forall i, dget Z.eqb i m = match bidsOn minPrice i pre with
                             | [] => None
                             | l => Some l
                             end.

(** The state of the resolution loop after all groups. *)
Definition marketOutcome (e : Env) (s : Storage) (cfg : GameConfig) : MarketAcc :=
  fold_left (marketStep (now e))
    (bidsByDieIndex (orElse (marketMinPrice cfg) MARKET_MIN_PRICE)
                    (market (pendingActions s)))
    (players s, orElse (marketDice cfg) [], []).

(** The id given to the conflict over die [i] at time [t]. *)
Definition marketConflictId (i t : Z) : string :=
  "market-" +++ zstr i +++ "-" +++ zstr t.

(** A later accumulator differs from an earlier one neither at slot [i] of
    the dice nor in the records of the players [W]; conflicts are only
    added. *)
Definition untouched (i : Z) (W : list string) (acc acc' : MarketAcc) : Prop :=
  idx (snd (fst acc')) i = idx (snd (fst acc)) i /\
  len (snd (fst acc')) = len (snd (fst acc)) /\
  (forall w, In w W ->
     find_player w (fst (fst acc')) = find_player w (fst (fst acc))) /\
  incl (snd acc) (snd acc').

(** In the market phase of round 0 Ann alone bids 20 on die 0, twice the
    money she has. *)
Definition overbidRoom : Storage :=
  run [ (demoEnv 4 "", AlarmFires);
        (demoEnv 5 "", Message 1 ann (MarketBid 0 20)) ] startedRoom.

(** In the same phase Ann alone bids 6. *)
Definition soleBidRoom : Storage :=
  run [ (demoEnv 4 "", AlarmFires);
        (demoEnv 5 "", Message 1 ann (MarketBid 0 6)) ] startedRoom.

(** Three bids on die 0: "p1" and "p2" tie at 5, "p3" bids 3. *)
Definition tiedMarketRoom : Storage :=
  roomAt market_phase [4; 2]
    [plainPlayer "p1" 10 []; plainPlayer "p2" 10 []; plainPlayer "p3" 10 []]
    threesGrid
    (set_market [("p1", {| dieIndex := 0; amount := 5 |});
                 ("p2", {| dieIndex := 0; amount := 5 |});
                 ("p3", {| dieIndex := 0; amount := 3 |})]
                emptyPendingActions).

(** The conflict over die [j] as the market resolution creates it when the
    highest bid on [j] is not held by a single player. *)
Definition tieConflict (t minPrice : Z) (mk : Rec MarketAct) (j : Z) : Conflict :=
  MarketConflict (marketConflictId j t) j
    (topBidders (bestOf (-1) (map snd (bidsOn minPrice j mk)))
                (bidsOn minPrice j mk)).

(* ------------------------------------------------------------------ *)
(** ** Cube coordinates and distance (worker/hex.ts) *)

Record Cube := { cq : Z; cr : Z; cs : Z }.

Definition axialToCube (a : Axial) : Cube :=
  {| cq := aq a; cr := ar a; cs := - aq a - ar a |}.

Definition cubeToAxial (c : Cube) : Axial := {| aq := cq c; ar := cr c |}.

(** The dividend of [axialDistance]: the three absolute differences of the
    cube coordinates. *)
Definition cubeGap (a b : Axial) : Z :=
  let ca := axialToCube a in
  let cb := axialToCube b in
  Z.abs (cq ca - cq cb) + Z.abs (cr ca - cr cb) + Z.abs (cs ca - cs cb).

(** [(|dq| + |dr| + |ds|) / 2]; the quotient is taken in the integers, and
    [cubeGap] is shown to be even, so nothing is lost. *)
Definition axialDistance (a b : Axial) : Z := cubeGap a b / 2.

Definition origin : Axial := {| aq := 0; ar := 0 |}.

(** Whether character [c] occurs in [s]. *)
Fixpoint hasChar (c : ascii) (s : string) : bool :=
  match s with
  | EmptyString => false
  | String c' t => Ascii.eqb c' c || hasChar c t
  end.

(* ------------------------------------------------------------------ *)
(** ** The phase cycle *)

(** The changes of the stored configuration that one event may cause:
    none, one of the arrows of the phase cycle (with what happens to the
    round counter on it), or the removal of the configuration when an
    ended room is cleaned up. *)
Definition configStep (c c' : option GameConfig) : Prop :=
  match c, c' with
  | None, None => True
  | None, Some _ => False
  | Some a, None => phase a = ended
  | Some a, Some b =>
      a = b \/
      (roundCount b = roundCount a /\
       match phase a, phase b with
       | lobby, round_start => roundIndex b = 0
       | round_end, round_start =>
           roundIndex b = roundIndex a + 1 /\ roundIndex b < roundCount a
       | round_end, ended =>
           roundIndex b = roundIndex a + 1 /\ roundCount a <= roundIndex b
       | round_start, market_phase
       | market_phase, auction | market_phase, buy_phase
       | buy_phase, auction | buy_phase, path_phase | buy_phase, round_end
       | auction, path_phase | auction, round_end
       | path_phase, round_end => roundIndex b = roundIndex a
       | _, _ => False
       end)
  end.

(** The number of rounds a room plays: [roundCount], but at least one. *)
Definition roundsPlayed (cfg : GameConfig) : Z := Z.max 1 (roundCount cfg).

(** The round counter of a configuration is in step with its phase. *)
Definition roundInStep (cfg : GameConfig) : Prop :=
  match phase cfg with
  | ended => roundIndex cfg = roundsPlayed cfg
  | _ => 0 <= roundIndex cfg < roundsPlayed cfg
  end.

(** The last round of the example game, played by the timer alone: the
    room at the round_end of round 2, and the ended room after it. *)
Definition lastRound : list (Env * Event) :=
  [ (demoEnv 20 "", AlarmFires); (demoEnv 21 "", AlarmFires);
    (demoEnv 22 "", AlarmFires); (demoEnv 23 "", AlarmFires) ].

Definition lastRoundEnd : Storage := run lastRound roundTwoStart.

Definition endedRoom : Storage :=
  fst (step (demoEnv 24 "") lastRoundEnd AlarmFires).

(** The test by which [alarm] replaces the best player so far: more money,
    or the same money and more cells. *)
Definition outranks (g : list Cell) (p best : Player) : bool :=
  (money p >? money best)
  || ((money p =? money best)
      && (myCells g (playerId p) >? myCells g (playerId best))).

(* ------------------------------------------------------------------ *)
(** ** Joining and starting *)

(** The record [handleJoin] appends for a new player. *)
Definition joiner (e : Env) (name : option string) (s : Storage) : Player :=
  {| playerId := uuid e;
     displayName := orElse name ("Player " +++ zstr (len (players s) + 1));
     color := fst (distinctPlayerColor (map color (players s)) (rng e));
     money := 0; dice := [] |}.

(** A fair hand or pool of dice: [n] faces, each from 1 to 6. *)
Definition fairDice (n : Z) (d : list Z) : Prop :=
  len d = n /\ Forall (fun v => 1 <= v <= 6) d.

(** What [handleStartGame] does to one player record. *)
Definition dealt (p p' : Player) : Prop :=
  playerId p' = playerId p /\ displayName p' = displayName p /\
  color p' = color p /\ money p' = STARTING_MONEY /\ fairDice 3 (dice p').

Definition playable (g : list Cell) : list Cell :=
  filter (fun c => negb (blocked c)) g.

(* ------------------------------------------------------------------ *)
(** ** Paths *)

(** Whether player [pid] owns some cell in role [ro]. *)
Definition ownsRole (g : list Cell) (pid : string) (ro : Role) : bool :=
  existsb (fun c => existsb (hasRole pid ro) (owners c)) g.

(** Whether the player can lay a path at all: a producer cell and a seller
    cell of their own. *)
Definition canRoute (g : list Cell) (pid : string) : bool :=
  ownsRole g pid Producer && ownsRole g pid Seller.

(** Whether hex [b] is the place of a blocked cell. *)
Definition onBlocked (g : list Cell) (b : Axial) : bool :=
  existsb (fun c => blocked c && axialEquals (cellAxial c) b) g.

(** Every step of the path goes to a neighbouring hex that is not blocked. *)
Fixpoint validSteps (g : list Cell) (p : list Axial) : bool :=
  match p with
  | a :: ((b :: _) as rest) =>
      (axialDistance a b =? 1) && negb (onBlocked g b) && validSteps g rest
  | _ => true
  end.

(** The end points of the path are the producer and the seller cell. *)
Definition endpointsOk (p : list Axial) (producerCell sellerCell : Cell) : bool :=
  (2 <=? len p) && axialEquals (hd origin p) (cellAxial producerCell)
  && axialEquals (last p origin) (cellAxial sellerCell).

(** What the end of the path phase does to one player record: a player
    without dice draws three, everybody else keeps the hand. *)
Definition rehanded (p p' : Player) : Prop :=
  playerId p' = playerId p /\ displayName p' = displayName p /\
  color p' = color p /\ money p' = money p /\
  match dice p with
  | [] => fairDice 3 (dice p')
  | _ => dice p' = dice p
  end.

(** Two rooms of the example game: in the buy phase of round 0, before
    anything is queued, and in its path phase, where Ann owns the producer
    cell (0,-1) and the seller cell (0,-2). *)
Definition buyRoom : Storage := run (firstn 2 roundZero) startedRoom.
Definition pathRoom : Storage := run (firstn 5 roundZero) startedRoom.

Definition annProducer : Cell :=
  {| id := "cell-0--1"; q := 0; r := -1; diceValue := 4; producer := 7;
     seller := 3; blocked := false;
     owners := [{| o_playerId := "aaaaaaaa"; o_role := Producer;
                   o_roundsOwned := 0 |}] |}.

Definition annSeller : Cell :=
  {| id := "cell-0--2"; q := 0; r := -2; diceValue := 4; producer := 3;
     seller := 4; blocked := false;
     owners := [{| o_playerId := "aaaaaaaa"; o_role := Seller;
                   o_roundsOwned := 0 |}] |}.

(* ------------------------------------------------------------------ *)
(** ** The buy queue *)

(** Whether a queued buy needs a die of value [v], by the cell table
    [handleBuyCell] looks targets up in. *)
Definition needsDie (byId : Rec Cell) (v : Z) (a : BuyAct) : bool :=
  match rget (cellId a) byId with
  | Some target => diceValue target =? v
  | None => false
  end.

(** The number of queued buys that need a die of value [v]. *)
Definition needs (byId : Rec Cell) (v : Z) (queue : list BuyAct) : Z :=
  len (filter (needsDie byId v) queue).

(** The target of a queued buy is a cell of the table that is not blocked. *)
Definition targetsOpen (byId : Rec Cell) (a : BuyAct) : Prop :=
  exists target, rget (cellId a) byId = Some target /\ blocked target = false.

(* ------------------------------------------------------------------ *)
(** ** Dice in circulation *)

(** A die face. *)
Definition face (v : Z) : Prop := 1 <= v <= 6.

Definition fairHand (p : Player) : Prop := Forall face (dice p).

(** A slot of the market pool during an auction: a die, or the mark [-1]
    of a die that the market resolution has handed out. *)
Definition poolSlot (v : Z) : Prop := face v \/ v = -1.

Definition fairPool (cfg : GameConfig) : Prop :=
  match marketDice cfg with
  | None => True
  | Some md =>
      match phase cfg with
      | auction => Forall poolSlot md
      | _ => Forall face md
      end
  end.

Record DiceOk (s : Storage) : Prop := {
  dice_hands : Forall fairHand (players s);
  dice_pool : forall cfg, config s = Some cfg -> fairPool cfg }.

(* ------------------------------------------------------------------ *)
(** ** The pending actions and the phase *)

Definition phaseOf (s : Storage) : option GamePhase := option_map phase (config s).

(** A market bid that [handleMarketBid] accepts under configuration [cfg]. *)
Definition validBid (cfg : GameConfig) (act : MarketAct) : Prop :=
  0 <= dieIndex act < len (orElse (marketDice cfg) []) /\
  orElse (marketMinPrice cfg) MARKET_MIN_PRICE <= amount act.

(** Player [pid] is one of the contenders of the conflict named [cid]. *)
Definition contender (cs : list Conflict) (cid pid : string) : Prop :=
  exists c, In c cs /\ conflictId c = cid /\ In pid (playerIds c).

(** The buffers of the pending actions are in step with the phase. *)
Record BuffersOk (s : Storage) : Prop := {
  (* nobody has both a market bid and a skip on record *)
  buf_exclusive : forall pid,
    rget pid (market (pendingActions s)) <> None ->
    rget pid (marketSkip (pendingActions s)) = None;
  (* auction bids are never negative and come from contenders only *)
  buf_bids : forall cid bids pid amt,
    rget cid (auctionBids (pendingActions s)) = Some bids ->
    rget pid bids = Some amt ->
    0 <= amt /\ contender (conflicts (pendingActions s)) cid pid;
  (* in the market phase every bid on record is one the handler accepts *)
  buf_valid : forall cfg pid act,
    config s = Some cfg -> phase cfg = market_phase ->
    rget pid (market (pendingActions s)) = Some act -> validBid cfg act;
  (* outside the market phase and the auction there are no bids or skips *)
  buf_market : phaseOf s <> Some market_phase -> phaseOf s <> Some auction ->
    market (pendingActions s) = [] /\ marketSkip (pendingActions s) = [];
  (* outside the buy phase and the auction nothing is queued or done *)
  buf_buy : phaseOf s <> Some buy_phase -> phaseOf s <> Some auction ->
    buy (pendingActions s) = [] /\ buyDone (pendingActions s) = [];
  (* outside the auction there are no conflicts and no auction bids *)
  buf_auction : phaseOf s <> Some auction ->
    conflicts (pendingActions s) = [] /\ auctionBids (pendingActions s) = [] }.

(* ------------------------------------------------------------------ *)
(** ** The state object sent to a socket (broadcastState) *)

Record ConflictView := {
  v_conflictId : string; v_cellId : option string; v_dieIndex : option Z }.

Record GameState := {
  st_config : GameConfig;
  st_grid : list Cell;
  st_players : list Player;
  st_winnerId : option string;
  st_activeConflicts : option (list ConflictView);
  st_selectionStatus : Rec bool;
  st_pendingBuys : Rec (list BuyAct);
  st_myMarketBid : option MarketAct;
  st_myAuctionBids : Rec Z;
  st_mySubmittedPath : option SubmittedPath }.

(** [config ?? { roundCount: 3, phase: 'lobby', roundIndex: 0,
                 marketMinPrice: 1 }] *)
Definition defaultConfig : GameConfig :=
  {| roundCount := 3; phase := lobby; roundIndex := 0; marketDice := None;
     marketMinPrice := Some 1; phaseEndsAt := None |}.

Definition conflictView (c : Conflict) : ConflictView :=
  match c with
  | CellConflict i cell _ =>
      {| v_conflictId := i; v_cellId := Some cell; v_dieIndex := None |}
  | MarketConflict i die _ =>
      {| v_conflictId := i; v_cellId := None; v_dieIndex := Some die |}
  end.

(** [config?.phase === 'auction' && pending?.conflicts?.length
      ? pending.conflicts.map(...) : undefined] *)
Definition activeConflicts (s : Storage) : option (list ConflictView) :=
  if inPhase auction s then
    match conflicts (pendingActions s) with
    | [] => None
    | cs => Some (map conflictView cs)
    end
  else None.

(** [for (const playerId of keys) selectionStatus[playerId] = true] *)
Definition markAll (keys : list string) (status : Rec bool) : Rec bool :=
  fold_left (fun m k => rset k true m) keys status.

Definition selectionStatus (s : Storage) (ps : list Player) : Rec bool :=
  let pending := pendingActions s in
  let base := fold_left (fun m p => rset (playerId p) false m) ps [] in
  match phaseOf s with
  | Some buy_phase => markAll (dkeys (buyDone pending)) base
  | Some market_phase =>
      markAll (dkeys (marketSkip pending)) (markAll (dkeys (market pending)) base)
  | Some auction =>
      fold_left (fun m byPlayer => markAll (dkeys (snd byPlayer)) m)
                (auctionBids pending) base
  | Some path_phase => markAll (dkeys (pathReady pending)) base
  | _ => base
  end.

(** The socket's own bids, one per conflict it has bid in. *)
Definition myAuctionBids (pid : string) (bids : Rec (Rec Z)) : Rec Z :=
  fold_left
    (fun m entry =>
       match rget pid (snd entry) with
       | Some amt => rset (fst entry) amt m
       | None => m
       end)
    bids [].

(** The state object for the socket whose attachment names [attached]. *)
Definition stateFor (e : Env) (s : Storage) (attached : option string)
    : GameState :=
  let ps := fst (ensurePlayerColors (players s) (paint e)) in
  let pending := pendingActions s in
  let me := joinedAs attached in
  {| st_config := orElse (config s) defaultConfig;
     st_grid := grid s;
     st_players := ps;
     st_winnerId := winnerId s;
     st_activeConflicts := activeConflicts s;
     st_selectionStatus := selectionStatus s ps;
     st_pendingBuys := buy pending;
     st_myMarketBid :=
       match me with Some pid => rget pid (market pending) | None => None end;
     st_myAuctionBids :=
       match me with
       | Some pid => myAuctionBids pid (auctionBids pending)
       | None => []
       end;
     st_mySubmittedPath :=
       match me with Some pid => rget pid (submittedPaths s) | None => None end |}.

(** Whether [pid] is a key of the record. *)
Definition hasKey {V} (pid : string) (d : Rec V) : bool :=
  existsb (String.eqb pid) (dkeys d).

(** Whether the player has made the move the current phase waits for. *)
Definition acted (s : Storage) (pid : string) : bool :=
  let pending := pendingActions s in
  match phaseOf s with
  | Some buy_phase => hasKey pid (buyDone pending)
  | Some market_phase => hasKey pid (market pending) || hasKey pid (marketSkip pending)
  | Some auction => existsb (fun byPlayer => hasKey pid (snd byPlayer)) (auctionBids pending)
  | Some path_phase => hasKey pid (pathReady pending)
  | _ => false
  end.

(** What a socket is not told: the market bids and the auction bids of
    the other players are blanked, their submitted paths are dropped. *)
Definition isMe (me : option string) (pid : string) : bool :=
  match me with Some m => String.eqb m pid | None => false end.

Definition veilRec {V} (me : option string) (blank : V) (d : Rec V) : Rec V :=
  map (fun entry => (fst entry, if isMe me (fst entry) then snd entry else blank)) d.

Definition veil (me : option string) (s : Storage) : Storage :=
  let pending := pendingActions s in
  set_submittedPaths
    (filter (fun entry => isMe me (fst entry)) (submittedPaths s))
    (set_pending
       (set_auctionBids
          (map (fun entry => (fst entry, veilRec me 0 (snd entry)))
               (auctionBids pending))
          (set_market (veilRec me {| dieIndex := 0; amount := 0 |} (market pending))
                      pending)) s).

(** The room of [overbidRoom] with a bid of 5 in the place of Ann's 20. *)
Definition modestBidRoom : Storage :=
  run [ (demoEnv 4 "", AlarmFires);
        (demoEnv 5 "", Message 1 ann (MarketBid 0 5)) ] startedRoom.

(* ------------------------------------------------------------------ *)
(** ** The lobby (Lobby) and what a room tells it *)

(** The record kept under the key [room:<roomId>]; every [put] of the
    program writes all four fields. *)
Record RoomMeta := {
  m_roomId : string; m_roundCount : Z; m_playerCount : Z;
  m_playerNames : list string }.

(** The answer of [GameRoom.getRoomMeta]. *)
Record LiveMeta := {
  l_roundCount : Z; l_playerCount : Z; l_playerNames : list string }.

(** The storage of the lobby: the list under [rooms] ([[]] when the key
    is missing) and the records under the [room:] keys. *)
Record LobbyStore := { rooms : list string; metas : Rec RoomMeta }.

Definition emptyLobby : LobbyStore := {| rooms := []; metas := [] |}.

Definition getRoomMeta (s : Storage) : LiveMeta :=
  {| l_roundCount := match config s with Some cfg => roundCount cfg | None => 0 end;
     l_playerCount := len (players s);
     l_playerNames := map displayName (players s) |}.

(** [createRoom]: [roomId] is the fresh [crypto.randomUUID().slice(0, 8)];
    the room object named by it is initialised with [initialize]. *)
Definition createRoom (roomId : string) (rounds : Z) (l : LobbyStore)
    : LobbyStore * string :=
  ({| rooms := rooms l ++ [roomId];
      metas := rset roomId {| m_roomId := roomId; m_roundCount := rounds;
                              m_playerCount := 0; m_playerNames := [] |}
                    (metas l) |},
   roomId).

(** The record [nextMeta] of [listRooms]: [live] is the answer of the room
    object, [None] when the call fails; [meta] is the stored record. *)
Definition nextMeta (live : option LiveMeta) (meta : option RoomMeta)
    (roomId : string) : RoomMeta :=
  {| m_roomId := roomId;
     m_roundCount :=
       match live, meta with
       | Some lv, _ => l_roundCount lv
       | None, Some m => m_roundCount m
       | None, None => 0
       end;
     m_playerCount :=
       match live, meta with
       | Some lv, _ => l_playerCount lv
       | None, Some m => m_playerCount m
       | None, None => 0
       end;
     m_playerNames :=
       match live, meta with
       | Some lv, _ => l_playerNames lv
       | None, Some m => m_playerNames m
       | None, None => []
       end |}.

(** One room of [listRooms]. *)
Definition refreshRoom (live : string -> option LiveMeta)
    (acc : LobbyStore * list RoomMeta) (roomId : string)
    : LobbyStore * list RoomMeta :=
  let '(l, out) := acc in
  let next := nextMeta (live roomId) (rget roomId (metas l)) roomId in
  ({| rooms := rooms l; metas := rset roomId next (metas l) |},
   out ++ [next]).

Definition listRooms (live : string -> option LiveMeta) (l : LobbyStore)
    : LobbyStore * list RoomMeta :=
  fold_left (refreshRoom live) (rooms l) (l, []).

(** [Array.from(new Set(names))]: the first occurrence of each name, in
    order; [seen] is the set built so far. *)
Fixpoint distinctFrom (seen names : list string) : list string :=
  match names with
  | [] => []
  | n :: rest =>
      if existsb (String.eqb n) seen then distinctFrom seen rest
      else n :: distinctFrom (n :: seen) rest
  end.

Definition distinct (names : list string) : list string := distinctFrom [] names.

Inductive JoinAnswer :=
| JoinOk (wsUrl : string)
| JoinError (message : string).

Section Lobby.
(** [String.prototype.trim] *)
Variable trim : string -> string.

Definition joinRoom (roomId : string) (playerName : option string)
    (l : LobbyStore) : LobbyStore * JoinAnswer :=
  match rget roomId (metas l) with
  | None => (l, JoinError "Room not found")
  | Some current =>
      let name := trim (orElse playerName "") in
      let l' :=
        if String.eqb name "" then l
        else
          let nextNames := distinct (m_playerNames current ++ [name]) in
          {| rooms := rooms l;
             metas :=
               rset roomId
                 {| m_roomId := m_roomId current;
                    m_roundCount := m_roundCount current;
                    m_playerCount := Z.max (m_playerCount current) (len nextNames);
                    m_playerNames := nextNames |}
                 (metas l) |} in
      (l', JoinOk ("https://game2.example.com" +++ "/room/" +++ roomId))
  end.
End Lobby.

Definition setRoomPlayerCount (roomId : string) (count : Z)
    (playerNames : list string) (l : LobbyStore) : LobbyStore :=
  let meta :=
    orElse (rget roomId (metas l))
      {| m_roomId := roomId; m_roundCount := 0; m_playerCount := 0;
         m_playerNames := [] |} in
  {| rooms := rooms l;
     metas := rset roomId
                {| m_roomId := m_roomId meta; m_roundCount := m_roundCount meta;
                   m_playerCount := count; m_playerNames := playerNames |}
                (metas l) |}.

Definition deleteRoom (roomId : string) (l : LobbyStore) : LobbyStore :=
  {| rooms := filter (fun i => negb (String.eqb i roomId)) (rooms l);
     metas := rdel roomId (metas l) |}.

(** [GameRoom.syncLobbyMeta]: the room reports its players under the room
    id it has on record, if it has one. *)
Definition syncLobbyMeta (roomId : option string) (ps : list Player)
    (l : LobbyStore) : LobbyStore :=
  match roomId with
  | Some i => if String.eqb i "" then l
              else setRoomPlayerCount i (len ps) (map displayName ps) l
  | None => l
  end.

(* ------------------------------------------------------------------ *)
(** ** Relations between boards *)

(** A cell in the same place with more owner records at the end. *)
Definition moreOwners (c c' : Cell) : Prop :=
  exists more, c' = with_owners (owners c ++ more) c.

(** What one event can do to the board. *)
Definition boardStep (g g' : list Cell) : Prop :=
  map site g' = map site g \/ g' = [] \/
  exists minCells blockedCount rng,
    g' = fst (generateGrid minCells blockedCount rng).


(* ------------------------------------------------------------------ *)
(** ** Buy-phase resolution: who claims what *)

(** The players that have queued a buy of the cell, in the order of the
    buy buffer. *)
Definition claimants (b : Rec (list BuyAct)) (cell_id : string) : list string :=
  map fst (filter (fun entry => existsb (sameCell cell_id) (snd entry)) b).

(** [byCell.get(cellId)]: a list of claimants, never an empty one. *)
Definition listOpt (l : list string) : option (list string) :=
  match l with [] => None | _ => Some l end.

(** The buffer of queues well formed enough to be indexed without a
    skip. *)
Definition tidyBuys (b : Rec (list BuyAct)) : Prop :=
  NoDup (dkeys b) /\
  Forall (fun entry => NoDup (map cellId (snd entry)) /\
                       Forall (fun a => cellId a <> "") (snd entry)) b.

(** The claim that one entry [cellId, playerIds] of [byCell] contributes to
    [toApply]: none unless the entry has exactly one claimant, who is a
    player holding a die of the cell's value, and the cell is not blocked. *)
Definition entryClaims (g : list Cell) (ps : list Player) (roles : Rec Role)
    (entry : string * list string) : list Claim :=
  match snd entry with
  | [p0] =>
      match find_cell (fst entry) g, find_player p0 ps,
            rget (roleKey p0 (fst entry)) roles with
      | Some cell, Some player, Some ro =>
          if negb (blocked cell) && holdsDie (diceValue cell) player
          then [{| c_playerId := p0; c_cellId := fst entry; c_role := ro |}]
          else []
      | _, _, _ => []
      end
  | _ => []
  end.

(** Player [pid] is the only one to have queued the cell. *)
Definition soleClaimant (b : Rec (list BuyAct)) (pid cell_id : string) : bool :=
  match claimants b cell_id with
  | [p] => String.eqb p pid
  | _ => false
  end.

(** Player [pid] has queued the cell in role [ro]. *)
Definition queuedAs (b : Rec (list BuyAct)) (pid cell_id : string) (ro : Role)
    : Prop :=
  exists queue, In (pid, queue) b /\ In {| cellId := cell_id; role := ro |} queue.

(** The cells of die value [v] that [pid] alone has queued, and their
    number. *)
Definition soleCells (s : Storage) (pid : string) (v : Z) : list Cell :=
  filter (fun c => (diceValue c =? v)
                   && soleClaimant (buy (pendingActions s)) pid (id c))
         (grid s).

Definition wonWith (s : Storage) (pid : string) (v : Z) : Z :=
  len (soleCells s pid v).

(** The number of claims in the list [claims] that are claims of [pid] on
    a cell whose die value is [v]. *)
Definition claimCount (g : list Cell) (pid : string) (v : Z)
    (claims : list Claim) : Z :=
  len (claimsFor g pid v claims).

(** The claim on the cell, if the list has one. *)
Definition claimOn (cell_id : string) (claims : list Claim) : option Claim :=
  find (fun cl => String.eqb (c_cellId cl) cell_id) claims.

(** A queue of buys as [handleBuyCell] leaves it for player [pid]: no cell
    twice, every target a cell of the board that is not blocked, and for
    every face no more targets of that face than [pid] holds dice of it. *)
Record QueueOk (s : Storage) (pid : string) (queue : list BuyAct) : Prop := {
  queue_cells : NoDup (map cellId queue);
  queue_open : Forall (targetsOpen (cellById (grid s))) queue;
  queue_dice :
    exists player,
      find_player pid (players s) = Some player /\
      forall v, needs (cellById (grid s)) v queue
                <= Z.of_nat (count_occ Z.eq_dec (dice player) v) }.

(** The buy buffer in the buy phase: one queue per player id, and every
    queue as [handleBuyCell] leaves it. *)
Record BuyOk (s : Storage) : Prop := {
  buy_keys :
    phaseOf s = Some buy_phase -> NoDup (dkeys (buy (pendingActions s)));
  buy_queues :
    phaseOf s = Some buy_phase ->
    Forall (fun entry => QueueOk s (fst entry) (snd entry))
           (buy (pendingActions s)) }.

(** The example game, round 0: in the market phase Ann recycles her 6 and
    so enters the buy phase with the hand [4; 4]. *)
Definition twoFoursRoom : Storage :=
  run [ (demoEnv 4 "", AlarmFires);
        (demoEnv 5 "", Message 1 ann (MarketRecycle 2));
        (demoEnv 6 "", AlarmFires) ] startedRoom.

(** She queues the cells (0,-1) and (0,-2), which both need a 4. *)
Definition twoQueuedRoom : Storage :=
  run [ (demoEnv 7 "", Message 1 ann (BuyCell "cell-0--1" Producer));
        (demoEnv 8 "", Message 1 ann (BuyCell "cell-0--2" Seller)) ]
      twoFoursRoom.

Unset Implicit Arguments.

(* ------------------------------------------------------------------ *)
(** * Basic facts *)

Lemma andThen_fst (x : Result) (k : Storage -> Result) :
  fst (andThen x k) = fst (k (fst x)).
Proof.
  unfold andThen. destruct x as [s o]. simpl. destruct (k s). reflexivity.
Qed.

Lemma andThen_snd (x : Result) (k : Storage -> Result) :
  snd (andThen x k) = snd x ++ snd (k (fst x)).
Proof.
  unfold andThen. destruct x as [s o]. simpl. destruct (k s). reflexivity.
Qed.

Lemma broadcast_snd (e : Env) (s : Storage) : snd (broadcastState e s) = [OState].
Proof.
  unfold broadcastState. destruct (ensurePlayerColors _ _). reflexivity.
Qed.

Lemma broadcast_grid (e : Env) (s : Storage) :
  grid (fst (broadcastState e s)) = grid s.
Proof.
  unfold broadcastState. destruct (ensurePlayerColors _ _).
  simpl. destruct (existsb noColor (players s)); reflexivity.
Qed.

Lemma broadcast_config (e : Env) (s : Storage) :
  config (fst (broadcastState e s)) = config s.
Proof.
  unfold broadcastState. destruct (ensurePlayerColors _ _).
  simpl. destruct (existsb noColor (players s)); reflexivity.
Qed.

Lemma broadcast_pending (e : Env) (s : Storage) :
  pendingActions (fst (broadcastState e s)) = pendingActions s.
Proof.
  unfold broadcastState. destruct (ensurePlayerColors _ _).
  simpl. destruct (existsb noColor (players s)); reflexivity.
Qed.

Lemma broadcast_submittedPaths (e : Env) (s : Storage) :
  submittedPaths (fst (broadcastState e s)) = submittedPaths s.
Proof.
  unfold broadcastState. destruct (ensurePlayerColors _ _).
  simpl. destruct (existsb noColor (players s)); reflexivity.
Qed.

(** When every player has a colour the broadcast stores nothing. *)
Lemma broadcast_same (e : Env) (s : Storage) :
  existsb noColor (players s) = false -> fst (broadcastState e s) = s.
Proof.
  intros H. unfold broadcastState. destruct (ensurePlayerColors _ _).
  rewrite H. reflexivity.
Qed.

(* ------------------------------------------------------------------ *)
(** * Ownership aging (C6) *)

Lemma ageCell_owners (c : Cell) : owners (ageCell c) = owners c.
Proof. unfold ageCell. destruct (noOwners c); reflexivity. Qed.

Lemma ageCell_iter_owners (n : nat) (c : Cell) :
  owners (Nat.iter n ageCell c) = owners c.
Proof.
  induction n as [|n IH]; [reflexivity|].
  rewrite Nat.iter_succ, ageCell_owners. exact IH.
Qed.

Lemma noOwners_false (c : Cell) : owners c <> [] -> noOwners c = false.
Proof. unfold noOwners. destruct (owners c); congruence. Qed.

Lemma noOwners_true (c : Cell) : owners c = [] -> noOwners c = true.
Proof. unfold noOwners. intros ->. reflexivity. Qed.

Lemma ageCell_iter_values (n : nat) (c : Cell) :
  owners c <> [] -> 1 <= producer c -> 1 <= seller c ->
  producer (Nat.iter n ageCell c) = Z.max 1 (producer c - Z.of_nat n) /\
  seller (Nat.iter n ageCell c) = Z.max 1 (seller c - Z.of_nat n).
Proof.
  intros Ho Hp Hs. induction n as [|n [IHp IHs]].
  - simpl. lia.
  - rewrite Nat.iter_succ.
    assert (Hn : noOwners (Nat.iter n ageCell c) = false)
      by (apply noOwners_false; rewrite ageCell_iter_owners; exact Ho).
    remember (Nat.iter n ageCell c) as x eqn:Hx.
    unfold ageCell. rewrite Hn.
    cbn [with_values producer seller]. rewrite IHp, IHs. lia.
Qed.

Lemma alarm_round_start_grid (e : Env) (s : Storage) (cfg : GameConfig) :
  grid (fst (alarm_round_start e s cfg)) = applyOwnershipAging (grid s).
Proof.
  unfold alarm_round_start. destruct (randomDiceArray _ _).
  rewrite broadcast_grid. reflexivity.
Qed.

(** C6.  At a round_start resolution the cell at every position of the
    grid keeps its identity, coordinates, die value, blocked flag and
    owners list; when it has at least one owner, its producer and seller
    values become [max 1 (v - 1)], that is, one less but never below 1;
    when it has no owner it is unchanged.  A cell owned throughout that
    starts at producer 5 and seller 5 reads 1 and 1 after ten such agings,
    with the same owners. *)
Theorem C6_ownership_aging (e : Env) (s : Storage) (cfg : GameConfig)
    (i : nat) (c : Cell) :
  config s = Some cfg -> phase cfg = round_start ->
  nth_error (grid s) i = Some c ->
  exists c',
    nth_error (grid (fst (alarm e s))) i = Some c' /\
    List.length (grid (fst (alarm e s))) = List.length (grid s) /\
    owners c' = owners c /\ id c' = id c /\ q c' = q c /\ r c' = r c /\
    diceValue c' = diceValue c /\ blocked c' = blocked c /\
    (owners c = [] -> c' = c) /\
    (owners c <> [] ->
       producer c' = Z.max 1 (producer c - 1) /\
       seller c' = Z.max 1 (seller c - 1) /\
       1 <= producer c' /\ 1 <= seller c' /\
       (1 < producer c -> producer c' = producer c - 1) /\
       (1 < seller c -> seller c' = seller c - 1) /\
       (producer c = 5 -> seller c = 5 ->
          producer (Nat.iter 10 ageCell c) = 1 /\
          seller (Nat.iter 10 ageCell c) = 1 /\
          owners (Nat.iter 10 ageCell c) = owners c)).
Proof.
  intros Hcfg Hph Hc. exists (ageCell c).
  assert (Hg : grid (fst (alarm e s)) = applyOwnershipAging (grid s)).
  { unfold alarm. rewrite Hcfg, Hph. apply alarm_round_start_grid. }
  rewrite Hg. unfold applyOwnershipAging.
  split. { rewrite nth_error_map, Hc. reflexivity. }
  split. { apply length_map. }
  split. { apply ageCell_owners. }
  pose proof (ageCell_iter_values 10 c) as H10.
  pose proof (ageCell_iter_owners 10 c) as Ho10.
  set (c10 := Nat.iter 10 ageCell c) in *. clearbody c10.
  unfold ageCell. destruct (owners c) as [|o os] eqn:Ho.
  - rewrite noOwners_true by exact Ho.
    do 5 (split; [reflexivity|]). split; [reflexivity|].
    intros Hne. congruence.
  - rewrite noOwners_false by congruence.
    cbn [with_values id q r diceValue blocked producer seller].
    do 5 (split; [reflexivity|]). split; [intros Hnil; discriminate Hnil|].
    intros _.
    split; [reflexivity|]. split; [reflexivity|].
    split; [lia|]. split; [lia|]. split; [lia|]. split; [lia|].
    intros Hp5 Hs5.
    destruct H10 as [Hp Hs]; try lia; [discriminate|].
    rewrite Hp, Hs. repeat split; try lia. exact Ho10.
Qed.

(* ------------------------------------------------------------------ *)
(** * Path revenue (C1) *)

Lemma len_app {A} (l1 l2 : list A) : len (l1 ++ l2) = len l1 + len l2.
Proof. unfold len. rewrite length_app. lia. Qed.

Lemma len_nonneg {A} (l : list A) : 0 <= len l.
Proof. unfold len. lia. Qed.

(** The index loop of [computePathRevenue] counts the marked hexes of a
    slice of the path. *)
Lemma count_loop (f : Axial -> bool) (p : list Axial) (k a : nat) (n0 : Z) :
  fold_left
    (fun n i => match nth_error p i with
                | Some hex => if f hex then n + 1 else n
                | None => n
                end)
    (seq a k) n0
  = n0 + len (filter f (firstn k (skipn a p))).
Proof.
  revert a n0. induction k as [|k IH]; intros a n0.
  - simpl. unfold len. simpl. lia.
  - cbn [seq fold_left]. rewrite IH.
    destruct (nth_error p a) as [hex|] eqn:Hn.
    + apply nth_error_split in Hn. destruct Hn as (l1 & l2 & -> & Hl).
      assert (Hs : skipn a (l1 ++ hex :: l2) = hex :: l2).
      { rewrite skipn_app, <- Hl, Nat.sub_diag, skipn_all. reflexivity. }
      assert (Hs' : skipn (S a) (l1 ++ hex :: l2) = l2).
      { rewrite skipn_app, <- Hl.
        replace (S (List.length l1) - List.length l1)%nat with 1%nat by lia.
        rewrite skipn_all2 by lia. reflexivity. }
      rewrite Hs, Hs'. cbn [firstn filter].
      destruct (f hex); unfold len; cbn [List.length]; lia.
    + apply nth_error_None in Hn.
      rewrite (skipn_all2 p) by lia. rewrite (skipn_all2 p) by exact Hn.
      rewrite firstn_nil. reflexivity.
Qed.

Lemma interior_slice (p : list Axial) :
  interior p = firstn (List.length p - 2) (skipn 1 p).
Proof.
  unfold interior. destruct p as [|a t]; [reflexivity|].
  cbn [tl skipn List.length]. rewrite removelast_firstn_len.
  f_equal. lia.
Qed.

Lemma computePathRevenue_spec (g : list Cell) (pid : string) (P S : Cell)
    (p : list Axial) :
  computePathRevenue g pid P S p
  = producer P * Z.max 0 (Z.min (seller S - (len p - 1)
                                  - 2 * len (filter (enemyAt g pid) (interior p))) 1).
Proof.
  unfold computePathRevenue.
  rewrite count_loop, interior_slice. reflexivity.
Qed.

Lemma rget_rset_same {V} (k : string) (v : V) (d : Rec V) :
  rget k (rset k v d) = Some v.
Proof.
  unfold rget, rset. induction d as [|[k' v'] t IH]; simpl.
  - rewrite String.eqb_refl. reflexivity.
  - destruct (String.eqb k' k) eqn:E; simpl.
    + rewrite String.eqb_refl. reflexivity.
    + rewrite E. exact IH.
Qed.

Lemma enemyAt_spec (g : list Cell) (pid : string) (hex : Axial) :
  enemyAt g pid hex = true <->
  exists c o, cellAt g hex = Some c /\ In o (owners c) /\ o_playerId o <> pid.
Proof.
  unfold enemyAt, enemyOwned. destruct (cellAt g hex) as [c|].
  - rewrite existsb_exists. split.
    + intros (o & Hin & Hne). exists c, o. repeat split; auto.
      apply negb_true_iff, String.eqb_neq in Hne. exact Hne.
    + intros (c' & o & Hc & Hin & Hne). inversion Hc; subst c'.
      exists o. split; auto. apply negb_true_iff, String.eqb_neq. exact Hne.
  - split; [discriminate|]. intros (c & o & Hc & _). discriminate.
Qed.

(** A ten-hex path (length 9) between the same kind of endpoints earns
    nothing. *)
Example revenue_length_nine :
  computePathRevenue []
    "p1" (rowCell 0 []) (rowCell 9 [])
    (map (fun x => {| aq := x; ar := 0 |}) (zrange 0 9)) = 0.
Proof. reflexivity. Qed.

(* ------------------------------------------------------------------ *)
(** * Lists, dictionaries and in-place updates *)

Section ListFacts.
Context {A : Type}.
Implicit Types (l : list A) (p : A -> bool) (f : A -> A).

Lemma update_first_none p f l : find p l = None -> update_first p f l = l.
Proof.
  induction l as [|h t IH]; simpl; [reflexivity|].
  destruct (p h); [discriminate|]. intros H. rewrite IH by exact H. reflexivity.
Qed.

Lemma update_first_found p f l x :
  find p l = Some x ->
  exists l1 l2, l = l1 ++ x :: l2 /\ update_first p f l = l1 ++ f x :: l2 /\
                Forall (fun y => p y = false) l1 /\ p x = true.
Proof.
  induction l as [|h t IH]; simpl; [discriminate|].
  destruct (p h) eqn:E.
  - intros H. inversion H; subst. exists [], t. repeat split; auto.
  - intros H. destruct (IH H) as (l1 & l2 & -> & Hu & Hf & Hx).
    exists (h :: l1), l2. rewrite Hu. repeat split; auto.
Qed.

Lemma Forall_update_found (P : A -> Prop) p f l x :
  find p l = Some x -> Forall P l -> P (f x) -> Forall P (update_first p f l).
Proof.
  intros Hf Hl Hx. destruct (update_first_found p f l x Hf) as (l1 & l2 & -> & -> & _).
  apply Forall_app in Hl. destruct Hl as [H1 H2]. inversion H2; subst.
  apply Forall_app. split; [exact H1|]. constructor; assumption.
Qed.

Lemma Forall_update_first (P : A -> Prop) p f l :
  Forall P l -> (forall x, P x -> p x = true -> P (f x)) ->
  Forall P (update_first p f l).
Proof.
  intros Hl Hf. induction Hl as [|h t Hh Ht IH]; simpl; [constructor|].
  destruct (p h) eqn:E; constructor; auto.
Qed.

Lemma update_first_length p f l : List.length (update_first p f l) = List.length l.
Proof.
  induction l as [|h t IH]; simpl; [reflexivity|].
  destruct (p h); simpl; congruence.
Qed.

Lemma update_first_map {B} (k : A -> B) p f l :
  (forall x, k (f x) = k x) -> map k (update_first p f l) = map k l.
Proof.
  intros Hk. induction l as [|h t IH]; simpl; [reflexivity|].
  destruct (p h); simpl; rewrite ?Hk, ?IH; reflexivity.
Qed.
End ListFacts.

Section DictFacts.
Context {K V : Type} (keq : K -> K -> bool).
Hypothesis keq_spec : forall a b, keq a b = true <-> a = b.

Lemma Forall_dset (Q : K * V -> Prop) k v (d : list (K * V)) :
  Forall Q d -> Q (k, v) -> Forall Q (dset keq k v d).
Proof.
  intros Hd Hq. induction Hd as [|[k' v'] t Hh Ht IH]; simpl.
  - constructor; [exact Hq|constructor].
  - destruct (keq k' k); constructor; auto.
Qed.

Lemma Forall_ddel (Q : K * V -> Prop) k (d : list (K * V)) :
  Forall Q d -> Forall Q (ddel keq k d).
Proof.
  intros Hd. unfold ddel. apply Forall_forall. intros x Hx.
  apply filter_In in Hx. destruct Hx as [Hx _].
  rewrite Forall_forall in Hd. auto.
Qed.

Lemma dget_In k v (d : list (K * V)) : dget keq k d = Some v -> In (k, v) d.
Proof.
  induction d as [|[k' v'] t IH]; simpl; [discriminate|].
  destruct (keq k' k) eqn:E.
  - intros H. inversion H; subst. apply keq_spec in E. subst. left. reflexivity.
  - intros H. right. auto.
Qed.

Lemma dget_dset_same k v (d : list (K * V)) : dget keq k (dset keq k v d) = Some v.
Proof.
  assert (Hr : keq k k = true) by (apply keq_spec; reflexivity).
  induction d as [|[k' v'] t IH]; simpl.
  - rewrite Hr. reflexivity.
  - destruct (keq k' k) eqn:E; simpl; [rewrite Hr|rewrite E]; auto.
Qed.

Lemma dget_dset_other k k' v (d : list (K * V)) :
  k <> k' -> dget keq k' (dset keq k v d) = dget keq k' d.
Proof.
  intros Hne.
  assert (Hf : keq k k' = false).
  { destruct (keq k k') eqn:E; [apply keq_spec in E; contradiction|reflexivity]. }
  induction d as [|[k0 v0] t IH]; simpl.
  - rewrite Hf. reflexivity.
  - destruct (keq k0 k) eqn:E; simpl.
    + apply keq_spec in E. subst k0. rewrite Hf. reflexivity.
    + destruct (keq k0 k'); auto.
Qed.

Lemma dkeys_dset k v (d : list (K * V)) :
  dkeys (dset keq k v d) = if existsb (fun x => keq x k) (dkeys d)
                           then dkeys d else dkeys d ++ [k].
Proof.
  unfold dkeys. induction d as [|[k0 v0] t IH]; simpl; [reflexivity|].
  destruct (keq k0 k) eqn:E; simpl.
  - apply keq_spec in E. subst. reflexivity.
  - rewrite IH. destruct (existsb _ _); reflexivity.
Qed.

Lemma NoDup_dset k v (d : list (K * V)) :
  NoDup (dkeys d) -> NoDup (dkeys (dset keq k v d)).
Proof.
  intros Hn. rewrite dkeys_dset.
  destruct (existsb (fun x => keq x k) (dkeys d)) eqn:E; [exact Hn|].
  apply NoDup_app; [exact Hn|repeat constructor; intros []|].
  intros x Hx [Hk|[]]. subst x.
  assert (existsb (fun x => keq x k) (dkeys d) = true).
  { apply existsb_exists. exists k. split; [exact Hx|apply keq_spec; reflexivity]. }
  congruence.
Qed.
End DictFacts.

Lemma Zeqb_spec (a b : Z) : (a =? b) = true <-> a = b.
Proof. apply Z.eqb_eq. Qed.

Lemma Seqb_spec (a b : string) : String.eqb a b = true <-> a = b.
Proof. apply String.eqb_eq. Qed.

Lemma Forall_rset {V} (Q : string * V -> Prop) k v (d : Rec V) :
  Forall Q d -> Q (k, v) -> Forall Q (rset k v d).
Proof. apply Forall_dset. Qed.

Lemma Forall_rdel {V} (Q : string * V -> Prop) k (d : Rec V) :
  Forall Q d -> Forall Q (rdel k d).
Proof. apply Forall_ddel. Qed.

Lemma rget_In {V} k (v : V) (d : Rec V) : rget k d = Some v -> In (k, v) d.
Proof. apply dget_In, Seqb_spec. Qed.

(** A fold that only ever appends elements drawn from its input keeps
    inside the input. *)
Lemma fold_left_invariant {A B} (f : A -> B -> A) (P : A -> Prop) (Q : B -> Prop)
    (l : list B) (a : A) :
  P a -> Forall Q l -> (forall x y, P x -> Q y -> P (f x y)) ->
  P (fold_left f l a).
Proof.
  intros Ha Hl Hf. revert a Ha. induction Hl as [|y t Hy Ht IH]; intros a Ha.
  - exact Ha.
  - simpl. apply IH. apply Hf; assumption.
Qed.

Lemma Forall_True {A} (l : list A) : Forall (fun _ => True) l.
Proof. induction l; constructor; auto. Qed.

(* ------------------------------------------------------------------ *)
(** * Colours *)

Lemma randomColor_nonempty (g : Rng) : fst (randomColor g) <> "".
Proof. unfold randomColor. simpl. discriminate. Qed.

Lemma pickColor_nonempty (n : nat) (ex : list string) (best : string) (bm : Z)
    (g : Rng) :
  best <> "" -> fst (pickColor n ex best bm g) <> "".
Proof.
  revert best bm g. induction n as [|n IH]; intros best bm g Hb; [exact Hb|].
  cbn [pickColor].
  pose proof (randomColor_nonempty g) as Hc.
  destruct (randomColor g) as [cand g']. cbn [fst] in Hc.
  match goal with |- context [if ?c then _ else _] => destruct c end;
    apply IH; assumption.
Qed.

Lemma distinctPlayerColor_nonempty (ex : list string) (g : Rng) :
  fst (distinctPlayerColor ex g) <> "".
Proof. apply pickColor_nonempty. discriminate. Qed.

Lemma noColor_false (p : Player) : color p <> "" -> noColor p = false.
Proof. intros H. apply String.eqb_neq. exact H. Qed.

Lemma ensureColorsFrom_same (used : list string) (ps : list Player) (g : Rng) :
  existsb noColor ps = false -> ensureColorsFrom used ps g = (ps, g).
Proof.
  revert used g. induction ps as [|p t IH]; intros used g H; simpl; [reflexivity|].
  simpl in H. apply orb_false_iff in H. destruct H as [Hp Ht].
  rewrite Hp. rewrite IH by exact Ht. reflexivity.
Qed.

Lemma okPlayers_coloured (ps : list Player) :
  Forall okPlayer ps -> existsb noColor ps = false.
Proof.
  intros H. induction H as [|p t [Hc _] _ IH]; simpl; [reflexivity|].
  rewrite Hc, IH. reflexivity.
Qed.

Lemma ensurePlayerColors_same (ps : list Player) (g : Rng) :
  Forall okPlayer ps -> ensurePlayerColors ps g = (ps, g).
Proof.
  intros H. apply ensureColorsFrom_same, okPlayers_coloured, H.
Qed.

Lemma broadcast_ok (e : Env) (s : Storage) :
  Forall okPlayer (players s) -> broadcastState e s = (s, [OState]).
Proof.
  intros H. unfold broadcastState.
  rewrite ensurePlayerColors_same by exact H.
  rewrite okPlayers_coloured by exact H. reflexivity.
Qed.

Lemma inv_broadcast (e : Env) (s : Storage) :
  Inv s -> broadcastState e s = (s, [OState]).
Proof. intros H. apply broadcast_ok, H. Qed.

(* ------------------------------------------------------------------ *)
(** * Players stay coloured and solvent *)

Lemma okPlayer_with_dice (d : list Z) (p : Player) :
  okPlayer p -> okPlayer (with_dice d p).
Proof. intros H. exact H. Qed.

Lemma okPlayer_with_money (m : Z) (p : Player) :
  okPlayer p -> 0 <= m -> okPlayer (with_money m p).
Proof. intros [Hc _] Hm. split; [exact Hc|exact Hm]. Qed.

Lemma okPlayer_spendDie (v : Z) (p : Player) : okPlayer p -> okPlayer (spendDie v p).
Proof. intros H. unfold spendDie. destruct (_ >=? 0); exact H. Qed.

Lemma okPlayer_awardDie (bestBid die : Z) (p : Player) :
  okPlayer p -> bestBid <= money p -> okPlayer (awardDie bestBid die p).
Proof.
  intros [Hc Hm] Hb. split; [exact Hc|]. simpl. lia.
Qed.

Lemma ok_payRevenue (ps : list Player) (entry : string * SubmittedPath) :
  Forall okPlayer ps -> Forall okPlayer (payRevenue ps entry).
Proof.
  intros H. unfold payRevenue. destruct entry as [pid sp].
  destruct (find_player pid ps); [|exact H].
  apply Forall_update_first; [exact H|].
  intros x [Hc Hm] _. split; [exact Hc|]. simpl. lia.
Qed.

Lemma ok_dealHands (ps : list Player) (g : Rng) :
  Forall okPlayer ps -> Forall okPlayer (fst (dealHands ps g)).
Proof.
  intros H. revert g. induction H as [|p t Hp Ht IH]; intros g; [constructor|].
  cbn [dealHands]. destruct (dice p).
  - destruct (randomDiceArray 3 g) as [d g'].
    specialize (IH g'). destruct (dealHands t g'). cbn [fst] in *.
    constructor; [exact Hp|exact IH].
  - specialize (IH g). destruct (dealHands t g). cbn [fst] in *.
    constructor; [exact Hp|exact IH].
Qed.

Lemma ok_dealStart (ps : list Player) (g : Rng) :
  Forall okPlayer ps -> Forall okPlayer (fst (dealStart ps g)).
Proof.
  intros H. revert g. induction H as [|p t Hp Ht IH]; intros g; [constructor|].
  cbn [dealStart]. destruct (randomDiceArray 3 g) as [d g'].
  specialize (IH g'). destruct (dealStart t g'). cbn [fst] in *.
  constructor; [|exact IH].
  destruct Hp as [Hc _]. split; [exact Hc|]. simpl. unfold STARTING_MONEY. lia.
Qed.

Lemma ok_marketStep (t : Z) (acc : MarketAcc) (group : Z * list Bid) :
  Forall okPlayer (fst (fst acc)) ->
  Forall okPlayer (fst (fst (marketStep t acc group))).
Proof.
  destruct acc as [[ps md] cs]. destruct group as [i bids]. simpl. intros H.
  unfold marketStep.
  destruct ((i <? 0) || (i >=? len md)); [exact H|].
  destruct bids as [|b bs]; [exact H|].
  destruct (topBidders _ _) as [|w [|w' ws]]; try exact H.
  destruct (find_player w ps) as [player|] eqn:Hf; [|exact H].
  destruct (money player >=? _) eqn:Hm; [|exact H].
  cbn [fst]. eapply Forall_update_found; [exact Hf|exact H|].
  apply Z.geb_le in Hm. apply okPlayer_awardDie; [|exact Hm].
  rewrite Forall_forall in H. apply H. eapply find_some. exact Hf.
Qed.

Lemma ok_cellWinner (pending : PendingActions) (cell_id : string) (bestBid : Z)
    (acc : list Player * list Cell) (pid : string) :
  Forall okPlayer (fst acc) ->
  Forall okPlayer (fst (cellWinner pending cell_id bestBid acc pid)).
Proof.
  destruct acc as [ps g]. simpl. intros H. unfold cellWinner.
  destruct (find_cell cell_id g) as [cell|]; [|exact H].
  destruct (find_player pid ps) as [player|] eqn:Hf; [|exact H].
  destruct (declaredRole pending pid cell_id); [|exact H].
  destruct (money player <? bestBid) eqn:Hm; [exact H|].
  destruct (findIndex _ _ <? 0); [exact H|].
  simpl. eapply Forall_update_found; [exact Hf|exact H|].
  apply Z.ltb_ge in Hm. apply okPlayer_spendDie, okPlayer_with_money; [|lia].
  rewrite Forall_forall in H. apply H. eapply find_some. exact Hf.
Qed.

(* ------------------------------------------------------------------ *)
(** * Blocked cells stay without owners *)

Lemma shape_update_cell (cid : string) (f : Cell -> Cell) (g : list Cell) :
  (forall c, id (f c) = id c) -> (forall c, blocked (f c) = blocked c) ->
  shape (update_cell cid f g) = shape g.
Proof.
  intros Hi Hb. unfold shape, update_cell. apply update_first_map.
  intros x. rewrite Hi, Hb. reflexivity.
Qed.

Lemma shape_addOwner (cid pid : string) (ro : Role) (g : list Cell) :
  shape (update_cell cid (addOwner pid ro) g) = shape g.
Proof. apply shape_update_cell; reflexivity. Qed.

Lemma shape_aging (g : list Cell) : shape (applyOwnershipAging g) = shape g.
Proof.
  unfold shape, applyOwnershipAging. rewrite map_map. apply map_ext.
  intros c. unfold ageCell. destruct (noOwners c); reflexivity.
Qed.

Lemma find_cell_shape (cid : string) (g g' : list Cell) :
  shape g = shape g' ->
  option_map blocked (find_cell cid g) = option_map blocked (find_cell cid g').
Proof.
  revert g'. induction g as [|c t IH]; intros [|c' t'] H; try discriminate; [reflexivity|].
  simpl in H. inversion H as [[Hi Hb Ht]].
  unfold find_cell, is_cell in *. simpl. rewrite Hi.
  destruct (String.eqb (id c') cid); [simpl; congruence|]. apply IH. exact Ht.
Qed.

Lemma openTarget_shape (cid : string) (g g' : list Cell) :
  shape g = shape g' -> openTarget g cid -> openTarget g' cid.
Proof.
  intros Hs Ho c Hc. pose proof (find_cell_shape cid g g' Hs) as H.
  rewrite Hc in H. destruct (find_cell cid g) as [c0|] eqn:E; [|discriminate].
  simpl in H. injection H as Hb. rewrite <- Hb. apply Ho. exact E.
Qed.

Lemma buysOpen_shape (g g' : list Cell) (b : Rec (list BuyAct)) :
  shape g = shape g' -> buysOpen g b -> buysOpen g' b.
Proof.
  intros Hs H. unfold buysOpen in *. eapply Forall_impl; [|exact H].
  intros entry He. eapply Forall_impl; [|exact He].
  intros a. apply openTarget_shape. exact Hs.
Qed.

Lemma conflictsOpen_shape (g g' : list Cell) (cs : list Conflict) :
  shape g = shape g' -> Forall (conflictOpen g) cs -> Forall (conflictOpen g') cs.
Proof.
  intros Hs H. eapply Forall_impl; [|exact H].
  intros [cid cell pids|cid die pids]; simpl; [|auto].
  apply openTarget_shape. exact Hs.
Qed.

Lemma unowned_addOwner (cid pid : string) (ro : Role) (g : list Cell) :
  Forall blockedUnowned g -> openTarget g cid ->
  Forall blockedUnowned (update_cell cid (addOwner pid ro) g).
Proof.
  intros Hg Ho. destruct (find_cell cid g) as [c|] eqn:Hf.
  - eapply Forall_update_found; [exact Hf|exact Hg|].
    intros Hb. simpl in Hb. rewrite (Ho c Hf) in Hb. discriminate.
  - unfold update_cell. rewrite update_first_none by exact Hf. exact Hg.
Qed.

Lemma unowned_aging (g : list Cell) :
  Forall blockedUnowned g -> Forall blockedUnowned (applyOwnershipAging g).
Proof.
  intros H. unfold applyOwnershipAging. apply Forall_map.
  eapply Forall_impl; [|exact H]. intros c Hc. unfold blockedUnowned, ageCell in *.
  destruct (noOwners c); simpl; exact Hc.
Qed.

(** Board generation: every cell starts without owners. *)
Lemma buildCells_unowned (coords : list Axial) (i : nat) (dv : list Z)
    (bs : list nat) (g : Rng) :
  Forall (fun c => owners c = []) (fst (buildCells coords i dv bs g)).
Proof.
  revert i g. induction coords as [|a t IH]; intros i g; [constructor|].
  cbn [buildCells].
  destruct (randomInt 1 9 g) as [p g1]. destruct (randomInt 1 9 g1) as [s g2].
  specialize (IH (S i) g2). destruct (buildCells t (S i) dv bs g2).
  cbn [fst] in *. constructor; [reflexivity|exact IH].
Qed.

Lemma generateGrid_unowned (minCells blockedCount : Z) (g : Rng) :
  Forall (fun c => owners c = []) (fst (generateGrid minCells blockedCount g)).
Proof.
  unfold generateGrid.
  destruct (shuffle _ g) as [si g1].
  destruct (randomIntArray _ 1 6 g1) as [dv g2].
  match goal with |- context [if ?c then _ else _] => destruct c end.
  - destruct (shuffle _ g2) as [sp g3]. apply buildCells_unowned.
  - apply buildCells_unowned.
Qed.

(* ------------------------------------------------------------------ *)
(** * The invariant is kept by every branch of [alarm] *)

Lemma inv_set_pending (s : Storage) (pa : PendingActions) :
  Inv s -> buysOpen (grid s) (buy pa) ->
  Forall (conflictOpen (grid s)) (conflicts pa) -> Inv (set_pending pa s).
Proof. intros [Hp Hg _ _] Hb Hc. constructor; assumption. Qed.

Lemma inv_set_config (s : Storage) (c : option GameConfig) :
  Inv s -> Inv (set_config c s).
Proof. intros [Hp Hg Hb Hc]. constructor; assumption. Qed.

Lemma inv_setAlarm (s : Storage) (t : Z) : Inv s -> Inv (setAlarm t s).
Proof. intros [Hp Hg Hb Hc]. constructor; assumption. Qed.

Lemma inv_set_submittedPaths (s : Storage) (sp : Rec SubmittedPath) :
  Inv s -> Inv (set_submittedPaths sp s).
Proof. intros [Hp Hg Hb Hc]. constructor; assumption. Qed.

Lemma inv_set_winnerId (s : Storage) (w : option string) :
  Inv s -> Inv (set_winnerId w s).
Proof. intros [Hp Hg Hb Hc]. constructor; assumption. Qed.

Lemma inv_set_pathUsed (s : Storage) (u : option (Rec (list string))) :
  Inv s -> Inv (set_pathUsed u s).
Proof. intros [Hp Hg Hb Hc]. constructor; assumption. Qed.

Lemma inv_set_players (s : Storage) (ps : list Player) :
  Inv s -> Forall okPlayer ps -> Inv (set_players ps s).
Proof. intros [_ Hg Hb Hc] Hp. constructor; assumption. Qed.

Lemma inv_set_grid (s : Storage) (g : list Cell) :
  Inv s -> shape (grid s) = shape g -> Forall blockedUnowned g ->
  Inv (set_grid g s).
Proof.
  intros [Hp _ Hb Hc] Hs Hg. constructor; simpl; try assumption.
  - eapply buysOpen_shape; eassumption.
  - eapply conflictsOpen_shape; eassumption.
Qed.

Lemma inv_after_broadcast (e : Env) (s : Storage) :
  Inv s -> Inv (fst (broadcastState e s)).
Proof. intros H. rewrite inv_broadcast by exact H. exact H. Qed.

Lemma inv_pending_fresh (s : Storage) (ready : Rec unit) :
  Inv s -> Inv (set_pending (set_pathReady ready emptyPendingActions) s).
Proof. intros H. apply inv_set_pending; [exact H|constructor|constructor]. Qed.

Lemma inv_alarm_path (e : Env) (s : Storage) (cfg : GameConfig) :
  Inv s -> Inv (fst (alarm_path e s cfg)).
Proof.
  intros H. unfold alarm_path.
  pose proof (ok_dealHands (players s) (rng e) (inv_players H)) as Hd.
  destruct (dealHands (players s) (rng e)) as [ps g']. cbn [fst] in Hd.
  apply inv_after_broadcast, inv_setAlarm, inv_set_config, inv_set_players; assumption.
Qed.

Lemma inv_enterPathPhase (e : Env) (s : Storage) (cfg : GameConfig)
    (md : option (list Z)) :
  Inv s -> Inv (fst (enterPathPhase e s cfg md)).
Proof.
  intros H. unfold enterPathPhase. rewrite andThen_fst.
  apply inv_after_broadcast.
  destruct (_ && _).
  - apply inv_alarm_path, inv_set_config, inv_pending_fresh, H.
  - cbn [fst]. apply inv_setAlarm, inv_set_config, inv_pending_fresh, H.
Qed.

Lemma inv_alarm_round_start (e : Env) (s : Storage) (cfg : GameConfig) :
  Inv s -> Inv (fst (alarm_round_start e s cfg)).
Proof.
  intros H. unfold alarm_round_start. destruct (randomDiceArray _ _) as [md g'].
  apply inv_after_broadcast, inv_setAlarm, inv_set_config, inv_set_players.
  - apply inv_set_grid; [exact H|symmetry; apply shape_aging|].
    apply unowned_aging, H.
  - apply fold_left_invariant with (Q := fun _ => True).
    + apply Forall_map. eapply Forall_impl; [|exact (inv_players H)].
      intros p [Hc Hm]. split; [exact Hc|]. simpl. lia.
    + apply Forall_True.
    + intros x y Hx _. apply ok_payRevenue. exact Hx.
Qed.

Lemma marketStep_conflicts (t : Z) (g : list Cell) (acc : MarketAcc)
    (group : Z * list Bid) :
  Forall (conflictOpen g) (snd acc) ->
  Forall (conflictOpen g) (snd (marketStep t acc group)).
Proof.
  destruct acc as [[ps md] cs]. destruct group as [i bids]. cbn [snd]. intros H.
  unfold marketStep.
  destruct ((i <? 0) || (i >=? len md)); [exact H|].
  destruct bids as [|b bs]; [exact H|].
  destruct (topBidders _ _) as [|w [|w' ws]].
  - cbn [snd]. apply Forall_app. split; [exact H|repeat constructor].
  - destruct (find_player w ps) as [player|]; [|exact H].
    destruct (money player >=? _); exact H.
  - cbn [snd]. apply Forall_app. split; [exact H|repeat constructor].
Qed.

Lemma inv_alarm_market (e : Env) (s : Storage) (cfg : GameConfig) :
  Inv s -> Inv (fst (alarm_market e s cfg)).
Proof.
  intros H. unfold alarm_market.
  set (groups := bidsByDieIndex _ _).
  assert (Hfold :
    Forall okPlayer (fst (fst (fold_left (marketStep (now e)) groups
                                   (players s, orElse (marketDice cfg) [], [])))) /\
    Forall (conflictOpen (grid s))
           (snd (fold_left (marketStep (now e)) groups
                   (players s, orElse (marketDice cfg) [], [])))).
  { apply fold_left_invariant
      with (P := fun acc => Forall okPlayer (fst (fst acc)) /\
                            Forall (conflictOpen (grid s)) (snd acc))
           (Q := fun _ => True).
    - split; [exact (inv_players H)|constructor].
    - apply Forall_True.
    - intros x y [Hx1 Hx2] _. split;
        [apply ok_marketStep; exact Hx1|apply marketStep_conflicts; exact Hx2]. }
  destruct (fold_left _ _ _) as [[ps md] cs]. cbn [fst snd] in Hfold.
  destruct Hfold as [Hps Hcs].
  destruct cs as [|c cs'].
  - apply inv_after_broadcast, inv_setAlarm, inv_set_pending;
      [apply inv_set_config, inv_set_players; assumption|constructor|constructor].
  - apply inv_after_broadcast, inv_setAlarm, inv_set_config, inv_set_pending;
      [apply inv_set_players; assumption| |exact Hcs].
    exact (inv_buys H).
Qed.

(** *** buy_phase *)

Lemma indexAct_open (g : list Cell) (pid : string)
    (acc : BuyIndex * list string) (act : BuyAct) :
  Forall (fun kv => openTarget g (fst kv)) (snd (fst acc)) ->
  openTarget g (cellId act) ->
  Forall (fun kv => openTarget g (fst kv)) (snd (fst (indexAct pid acc act))).
Proof.
  destruct acc as [[roles byCell] seen]. cbn [fst snd]. intros H Ho.
  unfold indexAct. destruct (_ || _); [exact H|]. cbn [fst snd].
  apply Forall_rset; [exact H|exact Ho].
Qed.

Lemma indexBuys_open (g : list Cell) (b : Rec (list BuyAct)) :
  buysOpen g b -> Forall (fun kv => openTarget g (fst kv)) (snd (indexBuys b)).
Proof.
  intros H. unfold indexBuys.
  apply fold_left_invariant
    with (P := fun acc : BuyIndex => Forall (fun kv => openTarget g (fst kv)) (snd acc))
         (Q := fun entry : string * list BuyAct =>
                 Forall (fun a => openTarget g (cellId a)) (snd entry)).
  - constructor.
  - exact H.
  - intros acc [pid acts] Hacc Hacts. unfold indexPlayer.
    apply fold_left_invariant
      with (P := fun a : BuyIndex * list string =>
                   Forall (fun kv => openTarget g (fst kv)) (snd (fst a)))
           (Q := fun a : BuyAct => openTarget g (cellId a)).
    + exact Hacc.
    + exact Hacts.
    + intros x y Hx Hy. apply indexAct_open; assumption.
Qed.

Lemma classifyCell_open (t : Z) (g : list Cell) (ps : list Player)
    (roles : Rec Role) (acc : list Conflict * list Claim)
    (entry : string * list string) :
  Forall (conflictOpen g) (fst acc) /\
  Forall (fun cl => openTarget g (c_cellId cl)) (snd acc) ->
  openTarget g (fst entry) ->
  Forall (conflictOpen g) (fst (classifyCell t g ps roles acc entry)) /\
  Forall (fun cl => openTarget g (c_cellId cl))
         (snd (classifyCell t g ps roles acc entry)).
Proof.
  destruct acc as [cs toApply]. destruct entry as [cell_id pids].
  cbn [fst snd]. intros [Hc Ha] Ho. unfold classifyCell.
  destruct pids as [|p0 [|p1 rest]].
  - cbn [fst snd]. split; [|exact Ha].
    apply Forall_app. split; [exact Hc|]. constructor; [exact Ho|constructor].
  - destruct (find_cell cell_id g) as [cell|]; [|split; assumption].
    destruct (find_player p0 ps) as [player|]; [|split; assumption].
    destruct (rget _ roles) as [ro|]; [|split; assumption].
    destruct (_ && _); [|split; assumption].
    cbn [fst snd]. split; [exact Hc|].
    apply Forall_app. split; [exact Ha|]. constructor; [exact Ho|constructor].
  - cbn [fst snd]. split; [|exact Ha].
    apply Forall_app. split; [exact Hc|]. constructor; [exact Ho|constructor].
Qed.

(** Buy-phase resolution itself only lets claims on unblocked cells
    through. *)
Lemma classifyCell_unblocked (t : Z) (g : list Cell) (ps : list Player)
    (roles : Rec Role) (acc : list Conflict * list Claim)
    (entry : string * list string) :
  Forall (fun cl => openTarget g (c_cellId cl)) (snd acc) ->
  Forall (fun cl => openTarget g (c_cellId cl))
         (snd (classifyCell t g ps roles acc entry)).
Proof.
  destruct acc as [cs toApply]. destruct entry as [cell_id pids].
  cbn [fst snd]. intros Ha. unfold classifyCell.
  destruct pids as [|p0 [|p1 rest]]; try exact Ha.
  destruct (find_cell cell_id g) as [cell|] eqn:Hf; [|exact Ha].
  destruct (find_player p0 ps) as [player|]; [|exact Ha].
  destruct (rget _ roles) as [ro|]; [|exact Ha].
  destruct (negb (blocked cell)) eqn:Hb; [|exact Ha].
  destruct (holdsDie _ _); [|exact Ha].
  cbn [fst snd andb]. apply Forall_app. split; [exact Ha|].
  constructor; [|constructor].
  cbn [c_cellId]. intros c Hc. rewrite Hf in Hc. injection Hc as <-.
  apply negb_true_iff. exact Hb.
Qed.

Lemma filterClaim_kept (R : Claim -> Prop) (g : list Cell)
    (acc : DicePool * list Claim) (act : Claim) :
  Forall R (snd acc) -> R act -> Forall R (snd (filterClaim g acc act)).
Proof.
  destruct acc as [pool kept]. cbn [snd]. intros H Hr. unfold filterClaim.
  destruct (find_cell _ g); [|exact H].
  destruct (rget _ pool); [|exact H].
  destruct (_ <=? 0); [exact H|].
  cbn [snd]. apply Forall_app. split; [exact H|]. constructor; [exact Hr|constructor].
Qed.

Lemma filteredToApply_kept (R : Claim -> Prop) (g : list Cell) (ps : list Player)
    (toApply : list Claim) :
  Forall R toApply -> Forall R (filteredToApply g ps toApply).
Proof.
  intros H. unfold filteredToApply.
  apply fold_left_invariant
    with (P := fun acc : DicePool * list Claim => Forall R (snd acc)) (Q := R).
  - constructor.
  - exact H.
  - intros x y Hx Hy. apply filterClaim_kept; assumption.
Qed.

Lemma applyClaim_keeps (g0 : list Cell) (acc : list Player * list Cell)
    (act : Claim) :
  keeps g0 acc -> openTarget g0 (c_cellId act) -> keeps g0 (applyClaim acc act).
Proof.
  destruct acc as [ps g]. intros (Hp & Hg & Hs) Ho. unfold applyClaim.
  cbn [fst snd] in *.
  destruct (find_cell _ g) as [cell|]; [|repeat split; assumption].
  repeat split; cbn [fst snd].
  - apply Forall_update_first; [exact Hp|].
    intros x Hx _. apply okPlayer_spendDie. exact Hx.
  - apply unowned_addOwner; [exact Hg|].
    eapply openTarget_shape; [exact Hs|exact Ho].
  - rewrite shape_addOwner. exact Hs.
Qed.

Lemma inv_alarm_buy (e : Env) (s : Storage) (cfg : GameConfig) :
  Inv s -> Inv (fst (alarm_buy e s cfg)).
Proof.
  intros H. unfold alarm_buy.
  pose proof (indexBuys_open (grid s) (buy (pendingActions s)) (inv_buys H)) as Hkeys.
  destruct (indexBuys (buy (pendingActions s))) as [roles byCell].
  cbn [snd] in Hkeys.
  assert (Hcl :
    Forall (conflictOpen (grid s))
      (fst (fold_left (classifyCell (now e) (grid s) (players s) roles) byCell ([], []))) /\
    Forall (fun cl => openTarget (grid s) (c_cellId cl))
      (snd (fold_left (classifyCell (now e) (grid s) (players s) roles) byCell ([], [])))).
  { apply fold_left_invariant
      with (P := fun acc : list Conflict * list Claim =>
                   Forall (conflictOpen (grid s)) (fst acc) /\
                   Forall (fun cl => openTarget (grid s) (c_cellId cl)) (snd acc))
           (Q := fun entry : string * list string => openTarget (grid s) (fst entry)).
    - split; constructor.
    - exact Hkeys.
    - intros x y Hx Hy. apply classifyCell_open; assumption. }
  destruct (fold_left (classifyCell _ _ _ _) _ _) as [cs toApply].
  cbn [fst snd] in Hcl. destruct Hcl as [Hcs Hta].
  assert (Hap : keeps (grid s)
            (fold_left applyClaim (filteredToApply (grid s) (players s) toApply)
                       (players s, grid s))).
  { apply fold_left_invariant
      with (P := keeps (grid s))
           (Q := fun cl : Claim => openTarget (grid s) (c_cellId cl)).
    - repeat split; [exact (inv_players H)|exact (inv_grid H)].
    - apply filteredToApply_kept. exact Hta.
    - intros x y Hx Hy. apply applyClaim_keeps; assumption. }
  destruct (fold_left applyClaim _ _) as [ps g].
  destruct Hap as (Hps & Hg & Hs). cbn [fst snd] in *.
  assert (H1 : Inv (set_grid g (set_players ps s))).
  { apply inv_set_grid; [apply inv_set_players; assumption|exact Hs|exact Hg]. }
  destruct cs as [|c cs'].
  - apply inv_enterPathPhase. exact H1.
  - apply inv_after_broadcast, inv_setAlarm, inv_set_config, inv_set_pending.
    + exact H1.
    + exact (inv_buys H1).
    + cbn [conflicts set_auctionBids set_conflicts grid set_grid].
      eapply conflictsOpen_shape; [exact Hs|exact Hcs].
Qed.

(** *** auction *)

Lemma cellWinner_keeps (g0 : list Cell) (pending : PendingActions)
    (cell_id : string) (bestBid : Z) (acc : list Player * list Cell)
    (pid : string) :
  keeps g0 acc -> openTarget g0 cell_id ->
  keeps g0 (cellWinner pending cell_id bestBid acc pid).
Proof.
  intros Hk Ho. pose proof (ok_cellWinner pending cell_id bestBid acc pid (proj1 Hk)) as Hp.
  destruct acc as [ps g]. destruct Hk as (_ & Hg & Hs). cbn [fst snd] in *.
  split; [exact Hp|]. clear Hp. unfold cellWinner.
  destruct (find_cell cell_id g) as [cell|]; [|split; assumption].
  destruct (find_player pid ps) as [player|]; [|split; assumption].
  destruct (declaredRole pending pid cell_id); [|split; assumption].
  destruct (money player <? bestBid); [split; assumption|].
  destruct (findIndex _ _ <? 0); [split; assumption|].
  cbn [snd]. split.
  - apply unowned_addOwner; [exact Hg|].
    eapply openTarget_shape; [exact Hs|exact Ho].
  - rewrite shape_addOwner. exact Hs.
Qed.

Lemma auctionStep_keeps (g0 : list Cell) (pending : PendingActions)
    (acc : AuctionAcc) (c : Conflict) :
  keeps g0 (fst acc) -> conflictOpen g0 c ->
  keeps g0 (fst (auctionStep pending acc c)).
Proof.
  destruct acc as [[ps g] md]. cbn [fst]. intros Hk Ho. unfold auctionStep.
  destruct c as [cid cell_id pids|cid dieIdx pids].
  - destruct (find_cell cell_id g); [|exact Hk].
    match goal with
    | |- context [fold_left ?f ?l ?a] =>
        assert (Hf : keeps g0 (fold_left f l a))
    end.
    { apply fold_left_invariant with (P := keeps g0) (Q := fun _ : string => True).
      - exact Hk.
      - apply Forall_True.
      - intros x y Hx _. apply cellWinner_keeps; assumption. }
    destruct (fold_left _ _ _) as [ps' g']. exact Hf.
  - match goal with
    | |- context [match ?b with Some _ => _ | None => _ end] =>
        destruct b as [w|] end; [|exact Hk].
    destruct (find_player w ps) as [player|] eqn:Hf; [|exact Hk].
    destruct (idx md dieIdx) as [die|]; [|exact Hk].
    destruct (negb (isTaken die)); [|exact Hk].
    destruct (money player >=? _) eqn:Hm; [|exact Hk].
    destruct Hk as (Hp & Hg & Hs). cbn [fst snd andb] in *.
    repeat split; try assumption.
    eapply Forall_update_found; [exact Hf|exact Hp|].
    apply Z.geb_le in Hm. apply okPlayer_awardDie; [|exact Hm].
    rewrite Forall_forall in Hp. apply Hp. eapply find_some. exact Hf.
Qed.

Lemma inv_alarm_auction (e : Env) (s : Storage) (cfg : GameConfig) :
  Inv s -> Inv (fst (alarm_auction e s cfg)).
Proof.
  intros H. unfold alarm_auction.
  assert (Hf : keeps (grid s)
     (fst (fold_left (auctionStep (pendingActions s)) (conflicts (pendingActions s))
                     (players s, grid s, orElse (marketDice cfg) [])))).
  { apply fold_left_invariant
      with (P := fun acc : AuctionAcc => keeps (grid s) (fst acc))
           (Q := conflictOpen (grid s)).
    - repeat split; [exact (inv_players H)|exact (inv_grid H)].
    - exact (inv_conflicts H).
    - intros x y Hx Hy. apply auctionStep_keeps; assumption. }
  destruct (fold_left _ _ _) as [[ps g] md]. destruct Hf as (Hp & Hg & Hs).
  cbn [fst snd] in *.
  apply inv_enterPathPhase, inv_set_grid;
    [apply inv_set_players; assumption|exact Hs|exact Hg].
Qed.

Lemma inv_cleanupRoom (s : Storage) : Inv (fst (cleanupRoom s)).
Proof. constructor; constructor. Qed.

Lemma inv_alarm_round_end (e : Env) (s : Storage) (cfg : GameConfig) :
  Inv s -> Inv (fst (alarm_round_end e s cfg)).
Proof.
  intros H. unfold alarm_round_end. destruct (_ >=? _).
  - destruct (players s) eqn:Hps.
    + cbn [fst]. apply inv_set_config, H.
    + rewrite andThen_fst. cbn [fst].
      apply inv_setAlarm, inv_after_broadcast, inv_set_winnerId, inv_set_config, H.
  - destruct (randomDiceArray _ _) as [md g'].
    apply inv_after_broadcast, inv_setAlarm, inv_set_config, inv_set_pathUsed, H.
Qed.

Lemma inv_alarm (e : Env) (s : Storage) : Inv s -> Inv (fst (alarm e s)).
Proof.
  intros H. unfold alarm. destruct (config s) as [cfg|]; [|exact H].
  destruct (phase cfg).
  - exact H.
  - apply inv_alarm_round_start, H.
  - apply inv_alarm_market, H.
  - apply inv_alarm_buy, H.
  - apply inv_alarm_path, H.
  - apply inv_alarm_auction, H.
  - apply inv_alarm_round_end, H.
  - destruct (deadlinePassed e cfg); [apply inv_cleanupRoom|exact H].
Qed.

(* ------------------------------------------------------------------ *)
(** * The invariant is kept by every message handler *)

Lemma inv_notJoined (e : Env) (ws : nat) (s : Storage) :
  Inv s -> fst (notJoined e ws s) = s.
Proof.
  intros H. unfold notJoined. rewrite andThen_fst. cbn [sendTo fst].
  rewrite inv_broadcast by exact H. reflexivity.
Qed.

Lemma inv_handleJoin (e : Env) (ws : nat) (name : option string) (s : Storage) :
  Inv s -> Inv (fst (handleJoin e ws name s)).
Proof.
  intros H. unfold handleJoin. destruct (inPhase lobby s); [|exact H].
  rewrite ensurePlayerColors_same by exact (inv_players H).
  pose proof (distinctPlayerColor_nonempty (map color (players s)) (rng e)) as Hc.
  destruct (distinctPlayerColor _ _) as [c g']. cbn [fst] in Hc.
  rewrite andThen_fst. cbn [fst].
  apply inv_after_broadcast, inv_set_players; [exact H|].
  apply Forall_app. split; [exact (inv_players H)|].
  constructor; [|constructor]. split; [apply noColor_false; exact Hc|simpl; lia].
Qed.

Lemma inv_handleRejoin (e : Env) (ws : nat) (pid : string)
    (name : option string) (s : Storage) :
  Inv s -> Inv (fst (handleRejoin e ws pid name s)).
Proof.
  intros H. unfold handleRejoin. destruct (existsb _ _).
  - rewrite andThen_fst. cbn [fst]. apply inv_after_broadcast, H.
  - destruct (inPhase lobby s); [apply inv_handleJoin, H|].
    rewrite andThen_fst. cbn [sendTo fst]. apply inv_after_broadcast, H.
Qed.

Lemma inv_handleStartGame (e : Env) (ws : nat) (s : Storage) :
  Inv s -> Inv (fst (handleStartGame e ws s)).
Proof.
  intros H. unfold handleStartGame.
  rewrite ensurePlayerColors_same by exact (inv_players H).
  destruct (config s) as [cfg|]; [|exact H].
  destruct (_ || _); [exact H|].
  pose proof (generateGrid_unowned (len (players s) * roundCount cfg)
                (Z.min 15 (Z.max 5 (len (players s) * roundCount cfg / 10))) (rng e)) as Hg.
  destruct (generateGrid _ _ _) as [grid' g2]. cbn [fst] in Hg.
  destruct (randomDiceArray _ g2) as [md g3].
  pose proof (ok_dealStart (players s) g3 (inv_players H)) as Hd.
  destruct (dealStart _ g3) as [ps' g4]. cbn [fst] in Hd.
  apply inv_after_broadcast. constructor; cbn; try constructor.
  - exact Hd.
  - eapply Forall_impl; [|exact Hg]. intros c Hc _. exact Hc.
Qed.

Lemma inv_pending_only (s : Storage) (pa : PendingActions) :
  Inv s -> buy pa = buy (pendingActions s) ->
  conflicts pa = conflicts (pendingActions s) -> Inv (set_pending pa s).
Proof.
  intros H Hb Hc. apply inv_set_pending; [exact H| |].
  - rewrite Hb. exact (inv_buys H).
  - rewrite Hc. exact (inv_conflicts H).
Qed.

Lemma inv_handleMarketBid (e : Env) (ws : nat) (attached : option string)
    (die amt : Z) (s : Storage) :
  Inv s -> Inv (fst (handleMarketBid e ws attached die amt s)).
Proof.
  intros H. unfold handleMarketBid. destruct (joinedAs attached) as [pid|].
  2:{ rewrite inv_notJoined by exact H. exact H. }
  destruct (config s) as [cfg|]; [|apply inv_after_broadcast, H].
  destruct (negb _); [apply inv_after_broadcast, H|].
  destruct (_ || _); [exact H|]. destruct (amt <? _); [exact H|].
  match goal with |- context [set_pending ?pa s] =>
    assert (H1 : Inv (set_pending pa s)) by (apply inv_pending_only; [exact H| |]; reflexivity)
  end.
  destruct (everyoneIn _ _); [apply inv_alarm|apply inv_after_broadcast]; exact H1.
Qed.

Lemma inv_handleMarketSkip (e : Env) (ws : nat) (attached : option string)
    (s : Storage) :
  Inv s -> Inv (fst (handleMarketSkip e ws attached s)).
Proof.
  intros H. unfold handleMarketSkip. destruct (joinedAs attached) as [pid|].
  2:{ rewrite inv_notJoined by exact H. exact H. }
  destruct (negb _); [apply inv_after_broadcast, H|].
  match goal with |- context [set_pending ?pa s] =>
    assert (H1 : Inv (set_pending pa s)) by (apply inv_pending_only; [exact H| |]; reflexivity)
  end.
  destruct (everyoneIn _ _); [apply inv_alarm|apply inv_after_broadcast]; exact H1.
Qed.

Lemma inv_handleMarketRecycle (e : Env) (ws : nat) (attached : option string)
    (die : Z) (s : Storage) :
  Inv s -> Inv (fst (handleMarketRecycle e ws attached die s)).
Proof.
  intros H. unfold handleMarketRecycle. destruct (joinedAs attached) as [pid|]; [|exact H].
  destruct (negb _); [exact H|].
  destruct (find_player pid (players s)) as [player|]; [|exact H].
  destruct (_ || _); [exact H|].
  apply inv_after_broadcast, inv_set_players; [exact H|].
  apply Forall_update_first; [exact (inv_players H)|].
  intros x [Hc Hm] _. split; [exact Hc|]. simpl. lia.
Qed.

Lemma queueStep_kept (R : BuyAct -> Prop) (byId : Rec Cell)
    (acc : list (Z * Z) * list BuyAct) (action : BuyAct) :
  Forall R (snd acc) -> R action -> Forall R (snd (queueStep byId acc action)).
Proof.
  destruct acc as [pool q0]. cbn [snd]. intros H Hr. unfold queueStep.
  destruct (rget _ byId) as [target|]; [|exact H].
  destruct (blocked target); [exact H|].
  destruct (_ <=? 0); [exact H|].
  cbn [snd]. apply Forall_app. split; [exact H|]. constructor; [exact Hr|constructor].
Qed.

Lemma buysOpen_current (g : list Cell) (b : Rec (list BuyAct)) (pid : string) :
  buysOpen g b ->
  Forall (fun a => openTarget g (cellId a)) (orElse (rget pid b) []).
Proof.
  intros H. destruct (rget pid b) as [acts|] eqn:E; [|constructor].
  apply rget_In in E. unfold buysOpen in H. rewrite Forall_forall in H.
  exact (H _ E).
Qed.

Lemma Forall_filter {A} (P : A -> Prop) (f : A -> bool) (l : list A) :
  Forall P l -> Forall P (filter f l).
Proof.
  intros H. apply Forall_forall. intros x Hx. apply filter_In in Hx.
  rewrite Forall_forall in H. apply H, Hx.
Qed.

Lemma inv_handleBuyCell (e : Env) (ws : nat) (attached : option string)
    (cell_id : string) (ro : Role) (s : Storage) :
  Inv s -> Inv (fst (handleBuyCell e ws attached cell_id ro s)).
Proof.
  intros H. unfold handleBuyCell. destruct (joinedAs attached) as [pid|].
  2:{ rewrite inv_notJoined by exact H. exact H. }
  destruct (negb _); [apply inv_after_broadcast, H|].
  destruct (find_cell cell_id (grid s)) as [cell|] eqn:Hf; [|exact H].
  destruct (find_player pid (players s)) as [player|]; [|exact H].
  destruct (blocked cell) eqn:Hb; [exact H|]. cbn [orb].
  destruct (negb (holdsDie _ _)); [exact H|].
  destruct (negb (existsb _ _)); [exact H|].
  apply inv_after_broadcast, inv_set_pending; [exact H| |exact (inv_conflicts H)].
  cbn [buy set_buyDone set_buy]. apply Forall_rset; [exact (inv_buys H)|].
  cbn [snd].
  apply fold_left_invariant
    with (P := fun acc : list (Z * Z) * list BuyAct =>
                 Forall (fun a => openTarget (grid s) (cellId a)) (snd acc))
         (Q := fun a : BuyAct => openTarget (grid s) (cellId a)).
  - constructor.
  - apply Forall_app. split.
    + apply Forall_filter, buysOpen_current. exact (inv_buys H).
    + constructor; [|constructor]. cbn [cellId]. intros c Hc.
      rewrite Hf in Hc. injection Hc as <-. exact Hb.
  - intros x y Hx Hy. apply queueStep_kept; assumption.
Qed.

Lemma inv_handleBuyCellCancel (e : Env) (ws : nat) (attached : option string)
    (cell_id : string) (s : Storage) :
  Inv s -> Inv (fst (handleBuyCellCancel e ws attached cell_id s)).
Proof.
  intros H. unfold handleBuyCellCancel. destruct (joinedAs attached) as [pid|].
  2:{ rewrite inv_notJoined by exact H. exact H. }
  destruct (negb _); [apply inv_after_broadcast, H|].
  apply inv_after_broadcast, inv_set_pending; [exact H| |exact (inv_conflicts H)].
  cbn [buy set_buyDone set_buy].
  assert (Hr : buysOpen (grid s)
            (rset pid (filter (fun a => negb (sameCell cell_id a))
                         (orElse (rget pid (buy (pendingActions s))) []))
                  (buy (pendingActions s)))).
  { apply Forall_rset; [exact (inv_buys H)|]. cbn [snd].
    apply Forall_filter, buysOpen_current. exact (inv_buys H). }
  destruct (filter _ _); [apply Forall_rdel|]; exact Hr.
Qed.

Lemma inv_handleBuyDone (e : Env) (ws : nat) (attached : option string)
    (s : Storage) :
  Inv s -> Inv (fst (handleBuyDone e ws attached s)).
Proof.
  intros H. unfold handleBuyDone. destruct (joinedAs attached) as [pid|].
  2:{ rewrite inv_notJoined by exact H. exact H. }
  destruct (negb _); [apply inv_after_broadcast, H|].
  match goal with |- context [set_pending ?pa s] =>
    assert (H1 : Inv (set_pending pa s)) by (apply inv_pending_only; [exact H| |]; reflexivity)
  end.
  destruct (everyoneIn _ _); [apply inv_alarm|apply inv_after_broadcast]; exact H1.
Qed.

Lemma inv_handleAuctionBid (e : Env) (ws : nat) (attached : option string)
    (conflict_id : string) (amt : Z) (s : Storage) :
  Inv s -> Inv (fst (handleAuctionBid e ws attached conflict_id amt s)).
Proof.
  intros H. unfold handleAuctionBid. destruct (joinedAs attached) as [pid|]; [|exact H].
  destruct (negb _); [exact H|].
  destruct (find _ _); [|exact H].
  apply inv_after_broadcast, inv_pending_only; [exact H| |]; reflexivity.
Qed.

Lemma inv_handlePath (e : Env) (ws : nat) (attached : option string)
    (pr se : string) (p : list Axial) (s : Storage) :
  Inv s -> Inv (fst (handlePath e ws attached pr se p s)).
Proof.
  intros H. unfold handlePath. destruct (joinedAs attached) as [pid|]; [|exact H].
  destruct (negb _); [exact H|].
  destruct (find_cell pr (grid s)) as [P|]; [|exact H].
  destruct (find_cell se (grid s)) as [S|]; [|exact H].
  destruct (negb _); [exact H|]. destruct (negb _); [exact H|].
  destruct p as [|a [|b rest]]; try exact H.
  destruct (_ || _); [exact H|].
  destruct (checkPath _ _); [exact H|].
  rewrite andThen_fst. cbn [fst].
  apply inv_after_broadcast, inv_set_submittedPaths, inv_pending_only;
    [exact H| |]; reflexivity.
Qed.

Lemma inv_handlePathDone (e : Env) (ws : nat) (attached : option string)
    (s : Storage) :
  Inv s -> Inv (fst (handlePathDone e ws attached s)).
Proof.
  intros H. unfold handlePathDone. destruct (joinedAs attached) as [pid|].
  2:{ rewrite inv_notJoined by exact H. exact H. }
  destruct (negb _); [apply inv_after_broadcast, H|].
  match goal with |- context [set_pending ?pa s] =>
    assert (H1 : Inv (set_pending pa s)) by (apply inv_pending_only; [exact H| |]; reflexivity)
  end.
  destruct (everyoneIn _ _); [apply inv_alarm|apply inv_after_broadcast]; exact H1.
Qed.

Lemma inv_maybeAdvance (e : Env) (s : Storage) :
  Inv s -> Inv (fst (maybeAdvanceTimedPhase e s)).
Proof.
  intros H. unfold maybeAdvanceTimedPhase. destruct (config s) as [cfg|]; [|exact H].
  destruct (_ && _); [apply inv_alarm, H|exact H].
Qed.

Lemma inv_step (e : Env) (s : Storage) (ev : Event) :
  Inv s -> Inv (fst (step e s ev)).
Proof.
  intros H. destruct ev as [ws attached m| |]; cbn [step].
  - destruct m; cbn [webSocketMessage].
    + rewrite andThen_fst. apply inv_after_broadcast, inv_maybeAdvance, H.
    + apply inv_handleJoin, H.
    + apply inv_handleRejoin, H.
    + apply inv_handleStartGame, H.
    + apply inv_handleBuyCell, H.
    + apply inv_handleBuyCellCancel, H.
    + apply inv_handleBuyDone, H.
    + apply inv_handleAuctionBid, H.
    + apply inv_handlePath, H.
    + apply inv_handlePathDone, H.
    + apply inv_handleMarketBid, H.
    + apply inv_handleMarketSkip, H.
    + apply inv_handleMarketRecycle, H.
    + apply inv_after_broadcast, H.
  - apply inv_alarm, H.
  - apply inv_after_broadcast, H.
Qed.

Lemma inv_initialize (rounds : Z) : Inv (initialize rounds).
Proof. constructor; constructor. Qed.

Lemma reachable_inv (s : Storage) : reachable s -> Inv s.
Proof.
  intros H. induction H as [rounds|e s ev _ IH].
  - apply inv_initialize.
  - apply inv_step, IH.
Qed.

(* ------------------------------------------------------------------ *)
(** * Reachable rooms (C9, C10) *)

Lemma reachable_run (evs : list (Env * Event)) (s : Storage) :
  reachable s -> reachable (run evs s).
Proof.
  revert s. induction evs as [|[e ev] t IH]; intros s H; [exact H|].
  unfold run. cbn [fold_left fst snd]. apply IH. apply reach_step. exact H.
Qed.

Lemma startedRoom_reachable : reachable startedRoom.
Proof. apply reachable_run, reach_init. Qed.

Lemma roundOneStart_reachable : reachable roundOneStart.
Proof. apply reachable_run, startedRoom_reachable. Qed.

Lemma roundOneMarket_reachable : reachable roundOneMarket.
Proof. apply reach_step, roundOneStart_reachable. Qed.

Lemma roundTwoStart_reachable : reachable roundTwoStart.
Proof. apply reachable_run, roundOneMarket_reachable. Qed.

Lemma handleBuyCell_blocked (e : Env) (ws : nat) (attached : option string)
    (cell_id : string) (ro : Role) (s : Storage) (c : Cell) :
  Inv s -> find_cell cell_id (grid s) = Some c -> blocked c = true ->
  fst (handleBuyCell e ws attached cell_id ro s) = s /\
  (forall pid, joinedAs attached = Some pid -> inPhase buy_phase s = true ->
     snd (handleBuyCell e ws attached cell_id ro s) = [OError ws "Invalid buy"]).
Proof.
  intros H Hf Hb. unfold handleBuyCell.
  destruct (joinedAs attached) as [pid|].
  2:{ split; [apply inv_notJoined, H|intros pid Hp; discriminate Hp]. }
  destruct (inPhase buy_phase s); cbn [negb].
  - rewrite Hf. destruct (find_player pid (players s)) as [player|].
    + rewrite Hb. cbn [orb sendTo fst snd]. split; [reflexivity|]. reflexivity.
    + cbn [sendTo fst snd]. split; reflexivity.
  - rewrite inv_broadcast by exact H. split; [reflexivity|].
    intros pid' _ Hp. discriminate Hp.
Qed.

(** C9.  In every reachable room a blocked cell has no owners.  The board
    generator creates every cell with an empty owners list; a request to
    queue a buy for a blocked cell leaves the room as it is (and is answered
    with the error "Invalid buy" when it comes from a joined player in the
    buy phase); and whatever event comes next, the blocked cells of the
    resulting room still have no owners. *)
Theorem C9_blocked_cells_have_no_owners (s : Storage) :
  reachable s ->
  (forall c, In c (grid s) -> blocked c = true -> owners c = []) /\
  (forall minCells blockedCount g c,
     In c (fst (generateGrid minCells blockedCount g)) -> owners c = []) /\
  (forall e ws attached cell_id ro c,
     find_cell cell_id (grid s) = Some c -> blocked c = true ->
     fst (handleBuyCell e ws attached cell_id ro s) = s /\
     (forall pid, joinedAs attached = Some pid -> inPhase buy_phase s = true ->
        snd (handleBuyCell e ws attached cell_id ro s) = [OError ws "Invalid buy"])) /\
  (forall e ev c,
     In c (grid (fst (step e s ev))) -> blocked c = true -> owners c = []).
Proof.
  intros Hr. pose proof (reachable_inv s Hr) as H.
  split; [|split; [|split]].
  - intros c Hc. pose proof (inv_grid H) as Hg. rewrite Forall_forall in Hg.
    exact (Hg c Hc).
  - intros m b g c Hc. pose proof (generateGrid_unowned m b g) as Hg.
    rewrite Forall_forall in Hg. exact (Hg c Hc).
  - intros e ws attached cell_id ro c Hf Hb.
    apply handleBuyCell_blocked with (c := c); assumption.
  - intros e ev c Hc. pose proof (inv_grid (inv_step e s ev H)) as Hg.
    rewrite Forall_forall in Hg. exact (Hg c Hc).
Qed.

(** C10.  In every reachable room every player's money is non-negative,
    and it stays so after any further event. *)
Theorem C10_money_never_negative (s : Storage) (p : Player) :
  reachable s -> In p (players s) -> 0 <= money p.
Proof.
  intros Hr Hp. pose proof (inv_players (reachable_inv s Hr)) as H.
  rewrite Forall_forall in H. exact (proj2 (H p Hp)).
Qed.

Lemma C9_blocked_cells_have_no_owners_witness :
  owners (nth 4 (grid startedRoom) (rowCell 0 [])) = [].
Proof.
  refine (proj1 (C9_blocked_cells_have_no_owners startedRoom startedRoom_reachable)
            (nth 4 (grid startedRoom) (rowCell 0 [])) _ _).
  - vm_compute. do 4 right. left. reflexivity.
  - vm_compute. reflexivity.
Defined.

Lemma C10_money_never_negative_witness :
  0 <= money (nth 0 (players roundTwoStart) (plainPlayer "" 0 [])).
Proof.
  refine (C10_money_never_negative roundTwoStart
            (nth 0 (players roundTwoStart) (plainPlayer "" 0 []))
            roundTwoStart_reachable _).
  vm_compute. left. reflexivity.
Defined.

(* ------------------------------------------------------------------ *)
(** * Actions addressed to another phase (C8) *)

Lemma inPhase_false_negb (ph : GamePhase) (s : Storage) :
  inPhase ph s = false -> negb (inPhase ph s) = true.
Proof. intros ->. reflexivity. Qed.

Lemma inPhase_config (ph : GamePhase) (s : Storage) (cfg : GameConfig) :
  inPhase ph s = false -> config s = Some cfg -> phase_eqb (phase cfg) ph = false.
Proof. unfold inPhase. intros H Hc. rewrite Hc in H. exact H. Qed.

(** The claim as written fails: when Ann, a joined player, bids on a
    market die while the started room is still in round_start, the room is
    left as it was and the state is broadcast, but no error message goes
    to anybody. *)
Lemma C8_no_error_is_sent :
  reachable startedRoom /\
  inPhase market_phase startedRoom = false /\
  fst (webSocketMessage (demoEnv 4 "") 1 ann (MarketBid 0 5) startedRoom)
    = startedRoom /\
  snd (webSocketMessage (demoEnv 4 "") 1 ann (MarketBid 0 5) startedRoom)
    = [OState] /\
  ~ exists w msg,
      In (OError w msg)
         (snd (webSocketMessage (demoEnv 4 "") 1 ann (MarketBid 0 5) startedRoom)).
Proof.
  split; [exact startedRoom_reachable|].
  do 3 (split; [vm_compute; reflexivity|]).
  intros (w & msg & H). vm_compute in H.
  destruct H as [H|[]]. discriminate H.
Qed.

(** C8, amended.  In a reachable room, a player action addressed to a
    phase other than the current one leaves the storage exactly as it was,
    and what is sent back is fixed by the kind of action alone:
    [market_bid], [market_skip], [buy_cell], [buy_cell_cancel], [buy_done]
    and [path_done] are answered with the state broadcast, preceded by the
    error "Not joined to this room." to the sender when the socket is not
    joined; [market_recycle], [auction_bid], [path] and [join] are ignored
    without any message; [start_game] is answered with the error "Need at
    least 2 players" to the sender alone.  No message names the phase
    mismatch. *)
Theorem C8_wrong_phase_answer (e : Env) (ws : nat) (attached : option string)
    (m : Msg) (ph : GamePhase) (s : Storage) :
  reachable s -> addressedTo m = Some ph -> inPhase ph s = false ->
  webSocketMessage e ws attached m s = (s, wrongPhaseAnswer ws attached m).
Proof.
  intros Hr Hm Hph. pose proof (reachable_inv s Hr) as H.
  pose proof (inv_broadcast e s H) as Hb.
  assert (Hnj : notJoined e ws s = (s, [OError ws "Not joined to this room."; OState])).
  { unfold notJoined, andThen, sendTo. rewrite Hb. reflexivity. }
  pose proof (inPhase_false_negb ph s Hph) as Hneg.
  destruct m; cbn [addressedTo] in Hm; try discriminate Hm;
    injection Hm as <-; cbn [webSocketMessage wrongPhaseAnswer].
  - (* join *)
    unfold handleJoin. rewrite Hph. reflexivity.
  - (* start_game *)
    unfold handleStartGame. destruct (ensurePlayerColors _ _) as [ps g1].
    destruct (config s) as [cfg|] eqn:Hc; [|reflexivity].
    rewrite (inPhase_config lobby s cfg Hph Hc). reflexivity.
  - (* buy_cell *)
    unfold handleBuyCell. destruct (joinedAs attached) as [pid|];
      [rewrite Hneg, Hb; reflexivity|exact Hnj].
  - (* buy_cell_cancel *)
    unfold handleBuyCellCancel. destruct (joinedAs attached) as [pid|];
      [rewrite Hneg, Hb; reflexivity|exact Hnj].
  - (* buy_done *)
    unfold handleBuyDone. destruct (joinedAs attached) as [pid|];
      [rewrite Hneg, Hb; reflexivity|exact Hnj].
  - (* auction_bid *)
    unfold handleAuctionBid. destruct (joinedAs attached) as [pid|];
      [rewrite Hneg|]; reflexivity.
  - (* path *)
    unfold handlePath. destruct (joinedAs attached) as [pid|];
      [rewrite Hneg|]; reflexivity.
  - (* path_done *)
    unfold handlePathDone. destruct (joinedAs attached) as [pid|];
      [rewrite Hneg, Hb; reflexivity|exact Hnj].
  - (* market_bid *)
    unfold handleMarketBid. destruct (joinedAs attached) as [pid|]; [|exact Hnj].
    destruct (config s) as [cfg|] eqn:Hc; [|exact Hb].
    rewrite (inPhase_config market_phase s cfg Hph Hc). exact Hb.
  - (* market_skip *)
    unfold handleMarketSkip. destruct (joinedAs attached) as [pid|];
      [rewrite Hneg, Hb; reflexivity|exact Hnj].
  - (* market_recycle *)
    unfold handleMarketRecycle. destruct (joinedAs attached) as [pid|];
      [rewrite Hneg|]; reflexivity.
Qed.

(** Two instances: a buy request and a start request from Ann while the
    room is in round_start. *)
Lemma C8_wrong_phase_answer_witness :
  webSocketMessage quietEnv 1 ann (BuyCell "cell-0--1" Producer) roundOneStart
    = (roundOneStart, [OState]) /\
  webSocketMessage quietEnv 1 ann StartGame roundOneStart
    = (roundOneStart, [OError 1 "Need at least 2 players"]).
Proof.
  split.
  - apply (C8_wrong_phase_answer quietEnv 1 ann (BuyCell "cell-0--1" Producer)
             buy_phase roundOneStart roundOneStart_reachable).
    + reflexivity.
    + vm_compute. reflexivity.
  - apply (C8_wrong_phase_answer quietEnv 1 ann StartGame
             lobby roundOneStart roundOneStart_reachable).
    + reflexivity.
    + vm_compute. reflexivity.
Defined.

(* ------------------------------------------------------------------ *)
(** * Payout at round_start (C7) *)

Lemma C6_ownership_aging_witness :
  exists c',
    nth_error (grid (fst (alarm (demoEnv 12 "") roundOneStart))) 8 = Some c' /\
    owners c' = owners (nth 8 (grid roundOneStart) (rowCell 0 [])) /\
    producer c' = 6 /\ seller c' = 2.
Proof.
  destruct (C6_ownership_aging (demoEnv 12 "") roundOneStart
              (orElse (config roundOneStart) (configAt lobby []))
              8 (nth 8 (grid roundOneStart) (rowCell 0 [])))
    as (c' & Hn & _ & Ho & _ & _ & _ & _ & _ & _ & Hv);
    [vm_compute; reflexivity|vm_compute; reflexivity|vm_compute; reflexivity|].
  exists c'. split; [exact Hn|]. split; [exact Ho|].
  destruct Hv as (Hp & Hs & _); [vm_compute; discriminate|].
  split; [rewrite Hp|rewrite Hs]; vm_compute; reflexivity.
Defined.

Lemma credit_credit (a b : Z) (p : Player) :
  credit b (credit a p) = credit (a + b) p.
Proof. unfold credit, with_money. simpl. f_equal. lia. Qed.

Lemma credit_zero (p : Player) : credit 0 p = p.
Proof. destruct p. unfold credit, with_money. simpl. f_equal. lia. Qed.

Lemma update_first_unique {A} (key : A -> string) (k : string) (f : A -> A)
    (l : list A) :
  NoDup (map key l) ->
  update_first (fun x => String.eqb (key x) k) f l
  = map (fun x => if String.eqb (key x) k then f x else x) l.
Proof.
  induction l as [|h t IH]; intros Hn; [reflexivity|].
  cbn [map] in Hn. inversion Hn as [|? ? Hnotin Hn']; subst.
  cbn [update_first map]. destruct (String.eqb (key h) k) eqn:E.
  - f_equal. apply String.eqb_eq in E. subst k.
    rewrite <- (map_id t) at 1. apply map_ext_in. intros x Hx.
    destruct (String.eqb (key x) (key h)) eqn:E'; [|reflexivity].
    apply String.eqb_eq in E'. exfalso. apply Hnotin. rewrite <- E'.
    apply in_map. exact Hx.
  - f_equal. apply IH. exact Hn'.
Qed.

Lemma payRevenue_map (ps : list Player) (k : string) (sp : SubmittedPath) :
  NoDup (map playerId ps) ->
  payRevenue ps (k, sp)
  = map (fun p => credit (if String.eqb k (playerId p)
                          then Z.max 0 (revenue sp) else 0) p) ps.
Proof.
  intros Hn. unfold payRevenue.
  assert (Hu : update_player k
                 (fun p => with_money (money p + Z.max 0 (revenue sp)) p) ps
               = map (fun p => credit (if String.eqb k (playerId p)
                                       then Z.max 0 (revenue sp) else 0) p) ps).
  { unfold update_player, is_player. rewrite update_first_unique by exact Hn.
    apply map_ext. intros p. rewrite (String.eqb_sym k).
    destruct (String.eqb (playerId p) k); [reflexivity|].
    symmetry. apply credit_zero. }
  destruct (find_player k ps) eqn:Hf; [exact Hu|].
  rewrite <- Hu. unfold update_player. symmetry. apply update_first_none. exact Hf.
Qed.

Lemma payRevenue_fold (sps : Rec SubmittedPath) (ps : list Player) :
  NoDup (map playerId ps) ->
  fold_left payRevenue sps ps
  = map (fun p => credit (totalRevenue sps (playerId p)) p) ps.
Proof.
  revert ps. induction sps as [|[k sp] t IH]; intros ps Hn.
  - cbn [fold_left totalRevenue]. rewrite <- (map_id ps) at 1.
    apply map_ext. intros p. symmetry. apply credit_zero.
  - cbn [fold_left]. rewrite payRevenue_map by exact Hn.
    rewrite IH.
    + rewrite map_map. apply map_ext. intros p.
      rewrite credit_credit. reflexivity.
    + rewrite map_map. cbn [credit with_money playerId]. exact Hn.
Qed.

Lemma totalRevenue_absent (sps : Rec SubmittedPath) (pid : string) :
  ~ In pid (dkeys sps) -> totalRevenue sps pid = 0.
Proof.
  induction sps as [|[k sp] t IH]; intros Hn; [reflexivity|].
  cbn [totalRevenue]. cbn [dkeys map fst] in Hn.
  destruct (String.eqb k pid) eqn:E.
  - apply String.eqb_eq in E. exfalso. apply Hn. left. exact E.
  - rewrite IH; [reflexivity|]. intros Hin. apply Hn. right. exact Hin.
Qed.

Lemma totalRevenue_stored (sps : Rec SubmittedPath) (pid : string) :
  NoDup (dkeys sps) -> totalRevenue sps pid = storedRevenue sps pid.
Proof.
  unfold storedRevenue, rget.
  induction sps as [|[k sp] t IH]; intros Hn; [reflexivity|].
  cbn [dkeys map fst] in Hn. inversion Hn as [|? ? Hnotin Hn']; subst.
  cbn [totalRevenue dget]. destruct (String.eqb k pid) eqn:E.
  - apply String.eqb_eq in E. subst k.
    rewrite totalRevenue_absent by exact Hnotin. lia.
  - rewrite IH by exact Hn'. lia.
Qed.

Lemma ensureColorsFrom_sameButColour (used : list string) (ps : list Player)
    (g : Rng) :
  Forall2 sameButColour ps (fst (ensureColorsFrom used ps g)).
Proof.
  revert used g. induction ps as [|p t IH]; intros used g; [constructor|].
  cbn [ensureColorsFrom]. destruct (noColor p).
  - destruct (distinctPlayerColor used g) as [c g'].
    specialize (IH (used ++ [color (with_color c p)]) g').
    destruct (ensureColorsFrom _ t g'). cbn [fst] in *.
    constructor; [repeat split|exact IH].
  - specialize (IH (used ++ [color p]) g).
    destruct (ensureColorsFrom _ t g). cbn [fst] in *.
    constructor; [repeat split|exact IH].
Qed.

Lemma broadcast_players (e : Env) (s : Storage) :
  Forall2 sameButColour (players s) (players (fst (broadcastState e s))).
Proof.
  unfold broadcastState.
  pose proof (ensureColorsFrom_sameButColour [] (players s) (paint e)) as H.
  unfold ensurePlayerColors. destruct (ensureColorsFrom [] (players s) (paint e)) as [ps g].
  cbn [fst] in *. destruct (existsb noColor (players s)); cbn [fst players set_players].
  - exact H.
  - clear H. induction (players s); constructor; [repeat split|assumption].
Qed.

Lemma Forall2_nth_error {A B} (R : A -> B -> Prop) (l : list A) (l' : list B)
    (i : nat) (a : A) :
  Forall2 R l l' -> nth_error l i = Some a ->
  exists b, nth_error l' i = Some b /\ R a b.
Proof.
  intros H. revert i. induction H as [|x y t t' Hxy _ IH]; intros i Hi.
  - destruct i; discriminate.
  - destruct i as [|i]; cbn in *.
    + injection Hi as <-. exists y. split; [reflexivity|exact Hxy].
    + apply IH. exact Hi.
Qed.

(** C7.  The code pays a stale path again.  In the concrete game Ann's
    path of round 0 (revenue 7) is paid at the round_start of round 1 and,
    although the events of round 1 contain no path message and her stored
    submission is untouched, paid once more at the round_start of round 2:
    her money grows by 8 there, not by 1.  The round_end branch resets the
    key [pathUsed], which nothing reads, and leaves [submittedPaths] as it
    is. *)
Lemma C7_stale_path_is_paid_again :
  reachable roundTwoStart /\
  Forall (fun x => match snd x with
                   | Message _ _ (PathMsg _ _ _) => False
                   | _ => True
                   end) idleRound /\
  inPhase round_start roundOneStart = true /\
  inPhase round_start roundTwoStart = true /\
  map money (players roundOneStart) = [11; 11] /\
  map money (players roundOneMarket) = [19; 12] /\
  map money (players roundTwoStart) = [19; 12] /\
  map money (players roundTwoMarket) = [27; 13] /\
  submittedPaths roundTwoStart = submittedPaths roundOneStart /\
  pathUsed roundTwoStart = Some [] /\
  map money (players roundTwoMarket) <> map (fun p => money p + 1) (players roundTwoStart).
Proof.
  split; [exact roundTwoStart_reachable|].
  split; [repeat (constructor; [exact I|]); constructor|].
  do 8 (split; [vm_compute; reflexivity|]).
  vm_compute. discriminate.
Qed.

(** What a round_start resolution pays: every player gets 1 plus the
    revenue of the submission currently stored under their id,
    [max 0 revenue]; a player with no stored submission receives only the
    1.  The resolution leaves the stored submissions as they are.  (Player
    ids and the keys of the submissions object are pairwise distinct.) *)
Lemma round_start_payout (e : Env) (s : Storage) (cfg : GameConfig)
    (i : nat) (p : Player) :
  config s = Some cfg -> phase cfg = round_start ->
  NoDup (map playerId (players s)) -> NoDup (dkeys (submittedPaths s)) ->
  nth_error (players s) i = Some p ->
  exists p',
    nth_error (players (fst (alarm e s))) i = Some p' /\
    playerId p' = playerId p /\ dice p' = dice p /\
    money p' = money p + 1 + storedRevenue (submittedPaths s) (playerId p) /\
    (rget (playerId p) (submittedPaths s) = None -> money p' = money p + 1) /\
    (forall sp, rget (playerId p) (submittedPaths s) = Some sp ->
                money p' = money p + 1 + Z.max 0 (revenue sp)) /\
    submittedPaths (fst (alarm e s)) = submittedPaths s.
Proof.
  intros Hcfg Hph Hids Hkeys Hp.
  unfold alarm. rewrite Hcfg, Hph. unfold alarm_round_start.
  destruct (randomDiceArray _ _) as [md g'].
  set (ps1 := map (fun p0 => with_money (money p0 + 1) p0) (players s)).
  assert (Hfold : fold_left payRevenue (submittedPaths s) ps1
                  = map (fun p0 => credit (1 + storedRevenue (submittedPaths s) (playerId p0)) p0)
                        (players s)).
  { rewrite payRevenue_fold.
    - unfold ps1. rewrite map_map. apply map_ext. intros p0.
      rewrite <- totalRevenue_stored by exact Hkeys.
      change (with_money (money p0 + 1) p0) with (credit 1 p0).
      rewrite credit_credit. reflexivity.
    - unfold ps1. rewrite map_map. exact Hids. }
  rewrite Hfold.
  match goal with |- context [broadcastState e ?x] => set (s1 := x) end.
  assert (Hn : nth_error (players s1) i
               = Some (credit (1 + storedRevenue (submittedPaths s) (playerId p)) p)).
  { unfold s1. cbn [players setAlarm set_config set_players].
    rewrite nth_error_map, Hp. reflexivity. }
  destruct (Forall2_nth_error _ _ _ i _ (broadcast_players e s1) Hn)
    as (p' & Hn' & Hid & _ & Hm & Hd).
  exists p'. split; [exact Hn'|]. split; [exact Hid|]. split; [exact Hd|].
  assert (Hmoney : money p' = money p + 1 + storedRevenue (submittedPaths s) (playerId p)).
  { rewrite Hm. unfold credit. cbn [money with_money]. lia. }
  split; [exact Hmoney|]. split; [|split].
  - intros Hnone. rewrite Hmoney. unfold storedRevenue. rewrite Hnone. lia.
  - intros sp Hsome. rewrite Hmoney. unfold storedRevenue. rewrite Hsome. reflexivity.
  - rewrite broadcast_submittedPaths. reflexivity.
Qed.

Example round_start_payout_round_two :
  exists p',
    nth_error (players (fst (alarm (demoEnv 17 "") roundTwoStart))) 0 = Some p' /\
    money p' = 19 + 1 + 7.
Proof.
  destruct (round_start_payout (demoEnv 17 "") roundTwoStart
              (orElse (config roundTwoStart) (configAt lobby []))
              0 (nth 0 (players roundTwoStart) (plainPlayer "" 0 [])))
    as (p' & Hn & _ & _ & Hm & _).
  - vm_compute. reflexivity.
  - vm_compute. reflexivity.
  - vm_compute. repeat constructor; simpl; intuition discriminate.
  - vm_compute. repeat constructor; simpl; intuition discriminate.
  - vm_compute. reflexivity.
  - exists p'. split; [exact Hn|]. rewrite Hm. vm_compute. reflexivity.
Qed.

(* ------------------------------------------------------------------ *)
(** * The dice pool of buy-phase resolution (C5) *)

Lemma rget_rset_other {V} (k k' : string) (v : V) (d : Rec V) :
  k <> k' -> rget k' (rset k v d) = rget k' d.
Proof. apply dget_dset_other, Seqb_spec. Qed.

Lemma countDice_from (v : Z) (hand : list Z) (init : list (Z * Z)) :
  orElse (dget Z.eqb v
            (fold_left
               (fun counts die =>
                  dset Z.eqb die (orElse (dget Z.eqb die counts) 0 + 1) counts)
               hand init)) 0
  = orElse (dget Z.eqb v init) 0 + Z.of_nat (count_occ Z.eq_dec hand v).
Proof.
  revert init. induction hand as [|d t IH]; intros init.
  - cbn. lia.
  - cbn [fold_left count_occ]. rewrite IH. destruct (Z.eq_dec d v) as [->|Hne].
    + rewrite (dget_dset_same Z.eqb Zeqb_spec). cbn [orElse]. lia.
    + rewrite (dget_dset_other Z.eqb Zeqb_spec) by exact Hne. lia.
Qed.

Lemma countDice_get (v : Z) (hand : list Z) :
  orElse (dget Z.eqb v (countDice hand)) 0 = Z.of_nat (count_occ Z.eq_dec hand v).
Proof. unfold countDice. rewrite countDice_from. reflexivity. Qed.

Lemma pool_untouched (pid : string) (ps : list Player) (init : DicePool) :
  (forall x, In x ps -> playerId x <> pid) ->
  rget pid (fold_left (fun pool p => rset (playerId p) (countDice (dice p)) pool)
                      ps init)
  = rget pid init.
Proof.
  revert init. induction ps as [|h t IH]; intros init Hn; [reflexivity|].
  cbn [fold_left]. rewrite IH.
  - apply rget_rset_other. apply Hn. left. reflexivity.
  - intros x Hx. apply Hn. right. exact Hx.
Qed.

Lemma pool_get (ps : list Player) (p : Player) :
  NoDup (map playerId ps) -> In p ps ->
  rget (playerId p) (playerDicePool ps) = Some (countDice (dice p)).
Proof.
  unfold playerDicePool. generalize (@nil (string * list (Z * Z))).
  induction ps as [|h t IH]; intros init Hn Hin; [destruct Hin|].
  cbn [map] in Hn. inversion Hn as [|? ? Hnotin Hn']; subst.
  cbn [fold_left]. destruct Hin as [->|Hin].
  - rewrite pool_untouched.
    + apply rget_rset_same.
    + intros x Hx Heq. apply Hnotin. rewrite <- Heq. apply in_map. exact Hx.
  - apply IH; assumption.
Qed.

Lemma claimOf_true (g : list Cell) (pid : string) (v : Z) (cl : Claim) :
  claimOf g pid v cl = true ->
  c_playerId cl = pid /\
  exists c, find_cell (c_cellId cl) g = Some c /\ diceValue c = v.
Proof.
  unfold claimOf. intros H. apply andb_true_iff in H. destruct H as [H1 H2].
  apply String.eqb_eq in H1. split; [exact H1|].
  destruct (find_cell (c_cellId cl) g) as [c|]; [|discriminate].
  exists c. split; [reflexivity|]. apply Z.eqb_eq. exact H2.
Qed.

Lemma claimsFor_app (g : list Cell) (pid : string) (v : Z) (l1 l2 : list Claim) :
  claimsFor g pid v (l1 ++ l2) = claimsFor g pid v l1 ++ claimsFor g pid v l2.
Proof. apply filter_app. Qed.

Lemma poolLeft_some (pool : DicePool) (pid : string) (v : Z) (counts : list (Z * Z)) :
  rget pid pool = Some counts -> poolLeft pool pid v = orElse (dget Z.eqb v counts) 0.
Proof. unfold poolLeft. intros ->. reflexivity. Qed.

Lemma poolLeft_none (pool : DicePool) (pid : string) (v : Z) :
  rget pid pool = None -> poolLeft pool pid v = 0.
Proof. unfold poolLeft. intros ->. reflexivity. Qed.

Lemma poolLeft_used (pool : DicePool) (pid : string) (v n : Z)
    (counts : list (Z * Z)) :
  poolLeft (rset pid (dset Z.eqb v n counts) pool) pid v = n.
Proof.
  unfold poolLeft. rewrite rget_rset_same, (dget_dset_same Z.eqb Zeqb_spec).
  reflexivity.
Qed.

Lemma poolLeft_other (pool : DicePool) (pid pid' : string) (v v' n : Z)
    (counts : list (Z * Z)) :
  rget pid' pool = Some counts -> (pid' <> pid \/ v' <> v) ->
  poolLeft (rset pid' (dset Z.eqb v' n counts) pool) pid v = poolLeft pool pid v.
Proof.
  intros Hpool Hne. unfold poolLeft.
  destruct (String.eqb pid' pid) eqn:Hp.
  - apply String.eqb_eq in Hp. subst pid'. rewrite rget_rset_same, Hpool.
    rewrite (dget_dset_other Z.eqb Zeqb_spec); [reflexivity|].
    destruct Hne as [Hne|Hne]; [contradiction|exact Hne].
  - apply String.eqb_neq in Hp. rewrite rget_rset_other by exact Hp. reflexivity.
Qed.

Lemma filterClaim_fold (g : list Cell) (pid : string) (v : Z) (l : list Claim)
    (pool : DicePool) (kept : list Claim) :
  0 <= poolLeft pool pid v ->
  claimsFor g pid v (snd (fold_left (filterClaim g) l (pool, kept)))
  = claimsFor g pid v kept
    ++ firstn (Z.to_nat (poolLeft pool pid v)) (claimsFor g pid v l).
Proof.
  revert pool kept. induction l as [|a t IH]; intros pool kept Hpos.
  - cbn [fold_left snd claimsFor filter]. rewrite firstn_nil, app_nil_r. reflexivity.
  - cbn [fold_left].
    assert (Hskip : forall rest,
               claimsFor g pid v (snd (fold_left (filterClaim g) t (pool, kept)))
               = claimsFor g pid v kept ++ firstn 0 rest ->
               poolLeft pool pid v = 0 ->
               claimsFor g pid v (snd (fold_left (filterClaim g) t (pool, kept)))
               = claimsFor g pid v kept
                 ++ firstn (Z.to_nat (poolLeft pool pid v)) rest).
    { intros rest H Hz. rewrite Hz. exact H. }
    destruct (claimOf g pid v a) eqn:Hmine.
    + (* a claim of this player for this die value *)
      assert (Hcl : claimsFor g pid v (a :: t) = a :: claimsFor g pid v t)
        by (unfold claimsFor; cbn [filter]; rewrite Hmine; reflexivity).
      rewrite Hcl.
      destruct (claimOf_true g pid v a Hmine) as (Hpid & c & Hc & Hv).
      unfold filterClaim. rewrite Hc, Hpid, Hv.
      destruct (rget pid pool) as [counts|] eqn:Hpool.
      * rewrite <- (poolLeft_some pool pid v counts Hpool).
        destruct (poolLeft pool pid v <=? 0) eqn:Hle.
        -- apply Z.leb_le in Hle. apply Hskip; [|lia].
           rewrite IH by exact Hpos.
           replace (poolLeft pool pid v) with 0 by lia. reflexivity.
        -- apply Z.leb_gt in Hle.
           rewrite IH by (rewrite poolLeft_used; lia).
           rewrite poolLeft_used, claimsFor_app.
           assert (Ha : claimsFor g pid v [a] = [a])
             by (unfold claimsFor; cbn [filter]; rewrite Hmine; reflexivity).
           rewrite Ha, <- app_assoc. cbn [app].
           replace (Z.to_nat (poolLeft pool pid v))
             with (S (Z.to_nat (poolLeft pool pid v - 1))) by lia.
           reflexivity.
      * apply Hskip; [|apply poolLeft_none; exact Hpool].
        rewrite IH by exact Hpos. rewrite (poolLeft_none pool pid v Hpool).
        reflexivity.
    + (* some other claim: the count for (pid, v) is not touched *)
      assert (Hcl : claimsFor g pid v (a :: t) = claimsFor g pid v t)
        by (unfold claimsFor; cbn [filter]; rewrite Hmine; reflexivity).
      rewrite Hcl.
      assert (Hkeep : forall pool' kept',
                 poolLeft pool' pid v = poolLeft pool pid v ->
                 claimsFor g pid v kept' = claimsFor g pid v kept ->
                 claimsFor g pid v (snd (fold_left (filterClaim g) t (pool', kept')))
                 = claimsFor g pid v kept
                   ++ firstn (Z.to_nat (poolLeft pool pid v)) (claimsFor g pid v t)).
      { intros pool' kept' Hp Hk. rewrite IH by (rewrite Hp; exact Hpos).
        rewrite Hp, Hk. reflexivity. }
      unfold filterClaim.
      destruct (find_cell (c_cellId a) g) as [c|] eqn:Hc; [|apply Hkeep; reflexivity].
      destruct (rget (c_playerId a) pool) as [counts|] eqn:Hpool;
        [|apply Hkeep; reflexivity].
      destruct (orElse (dget Z.eqb (diceValue c) counts) 0 <=? 0);
        [apply Hkeep; reflexivity|].
      apply Hkeep.
      * apply poolLeft_other; [exact Hpool|].
        destruct (String.eqb (c_playerId a) pid) eqn:Hp;
          [|left; apply String.eqb_neq; exact Hp].
        right. intros Hv. unfold claimOf in Hmine.
        rewrite Hp, Hc, Hv, Z.eqb_refl in Hmine. discriminate.
      * rewrite claimsFor_app.
        assert (Ha : claimsFor g pid v [a] = [])
          by (unfold claimsFor; cbn [filter]; rewrite Hmine; reflexivity).
        rewrite Ha. apply app_nil_r.
Qed.

Lemma filteredToApply_first (g : list Cell) (ps : list Player)
    (toApply : list Claim) (p : Player) (v : Z) :
  NoDup (map playerId ps) -> In p ps ->
  claimsFor g (playerId p) v (filteredToApply g ps toApply)
  = firstn (count_occ Z.eq_dec (dice p) v) (claimsFor g (playerId p) v toApply).
Proof.
  intros Hn Hin. unfold filteredToApply.
  assert (Hl : poolLeft (playerDicePool ps) (playerId p) v
               = Z.of_nat (count_occ Z.eq_dec (dice p) v)).
  { unfold poolLeft. rewrite (pool_get ps p Hn Hin). apply countDice_get. }
  rewrite filterClaim_fold by (rewrite Hl; lia).
  rewrite Hl, Nat2Z.id. reflexivity.
Qed.

Lemma alarm_path_grid (e : Env) (s : Storage) (cfg : GameConfig) :
  grid (fst (alarm_path e s cfg)) = grid s.
Proof.
  unfold alarm_path. destruct (dealHands _ _) as [ps g].
  rewrite broadcast_grid. reflexivity.
Qed.

Lemma enterPathPhase_grid (e : Env) (s : Storage) (cfg : GameConfig)
    (md : option (list Z)) :
  grid (fst (enterPathPhase e s cfg md)) = grid s.
Proof.
  unfold enterPathPhase. rewrite andThen_fst, broadcast_grid.
  destruct (_ && _); [rewrite alarm_path_grid|]; reflexivity.
Qed.

Lemma alarm_buy_grid (e : Env) (s : Storage) (cfg : GameConfig) :
  grid (fst (alarm_buy e s cfg))
  = snd (fold_left applyClaim
           (filteredToApply (grid s) (players s) (buyClaims (now e) s))
           (players s, grid s)).
Proof.
  unfold alarm_buy, buyClaims.
  destruct (indexBuys (buy (pendingActions s))) as [roles byCell].
  destruct (fold_left (classifyCell _ _ _ _) byCell ([], [])) as [cs toApply].
  cbn [snd].
  destruct (fold_left applyClaim _ _) as [ps g]. cbn [snd].
  destruct cs.
  - rewrite enterPathPhase_grid. reflexivity.
  - rewrite broadcast_grid. reflexivity.
Qed.

(* ------------------------------------------------------------------ *)
(** * Highest bids and in-place updates by key *)

Lemma bestOf_ge_start (start : Z) (l : list Z) : start <= bestOf start l.
Proof.
  unfold bestOf. revert start. induction l as [|a t IH]; intros start; cbn [fold_left].
  - lia.
  - destruct (a >? start) eqn:E.
    + apply Z.gtb_lt in E. specialize (IH a). lia.
    + apply IH.
Qed.

Lemma bestOf_upper (start : Z) (l : list Z) (a : Z) :
  In a l -> a <= bestOf start l.
Proof.
  unfold bestOf. revert start. induction l as [|b t IH]; intros start Hin; [destruct Hin|].
  cbn [fold_left]. destruct Hin as [->|Hin].
  - destruct (a >? start) eqn:E.
    + apply (bestOf_ge_start a t).
    + assert (a <= start) by (destruct (Z.gtb_spec a start); [discriminate|lia]).
      pose proof (bestOf_ge_start start t). unfold bestOf in *. lia.
  - apply IH. exact Hin.
Qed.

Lemma bestOf_attained (start : Z) (l : list Z) :
  bestOf start l = start \/ In (bestOf start l) l.
Proof.
  unfold bestOf. revert start. induction l as [|b t IH]; intros start; cbn [fold_left].
  - left. reflexivity.
  - destruct (b >? start).
    + destruct (IH b) as [H|H]; [right; left; symmetry; exact H|right; right; exact H].
    + destruct (IH start) as [H|H]; [left; exact H|right; right; exact H].
Qed.

Section ByKey.
Context {A : Type} (key : A -> string).
Implicit Types (l : list A) (f : A -> A).

Lemma find_update_same k f l x :
  (forall y, key (f y) = key y) ->
  find (fun y => String.eqb (key y) k) l = Some x ->
  find (fun y => String.eqb (key y) k)
       (update_first (fun y => String.eqb (key y) k) f l) = Some (f x).
Proof.
  intros Hk. induction l as [|h t IH]; cbn [find update_first]; [discriminate|].
  destruct (String.eqb (key h) k) eqn:E.
  - intros H. injection H as <-. cbn [find]. rewrite Hk, E. reflexivity.
  - intros H. cbn [find]. rewrite E. apply IH. exact H.
Qed.

Lemma find_update_other k k' f l :
  k <> k' -> (forall y, key (f y) = key y) ->
  find (fun y => String.eqb (key y) k')
       (update_first (fun y => String.eqb (key y) k) f l)
  = find (fun y => String.eqb (key y) k') l.
Proof.
  intros Hne Hk. induction l as [|h t IH]; cbn [find update_first]; [reflexivity|].
  destruct (String.eqb (key h) k) eqn:E.
  - cbn [find]. rewrite Hk. apply String.eqb_eq in E.
    assert (E' : String.eqb (key h) k' = false)
      by (apply String.eqb_neq; congruence).
    rewrite E'. reflexivity.
  - cbn [find]. destruct (String.eqb (key h) k'); [reflexivity|exact IH].
Qed.
End ByKey.

Lemma find_player_update_same (pid : string) (f : Player -> Player)
    (ps : list Player) (p : Player) :
  (forall y, playerId (f y) = playerId y) ->
  find_player pid ps = Some p ->
  find_player pid (update_player pid f ps) = Some (f p).
Proof. apply (find_update_same playerId). Qed.

Lemma find_player_update_other (pid pid' : string) (f : Player -> Player)
    (ps : list Player) :
  pid <> pid' -> (forall y, playerId (f y) = playerId y) ->
  find_player pid' (update_player pid f ps) = find_player pid' ps.
Proof. apply (find_update_other playerId). Qed.

Lemma find_cell_update_same (cid : string) (f : Cell -> Cell) (g : list Cell)
    (c : Cell) :
  (forall y, id (f y) = id y) ->
  find_cell cid g = Some c -> find_cell cid (update_cell cid f g) = Some (f c).
Proof. apply (find_update_same id). Qed.

Lemma find_cell_update_other (cid cid' : string) (f : Cell -> Cell)
    (g : list Cell) :
  cid <> cid' -> (forall y, id (f y) = id y) ->
  find_cell cid' (update_cell cid f g) = find_cell cid' g.
Proof. apply (find_update_other id). Qed.

Lemma spendDie_id (v : Z) (p : Player) : playerId (spendDie v p) = playerId p.
Proof. unfold spendDie. destruct (_ >=? 0); reflexivity. Qed.

Lemma settle_id (best v : Z) (p : Player) : playerId (settle best v p) = playerId p.
Proof. unfold settle. rewrite spendDie_id. reflexivity. Qed.

Lemma findIndex_lower {A} (f : A -> bool) (l : list A) : -1 <= findIndex f l.
Proof.
  induction l as [|h t IH]; cbn [findIndex]; [lia|].
  destruct (f h); [lia|]. destruct (findIndex f t <? 0) eqn:E; [lia|].
  apply Z.ltb_ge in E. lia.
Qed.

(** [findIndex] finds the first position where the test holds. *)
Lemma findIndex_found {A} (f : A -> bool) (l : list A) :
  existsb f l = true ->
  exists l1 x l2, l = l1 ++ x :: l2 /\ f x = true /\
                  Forall (fun y => f y = false) l1 /\
                  findIndex f l = len l1.
Proof.
  induction l as [|h t IH]; cbn [existsb findIndex]; [discriminate|].
  destruct (f h) eqn:E.
  - intros _. exists [], h, t. repeat split; auto.
  - cbn [orb]. intros H. destruct (IH H) as (l1 & x & l2 & -> & Hx & Hl1 & Hi).
    exists (h :: l1), x, l2. rewrite Hi.
    assert (Hlt : (len l1 <? 0) = false) by (apply Z.ltb_ge, len_nonneg).
    rewrite Hlt. repeat split; auto.
    unfold len. cbn [List.length]. lia.
Qed.

Lemma findIndex_absent {A} (f : A -> bool) (l : list A) :
  existsb f l = false -> findIndex f l = -1.
Proof.
  induction l as [|h t IH]; cbn [existsb findIndex]; [reflexivity|].
  destruct (f h); [discriminate|]. cbn [orb]. intros H. rewrite IH by exact H.
  reflexivity.
Qed.

Lemma findIndex_holds (v : Z) (p : Player) :
  (findIndex (Z.eqb v) (dice p) <? 0) = negb (holdsDie v p).
Proof.
  unfold holdsDie. destruct (existsb (Z.eqb v) (dice p)) eqn:E.
  - destruct (findIndex_found _ _ E) as (l1 & x & l2 & _ & _ & _ & Hi).
    rewrite Hi. apply Z.ltb_ge, len_nonneg.
  - rewrite findIndex_absent by exact E. reflexivity.
Qed.

Lemma remove_nth_middle {A} (l1 l2 : list A) (x : A) :
  remove_nth (List.length l1) (l1 ++ x :: l2) = l1 ++ l2.
Proof. induction l1 as [|h t IH]; cbn; [reflexivity|]. rewrite IH. reflexivity. Qed.

(** Spending a die removes the first die of that value from the hand. *)
Lemma spendDie_removes (v : Z) (p : Player) :
  holdsDie v p = true ->
  exists l1 l2, dice p = l1 ++ v :: l2 /\ ~ In v l1 /\
                dice (spendDie v p) = l1 ++ l2 /\
                money (spendDie v p) = money p.
Proof.
  unfold holdsDie. intros H.
  destruct (findIndex_found _ _ H) as (l1 & x & l2 & Hd & Hx & Hl1 & Hi).
  apply Z.eqb_eq in Hx. subst x. exists l1, l2.
  split; [exact Hd|]. split.
  - intros Hin. rewrite Forall_forall in Hl1. specialize (Hl1 v Hin).
    rewrite Z.eqb_refl in Hl1. discriminate.
  - unfold spendDie. rewrite Hi.
    assert (Hge : (len l1 >=? 0) = true) by (apply Z.geb_le, len_nonneg).
    rewrite Hge. cbn [dice with_dice money]. split; [|reflexivity].
    unfold splice1.
    assert (Hlt : (len l1 <? 0) = false) by (apply Z.ltb_ge, len_nonneg).
    rewrite Hlt, Hd. unfold len. rewrite Nat2Z.id. apply remove_nth_middle.
Qed.

(* ------------------------------------------------------------------ *)
(** * Cell conflicts (C3) *)

Lemma with_owners_same (c : Cell) : with_owners (owners c ++ []) c = c.
Proof. destruct c. unfold with_owners. cbn. rewrite app_nil_r. reflexivity. Qed.

Lemma grant_ext (pending : PendingActions) (cell_id : string) (best v : Z)
    (ps ps' : list Player) (pid : string) :
  find_player pid ps' = find_player pid ps ->
  grant pending cell_id best v ps' pid = grant pending cell_id best v ps pid.
Proof. unfold grant. intros ->. reflexivity. Qed.

Lemma cellWinner_step (pending : PendingActions) (cell_id : string) (best : Z)
    (ps : list Player) (g : list Cell) (c : Cell) (pid : string) :
  find_cell cell_id g = Some c ->
  cellWinner pending cell_id best (ps, g) pid
  = match grant pending cell_id best (diceValue c) ps pid with
    | Some o => (update_player pid (settle best (diceValue c)) ps,
                 update_cell cell_id (fun x => with_owners (owners x ++ [o]) x) g)
    | None => (ps, g)
    end.
Proof.
  intros Hc. unfold cellWinner, grant. rewrite Hc.
  destruct (find_player pid ps) as [player|]; [|reflexivity].
  destruct (declaredRole pending pid cell_id) as [ro|]; [|reflexivity].
  rewrite findIndex_holds.
  destruct (money player <? best) eqn:Hm.
  - apply Z.ltb_lt in Hm.
    assert (Hle : (best <=? money player) = false) by (apply Z.leb_gt; lia).
    rewrite Hle. reflexivity.
  - apply Z.ltb_ge in Hm.
    assert (Hle : (best <=? money player) = true) by (apply Z.leb_le; lia).
    rewrite Hle. cbn [andb]. destruct (holdsDie (diceValue c) player); reflexivity.
Qed.

Lemma existsb_absent (pid : string) (l : list string) :
  ~ In pid l -> existsb (String.eqb pid) l = false.
Proof.
  intros H. destruct (existsb (String.eqb pid) l) eqn:E; [|reflexivity].
  apply existsb_exists in E. destruct E as (x & Hx & Heq).
  apply String.eqb_eq in Heq. subst x. contradiction.
Qed.

Lemma existsb_present (pid : string) (l : list string) :
  In pid l -> existsb (String.eqb pid) l = true.
Proof.
  intros H. apply existsb_exists. exists pid. split; [exact H|apply String.eqb_refl].
Qed.

Lemma grants_ext (pending : PendingActions) (cell_id : string) (best v : Z)
    (ps ps' : list Player) (ws : list string) :
  (forall pid, In pid ws -> find_player pid ps' = find_player pid ps) ->
  grants pending cell_id best v ps' ws = grants pending cell_id best v ps ws.
Proof.
  intros H. unfold grants. induction ws as [|w t IH]; [reflexivity|].
  cbn [flat_map]. rewrite (grant_ext pending cell_id best v ps ps' w)
    by (apply H; left; reflexivity).
  rewrite IH; [reflexivity|]. intros pid Hp. apply H. right. exact Hp.
Qed.

Lemma cellWinner_fold (pending : PendingActions) (cell_id : string) (best v : Z)
    (ws : list string) :
  forall (ps : list Player) (g : list Cell) (c : Cell),
  NoDup ws -> find_cell cell_id g = Some c -> diceValue c = v ->
  exists ps' g',
    fold_left (cellWinner pending cell_id best) ws (ps, g) = (ps', g') /\
    find_cell cell_id g'
    = Some (with_owners (owners c ++ grants pending cell_id best v ps ws) c) /\
    (forall cid, cid <> cell_id -> find_cell cid g' = find_cell cid g) /\
    (forall pid,
       find_player pid ps'
       = if existsb (String.eqb pid) ws
         then match grant pending cell_id best v ps pid with
              | Some _ => option_map (settle best v) (find_player pid ps)
              | None => find_player pid ps
              end
         else find_player pid ps).
Proof.
  induction ws as [|w t IH]; intros ps g c Hn Hc Hv.
  - exists ps, g. cbn [fold_left grants flat_map existsb].
    rewrite with_owners_same. repeat split; auto.
  - inversion Hn as [|? ? Hnotin Hn']; subst.
    cbn [fold_left]. rewrite (cellWinner_step pending cell_id best ps g c w Hc).
    destruct (grant pending cell_id best (diceValue c) ps w) as [o|] eqn:Hg.
    + (* the contender is granted the cell *)
      set (ps1 := update_player w (settle best (diceValue c)) ps).
      set (g1 := update_cell cell_id (fun x => with_owners (owners x ++ [o]) x) g).
      set (c1 := with_owners (owners c ++ [o]) c).
      assert (Hc1 : find_cell cell_id g1 = Some c1)
        by (apply (find_cell_update_same cell_id
                     (fun x => with_owners (owners x ++ [o]) x) g c);
            [reflexivity|exact Hc]).
      assert (Hother : forall pid, pid <> w ->
                 find_player pid ps1 = find_player pid ps).
      { intros pid Hne. apply find_player_update_other;
          [congruence|apply settle_id]. }
      destruct (IH ps1 g1 c1 Hn' Hc1 eq_refl) as (ps' & g' & Hf & Hcell & Hcells & Hpl).
      exists ps', g'. split; [exact Hf|]. split; [|split].
      * rewrite Hcell. unfold c1. cbn [grants flat_map]. fold (grants pending cell_id best (diceValue c) ps t).
        rewrite Hg.
        rewrite (grants_ext pending cell_id best (diceValue c) ps ps1 t)
          by (intros pid Hp; apply Hother; intros ->; contradiction).
        unfold with_owners. cbn. rewrite <- app_assoc. reflexivity.
      * intros cid Hne. rewrite Hcells by exact Hne.
        apply find_cell_update_other; [congruence|reflexivity].
      * intros pid. rewrite Hpl. cbn [existsb].
        destruct (String.eqb pid w) eqn:E.
        -- apply String.eqb_eq in E. subst pid. cbn [orb].
           rewrite existsb_absent by exact Hnotin. rewrite Hg.
           unfold grant in Hg. destruct (find_player w ps) as [player|] eqn:Hp;
             [|discriminate].
           unfold ps1. rewrite (find_player_update_same w _ ps player);
             [reflexivity|apply settle_id|exact Hp].
        -- apply String.eqb_neq in E. cbn [orb].
           rewrite (grant_ext pending cell_id best (diceValue c) ps ps1 pid)
             by (apply Hother; exact E).
           rewrite Hother by exact E. reflexivity.
    + (* the contender is skipped *)
      destruct (IH ps g c Hn' Hc eq_refl) as (ps' & g' & Hf & Hcell & Hcells & Hpl).
      exists ps', g'. split; [exact Hf|]. split; [|split].
      * rewrite Hcell. cbn [grants flat_map].
        fold (grants pending cell_id best (diceValue c) ps t). rewrite Hg. reflexivity.
      * exact Hcells.
      * intros pid. rewrite Hpl. cbn [existsb].
        destruct (String.eqb pid w) eqn:E; [|reflexivity].
        apply String.eqb_eq in E. subst pid. cbn [orb].
        rewrite existsb_absent by exact Hnotin. rewrite Hg. reflexivity.
Qed.

Lemma grant_owner (pending : PendingActions) (cell_id : string) (best v : Z)
    (ps : list Player) (pid : string) (o : CellOwner) :
  grant pending cell_id best v ps pid = Some o ->
  exists player ro,
    o = ownerRec pid ro /\ find_player pid ps = Some player /\
    declaredRole pending pid cell_id = Some ro /\ best <= money player /\
    holdsDie v player = true.
Proof.
  unfold grant. destruct (find_player pid ps) as [player|]; [|discriminate].
  destruct (declaredRole pending pid cell_id) as [ro|]; [|discriminate].
  destruct (best <=? money player) eqn:Hm; [|discriminate].
  destruct (holdsDie v player) eqn:Hd; [|discriminate].
  cbn [andb]. intros H. injection H as <-. exists player, ro.
  repeat split; auto. apply Z.leb_le. exact Hm.
Qed.

Lemma grants_In (pending : PendingActions) (cell_id : string) (best v : Z)
    (ps : list Player) (ws : list string) (o : CellOwner) :
  In o (grants pending cell_id best v ps ws) <->
  exists pid, In pid ws /\ grant pending cell_id best v ps pid = Some o.
Proof.
  unfold grants. rewrite in_flat_map. split.
  - intros (pid & Hp & Ho). exists pid. split; [exact Hp|].
    destruct (grant pending cell_id best v ps pid) as [o'|]; [|destruct Ho].
    destruct Ho as [->|[]]. reflexivity.
  - intros (pid & Hp & Hg). exists pid. split; [exact Hp|].
    rewrite Hg. left. reflexivity.
Qed.

Lemma holdsDie_In (v : Z) (p : Player) : holdsDie v p = true <-> In v (dice p).
Proof.
  unfold holdsDie. rewrite existsb_exists. split.
  - intros (x & Hx & Heq). apply Z.eqb_eq in Heq. subst x. exact Hx.
  - intros H. exists v. split; [exact H|apply Z.eqb_refl].
Qed.

(** One cell conflict with contenders [pids] (distinct ids) over an
    existing cell, resolved from the accumulator [(ps, g, md)]: [best] is
    the highest bid among the contenders, a contender without a recorded
    bid counting as 0.  The cell's owners list grows by exactly one record
    per tied top bidder who is a player with money at least [best], who
    still holds a die of the cell's value and who declared a role for the
    cell when queuing the buy, in the order of [pids] and in that declared
    role; each of them pays [best] and loses the first die of that value.
    A contender who bid strictly less gets no record and keeps money and
    dice.  The market dice are not touched. *)
Lemma cell_conflict_step (pending : PendingActions)
    (ps : list Player) (g : list Cell) (md : list Z) (cid cell_id : string)
    (pids : list string) (cell : Cell) :
  NoDup pids -> find_cell cell_id g = Some cell ->
  let bids := orElse (rget cid (auctionBids pending)) [] in
  let best := bestOf 0 (map (bidOf bids) pids) in
  let v := diceValue cell in
  let res := auctionStep pending (ps, g, md) (CellConflict cid cell_id pids) in
  let ps' := fst (fst res) in
  let g' := snd (fst res) in
  let new := grants pending cell_id best v ps (topContenders bids best pids) in
  (forall pid, In pid pids -> bidOf bids pid <= best) /\
  (forall pid, rget pid bids = None -> bidOf bids pid = 0) /\
  find_cell cell_id g' = Some (with_owners (owners cell ++ new) cell) /\
  snd res = md /\
  (forall o, In o new ->
     exists pid ro, o = ownerRec pid ro /\ In pid pids /\ bidOf bids pid = best /\
                    declaredRole pending pid cell_id = Some ro) /\
  (forall pid player ro,
     In pid pids -> bidOf bids pid = best ->
     find_player pid ps = Some player -> best <= money player ->
     In v (dice player) -> declaredRole pending pid cell_id = Some ro ->
     In (ownerRec pid ro) new /\
     exists player' l1 l2,
       find_player pid ps' = Some player' /\
       money player' = money player - best /\
       dice player = l1 ++ v :: l2 /\ ~ In v l1 /\ dice player' = l1 ++ l2) /\
  (forall pid, In pid pids -> bidOf bids pid < best ->
     find_player pid ps' = find_player pid ps /\
     forall o, In o new -> o_playerId o <> pid).
Proof.
  intros Hn Hc bids best v res ps' g' new.
  assert (Hres : exists ps1 g1,
             res = (ps1, g1, md) /\
             find_cell cell_id g1 = Some (with_owners (owners cell ++ new) cell) /\
             (forall pid,
                find_player pid ps1
                = if existsb (String.eqb pid) (topContenders bids best pids)
                  then match grant pending cell_id best v ps pid with
                       | Some _ => option_map (settle best v) (find_player pid ps)
                       | None => find_player pid ps
                       end
                  else find_player pid ps)).
  { unfold res, auctionStep. cbn [conflictId playerIds]. fold bids. fold best.
    rewrite Hc. fold (topContenders bids best pids).
    destruct (cellWinner_fold pending cell_id best v (topContenders bids best pids)
                ps g cell) as (ps1 & g1 & Hf & Hcell & _ & Hpl).
    - apply NoDup_filter. exact Hn.
    - exact Hc.
    - reflexivity.
    - rewrite Hf. exists ps1, g1. repeat split; assumption. }
  destruct Hres as (ps1 & g1 & Hres & Hcell & Hpl).
  assert (Hps : ps' = ps1) by (unfold ps'; rewrite Hres; reflexivity).
  assert (Hg : g' = g1) by (unfold g'; rewrite Hres; reflexivity).
  assert (Htop : forall pid, In pid (topContenders bids best pids) <->
                             In pid pids /\ bidOf bids pid = best).
  { intros pid. unfold topContenders. rewrite filter_In, Z.eqb_eq. reflexivity. }
  split; [|split; [|split; [|split; [|split; [|split]]]]].
  - intros pid Hp. apply bestOf_upper. apply in_map. exact Hp.
  - intros pid Hnone. unfold bidOf. rewrite Hnone. reflexivity.
  - rewrite Hg. exact Hcell.
  - rewrite Hres. reflexivity.
  - intros o Ho. apply grants_In in Ho. destruct Ho as (pid & Hp & Hgr).
    apply Htop in Hp. destruct Hp as [Hp Hb].
    destruct (grant_owner _ _ _ _ _ _ _ Hgr) as (player & ro & -> & _ & Hro & _).
    exists pid, ro. repeat split; assumption.
  - intros pid player ro Hp Hb Hpl0 Hm Hd Hro.
    assert (Hgr : grant pending cell_id best v ps pid = Some (ownerRec pid ro)).
    { unfold grant. rewrite Hpl0, Hro.
      apply Z.leb_le in Hm. rewrite Hm. apply holdsDie_In in Hd. rewrite Hd.
      reflexivity. }
    split.
    + apply grants_In. exists pid. split; [apply Htop; split; assumption|exact Hgr].
    + destruct (spendDie_removes v (with_money (money player - best) player))
        as (l1 & l2 & Hdice & Hnot & Hd' & Hm').
      { apply holdsDie_In. exact Hd. }
      exists (settle best v player), l1, l2.
      rewrite Hps, Hpl, existsb_present by (apply Htop; split; assumption).
      rewrite Hgr, Hpl0. cbn [option_map].
      repeat split; assumption.
  - intros pid Hp Hlt. split.
    + rewrite Hps, Hpl, existsb_absent; [reflexivity|].
      intros Hin. apply Htop in Hin. lia.
    + intros o Ho Heq. apply grants_In in Ho. destruct Ho as (pid' & Hp' & Hgr).
      apply Htop in Hp'. destruct Hp' as [_ Hb'].
      destruct (grant_owner _ _ _ _ _ _ _ Hgr) as (player & ro & -> & _).
      cbn [ownerRec o_playerId] in Heq. subst pid'. lia.
Qed.

(** The same auction through [alarm]: both tied bidders own the cell in
    their declared roles and have paid 4; the lower bidder is untouched. *)
Example cell_auction_alarm :
  let s' := fst (alarm quietEnv cellAuctionRoom) in
  map owners (grid s')
  = [[ownerRec "p1" Producer; ownerRec "p2" Seller]; []; []; []] /\
  map money (players s') = [6; 6; 10] /\
  map dice (players s') = [[1; 2; 3]; [5]; [3]].
Proof. vm_compute. repeat split. Qed.

(* ------------------------------------------------------------------ *)
(** * Market conflicts (C4) *)

Lemma find_first {A} (f : A -> bool) (l : list A) (x : A) :
  find f l = Some x ->
  exists l1 l2, l = l1 ++ x :: l2 /\ f x = true /\ Forall (fun y => f y = false) l1.
Proof.
  intros H. destruct (update_first_found f (fun y => y) l x H)
    as (l1 & l2 & Hl & _ & Hf & Hx).
  exists l1, l2. repeat split; assumption.
Qed.

Lemma awardDie_id (best die : Z) (p : Player) :
  playerId (awardDie best die p) = playerId p.
Proof. reflexivity. Qed.

Lemma set_nth_nth_error {A} (n : nat) (v x : A) (l : list A) :
  nth_error l n = Some x -> nth_error (set_nth n v l) n = Some v.
Proof.
  revert n. induction l as [|h t IH]; intros [|n]; cbn; try discriminate; auto.
Qed.

Lemma set_nth_other {A} (n m : nat) (v : A) (l : list A) :
  n <> m -> nth_error (set_nth n v l) m = nth_error l m.
Proof.
  revert n m. induction l as [|h t IH]; intros [|n] [|m] H; cbn; try reflexivity.
  - contradiction.
  - apply IH. congruence.
Qed.

Lemma set_nth_length {A} (n : nat) (v : A) (l : list A) :
  List.length (set_nth n v l) = List.length l.
Proof.
  revert n. induction l as [|h t IH]; intros [|n]; cbn; auto.
Qed.

Lemma idx_set_same {A} (l : list A) (i : Z) (v x : A) :
  idx l i = Some x -> idx (set_idx l i v) i = Some v.
Proof.
  unfold idx, set_idx. destruct (i <? 0); [discriminate|].
  apply set_nth_nth_error.
Qed.

Lemma idx_set_other {A} (l : list A) (i j : Z) (v : A) :
  i <> j -> idx (set_idx l i v) j = idx l j.
Proof.
  intros Hne. unfold idx, set_idx.
  destruct (j <? 0) eqn:Hj; [reflexivity|].
  destruct (i <? 0) eqn:Hi; [reflexivity|].
  apply set_nth_other. apply Z.ltb_ge in Hi, Hj. lia.
Qed.

Lemma len_set_idx {A} (l : list A) (i : Z) (v : A) : len (set_idx l i v) = len l.
Proof.
  unfold len, set_idx. destruct (i <? 0); [reflexivity|].
  rewrite set_nth_length. reflexivity.
Qed.

Lemma find_ext_in {A} (f f' : A -> bool) (l : list A) :
  (forall x, In x l -> f x = f' x) -> find f l = find f' l.
Proof.
  induction l as [|h t IH]; intros H; [reflexivity|]. cbn [find].
  rewrite (H h (or_introl eq_refl)). destruct (f' h); [reflexivity|].
  apply IH. intros x Hx. apply H. right. exact Hx.
Qed.

(** The bids of a conflict decide its outcome only through the amount
    recorded for each contender. *)
Lemma bestOf_bids_ext (bids bids' : Rec Z) (pids : list string) :
  (forall pid, In pid pids -> bidOf bids' pid = bidOf bids pid) ->
  map (bidOf bids') pids = map (bidOf bids) pids.
Proof. intros H. apply map_ext_in. exact H. Qed.

(** One market conflict whose die is still in the pool, with at least one
    contender and non-negative recorded bids (as [handleAuctionBid] stores
    them), resolved from the accumulator [(ps, g, md)]: the designated
    winner [w] is the first contender, in the order of the conflict's
    list, whose auction bid equals the highest bid [best].  If [w] is a
    player with money at least [best], [w] pays [best], the die is appended
    to [w]'s dice and its slot is marked taken; otherwise nothing changes.
    No other player's record and no cell changes.  The outcome depends on
    the buffer only through the amount recorded for each contender. *)
Lemma market_conflict_step (pending : PendingActions)
    (ps : list Player) (g : list Cell) (md : list Z) (cid : string)
    (dieIdx : Z) (pids : list string) (die : Z) :
  let bids := orElse (rget cid (auctionBids pending)) [] in
  let best := bestOf 0 (map (bidOf bids) pids) in
  let res := auctionStep pending (ps, g, md) (MarketConflict cid dieIdx pids) in
  (forall pid, In pid pids -> 0 <= bidOf bids pid) ->
  pids <> [] -> idx md dieIdx = Some die -> die <> -1 ->
  exists w before after,
    pids = before ++ w :: after /\
    bidOf bids w = best /\
    (forall x, In x before -> bidOf bids x <> best) /\
    (forall x, In x pids -> bidOf bids x <= best) /\
    snd (fst res) = g /\
    (forall pid, pid <> w ->
       find_player pid (fst (fst res)) = find_player pid ps) /\
    (forall player,
       find_player w ps = Some player -> best <= money player ->
       exists player',
         find_player w (fst (fst res)) = Some player' /\
         money player' = money player - best /\
         dice player' = dice player ++ [die] /\
         snd res = set_idx md dieIdx (-1) /\
         idx (snd res) dieIdx = Some (-1)) /\
    (forall player,
       find_player w ps = Some player -> money player < best ->
       res = (ps, g, md)) /\
    (find_player w ps = None -> res = (ps, g, md)) /\
    (forall pending',
       (forall pid, In pid pids ->
          bidOf (orElse (rget cid (auctionBids pending')) []) pid = bidOf bids pid) ->
       auctionStep pending' (ps, g, md) (MarketConflict cid dieIdx pids) = res).
Proof.
  intros bids best res Hnonneg Hne Hidx Hdie.
  assert (Hupper : forall x, In x pids -> bidOf bids x <= best)
    by (intros x Hx; apply bestOf_upper, in_map, Hx).
  (* the highest bid is attained *)
  assert (Hfind : exists w, find (fun pid => bidOf bids pid =? best) pids = Some w).
  { destruct (find (fun pid => bidOf bids pid =? best) pids) as [w|] eqn:E;
      [exists w; reflexivity|].
    exfalso. destruct (bestOf_attained 0 (map (bidOf bids) pids)) as [H0|Hin].
    - destruct pids as [|p0 rest]; [contradiction|].
      pose proof (Hnonneg p0 (or_introl eq_refl)) as H1.
      pose proof (Hupper p0 (or_introl eq_refl)) as H2.
      pose proof (find_none _ _ E p0 (or_introl eq_refl)) as Hf. cbv beta in Hf.
      apply Z.eqb_neq in Hf. assert (Hb0 : best = 0) by exact H0. lia.
    - apply in_map_iff in Hin. destruct Hin as (x & Hx & Hin).
      pose proof (find_none _ _ E x Hin) as Hf. cbv beta in Hf.
      apply Z.eqb_neq in Hf. apply Hf. exact Hx. }
  destruct Hfind as (w & Hw).
  destruct (find_first _ _ _ Hw) as (before & after & Hsplit & Hwb & Hbefore).
  apply Z.eqb_eq in Hwb.
  assert (Hres : res = match find_player w ps with
                       | Some player =>
                           if money player >=? best
                           then (update_player w (awardDie best die) ps, g,
                                 set_idx md dieIdx (-1))
                           else (ps, g, md)
                       | None => (ps, g, md)
                       end).
  { unfold res, auctionStep. cbn [conflictId playerIds]. fold bids. fold best.
    rewrite Hw, Hidx. destruct (find_player w ps) as [player|]; [|reflexivity].
    assert (Ht : isTaken die = false) by (apply Z.eqb_neq; exact Hdie).
    rewrite Ht. reflexivity. }
  exists w, before, after.
  split; [exact Hsplit|]. split; [exact Hwb|]. split.
  { intros x Hx. rewrite Forall_forall in Hbefore. specialize (Hbefore x Hx).
    apply Z.eqb_neq. exact Hbefore. }
  split; [exact Hupper|]. split.
  { rewrite Hres. destruct (find_player w ps) as [player|]; [|reflexivity].
    destruct (money player >=? best); reflexivity. }
  split.
  { intros pid Hp. rewrite Hres. destruct (find_player w ps) as [player|]; [|reflexivity].
    destruct (money player >=? best); [|reflexivity]. cbn [fst].
    apply find_player_update_other; [congruence|apply awardDie_id]. }
  split.
  { intros player Hpl Hm. rewrite Hres, Hpl.
    assert (Hge : (money player >=? best) = true) by (apply Z.geb_le; exact Hm).
    rewrite Hge. cbn [fst snd]. exists (awardDie best die player).
    split; [apply find_player_update_same; [apply awardDie_id|exact Hpl]|].
    split; [reflexivity|]. split; [reflexivity|]. split; [reflexivity|].
    apply idx_set_same with (x := die). exact Hidx. }
  split.
  { intros player Hpl Hm. rewrite Hres, Hpl.
    assert (Hge : (money player >=? best) = false).
    { destruct (money player >=? best) eqn:E; [apply Z.geb_le in E; lia|reflexivity]. }
    rewrite Hge. reflexivity. }
  split.
  { intros Hnone. rewrite Hres, Hnone. reflexivity. }
  intros pending' Hsame. unfold res, auctionStep. cbn [conflictId playerIds].
  fold bids. rewrite (bestOf_bids_ext bids _ pids Hsame). fold best.
  assert (Hf : find (fun pid => bidOf (orElse (rget cid (auctionBids pending')) []) pid
                                =? best) pids
               = find (fun pid => bidOf bids pid =? best) pids).
  { apply find_ext_in. intros pid Hp. rewrite (Hsame pid Hp). reflexivity. }
  rewrite Hf. reflexivity.
Qed.

(** The auction through [alarm]: "p1", first in the conflict's list, gets
    the die for 5 although "p2" placed the same auction bid earlier. *)
Example market_auction_alarm :
  let s' := fst (alarm quietEnv marketAuctionRoom) in
  map money (players s') = [5; 10] /\
  map dice (players s') = [[1; 4]; [2]] /\
  option_map marketDice (config s') = Some (Some [2]).
Proof. vm_compute. repeat split. Qed.

(* ------------------------------------------------------------------ *)
(** * Market resolution (C2): grouping the bids *)

Lemma bidsOn_app (minPrice i : Z) (l1 l2 : Rec MarketAct) :
  bidsOn minPrice i (l1 ++ l2) = bidsOn minPrice i l1 ++ bidsOn minPrice i l2.
Proof. unfold bidsOn. rewrite filter_app, map_app. reflexivity. Qed.

Lemma bidsOn_key (minPrice i : Z) (mk : Rec MarketAct) (b : Bid) :
  In b (bidsOn minPrice i mk) -> In (fst b) (dkeys mk).
Proof.
  unfold bidsOn, dkeys. intros H. apply in_map_iff in H.
  destruct H as (e & <- & He). apply filter_In in He. destruct He as [He _].
  change (fst (toBid e)) with (fst e). apply in_map. exact He.
Qed.

Lemma bidsOn_In (minPrice i : Z) (mk : Rec MarketAct) (pid : string) (a : Z) :
  In (pid, a) (bidsOn minPrice i mk) <->
  exists act, In (pid, act) mk /\ dieIndex act = i /\ amount act = a /\ minPrice <= a.
Proof.
  unfold bidsOn, bidsFor. rewrite in_map_iff. split.
  - intros ([pid' act] & Heq & He). apply filter_In in He. destruct He as [He Hq].
    unfold toBid in Heq. cbn [fst snd] in *. injection Heq as -> <-.
    apply andb_true_iff in Hq. destruct Hq as [Hm Hd].
    exists act. repeat split; [exact He|apply Z.eqb_eq; exact Hd|apply Z.leb_le; exact Hm].
  - intros (act & He & Hd & Ha & Hm). exists (pid, act). split.
    + unfold toBid. cbn [fst snd]. rewrite Ha. reflexivity.
    + apply filter_In. split; [exact He|]. cbn [fst snd].
      apply andb_true_iff. split; [apply Z.leb_le; lia|apply Z.eqb_eq; exact Hd].
Qed.

Lemma groupStep_grouped (minPrice : Z) (pre : Rec MarketAct)
    (m : list (Z * list Bid)) (entry : string * MarketAct) :
  grouped minPrice pre m -> ~ In (fst entry) (dkeys pre) ->
  grouped minPrice (pre ++ [entry]) (groupStep minPrice m entry).
Proof.
  intros [Hnd Hget] Hfresh. destruct entry as [pid act]. cbn [fst] in Hfresh.
  unfold groupStep.
  assert (Hone : forall i, bidsOn minPrice i [(pid, act)]
                           = if bidsFor minPrice i (pid, act)
                             then [(pid, amount act)] else []).
  { intros i. unfold bidsOn. cbn [filter]. destruct (bidsFor _ _ _); reflexivity. }
  destruct (amount act <? minPrice) eqn:Hlow.
  - (* below the minimum price: skipped *)
    split; [exact Hnd|]. intros i. rewrite bidsOn_app, Hone.
    unfold bidsFor. cbn [fst snd]. apply Z.ltb_lt in Hlow.
    assert (Hm : (minPrice <=? amount act) = false) by (apply Z.leb_gt; lia).
    rewrite Hm. cbn [andb]. rewrite app_nil_r. apply Hget.
  - apply Z.ltb_ge in Hlow.
    assert (Hm : (minPrice <=? amount act) = true) by (apply Z.leb_le; lia).
    assert (Hlist : orElse (dget Z.eqb (dieIndex act) m) []
                    = bidsOn minPrice (dieIndex act) pre).
    { rewrite Hget. destruct (bidsOn minPrice (dieIndex act) pre); reflexivity. }
    rewrite Hlist.
    assert (Hnew : existsb (fun b : string * Z => String.eqb (fst b) pid)
                           (bidsOn minPrice (dieIndex act) pre) = false).
    { destruct (existsb _ _) eqn:E; [|reflexivity].
      apply existsb_exists in E. destruct E as (b & Hb & Heq).
      apply String.eqb_eq in Heq. exfalso. apply Hfresh. rewrite <- Heq.
      eapply bidsOn_key. exact Hb. }
    rewrite Hnew. split; [apply (NoDup_dset Z.eqb Zeqb_spec); exact Hnd|].
    intros i. rewrite bidsOn_app, Hone. unfold bidsFor. cbn [fst snd].
    rewrite Hm. cbn [andb]. destruct (dieIndex act =? i) eqn:Hd.
    + apply Z.eqb_eq in Hd. subst i.
      rewrite (dget_dset_same Z.eqb Zeqb_spec).
      destruct (bidsOn minPrice (dieIndex act) pre); reflexivity.
    + apply Z.eqb_neq in Hd.
      rewrite (dget_dset_other Z.eqb Zeqb_spec) by exact Hd.
      rewrite app_nil_r. apply Hget.
Qed.

Lemma bidsByDieIndex_from (minPrice : Z) (rest pre : Rec MarketAct)
    (m : list (Z * list Bid)) :
  grouped minPrice pre m -> NoDup (dkeys (pre ++ rest)) ->
  grouped minPrice (pre ++ rest) (fold_left (groupStep minPrice) rest m).
Proof.
  revert pre m. induction rest as [|entry t IH]; intros pre m Hg Hn.
  - rewrite app_nil_r. exact Hg.
  - cbn [fold_left].
    replace (pre ++ entry :: t) with ((pre ++ [entry]) ++ t) in *
      by (rewrite <- app_assoc; reflexivity).
    apply IH; [|exact Hn].
    apply groupStep_grouped; [exact Hg|].
    unfold dkeys in Hn. rewrite !map_app in Hn. cbn [map] in Hn.
    rewrite <- app_assoc in Hn. apply NoDup_remove_2 in Hn.
    intros Hin. apply Hn. apply in_or_app. left. exact Hin.
Qed.

Lemma bidsByDieIndex_grouped (minPrice : Z) (mk : Rec MarketAct) :
  NoDup (dkeys mk) -> grouped minPrice mk (bidsByDieIndex minPrice mk).
Proof.
  intros Hn. unfold bidsByDieIndex.
  apply (bidsByDieIndex_from minPrice mk [] []); [|exact Hn].
  split; [constructor|]. intros i. reflexivity.
Qed.

(** With distinct keys every entry of the map is found under its key. *)
Lemma dget_of_In {V} (k : Z) (v : V) (m : list (Z * V)) :
  NoDup (dkeys m) -> In (k, v) m -> dget Z.eqb k m = Some v.
Proof.
  induction m as [|[k' v'] t IH]; intros Hn Hin; [destruct Hin|].
  cbn [dkeys map fst] in Hn. inversion Hn as [|? ? Hnotin Hn']; subst.
  cbn [dget]. destruct Hin as [Heq|Hin].
  - injection Heq as -> ->. rewrite Z.eqb_refl. reflexivity.
  - destruct (k' =? k) eqn:E.
    + apply Z.eqb_eq in E. subst k'. exfalso. apply Hnotin.
      change k with (fst (k, v)). apply in_map. exact Hin.
    + apply IH; assumption.
Qed.

Lemma grouped_entry (minPrice : Z) (mk : Rec MarketAct) (m : list (Z * list Bid))
    (j : Z) (bs : list Bid) :
  grouped minPrice mk m -> In (j, bs) m -> bs = bidsOn minPrice j mk /\ bs <> [].
Proof.
  intros [Hnd Hget] Hin. pose proof (dget_of_In j bs m Hnd Hin) as H.
  rewrite Hget in H. destruct (bidsOn minPrice j mk); [discriminate|].
  injection H as <-. split; [reflexivity|discriminate].
Qed.

(** A player bids on one die only. *)
Lemma bidsOn_one_die (minPrice i j : Z) (mk : Rec MarketAct) (pid : string) :
  NoDup (dkeys mk) ->
  In pid (map fst (bidsOn minPrice i mk)) ->
  In pid (map fst (bidsOn minPrice j mk)) -> i = j.
Proof.
  intros Hn Hi Hj.
  apply in_map_iff in Hi. destruct Hi as ([p1 a1] & Hp1 & Hi). cbn [fst] in Hp1. subst p1.
  apply in_map_iff in Hj. destruct Hj as ([p2 a2] & Hp2 & Hj). cbn [fst] in Hp2. subst p2.
  apply bidsOn_In in Hi. destruct Hi as (act1 & He1 & Hd1 & _).
  apply bidsOn_In in Hj. destruct Hj as (act2 & He2 & Hd2 & _).
  assert (Hact : act1 = act2).
  { clear -Hn He1 He2. induction mk as [|[k a] t IH]; [destruct He1|].
    cbn [dkeys map fst] in Hn. inversion Hn as [|? ? Hnotin Hn']; subst.
    destruct He1 as [H1|H1], He2 as [H2|H2].
    - congruence.
    - injection H1 as -> ->. exfalso. apply Hnotin.
      change pid with (fst (pid, act2)). apply in_map. exact H2.
    - injection H2 as -> ->. exfalso. apply Hnotin.
      change pid with (fst (pid, act1)). apply in_map. exact H1.
    - apply IH; assumption. }
  congruence.
Qed.

(** With distinct keys a player has one bid in a group, so the tied top
    bidders are exactly the players whose bid on the die equals the
    highest. *)
Lemma topBidders_In (best : Z) (bids : list Bid) (pid : string) :
  In pid (topBidders best bids) <-> In (pid, best) bids.
Proof.
  unfold topBidders. rewrite in_map_iff. split.
  - intros ([p a] & Hp & Hin). cbn [fst] in Hp. subst p.
    apply filter_In in Hin. destruct Hin as [Hin Ha]. cbn [snd] in Ha.
    apply Z.eqb_eq in Ha. subst a. exact Hin.
  - intros Hin. exists (pid, best). split; [reflexivity|].
    apply filter_In. split; [exact Hin|]. cbn [snd]. apply Z.eqb_refl.
Qed.

Lemma topBidders_bidders (best : Z) (bids : list Bid) (pid : string) :
  In pid (topBidders best bids) -> In pid (map fst bids).
Proof.
  intros H. apply topBidders_In in H.
  change pid with (fst (pid, best)). apply in_map. exact H.
Qed.

(* ------------------------------------------------------------------ *)
(** * Market resolution (C2): the loop over the groups *)

Lemma untouched_refl (i : Z) (W : list string) (acc : MarketAcc) :
  untouched i W acc acc.
Proof. repeat split; auto. apply incl_refl. Qed.

Lemma untouched_trans (i : Z) (W : list string) (a b c : MarketAcc) :
  untouched i W a b -> untouched i W b c -> untouched i W a c.
Proof.
  intros (H1 & H2 & H3 & H4) (K1 & K2 & K3 & K4). repeat split.
  - congruence.
  - congruence.
  - intros w Hw. rewrite K3, H3 by exact Hw. reflexivity.
  - eapply incl_tran; eassumption.
Qed.

Lemma marketStep_untouched (t i : Z) (W : list string) (acc : MarketAcc)
    (j : Z) (bs : list Bid) :
  j <> i -> (forall w, In w W -> ~ In w (map fst bs)) ->
  untouched i W acc (marketStep t acc (j, bs)).
Proof.
  intros Hne Hdis. destruct acc as [[ps md] cs]. unfold marketStep.
  destruct ((j <? 0) || (j >=? len md)); [apply untouched_refl|].
  destruct bs as [|b bs']; [apply untouched_refl|].
  set (bs := b :: bs') in *.
  destruct (topBidders (bestOf (-1) (map snd bs)) bs) as [|w' [|w'' ws]] eqn:Hw.
  - repeat split; cbn [fst snd]; auto. apply incl_appl, incl_refl.
  - destruct (find_player w' ps) as [player|]; [|apply untouched_refl].
    destruct (money player >=? _); [|apply untouched_refl].
    repeat split; cbn [fst snd].
    + apply idx_set_other. exact Hne.
    + apply len_set_idx.
    + intros w Hin. apply find_player_update_other; [|apply awardDie_id].
      intros ->. apply (Hdis w Hin). apply topBidders_bidders with (best := bestOf (-1) (map snd bs)).
      rewrite Hw. left. reflexivity.
    + apply incl_refl.
  - repeat split; cbn [fst snd]; auto. apply incl_appl, incl_refl.
Qed.

Lemma marketFold_untouched (t i : Z) (W : list string)
    (L : list (Z * list Bid)) (acc : MarketAcc) :
  Forall (fun grp => fst grp <> i /\
                     forall w, In w W -> ~ In w (map fst (snd grp))) L ->
  untouched i W acc (fold_left (marketStep t) L acc).
Proof.
  intros H. revert acc. induction H as [|[j bs] L' [Hj Hd] _ IH]; intros acc.
  - apply untouched_refl.
  - cbn [fold_left]. eapply untouched_trans; [|apply IH].
    apply marketStep_untouched; assumption.
Qed.

Lemma idx_in_range {A} (l : list A) (i : Z) :
  0 <= i < len l -> exists x, idx l i = Some x.
Proof.
  intros [H0 H1]. unfold idx, len in *.
  assert (Hlt : (i <? 0) = false) by (apply Z.ltb_ge; lia). rewrite Hlt.
  destruct (nth_error l (Z.to_nat i)) as [x|] eqn:E; [exists x; reflexivity|].
  apply nth_error_None in E. lia.
Qed.

Lemma keys_split (G : list (Z * list Bid)) (i : Z) (bids : list Bid) :
  NoDup (dkeys G) -> In (i, bids) G ->
  exists G1 G2, G = G1 ++ (i, bids) :: G2 /\
                Forall (fun grp => fst grp <> i) G1 /\
                Forall (fun grp => fst grp <> i) G2.
Proof.
  intros Hn Hin. apply in_split in Hin. destruct Hin as (G1 & G2 & ->).
  exists G1, G2. split; [reflexivity|].
  unfold dkeys in Hn. rewrite map_app in Hn. cbn [map fst] in Hn.
  pose proof (NoDup_remove_2 _ _ _ Hn) as Hnot.
  split; apply Forall_forall; intros [j bs] Hj Heq; cbn [fst] in Heq; subst j;
    apply Hnot; apply in_or_app; [left|right];
    change i with (fst (i, bs)); apply in_map; exact Hj.
Qed.

(** The outcome of the loop for one die [i] with at least one bid. *)
Lemma market_target (t : Z) (G : list (Z * list Bid)) (i : Z) (bids : list Bid)
    (ps : list Player) (md : list Z) :
  NoDup (dkeys G) -> In (i, bids) G ->
  (forall j bs, In (j, bs) G -> j <> i ->
     forall w, In w (map fst bids) -> ~ In w (map fst bs)) ->
  0 <= i < len md -> bids <> [] ->
  let best := bestOf (-1) (map snd bids) in
  let winners := topBidders best bids in
  let out := fold_left (marketStep t) G (ps, md, []) in
  match winners with
  | [w] =>
      match find_player w ps with
      | Some p =>
          if money p >=? best
          then find_player w (fst (fst out))
               = Some (awardDie best (orElse (idx md i) 0) p) /\
               idx (snd (fst out)) i = Some (-1)
          else find_player w (fst (fst out)) = Some p /\
               idx (snd (fst out)) i = idx md i
      | None => find_player w (fst (fst out)) = None /\
                idx (snd (fst out)) i = idx md i
      end
  | _ =>
      In (MarketConflict (marketConflictId i t) i winners) (snd out) /\
      idx (snd (fst out)) i = idx md i /\
      forall w, In w (map fst bids) ->
        find_player w (fst (fst out)) = find_player w ps
  end.
Proof.
  intros Hn Hin Hdis Hrange Hne best winners out.
  destruct (keys_split G i bids Hn Hin) as (G1 & G2 & HG & HG1 & HG2).
  assert (Hframe : forall L, incl L G -> Forall (fun grp => fst grp <> i) L ->
            Forall (fun grp => fst grp <> i /\
                      forall w, In w (map fst bids) -> ~ In w (map fst (snd grp))) L).
  { intros L Hincl HL. apply Forall_forall. intros [j bs] Hj.
    rewrite Forall_forall in HL. pose proof (HL _ Hj) as Hji. cbn [fst snd] in *.
    split; [exact Hji|]. apply (Hdis j bs); [apply Hincl; exact Hj|exact Hji]. }
  assert (H1 : untouched i (map fst bids) (ps, md, [])
                 (fold_left (marketStep t) G1 (ps, md, []))).
  { apply marketFold_untouched, Hframe; [|exact HG1].
    rewrite HG. apply incl_appl, incl_refl. }
  set (acc1 := fold_left (marketStep t) G1 (ps, md, [])) in *.
  assert (H2 : untouched i (map fst bids) (marketStep t acc1 (i, bids)) out).
  { unfold out. rewrite HG, fold_left_app. cbn [fold_left]. fold acc1.
    apply marketFold_untouched, Hframe; [|exact HG2].
    rewrite HG. apply incl_appr, incl_tl, incl_refl. }
  destruct H1 as (Hi1 & Hl1 & Hp1 & _). destruct H2 as (Hi2 & _ & Hp2 & Hc2).
  destruct acc1 as [[ps1 md1] cs1]. cbn [fst snd] in *.
  assert (Hstep : marketStep t (ps1, md1, cs1) (i, bids)
            = match winners with
              | [w] =>
                  match find_player w ps1 with
                  | Some player =>
                      if money player >=? best
                      then (update_player w (awardDie best (orElse (idx md1 i) 0)) ps1,
                            set_idx md1 i (-1), cs1)
                      else (ps1, md1, cs1)
                  | None => (ps1, md1, cs1)
                  end
              | _ => (ps1, md1,
                      cs1 ++ [MarketConflict (marketConflictId i t) i winners])
              end).
  { unfold marketStep.
    assert (Hr : ((i <? 0) || (i >=? len md1)) = false).
    { rewrite Hl1. apply orb_false_iff. split; [apply Z.ltb_ge; lia|].
      destruct (i >=? len md) eqn:E; [apply Z.geb_le in E; lia|reflexivity]. }
    rewrite Hr. destruct bids as [|b bs]; [contradiction|]. reflexivity. }
  rewrite Hstep in Hi2, Hp2, Hc2. clear Hstep.
  destruct winners as [|w [|w2 ws]] eqn:Hw.
  - cbn [fst snd] in *. split; [|split].
    + apply Hc2. apply in_or_app. right. left. reflexivity.
    + rewrite Hi2. exact Hi1.
    + intros w Hin0. rewrite Hp2, Hp1 by exact Hin0. reflexivity.
  - assert (Hwin : In w (map fst bids)).
    { apply topBidders_bidders with (best := best). fold winners. rewrite Hw.
      left. reflexivity. }
    rewrite (Hp1 w Hwin) in *. rewrite Hi1 in *.
    destruct (find_player w ps) as [p|] eqn:Hfp.
    + destruct (money p >=? best).
      * cbn [fst snd] in *. split.
        -- rewrite (Hp2 w Hwin).
           apply find_player_update_same; [apply awardDie_id|].
           rewrite (Hp1 w Hwin). exact Hfp.
        -- rewrite Hi2. destruct (idx_in_range md1 i) as (x & Hx); [lia|].
           apply idx_set_same with (x := x). exact Hx.
      * cbn [fst snd] in *. split.
        -- rewrite (Hp2 w Hwin), (Hp1 w Hwin). exact Hfp.
        -- rewrite Hi2. exact Hi1.
    + cbn [fst snd] in *. split.
      * rewrite (Hp2 w Hwin), (Hp1 w Hwin). exact Hfp.
      * rewrite Hi2. exact Hi1.
  - cbn [fst snd] in *. split; [|split].
    + apply Hc2. apply in_or_app. right. left. reflexivity.
    + rewrite Hi2. exact Hi1.
    + intros w0 Hin0. rewrite Hp2, Hp1 by exact Hin0. reflexivity.
Qed.

(* ------------------------------------------------------------------ *)
(** * Market resolution (C2): the phase transition *)

Lemma marketStep_shape (t : Z) (G : list (Z * list Bid)) (md0 : list Z)
    (acc : MarketAcc) (grp : Z * list Bid) :
  In grp G ->
  (len (snd (fst acc)) = len md0 /\
   Forall (fun c => exists j bs,
             In (j, bs) G /\
             c = MarketConflict (marketConflictId j t) j
                   (topBidders (bestOf (-1) (map snd bs)) bs) /\
             List.length (topBidders (bestOf (-1) (map snd bs)) bs) <> 1%nat)
          (snd acc)) ->
  len (snd (fst (marketStep t acc grp))) = len md0 /\
  Forall (fun c => exists j bs,
            In (j, bs) G /\
            c = MarketConflict (marketConflictId j t) j
                  (topBidders (bestOf (-1) (map snd bs)) bs) /\
            List.length (topBidders (bestOf (-1) (map snd bs)) bs) <> 1%nat)
         (snd (marketStep t acc grp)).
Proof.
  intros Hin [Hl Hc]. destruct acc as [[ps md] cs]. destruct grp as [j bs].
  cbn [fst snd] in *. unfold marketStep.
  destruct ((j <? 0) || (j >=? len md)); [split; assumption|].
  destruct bs as [|b bs']; [split; assumption|].
  set (bs := b :: bs') in *.
  destruct (topBidders (bestOf (-1) (map snd bs)) bs) as [|w [|w2 ws]] eqn:Hw.
  - cbn [fst snd]. split; [exact Hl|]. apply Forall_app. split; [exact Hc|].
    constructor; [|constructor]. exists j, bs. rewrite Hw.
    split; [exact Hin|]. split; [reflexivity|]. cbn. discriminate.
  - destruct (find_player w ps) as [player|]; [|split; assumption].
    destruct (money player >=? _); [|split; assumption].
    cbn [fst snd]. split; [rewrite len_set_idx; exact Hl|exact Hc].
  - cbn [fst snd]. split; [exact Hl|]. apply Forall_app. split; [exact Hc|].
    constructor; [|constructor]. exists j, bs. rewrite Hw.
    split; [exact Hin|]. split; [reflexivity|]. cbn. discriminate.
Qed.

Lemma find_player_recoloured (pid : string) (ps ps' : list Player) :
  Forall2 sameButColour ps ps' ->
  match find_player pid ps, find_player pid ps' with
  | Some p, Some p' => sameButColour p p'
  | None, None => True
  | _, _ => False
  end.
Proof.
  intros H. induction H as [|p p' t t' Hp _ IH]; [exact I|].
  unfold find_player, is_player in *. cbn [find].
  destruct Hp as (Hid & Hrest). rewrite Hid.
  destruct (String.eqb (playerId p) pid); [|exact IH].
  split; [exact Hid|exact Hrest].
Qed.

Lemma alarm_market_result (e : Env) (s : Storage) (cfg : GameConfig) :
  let out := marketOutcome e s cfg in
  let s' := fst (alarm_market e s cfg) in
  Forall2 sameButColour (fst (fst out)) (players s') /\
  conflicts (pendingActions s') = snd out /\
  (snd out <> [] ->
     option_map phase (config s') = Some auction /\
     option_map marketDice (config s') = Some (Some (snd (fst out))) /\
     market (pendingActions s') = market (pendingActions s)) /\
  (snd out = [] ->
     option_map phase (config s') = Some buy_phase /\
     option_map marketDice (config s')
     = Some (Some (filter (fun v => negb (isTaken v)) (snd (fst out)))) /\
     pendingActions s' = emptyPendingActions).
Proof.
  intros out s'. unfold s', alarm_market. unfold out, marketOutcome.
  destruct (fold_left _ _ _) as [[ps md] cs]. cbn [fst snd].
  destruct cs as [|c cs'].
  - match goal with |- context [broadcastState e ?x] => set (s1 := x) end.
    pose proof (broadcast_players e s1) as Hp.
    rewrite broadcast_pending, broadcast_config.
    split; [exact Hp|]. split; [reflexivity|]. split; [intros H; contradiction|].
    intros _. repeat split.
  - match goal with |- context [broadcastState e ?x] => set (s1 := x) end.
    pose proof (broadcast_players e s1) as Hp.
    rewrite broadcast_pending, broadcast_config.
    split; [exact Hp|]. split; [reflexivity|]. split; [|intros H; discriminate H].
    intros _. repeat split.
Qed.

(** The claim as written fails.  In the reachable room where Ann, holding
    11, is the only bidder on die 0 with a bid of 20, she is the unique
    highest bidder, yet the resolution neither charges her nor gives her
    the die: her money and dice are as before and the die is still in the
    pool of the buy phase. *)
Lemma C2_overbid_is_not_awarded :
  reachable overbidRoom /\
  inPhase market_phase overbidRoom = true /\
  market (pendingActions overbidRoom)
  = [("aaaaaaaa", {| dieIndex := 0; amount := 20 |})] /\
  option_map marketDice (config overbidRoom) = Some (Some [5]) /\
  map money (players overbidRoom) = [11; 11] /\
  map money (players (fst (alarm (demoEnv 6 "") overbidRoom))) = [11; 11] /\
  map dice (players (fst (alarm (demoEnv 6 "") overbidRoom)))
  = map dice (players overbidRoom) /\
  option_map marketDice (config (fst (alarm (demoEnv 6 "") overbidRoom)))
  = Some (Some [5]) /\
  inPhase buy_phase (fst (alarm (demoEnv 6 "") overbidRoom)) = true.
Proof.
  split; [apply reachable_run, startedRoom_reachable|].
  do 7 (split; [vm_compute; reflexivity|]). vm_compute. reflexivity.
Qed.

Lemma marketOutcome_shape (e : Env) (s : Storage) (cfg : GameConfig) :
  let G := bidsByDieIndex (orElse (marketMinPrice cfg) MARKET_MIN_PRICE)
                          (market (pendingActions s)) in
  let out := marketOutcome e s cfg in
  len (snd (fst out)) = len (orElse (marketDice cfg) []) /\
  Forall (fun c => exists j bs,
            In (j, bs) G /\
            c = MarketConflict (marketConflictId j (now e)) j
                  (topBidders (bestOf (-1) (map snd bs)) bs) /\
            List.length (topBidders (bestOf (-1) (map snd bs)) bs) <> 1%nat)
         (snd out).
Proof.
  intros G out. unfold out, marketOutcome. fold G.
  apply fold_left_invariant
    with (P := fun acc : MarketAcc =>
                 len (snd (fst acc)) = len (orElse (marketDice cfg) []) /\
                 Forall (fun c => exists j bs,
                           In (j, bs) G /\
                           c = MarketConflict (marketConflictId j (now e)) j
                                 (topBidders (bestOf (-1) (map snd bs)) bs) /\
                           List.length (topBidders (bestOf (-1) (map snd bs)) bs)
                           <> 1%nat)
                        (snd acc))
         (Q := fun grp : Z * list Bid => In grp G).
  - split; [reflexivity|constructor].
  - apply Forall_forall. intros x Hx. exact Hx.
  - intros acc grp Hacc Hin. apply marketStep_shape; assumption.
Qed.

(** C2, amended.  When the market phase resolves (the keys of the bid
    buffer being distinct), the bids at or above the minimum price are
    grouped by die index, and for every die index [i] of the pool with at
    least one such bid: if one player alone holds the highest bid and that
    player's money is at least the bid, the player pays exactly the bid,
    the die value is appended to the player's dice and the die's slot is
    marked taken (-1), so that it is outside the pool; if that player's
    money is less than the bid, nothing is charged or awarded and the die
    stays; if two or more players tie at the highest bid, a market
    conflict for [i] with exactly the tied top bidders is recorded, the
    die stays and the tied bidders keep money and dice.  Every recorded
    conflict is such a tie.  If any conflict was recorded the room moves to
    the auction phase with the marked dice array; otherwise it moves to
    the buy phase with the taken slots dropped from the pool. *)
Theorem C2_market_resolution (e : Env) (s : Storage) (cfg : GameConfig) (i : Z) :
  config s = Some cfg -> phase cfg = market_phase ->
  NoDup (dkeys (market (pendingActions s))) ->
  let mk := market (pendingActions s) in
  let md := orElse (marketDice cfg) [] in
  let minPrice := orElse (marketMinPrice cfg) MARKET_MIN_PRICE in
  let bids := bidsOn minPrice i mk in
  let best := bestOf (-1) (map snd bids) in
  let winners := topBidders best bids in
  let s' := fst (alarm e s) in
  let marked := snd (fst (marketOutcome e s cfg)) in
  0 <= i < len md -> bids <> [] ->
  (forall pid a, In (pid, a) bids <->
     exists act, In (pid, act) mk /\ dieIndex act = i /\ amount act = a
                 /\ minPrice <= a) /\
  (forall b, In b bids -> snd b <= best) /\
  (forall pid, In pid winners <-> In (pid, best) bids) /\
  (-1 < minPrice -> winners <> []) /\
  len marked = len md /\
  (forall w p,
     winners = [w] -> find_player w (players s) = Some p -> best <= money p ->
     exists p' die,
       idx md i = Some die /\ find_player w (players s') = Some p' /\
       money p' = money p - best /\ dice p' = dice p ++ [die] /\
       idx marked i = Some (-1)) /\
  (forall w p,
     winners = [w] -> find_player w (players s) = Some p -> money p < best ->
     exists p',
       find_player w (players s') = Some p' /\ money p' = money p /\
       dice p' = dice p /\ idx marked i = idx md i) /\
  (forall w1 w2 rest,
     winners = w1 :: w2 :: rest ->
     In (tieConflict (now e) minPrice mk i) (conflicts (pendingActions s')) /\
     idx marked i = idx md i /\
     forall w p, In w winners -> find_player w (players s) = Some p ->
       exists p', find_player w (players s') = Some p' /\ money p' = money p /\
                  dice p' = dice p) /\
  (forall c, In c (conflicts (pendingActions s')) ->
     exists j, c = tieConflict (now e) minPrice mk j /\
               List.length (playerIds c) <> 1%nat) /\
  (conflicts (pendingActions s') <> [] ->
     option_map phase (config s') = Some auction /\
     option_map marketDice (config s') = Some (Some marked)) /\
  (conflicts (pendingActions s') = [] ->
     option_map phase (config s') = Some buy_phase /\
     option_map marketDice (config s')
     = Some (Some (filter (fun v => negb (isTaken v)) marked))).
Proof.
  intros Hcfg Hph Hn mk md minPrice bids best winners s' marked Hrange Hne.
  pose proof (bidsByDieIndex_grouped minPrice mk Hn) as Hgr.
  set (G := bidsByDieIndex minPrice mk) in *.
  assert (HinG : In (i, bids) G).
  { destruct Hgr as [_ Hget]. specialize (Hget i). fold bids in Hget.
    apply (dget_In Z.eqb Zeqb_spec). rewrite Hget.
    destruct bids; [contradiction|reflexivity]. }
  assert (Hdis : forall j bs, In (j, bs) G -> j <> i ->
                   forall w, In w (map fst bids) -> ~ In w (map fst bs)).
  { intros j bs Hj Hji w Hw Hw'.
    destruct (grouped_entry minPrice mk G j bs Hgr Hj) as [-> _].
    apply Hji. symmetry. eapply bidsOn_one_die; eassumption. }
  pose proof (market_target (now e) G i bids (players s) md (proj1 Hgr) HinG
                Hdis Hrange Hne) as Ht.
  cbv zeta in Ht. fold best in Ht. fold winners in Ht.
  change (fold_left (marketStep (now e)) G (players s, md, []))
    with (marketOutcome e s cfg) in Ht.
  pose proof (alarm_market_result e s cfg) as Hres. cbv zeta in Hres.
  assert (Hs' : s' = fst (alarm_market e s cfg))
    by (unfold s', alarm; rewrite Hcfg, Hph; reflexivity).
  rewrite <- Hs' in Hres. destruct Hres as (Hcol & Hcs & Hauction & Hbuy).
  pose proof (marketOutcome_shape e s cfg) as Hshape. cbv zeta in Hshape.
  fold minPrice in Hshape. fold mk in Hshape. fold G in Hshape. fold md in Hshape.
  destruct Hshape as [Hlen Hconf]. fold marked in Hlen.
  assert (Hafter : forall w p,
             find_player w (fst (fst (marketOutcome e s cfg))) = Some p ->
             exists p', find_player w (players s') = Some p' /\
                        money p' = money p /\ dice p' = dice p).
  { intros w p Hf. pose proof (find_player_recoloured w _ _ Hcol) as Hr.
    rewrite Hf in Hr. destruct (find_player w (players s')) as [p'|]; [|contradiction].
    destruct Hr as (_ & _ & Hm & Hd). exists p'. repeat split; assumption. }
  assert (Hmin : forall b, In b bids -> minPrice <= snd b).
  { intros [pid a] Hb. apply bidsOn_In in Hb. destruct Hb as (act & _ & _ & _ & Hm).
    exact Hm. }
  split; [intros pid a; apply bidsOn_In|].
  split; [intros b Hb; apply bestOf_upper, in_map, Hb|].
  split; [intros pid; apply topBidders_In|].
  split.
  { intros Hpos Hnil.
    assert (Hatt : best = -1 \/ In best (map snd bids)) by apply bestOf_attained.
    destruct Hatt as [H1|Hin].
    - destruct bids as [|b bs] eqn:Eb; [contradiction|].
      pose proof (Hmin b (or_introl eq_refl)) as Hb1.
      assert (Hb2 : snd b <= best) by (apply bestOf_upper; left; reflexivity).
      lia.
    - apply in_map_iff in Hin. destruct Hin as ([pid a] & Ha & Hin).
      cbn [snd] in Ha. subst a.
      assert (Hw : In pid winners) by (apply topBidders_In; exact Hin).
      rewrite Hnil in Hw. destruct Hw. }
  split; [exact Hlen|].
  split.
  { intros w p Hw Hp Hm. rewrite Hw, Hp in Ht.
    assert (Hge : (money p >=? best) = true) by (apply Z.geb_le; exact Hm).
    rewrite Hge in Ht. destruct Ht as [Hfp Hidx].
    destruct (idx_in_range md i Hrange) as (die & Hdie).
    destruct (Hafter w _ Hfp) as (p' & Hp' & Hm' & Hd').
    exists p', die. rewrite Hdie in *. cbn [orElse] in *.
    split; [reflexivity|]. split; [exact Hp'|]. split; [exact Hm'|].
    split; [exact Hd'|exact Hidx]. }
  split.
  { intros w p Hw Hp Hm. rewrite Hw, Hp in Ht.
    assert (Hge : (money p >=? best) = false).
    { destruct (money p >=? best) eqn:E; [apply Z.geb_le in E; lia|reflexivity]. }
    rewrite Hge in Ht. destruct Ht as [Hfp Hidx].
    destruct (Hafter w _ Hfp) as (p' & Hp' & Hm' & Hd').
    exists p'. repeat split; assumption. }
  split.
  { intros w1 w2 rest Hw. rewrite Hw in Ht. destruct Ht as (Hc & Hidx & Hsame).
    split; [|split].
    - rewrite Hcs. unfold tieConflict. fold bids. fold best. fold winners.
      rewrite Hw. exact Hc.
    - exact Hidx.
    - intros w p Hin Hp. apply Hafter. rewrite Hsame; [exact Hp|].
      apply topBidders_bidders with (best := best). exact Hin. }
  split.
  { intros c Hc. rewrite Hcs in Hc. rewrite Forall_forall in Hconf.
    destruct (Hconf c Hc) as (j & bs & Hj & -> & Hl).
    destruct (grouped_entry minPrice mk G j bs Hgr Hj) as [-> _].
    exists j. split; [reflexivity|exact Hl]. }
  split.
  { intros Hc. rewrite Hcs in Hc. destruct (Hauction Hc) as (H1 & H2 & _).
    split; assumption. }
  intros Hc. rewrite Hcs in Hc. destruct (Hbuy Hc) as (H1 & H2 & _).
  split; assumption.
Qed.

Lemma C2_market_resolution_witness :
  exists p' die,
    idx [5] 0 = Some die /\
    find_player "aaaaaaaa" (players (fst (alarm (demoEnv 6 "") soleBidRoom))) = Some p' /\
    money p' = 11 - 6 /\ dice p' = [4; 4; 6] ++ [die].
Proof.
  destruct (C2_market_resolution (demoEnv 6 "") soleBidRoom
              (orElse (config soleBidRoom) (configAt lobby [])) 0)
    as (_ & _ & _ & _ & _ & Hwin & _).
  - vm_compute. reflexivity.
  - vm_compute. reflexivity.
  - vm_compute. repeat constructor. intros [].
  - vm_compute. split; [discriminate|reflexivity].
  - vm_compute. discriminate.
  - destruct (Hwin "aaaaaaaa" (nth 0 (players soleBidRoom) (plainPlayer "" 0 [])))
      as (p' & die & Hd & Hp & Hm & Hdice & _).
    + vm_compute. reflexivity.
    + vm_compute. reflexivity.
    + vm_compute. discriminate.
    + exists p', die. split; [exact Hd|]. split; [exact Hp|].
      split; [exact Hm|exact Hdice].
Defined.

(** The tie of the specification through [alarm]: "p1" and "p2" at 5 and
    "p3" at 3 on die 0 give one market conflict for "p1" and "p2"; nobody
    pays and the room is in the auction phase with the die still there. *)
Example market_tie_alarm :
  let s' := fst (alarm quietEnv tiedMarketRoom) in
  conflicts (pendingActions s') = [MarketConflict "market-0-5000" 0 ["p1"; "p2"]] /\
  map money (players s') = [10; 10; 10] /\
  option_map phase (config s') = Some auction /\
  option_map marketDice (config s') = Some (Some [4; 2]).
Proof. vm_compute. repeat split. Qed.

(** A single highest bid: "p1" at 6 over "p2" at 5 gets the die for 6, and
    the pool of the buy phase is left without it. *)
Example market_single_winner_alarm :
  let s := roomAt market_phase [4; 2]
             [plainPlayer "p1" 10 []; plainPlayer "p2" 10 []] threesGrid
             (set_market [("p1", {| dieIndex := 0; amount := 6 |});
                          ("p2", {| dieIndex := 0; amount := 5 |})]
                         emptyPendingActions) in
  let s' := fst (alarm quietEnv s) in
  map money (players s') = [4; 10] /\
  map dice (players s') = [[4]; []] /\
  option_map phase (config s') = Some buy_phase /\
  option_map marketDice (config s') = Some (Some [2]).
Proof. vm_compute. repeat split. Qed.

(* ================================================================== *)
(** * Axial and cube coordinates *)

Lemma cubeGap_max (a b : Axial) :
  cubeGap a b =
  2 * Z.max (Z.abs (aq a - aq b))
            (Z.max (Z.abs (ar a - ar b)) (Z.abs (aq a - aq b + (ar a - ar b)))).
Proof. unfold cubeGap, axialToCube; cbn [cq cr cs]. lia. Qed.

Lemma axialDistance_max (a b : Axial) :
  axialDistance a b =
  Z.max (Z.abs (aq a - aq b))
        (Z.max (Z.abs (ar a - ar b)) (Z.abs (aq a - aq b + (ar a - ar b)))).
Proof.
  unfold axialDistance. rewrite cubeGap_max, Z.mul_comm. apply Z.div_mul. lia.
Qed.

Lemma axialEquals_true (a b : Axial) : axialEquals a b = true <-> a = b.
Proof.
  unfold axialEquals. rewrite andb_true_iff, !Z.eqb_eq.
  destruct a, b; cbn. split.
  - intros [-> ->]. reflexivity.
  - intros [= -> ->]. split; reflexivity.
Qed.

(** X1.  The division by two in [axialDistance] is exact, and the distance
    is the largest of the three coordinate differences |dq|, |dr| and
    |dq + dr|. *)
Theorem axialDistance_exact (a b : Axial) :
  2 * axialDistance a b = cubeGap a b /\
  axialDistance a b =
    Z.max (Z.abs (aq a - aq b))
          (Z.max (Z.abs (ar a - ar b)) (Z.abs (aq a - aq b + (ar a - ar b)))).
Proof.
  split.
  - rewrite axialDistance_max, cubeGap_max. reflexivity.
  - apply axialDistance_max.
Qed.

Lemma hexnorm_spec (u v m : Z) :
  m = Z.max (Z.abs u) (Z.max (Z.abs v) (Z.abs (u + v))) ->
  (- m <= u <= m /\ - m <= v <= m /\ - m <= u + v <= m) /\
  (m = Z.abs u \/ m = Z.abs v \/ m = Z.abs (u + v)).
Proof. intros ->. lia. Qed.

Lemma axialDistance_sym (a b : Axial) : axialDistance a b = axialDistance b a.
Proof.
  rewrite !axialDistance_max.
  remember (Z.max (Z.abs (aq a - aq b)) _) as m eqn:Hm.
  remember (Z.max (Z.abs (aq b - aq a)) _) as n eqn:Hn.
  apply hexnorm_spec in Hm, Hn. destruct Hm as [A A'], Hn as [B B'].
  assert (m <= n) by (destruct A' as [ -> | [ -> | -> ] ]; lia).
  assert (n <= m) by (destruct B' as [ -> | [ -> | -> ] ]; lia).
  lia.
Qed.

Lemma axialDistance_triangle (a b c : Axial) :
  axialDistance a c <= axialDistance a b + axialDistance b c.
Proof.
  rewrite !axialDistance_max.
  remember (Z.max (Z.abs (aq a - aq b)) _) as m eqn:Hm.
  remember (Z.max (Z.abs (aq b - aq c)) _) as n eqn:Hn.
  remember (Z.max (Z.abs (aq a - aq c)) _) as k eqn:Hk.
  apply hexnorm_spec in Hm, Hn, Hk.
  destruct Hm as [A _], Hn as [B _], Hk as [_ C].
  destruct C as [ -> | [ -> | -> ] ]; lia.
Qed.

(** X2.  [axialDistance] is a metric on the hexes: it is never negative, is
    zero exactly between hexes that [axialEquals] accepts, is symmetric and
    obeys the triangle inequality. *)
Theorem axialDistance_metric (a b c : Axial) :
  0 <= axialDistance a b /\
  (axialDistance a b = 0 <-> axialEquals a b = true) /\
  axialDistance a b = axialDistance b a /\
  axialDistance a c <= axialDistance a b + axialDistance b c.
Proof.
  split; [rewrite axialDistance_max; lia|].
  split; [|split; [apply axialDistance_sym|apply axialDistance_triangle]].
  rewrite axialEquals_true, axialDistance_max. split.
  - intros H. destruct a as [x y], b as [x' y']; cbn in *.
    f_equal; lia.
  - intros ->. lia.
Qed.

Lemma axialNeighbors_In (a b : Axial) :
  In b (axialNeighbors a) <-> axialDistance a b = 1.
Proof.
  rewrite axialDistance_max. destruct a as [x y], b as [x' y']; cbn. split.
  - intros H.
    repeat (destruct H as [H|H]; [injection H; lia|]). contradiction.
  - intros H.
    assert (Hc : (x' = x + 1 /\ y' = y) \/ (x' = x + 1 /\ y' = y - 1) \/
                 (x' = x /\ y' = y - 1) \/ (x' = x - 1 /\ y' = y) \/
                 (x' = x - 1 /\ y' = y + 1) \/ (x' = x /\ y' = y + 1)) by lia.
    destruct Hc as [[-> ->]|[[-> ->]|[[-> ->]|[[-> ->]|[[-> ->]|[-> ->]]]]]];
      auto 10.
Qed.

(** X3.  The six neighbours of a hex are pairwise different and are exactly
    the hexes at distance 1 from it. *)
Theorem axialNeighbors_distance_one (a b : Axial) :
  NoDup (axialNeighbors a) /\
  (In b (axialNeighbors a) <-> axialDistance a b = 1).
Proof.
  split; [|apply axialNeighbors_In].
  unfold axialNeighbors.
  repeat (constructor;
          [cbn; intros H;
           repeat (destruct H as [H|H]; [injection H; lia|]); exact H|]).
  constructor.
Qed.

(** [axialToCube] lands on the plane q + r + s = 0 and [cubeToAxial]
    undoes it; the other way round, [axialToCube] restores a cube
    coordinate exactly when it lies on that plane. *)
Lemma cube_axial_round_trip (a : Axial) (c : Cube) :
  cubeToAxial (axialToCube a) = a /\
  cq (axialToCube a) + cr (axialToCube a) + cs (axialToCube a) = 0 /\
  (axialToCube (cubeToAxial c) = c <-> cq c + cr c + cs c = 0).
Proof.
  destruct a as [x y], c as [u v w]; cbn.
  split; [reflexivity|]. split; [lia|]. split.
  - intros [= H]. lia.
  - intros H. unfold axialToCube; cbn. f_equal. lia.
Qed.

(* ------------------------------------------------------------------ *)
(** ** Keys and identifiers rendered from coordinates *)

Lemma uint_no_comma (d : Decimal.uint) :
  hasChar "," (NilEmpty.string_of_uint d) = false.
Proof. induction d; cbn; auto. Qed.

Lemma uint_no_dash (d : Decimal.uint) :
  hasChar "-" (NilEmpty.string_of_uint d) = false.
Proof. induction d; cbn; auto. Qed.

Lemma zstr_no_comma (z : Z) : hasChar "," (zstr z) = false.
Proof.
  unfold zstr. destruct (Z.to_int z) as [d|d]; cbn;
    destruct d; cbn; auto using uint_no_comma.
Qed.

Lemma zstr_inj (a b : Z) : zstr a = zstr b -> a = b.
Proof.
  unfold zstr. intros H. apply DecimalZ.to_int_inj.
  assert (Hn : forall z, Z.to_int z <> Decimal.Pos Decimal.Nil /\
                         Z.to_int z <> Decimal.Neg Decimal.Nil).
  { intros [|p|p]; cbn; split; try discriminate;
      intros [= Hp]; exact (DecimalPos.Unsigned.to_uint_nonnil p Hp). }
  assert (Hs : Some (Z.to_int a) = Some (Z.to_int b)).
  { rewrite <- (NilZero.isi (Z.to_int a)), <- (NilZero.isi (Z.to_int b));
      try apply Hn. now rewrite H. }
  now injection Hs.
Qed.

(** Two strings that agree once a separator and a tail are appended agree
    piecewise, provided the separator does not occur in the heads. *)
Lemma app_sep_inj (sep : ascii) (a a' b b' : string) :
  hasChar sep a = false -> hasChar sep a' = false ->
  a +++ String sep b = a' +++ String sep b' -> a = a' /\ b = b'.
Proof.
  revert a'. induction a as [|c t IH]; intros [|c' t'] Ha Ha' H; cbn in *.
  - injection H as ->. auto.
  - injection H as <- _. rewrite Ascii.eqb_refl in Ha'. discriminate.
  - injection H as -> _. rewrite Ascii.eqb_refl in Ha. discriminate.
  - injection H as -> H. apply orb_false_iff in Ha, Ha'.
    destruct (IH t') as [-> ->]; tauto.
Qed.

Lemma axialKey_inj (a b : Axial) : axialKey a = axialKey b -> a = b.
Proof.
  unfold axialKey. intros H.
  apply app_sep_inj in H; try apply zstr_no_comma.
  destruct H as [H1 H2]. apply zstr_inj in H1, H2.
  destruct a, b; cbn in *; congruence.
Qed.

(** X4.  [axialKey] names a hex unambiguously: two hexes have the same key
    exactly when [axialEquals] accepts them. *)
Theorem axialKey_injective (a b : Axial) :
  axialKey a = axialKey b <-> axialEquals a b = true.
Proof.
  rewrite axialEquals_true. split.
  - apply axialKey_inj.
  - intros ->. reflexivity.
Qed.

(* ================================================================== *)
(** * The hexagonal region of the board *)

Lemma zrange_In (lo hi k : Z) : In k (zrange lo hi) <-> lo <= k <= hi.
Proof.
  unfold zrange. rewrite in_map_iff. split.
  - intros (n & <- & Hn). apply in_seq in Hn. lia.
  - intros H. exists (Z.to_nat (k - lo)). split; [lia|].
    apply in_seq. lia.
Qed.

Lemma NoDup_map_inj {A B : Type} (f : A -> B) (l : list A) :
  (forall x y, In x l -> In y l -> f x = f y -> x = y) ->
  NoDup l -> NoDup (map f l).
Proof.
  intros Hf Hl. induction Hl as [|x l Hx Hl IH]; cbn; constructor.
  - rewrite in_map_iff. intros (y & Hy & Hin).
    apply Hx. rewrite (Hf x y); cbn; auto.
  - apply IH. intros a b Ha Hb. apply Hf; cbn; auto.
Qed.

Lemma zrange_NoDup (lo hi : Z) : NoDup (zrange lo hi).
Proof.
  unfold zrange. apply NoDup_map_inj; [|apply seq_NoDup].
  intros x y _ _ H. lia.
Qed.

Lemma zrange_length (lo hi : Z) :
  List.length (zrange lo hi) = Z.to_nat (hi - lo + 1).
Proof. unfold zrange. now rewrite length_map, length_seq. Qed.

Lemma map_seq_from {B : Type} (f : nat -> B) (s n : nat) :
  map f (seq s n) = map (fun k => f (s + k)%nat) (seq 0 n).
Proof.
  revert s f. induction n as [|n IH]; intros s f; cbn; [reflexivity|].
  rewrite Nat.add_0_r. f_equal.
  rewrite (IH (S s)), (IH 1%nat). apply map_ext.
  intros k. f_equal. lia.
Qed.

Lemma zrange_app (lo mid hi : Z) :
  lo <= mid + 1 -> mid <= hi ->
  zrange lo hi = zrange lo mid ++ zrange (mid + 1) hi.
Proof.
  intros H1 H2. unfold zrange.
  replace (Z.to_nat (hi - lo + 1))
    with (Z.to_nat (mid - lo + 1) + Z.to_nat (hi - (mid + 1) + 1))%nat by lia.
  rewrite seq_app, map_app. f_equal.
  rewrite Nat.add_0_l, map_seq_from. apply map_ext. intros k. lia.
Qed.

Lemma NoDup_append {A : Type} (l1 l2 : list A) :
  NoDup l1 -> NoDup l2 -> (forall a, In a l1 -> ~ In a l2) ->
  NoDup (l1 ++ l2).
Proof.
  intros H1 H2 Hsep. induction H1 as [|x l Hx Hl IH]; cbn; auto.
  constructor.
  - rewrite in_app_iff. intros [H|H]; [auto|].
    apply (Hsep x); cbn; auto.
  - apply IH. intros a Ha. apply Hsep. cbn; auto.
Qed.

Lemma NoDup_flat_map {A B : Type} (f : A -> list B) (l : list A) :
  NoDup l -> (forall x, In x l -> NoDup (f x)) ->
  (forall x y b, In x l -> In y l -> In b (f x) -> In b (f y) -> x = y) ->
  NoDup (flat_map f l).
Proof.
  intros Hl. induction Hl as [|x l Hx Hl IH]; intros Hf Hd; cbn.
  - constructor.
  - apply NoDup_append.
    + apply Hf. cbn; auto.
    + apply IH; [intros; apply Hf; cbn; auto|].
      intros a b c Ha Hb. apply Hd; cbn; auto.
    + intros b Hb Hin. apply in_flat_map in Hin.
      destruct Hin as (y & Hy & Hby).
      apply Hx. rewrite (Hd x y b); cbn; auto.
Qed.

Lemma hexRegion_In (radius : Z) (a : Axial) :
  In a (hexRegion radius) <->
  - radius <= aq a <= radius /\ - radius <= ar a <= radius /\
  - radius <= aq a + ar a <= radius.
Proof.
  unfold hexRegion. rewrite in_flat_map. split.
  - intros (q0 & Hq & Hin). apply in_map_iff in Hin.
    destruct Hin as (r0 & <- & Hr). apply zrange_In in Hq, Hr. cbn. lia.
  - intros H. exists (aq a). split; [apply zrange_In; lia|].
    apply in_map_iff. exists (ar a). split; [now destruct a|].
    apply zrange_In. lia.
Qed.

Lemma hexRegion_NoDup (radius : Z) : NoDup (hexRegion radius).
Proof.
  unfold hexRegion. apply NoDup_flat_map.
  - apply zrange_NoDup.
  - intros q0 _. apply NoDup_map_inj; [|apply zrange_NoDup].
    intros x y _ _ [= H]. exact H.
  - intros x y b _ _ Hx Hy. apply in_map_iff in Hx, Hy.
    destruct Hx as (r1 & <- & _), Hy as (r2 & [= H _] & _). auto.
Qed.

(** X5.  [hexRegion radius] lists, without repetition, exactly the hexes
    whose distance from the centre (0,0) is at most [radius]. *)
Theorem hexRegion_is_the_disc (radius : Z) (a : Axial) :
  NoDup (hexRegion radius) /\
  (In a (hexRegion radius) <-> axialDistance origin a <= radius).
Proof.
  split; [apply hexRegion_NoDup|].
  rewrite hexRegion_In, axialDistance_max. cbn. lia.
Qed.

Lemma sum_app (l1 l2 : list Z) :
  fold_right Z.add 0 (l1 ++ l2) = fold_right Z.add 0 l1 + fold_right Z.add 0 l2.
Proof. induction l1 as [|x l1 IH]; cbn; lia. Qed.

Lemma len_flat_map {A B : Type} (f : A -> list B) (l : list A) :
  len (flat_map f l) = fold_right Z.add 0 (map (fun x => len (f x)) l).
Proof.
  unfold len. induction l as [|x l IH]; cbn; [reflexivity|].
  rewrite length_app, Nat2Z.inj_add, IH. reflexivity.
Qed.

(** Twice the sum of a linear function over [lo, lo + n). *)
Lemma linear_sum (c s lo : Z) (n : nat) :
  2 * fold_right Z.add 0 (map (fun k => c + s * (lo + Z.of_nat k)) (seq 0 n)) =
  2 * Z.of_nat n * (c + s * lo) + s * Z.of_nat n * (Z.of_nat n - 1).
Proof.
  induction n as [|n IH]; [cbn; lia|].
  rewrite seq_S, map_app, sum_app. cbn [map fold_right Nat.add].
  rewrite Z.mul_add_distr_l, IH. nia.
Qed.

Lemma zrange_linear_sum (c s lo hi : Z) :
  lo <= hi + 1 ->
  2 * fold_right Z.add 0 (map (fun k => c + s * k) (zrange lo hi)) =
  (hi - lo + 1) * (2 * c + s * (lo + hi)).
Proof.
  intros H. unfold zrange. rewrite map_map, linear_sum.
  rewrite Z2Nat.id by lia. nia.
Qed.

Lemma hexRegion_length (radius : Z) :
  0 <= radius -> len (hexRegion radius) = hexRegionCount radius.
Proof.
  intros H. unfold hexRegion, hexRegionCount.
  rewrite len_flat_map.
  rewrite (zrange_app (- radius) (-1) radius) by lia.
  rewrite map_app, sum_app.
  rewrite (map_ext_in _ (fun k => (2 * radius + 1) + 1 * k)).
  2:{ intros k Hk. apply zrange_In in Hk. unfold len.
      rewrite length_map, zrange_length. lia. }
  rewrite (map_ext_in _ (fun k => (2 * radius + 1) + (-1) * k) (zrange (-1 + 1) _)).
  2:{ intros k Hk. apply zrange_In in Hk. unfold len.
      rewrite length_map, zrange_length. lia. }
  pose proof (zrange_linear_sum (2 * radius + 1) 1 (- radius) (-1)) as S1.
  pose proof (zrange_linear_sum (2 * radius + 1) (-1) (-1 + 1) radius) as S2.
  nia.
Qed.

(** X6.  A hexagonal region of radius r >= 0 has 1 + 3 r (r + 1) hexes:
    [hexRegionCount] is the length of [hexRegion]. *)
Theorem hexRegion_count (radius : Z) :
  0 <= radius -> len (hexRegion radius) = hexRegionCount radius.
Proof. apply hexRegion_length. Qed.

Lemma hexRegion_count_witness : len (hexRegion 2) = hexRegionCount 2.
Proof. apply (hexRegion_count 2). lia. Defined.

(* ================================================================== *)
(** * Board generation *)

Lemma growRadius_spec (fuel : nat) (total r : Z) :
  1 <= r -> total <= r + Z.of_nat fuel ->
  (r = 1 \/ hexRegionCount (r - 1) < total) ->
  1 <= growRadius fuel total r /\
  total <= hexRegionCount (growRadius fuel total r) /\
  (growRadius fuel total r = 1 \/
   hexRegionCount (growRadius fuel total r - 1) < total).
Proof.
  revert r. induction fuel as [|fuel IH]; intros r Hr Hf Hmin.
  - cbn [growRadius]. split; [lia|]. split; [|exact Hmin].
    unfold hexRegionCount. nia.
  - cbn [growRadius]. destruct (hexRegionCount r <? total) eqn:Hc.
    + apply Z.ltb_lt in Hc.
      apply IH; try lia.
      right. now replace (r + 1 - 1) with r by lia.
    + apply Z.ltb_ge in Hc. auto.
Qed.

Lemma growRadius_more_fuel (fuel k : nat) (total r : Z) :
  total <= hexRegionCount (growRadius fuel total r) ->
  growRadius (fuel + k) total r = growRadius fuel total r.
Proof.
  revert r. induction fuel as [|fuel IH]; intros r H.
  - cbn [growRadius Nat.add] in *. destruct k; cbn [growRadius]; [reflexivity|].
    now apply Z.ltb_ge in H as ->.
  - cbn [growRadius Nat.add] in *.
    destruct (hexRegionCount r <? total); [apply IH, H|reflexivity].
Qed.

(** X7.  The radius search of [generateGrid] stops within [totalNeeded]
    rounds, whatever the number asked for: more rounds give the same
    radius, which is the smallest radius from 1 on whose region holds
    [totalNeeded] hexes. *)
Theorem growRadius_smallest (totalNeeded : Z) (k : nat) :
  let radius := growRadius (Z.to_nat totalNeeded) totalNeeded 1 in
  growRadius (Z.to_nat totalNeeded + k) totalNeeded 1 = radius /\
  1 <= radius /\ totalNeeded <= hexRegionCount radius /\
  (radius = 1 \/ hexRegionCount (radius - 1) < totalNeeded).
Proof.
  cbv zeta.
  destruct (growRadius_spec (Z.to_nat totalNeeded) totalNeeded 1)
    as (H1 & H2 & H3); try lia; auto.
  split; [apply growRadius_more_fuel, H2|auto].
Qed.

(** ** Shuffling *)

Lemma set_nth_perm {A : Type} (v b : A) (t : list A) (j : nat) :
  nth_error t j = Some b -> Permutation (v :: t) (b :: set_nth j v t).
Proof.
  revert j. induction t as [|h t IH]; intros [|j] H; cbn in *; try discriminate.
  - injection H as ->. apply perm_swap.
  - apply IH in H.
    eapply perm_trans; [apply perm_swap|].
    eapply perm_trans; [apply perm_skip, H|apply perm_swap].
Qed.

Lemma swap_perm {A : Type} (i j : nat) (l : list A) :
  Permutation (swap i j l) l.
Proof.
  revert i j. induction l as [|h t IH]; intros i j.
  - unfold swap. destruct i, j; reflexivity.
  - unfold swap. destruct i as [|i], j as [|j]; cbn.
    + reflexivity.
    + destruct (nth_error t j) as [b|] eqn:Hb; [|reflexivity].
      symmetry. apply set_nth_perm, Hb.
    + destruct (nth_error t i) as [a|] eqn:Ha; [|reflexivity].
      symmetry. apply set_nth_perm, Ha.
    + specialize (IH i j). unfold swap in IH.
      destruct (nth_error t i), (nth_error t j); auto.
Qed.

Lemma shuffle_from_perm {A : Type} (i : nat) (out : list A) (g : Rng) :
  Permutation (fst (shuffle_from i out g)) out.
Proof.
  revert out g. induction i as [|i IH]; intros out g; [reflexivity|].
  cbn [shuffle_from]. unfold rand_below.
  eapply perm_trans; [apply IH|apply swap_perm].
Qed.

(** X8.  [shuffle] returns a rearrangement of its argument: every element
    is kept, with its multiplicity, whatever the random draws are. *)
Theorem shuffle_is_permutation {A : Type} (arr : list A) (g : Rng) :
  Permutation (fst (shuffle arr g)) arr /\
  List.length (fst (shuffle arr g)) = List.length arr.
Proof.
  assert (H : Permutation (fst (shuffle arr g)) arr)
    by apply shuffle_from_perm.
  split; [exact H|apply Permutation_length, H].
Qed.

(** ** The generated cells *)

Lemma randomIntArray_spec (n : nat) (lo hi : Z) (g : Rng) :
  lo <= hi ->
  List.length (fst (randomIntArray n lo hi g)) = n /\
  Forall (fun v => lo <= v <= hi) (fst (randomIntArray n lo hi g)).
Proof.
  intros H. revert g. induction n as [|n IH]; intros g.
  - split; [reflexivity|constructor].
  - cbn [randomIntArray]. unfold randomInt, rand_below. cbv beta iota zeta.
    specialize (IH (rng_tail g)).
    destruct (randomIntArray n lo hi (rng_tail g)) as [ds g2].
    cbn [fst] in *. destruct IH as [IH1 IH2]. split; [cbn; lia|].
    constructor; [|exact IH2].
    pose proof (Z.mod_pos_bound (g O) (hi - lo + 1)). lia.
Qed.

Lemma Forall_set_nth {A : Type} (P : A -> Prop) (n : nat) (v : A) (l : list A) :
  P v -> Forall P l -> Forall P (set_nth n v l).
Proof.
  intros Hv Hl. revert n.
  induction Hl as [|h t Hh Ht IH]; intros [|n]; cbn; auto.
Qed.

Lemma plantFaces_shape (sp : list nat) (dv : list Z) :
  Forall (fun v => 1 <= v <= 6) dv ->
  List.length (plantFaces sp dv) = List.length dv /\
  Forall (fun v => 1 <= v <= 6) (plantFaces sp dv).
Proof.
  unfold plantFaces.
  assert (Hf : Forall (fun f => 1 <= f <= 6) (zrange 1 6))
    by (apply Forall_forall; intros k; apply zrange_In).
  revert Hf. generalize (zrange 1 6) as faces. intros faces Hf. revert dv.
  induction Hf as [|f faces Hin Hf IH]; intros dv Hdv; cbn [fold_left].
  - auto.
  - destruct (nth_error sp (Z.to_nat (f - 1))) as [i|].
    + destruct (IH (set_nth i f dv)) as [L F]; [now apply Forall_set_nth|].
      rewrite set_nth_length in L. auto.
    + apply IH, Hdv.
Qed.

Lemma nth_error_set_same {A : Type} (n : nat) (v : A) (l : list A) :
  (n < List.length l)%nat -> nth_error (set_nth n v l) n = Some v.
Proof.
  intros H. destruct (nth_error l n) eqn:E.
  - eapply set_nth_nth_error, E.
  - apply nth_error_None in E. lia.
Qed.

Lemma plantFaces_faces (sp : list nat) (dv : list Z) (face : Z) :
  NoDup sp -> Forall (fun i => (i < List.length dv)%nat) sp ->
  (6 <= List.length sp)%nat -> 1 <= face <= 6 ->
  exists i, In i sp /\ nth_error (plantFaces sp dv) i = Some face.
Proof.
  intros Hnd Hlt Hlen Hface.
  destruct sp as [|i1 [|i2 [|i3 [|i4 [|i5 [|i6 rest]]]]]]; cbn in Hlen; try lia.
  repeat match goal with
         | H : NoDup (_ :: _) |- _ => apply NoDup_cons_iff in H; destruct H
         | H : Forall _ (_ :: _) |- _ => apply Forall_cons_iff in H; destruct H
         end.
  cbn [In] in *.
  change (plantFaces (i1 :: i2 :: i3 :: i4 :: i5 :: i6 :: rest) dv)
    with (set_nth i6 6 (set_nth i5 5 (set_nth i4 4 (set_nth i3 3
            (set_nth i2 2 (set_nth i1 1 dv)))))).
  assert (Hc : face = 1 \/ face = 2 \/ face = 3 \/ face = 4 \/ face = 5 \/ face = 6)
    by lia.
  destruct Hc as [ -> | [ -> | [ -> | [ -> | [ -> | -> ] ] ] ] ];
    [exists i1|exists i2|exists i3|exists i4|exists i5|exists i6];
    (split; [cbn; tauto|]);
    repeat first
      [ apply nth_error_set_same; rewrite ?set_nth_length; assumption
      | rewrite set_nth_other by (intros ->; tauto) ].
Qed.

Lemma buildCells_maps (coords : list Axial) (i : nat) (dv : list Z)
    (bs : list nat) (g : Rng) :
  map cellAxial (fst (buildCells coords i dv bs g)) = coords /\
  map blocked (fst (buildCells coords i dv bs g)) =
    map (fun k => existsb (Nat.eqb k) bs) (seq i (List.length coords)) /\
  map diceValue (fst (buildCells coords i dv bs g)) =
    map (fun k => nth k dv 0) (seq i (List.length coords)) /\
  Forall (fun c => 1 <= producer c <= 9 /\ 1 <= seller c <= 9 /\
                   id c = "cell-" +++ zstr (q c) +++ "-" +++ zstr (r c))
         (fst (buildCells coords i dv bs g)).
Proof.
  revert i g. induction coords as [|a t IH]; intros i g.
  - cbn. auto.
  - cbn [buildCells]. unfold randomInt, rand_below. cbv beta iota zeta.
    specialize (IH (S i) (rng_tail (rng_tail g))).
    destruct (buildCells t (S i) dv bs (rng_tail (rng_tail g))) as [cells g3].
    cbn [fst map seq List.length] in *.
    destruct IH as (H1 & H2 & H3 & H4).
    rewrite H1, H2, H3. split; [now destruct a|]. do 2 (split; [reflexivity|]).
    constructor; [|exact H4]. cbn [producer seller id q r].
    pose proof (Z.mod_pos_bound (g O) (9 - 1 + 1)).
    pose proof (Z.mod_pos_bound (rng_tail g O) (9 - 1 + 1)).
    split; [lia|]. split; [lia|reflexivity].
Qed.

Lemma nth_error_seq_from (s n i : nat) :
  (i < n)%nat -> nth_error (seq s n) i = Some (s + i)%nat.
Proof.
  revert s i. induction n as [|n IH]; intros s [|i] H; cbn; try lia.
  - f_equal. lia.
  - rewrite IH by lia. f_equal. lia.
Qed.

(** Reading one field of the cell at position [i] off the list of that
    field. *)
Lemma map_seq_nth {A B : Type} (f : A -> B) (h : nat -> B) (l : list A)
    (n i : nat) (c : A) :
  map f l = map h (seq 0 n) -> nth_error l i = Some c -> f c = h i.
Proof.
  intros H Hc.
  assert (Hi : (i < n)%nat).
  { apply (f_equal (@List.length B)) in H. rewrite !length_map, length_seq in H.
    rewrite <- H. apply nth_error_Some. congruence. }
  apply (f_equal (fun l => nth_error l i)) in H.
  rewrite !nth_error_map, Hc, nth_error_seq_from in H by exact Hi.
  cbn in H. now injection H.
Qed.

Lemma existsb_nat_In (i : nat) (bs : list nat) :
  existsb (Nat.eqb i) bs = true <-> In i bs.
Proof.
  rewrite existsb_exists. split.
  - intros (x & Hx & E). apply Nat.eqb_eq in E. now subst.
  - intros H. exists i. split; [exact H|apply Nat.eqb_refl].
Qed.

Lemma count_members (bs : list nat) (n : nat) :
  NoDup bs -> (forall i, In i bs -> (i < n)%nat) ->
  List.length (filter (fun i => existsb (Nat.eqb i) bs) (seq 0 n)) =
  List.length bs.
Proof.
  intros Hnd Hlt. apply Permutation_length, NoDup_Permutation.
  - apply NoDup_filter, seq_NoDup.
  - exact Hnd.
  - intros x. rewrite filter_In, in_seq, existsb_nat_In. split.
    + tauto.
    + intros H. split; [|exact H]. apply Hlt in H. lia.
Qed.

Lemma filter_map_length {A B : Type} (f : A -> B) (p : B -> bool) (l : list A) :
  List.length (filter p (map f l)) = List.length (filter (fun x => p (f x)) l).
Proof.
  induction l as [|x l IH]; cbn; [reflexivity|].
  destruct (p (f x)); cbn; now rewrite IH.
Qed.

Lemma filter_negb_length {A : Type} (p : A -> bool) (l : list A) :
  (List.length (filter p l) + List.length (filter (fun x => negb (p x)) l)
   = List.length l)%nat.
Proof.
  induction l as [|x l IH]; cbn; [reflexivity|].
  destruct (p x); cbn; lia.
Qed.

Lemma firstn_In {A : Type} (k : nat) (l : list A) (x : A) :
  In x (firstn k l) -> In x l.
Proof.
  intros H. rewrite <- (firstn_skipn k l). apply in_or_app. auto.
Qed.

Lemma firstn_NoDup {A : Type} (k : nat) (l : list A) :
  NoDup l -> NoDup (firstn k l).
Proof.
  intros H. rewrite <- (firstn_skipn k l) in H.
  eapply NoDup_app_remove_r, H.
Qed.

(** The intermediate values of [generateGrid]: the shuffled indices, the
    dice values after planting, and the cells built from them. *)
Lemma generateGrid_parts (minCells blockedCount : Z) (g : Rng) :
  let coords :=
    hexRegion (growRadius (Z.to_nat (minCells + blockedCount))
                          (minCells + blockedCount) 1) in
  let n := List.length coords in
  let eff := Z.min blockedCount (Z.max 0 (Z.of_nat n - 1)) in
  exists si dv g3,
    let bs := firstn (Z.to_nat eff) si in
    let playable :=
      filter (fun i => negb (existsb (Nat.eqb i) bs)) (seq 0 n) in
    Permutation si (seq 0 n) /\
    List.length dv = n /\
    Forall (fun v => 1 <= v <= 6) dv /\
    (6 <= len playable -> forall face, 1 <= face <= 6 ->
       exists i, In i playable /\ nth_error dv i = Some face) /\
    generateGrid minCells blockedCount g = buildCells coords 0 dv bs g3.
Proof.
  intros coords n eff. unfold generateGrid. fold coords. fold n. fold eff.
  pose proof (shuffle_from_perm (List.length (seq 0 n) - 1) (seq 0 n) g) as Hsi.
  fold (shuffle (seq 0 n) g) in Hsi.
  destruct (shuffle (seq 0 n) g) as [si g1]. cbn [fst] in Hsi.
  destruct (randomIntArray_spec n 1 6 g1) as [Hlen Hrange]; [lia|].
  destruct (randomIntArray n 1 6 g1) as [dv g2]. cbn [fst] in Hlen, Hrange.
  set (bs := firstn (Z.to_nat eff) si).
  set (playable := filter (fun i => negb (existsb (Nat.eqb i) bs)) (seq 0 n)).
  destruct (6 <=? len playable) eqn:Hsix.
  - pose proof (shuffle_from_perm (List.length playable - 1) playable g2) as Hsp.
    fold (shuffle playable g2) in Hsp.
    destruct (shuffle playable g2) as [sp g3]. cbn [fst] in Hsp.
    destruct (plantFaces_shape sp dv Hrange) as [L F].
    exists si, (plantFaces sp dv), g3. cbv zeta. fold bs. fold playable.
    split; [exact Hsi|]. split; [congruence|]. split; [exact F|].
    split; [|reflexivity].
    intros _ face Hface.
    destruct (plantFaces_faces sp dv face) as (i & Hi & Hnth); try exact Hface.
    + apply (Permutation_NoDup (Permutation_sym Hsp)).
      apply NoDup_filter, seq_NoDup.
    + apply Forall_forall. intros i Hi.
      apply (Permutation_in _ Hsp) in Hi. apply filter_In in Hi.
      destruct Hi as [Hi _]. apply in_seq in Hi. lia.
    + apply Z.leb_le in Hsix. unfold len in Hsix.
      rewrite (Permutation_length Hsp). lia.
    + exists i. split; [apply (Permutation_in _ Hsp), Hi|exact Hnth].
  - exists si, dv, g2. cbv zeta. fold bs. fold playable.
    split; [exact Hsi|]. split; [exact Hlen|]. split; [exact Hrange|].
    split; [|reflexivity].
    intros H. apply Z.leb_gt in Hsix. lia.
Qed.

Lemma nz_uint_shape (d : Decimal.uint) :
  exists c t, NilZero.string_of_uint d = String c t /\
              Ascii.eqb c "-" = false /\ hasChar "-" t = false.
Proof.
  destruct d; cbn; eexists _, _;
    (split; [reflexivity|split; [reflexivity|]]);
    try reflexivity; apply uint_no_dash.
Qed.

Lemma int_dash_inj (a a' : Decimal.signed_int) (s s' : string) :
  NilZero.string_of_int a +++ String "-" s =
  NilZero.string_of_int a' +++ String "-" s' ->
  NilZero.string_of_int a = NilZero.string_of_int a' /\ s = s'.
Proof.
  destruct a as [d|d], a' as [d'|d']; cbn [NilZero.string_of_int];
    destruct (nz_uint_shape d) as (c & t & -> & Hc & Ht);
    destruct (nz_uint_shape d') as (c' & t' & -> & Hc' & Ht');
    cbn [String.append]; intros H.
  - injection H as -> H. apply app_sep_inj in H; try assumption.
    destruct H as [-> ->]. auto.
  - injection H as -> _. cbn in Hc. discriminate.
  - injection H as <- _. cbn in Hc'. discriminate.
  - injection H as -> H. apply app_sep_inj in H; try assumption.
    destruct H as [-> ->]. auto.
Qed.

Lemma cellId_inj (x y x' y' : Z) :
  "cell-" +++ zstr x +++ "-" +++ zstr y =
  "cell-" +++ zstr x' +++ "-" +++ zstr y' -> x = x' /\ y = y'.
Proof.
  intros H. cbn [String.append] in H. injection H as H.
  apply int_dash_inj in H. destruct H as [E1 E2].
  apply zstr_inj in E1, E2. auto.
Qed.

Lemma generateGrid_counts (minCells blockedCount : Z) (g : Rng) :
  0 <= blockedCount ->
  let cells := fst (generateGrid minCells blockedCount g) in
  let radius := growRadius (Z.to_nat (minCells + blockedCount))
                           (minCells + blockedCount) 1 in
  map cellAxial cells = hexRegion radius /\
  len cells = hexRegionCount radius /\
  len (filter blocked cells) = Z.min blockedCount (hexRegionCount radius - 1) /\
  minCells <= len (filter (fun c => negb (blocked c)) cells).
Proof.
  intros Hb cells radius.
  destruct (growRadius_spec (Z.to_nat (minCells + blockedCount))
              (minCells + blockedCount) 1) as (R1 & R2 & _); try lia; auto.
  fold radius in R1, R2.
  pose proof (hexRegion_length radius ltac:(lia)) as Hcount.
  assert (Hseven : 7 <= hexRegionCount radius) by (unfold hexRegionCount; nia).
  destruct (generateGrid_parts minCells blockedCount g)
    as (si & dv & g3 & Hsi & _ & _ & _ & Hgen).
  fold radius in Hsi, Hgen. unfold cells. rewrite Hgen.
  set (n := List.length (hexRegion radius)) in *.
  set (bs := firstn _ si) in *.
  destruct (buildCells_maps (hexRegion radius) 0 dv bs g3) as (M1 & M2 & _ & _).
  set (built := fst (buildCells (hexRegion radius) 0 dv bs g3)) in *.
  assert (Hlen : List.length built = n).
  { rewrite <- (length_map cellAxial), M1. reflexivity. }
  assert (Hblocked : List.length (filter blocked built) = List.length bs).
  { rewrite <- (count_members bs n).
    - rewrite <- (filter_map_length (fun i => existsb (Nat.eqb i) bs) (fun b => b)).
      fold n in M2. rewrite <- M2. now rewrite filter_map_length.
    - apply firstn_NoDup.
      apply (Permutation_NoDup (Permutation_sym Hsi)), seq_NoDup.
    - intros i Hi. apply firstn_In in Hi.
      apply (Permutation_in _ Hsi) in Hi. apply in_seq in Hi. lia. }
  assert (Hbs : len bs = Z.min blockedCount (hexRegionCount radius - 1)).
  { unfold len, bs. rewrite length_firstn, (Permutation_length Hsi), length_seq.
    unfold len in Hcount. fold n in Hcount. lia. }
  pose proof (filter_negb_length blocked built) as Hsplit.
  unfold len in *. fold n in Hcount.
  split; [exact M1|]. split; [lia|]. split; [lia|]. lia.
Qed.

(** X9.  For a non-negative number of blocked cells, [generateGrid] returns
    one cell per hex of the smallest region that holds
    [minCells + blockedCount] hexes, in the order of [hexRegion]; exactly
    min(blockedCount, cells - 1) of the cells are blocked, so at least
    [minCells] are not. *)
Theorem generateGrid_board (minCells blockedCount : Z) (g : Rng) :
  0 <= blockedCount ->
  let cells := fst (generateGrid minCells blockedCount g) in
  let radius := growRadius (Z.to_nat (minCells + blockedCount))
                           (minCells + blockedCount) 1 in
  map cellAxial cells = hexRegion radius /\
  len cells = hexRegionCount radius /\
  len (filter blocked cells) = Z.min blockedCount (hexRegionCount radius - 1) /\
  minCells <= len (filter (fun c => negb (blocked c)) cells).
Proof. exact (generateGrid_counts minCells blockedCount g). Qed.

Lemma generateGrid_board_witness :
  len (fst (generateGrid 6 5 (fun _ => 0))) = 19 /\
  len (filter blocked (fst (generateGrid 6 5 (fun _ => 0)))) = 5.
Proof.
  destruct (generateGrid_board 6 5 (fun _ => 0)) as (_ & H1 & H2 & _); [lia|].
  split; [exact H1|exact H2].
Defined.

(** X10.  Every generated cell carries a die value from 1 to 6, producer
    and seller values from 1 to 9, no owner, and the identifier
    [cell-<q>-<r>] of its coordinates; no two cells share coordinates or an
    identifier. *)
Theorem generateGrid_cells (minCells blockedCount : Z) (g : Rng) :
  let cells := fst (generateGrid minCells blockedCount g) in
  Forall (fun c => 1 <= diceValue c <= 6 /\ 1 <= producer c <= 9 /\
                   1 <= seller c <= 9 /\ owners c = [] /\
                   id c = "cell-" +++ zstr (q c) +++ "-" +++ zstr (r c)) cells /\
  NoDup (map cellAxial cells) /\ NoDup (map id cells).
Proof.
  intros cells.
  pose proof (generateGrid_unowned minCells blockedCount g) as Hown.
  fold cells in Hown.
  destruct (generateGrid_parts minCells blockedCount g)
    as (si & dv & g3 & _ & Hlen & Hrange & _ & Hgen).
  set (coords := hexRegion _) in *. set (bs := firstn _ si) in *.
  destruct (buildCells_maps coords 0 dv bs g3) as (M1 & _ & M3 & M4).
  rewrite <- Hgen in M1, M3, M4. fold cells in M1, M3, M4.
  assert (Hdice : Forall (fun c => 1 <= diceValue c <= 6) cells).
  { apply Forall_forall. intros c Hc.
    apply In_nth_error in Hc. destruct Hc as [i Hi].
    rewrite (map_seq_nth diceValue _ cells _ i c M3 Hi).
    assert (Hlt : (i < List.length dv)%nat).
    { rewrite Hlen, <- M1, length_map. apply nth_error_Some. congruence. }
    rewrite Forall_forall in Hrange. apply Hrange, nth_In, Hlt. }
  split; [|split].
  - rewrite Forall_forall in *. intros c Hc.
    destruct (M4 c Hc) as (P & S & I).
    split; [apply Hdice, Hc|]. split; [exact P|]. split; [exact S|].
    split; [apply Hown, Hc|exact I].
  - rewrite M1. apply hexRegion_NoDup.
  - set (idOf := fun a : Axial => "cell-" +++ zstr (aq a) +++ "-" +++ zstr (ar a)).
    assert (E : map id cells = map idOf (map cellAxial cells)).
    { rewrite map_map. apply map_ext_in. intros c Hc.
      rewrite Forall_forall in M4. destruct (M4 c Hc) as (_ & _ & I). exact I. }
    rewrite E, M1. apply NoDup_map_inj; [|apply hexRegion_NoDup].
    intros [x y] [x' y'] _ _ H. unfold idOf in H. cbn [aq ar] in H.
    apply cellId_inj in H. destruct H as [-> ->]. reflexivity.
Qed.

(** X11.  When the generated board has at least six cells that are not
    blocked, each face 1 to 6 is the die value of some unblocked cell. *)
Theorem generateGrid_has_every_face (minCells blockedCount : Z) (g : Rng)
    (face : Z) :
  0 <= blockedCount ->
  let cells := fst (generateGrid minCells blockedCount g) in
  6 <= len (filter (fun c => negb (blocked c)) cells) ->
  1 <= face <= 6 ->
  exists c, In c cells /\ blocked c = false /\ diceValue c = face.
Proof.
  intros _ cells Hsix Hface.
  destruct (generateGrid_parts minCells blockedCount g)
    as (si & dv & g3 & _ & Hlen & _ & Hfaces & Hgen).
  set (coords := hexRegion _) in *. set (bs := firstn _ si) in *.
  set (n := List.length coords) in *.
  destruct (buildCells_maps coords 0 dv bs g3) as (M1 & M2 & M3 & _).
  rewrite <- Hgen in M1, M2, M3. fold cells n in M1, M2, M3.
  destruct (Hfaces) with (face := face) as (i & Hi & Hnth); [|exact Hface|].
  { unfold len in *.
    rewrite <- (filter_map_length (fun k => existsb (Nat.eqb k) bs) negb).
    rewrite <- M2, filter_map_length. exact Hsix. }
  apply filter_In in Hi. destruct Hi as [Hi Hfree]. apply in_seq in Hi.
  destruct (nth_error cells i) as [c|] eqn:Hc.
  - exists c. split; [eapply nth_error_In, Hc|]. split.
    + rewrite (map_seq_nth blocked _ cells n i c M2 Hc).
      now apply negb_true_iff in Hfree.
    + rewrite (map_seq_nth diceValue _ cells n i c M3 Hc).
      apply nth_error_nth, Hnth.
  - apply nth_error_None in Hc.
    assert (List.length cells = n) by (rewrite <- (length_map cellAxial), M1; reflexivity).
    lia.
Qed.

Lemma generateGrid_has_every_face_witness :
  exists c, In c (fst (generateGrid 6 5 (fun _ => 0))) /\
            blocked c = false /\ diceValue c = 4.
Proof.
  apply (generateGrid_has_every_face 6 5 (fun _ => 0) 4).
  - lia.
  - vm_compute. discriminate.
  - lia.
Defined.

(* ================================================================== *)
(** * The phase cycle *)

Lemma configStep_refl (c : option GameConfig) : configStep c c.
Proof. destruct c; cbn; auto. Qed.

Lemma alarm_path_config (e : Env) (s : Storage) (cfg : GameConfig) :
  config (fst (alarm_path e s cfg)) =
  Some (with_phase round_end (marketDice cfg) (Some (now e + 5000)) cfg).
Proof.
  unfold alarm_path. destruct (dealHands _ _) as [ps g].
  rewrite broadcast_config. reflexivity.
Qed.

Lemma enterPathPhase_config (e : Env) (s : Storage) (cfg : GameConfig)
    (md : option (list Z)) :
  config (fst (enterPathPhase e s cfg md)) =
    Some (with_phase path_phase md (Some (now e + PATH_DURATION_MS)) cfg) \/
  config (fst (enterPathPhase e s cfg md)) =
    Some (with_phase round_end md (Some (now e + 5000))
            (with_phase path_phase md (Some (now e + PATH_DURATION_MS)) cfg)).
Proof.
  unfold enterPathPhase. rewrite andThen_fst, broadcast_config.
  destruct (_ && _).
  - right. rewrite alarm_path_config. reflexivity.
  - left. reflexivity.
Qed.

Ltac config_arrow Hp :=
  cbn [configStep]; right; rewrite Hp;
  cbn [phase roundCount roundIndex with_phase]; auto.

Lemma alarm_configStep (e : Env) (s : Storage) :
  configStep (config s) (config (fst (alarm e s))).
Proof.
  unfold alarm. destruct (config s) as [cfg|] eqn:Hc;
    [|cbn [fst]; rewrite Hc; exact I].
  destruct (phase cfg) eqn:Hp.
  - cbn [fst]. rewrite Hc. apply configStep_refl.
  - unfold alarm_round_start. destruct (randomDiceArray _ _) as [md g].
    rewrite broadcast_config. config_arrow Hp.
  - unfold alarm_market.
    destruct (fold_left _ _ _) as [[ps md] cs].
    destruct cs; rewrite broadcast_config; config_arrow Hp.
  - unfold alarm_buy.
    destruct (indexBuys _) as [roles byCell].
    destruct (fold_left _ byCell _) as [cs toApply].
    destruct (fold_left applyClaim _ _) as [ps g].
    destruct cs.
    + destruct (enterPathPhase_config e (set_grid g (set_players ps s)) cfg
                  (marketDice cfg)) as [-> | ->]; config_arrow Hp.
    + rewrite broadcast_config. config_arrow Hp.
  - unfold alarm_path. destruct (dealHands _ _) as [ps g].
    rewrite broadcast_config. config_arrow Hp.
  - unfold alarm_auction.
    destruct (fold_left _ _ _) as [[ps g] md].
    match goal with |- context [enterPathPhase e ?s1 cfg ?m] =>
      destruct (enterPathPhase_config e s1 cfg m) as [-> | ->]
    end; config_arrow Hp.
  - unfold alarm_round_end.
    destruct (roundIndex cfg + 1 >=? roundCount cfg) eqn:Hr.
    + assert (roundCount cfg <= roundIndex cfg + 1) by lia.
      destruct (players s).
      * config_arrow Hp.
      * rewrite andThen_fst. cbn [fst config setAlarm].
        rewrite broadcast_config. config_arrow Hp.
    + assert (roundIndex cfg + 1 < roundCount cfg) by lia.
      destruct (randomDiceArray _ _) as [md g].
      rewrite broadcast_config. config_arrow Hp.
  - destruct (deadlinePassed e cfg).
    + cbn. exact Hp.
    + cbn [fst]. rewrite Hc. apply configStep_refl.
Qed.

Lemma notJoined_config (e : Env) (ws : nat) (s : Storage) :
  config (fst (notJoined e ws s)) = config s.
Proof.
  unfold notJoined. rewrite andThen_fst, broadcast_config. reflexivity.
Qed.

Lemma handleJoin_config (e : Env) (ws : nat) (name : option string)
    (s : Storage) :
  config (fst (handleJoin e ws name s)) = config s.
Proof.
  unfold handleJoin. destruct (inPhase lobby s); [|reflexivity].
  destruct (ensurePlayerColors _ _) as [ps g1].
  destruct (distinctPlayerColor _ _) as [c g2].
  rewrite andThen_fst, broadcast_config. reflexivity.
Qed.

(** After a handler has stored new pending actions, running [alarm] moves
    the configuration along an arrow from the one the handler found. *)
Lemma alarm_after_pending (e : Env) (s : Storage) (pa : PendingActions) :
  configStep (config s) (config (fst (alarm e (set_pending pa s)))).
Proof. exact (alarm_configStep e (set_pending pa s)). Qed.

Ltac same_config :=
  rewrite ?andThen_fst, ?broadcast_config, ?notJoined_config, ?handleJoin_config;
  cbn [fst sendTo config set_pending set_players set_submittedPaths];
  apply configStep_refl.

Lemma message_configStep (e : Env) (ws : nat) (attached : option string)
    (m : Msg) (s : Storage) :
  configStep (config s) (config (fst (webSocketMessage e ws attached m s))).
Proof.
  destruct m; cbn [webSocketMessage].
  - (* tick *)
    rewrite andThen_fst, broadcast_config. unfold maybeAdvanceTimedPhase.
    destruct (config s) as [cfg|] eqn:Hc; [|cbn [fst]; rewrite Hc; exact I].
    destruct (_ && _).
    + rewrite <- Hc. apply alarm_configStep.
    + cbn [fst]. rewrite Hc. apply configStep_refl.
  - same_config.
  - unfold handleRejoin. destruct (existsb _ _); [same_config|].
    destruct (inPhase lobby s); same_config.
  - (* start_game *)
    unfold handleStartGame. destruct (ensurePlayerColors _ _) as [ps g1].
    destruct (config s) as [cfg|] eqn:Hc; [|cbn [sendTo fst]; rewrite Hc; exact I].
    destruct (phase_eqb (phase cfg) lobby) eqn:Hp; cbn [negb orb].
    2:{ cbn [sendTo fst]. rewrite Hc. apply configStep_refl. }
    destruct (len ps <? 2).
    { cbn [sendTo fst]. rewrite Hc. apply configStep_refl. }
    destruct (generateGrid _ _ _) as [grid' g2].
    destruct (randomDiceArray _ g2) as [md g3].
    destruct (dealStart ps g3) as [ps' g4].
    rewrite broadcast_config.
    assert (Hl : phase cfg = lobby) by (destruct (phase cfg); now try discriminate).
    config_arrow Hl.
  - (* buy_cell *)
    unfold handleBuyCell. destruct (joinedAs attached) as [pid|]; [|same_config].
    destruct (negb _); [same_config|].
    destruct (find_cell _ _) as [cell|]; [|same_config].
    destruct (find_player _ _) as [player|]; [|same_config].
    destruct (_ || _); [same_config|].
    destruct (negb _); same_config.
  - unfold handleBuyCellCancel.
    destruct (joinedAs attached) as [pid|]; [|same_config].
    destruct (negb _); same_config.
  - unfold handleBuyDone. destruct (joinedAs attached) as [pid|]; [|same_config].
    destruct (negb _); [same_config|].
    destruct (everyoneIn _ _); [apply alarm_after_pending|same_config].
  - unfold handleAuctionBid.
    destruct (joinedAs attached) as [pid|]; [|same_config].
    destruct (negb _); [same_config|].
    destruct (find _ _); same_config.
  - (* path *)
    unfold handlePath. destruct (joinedAs attached) as [pid|]; [|same_config].
    destruct (negb _); [same_config|].
    destruct (find_cell producer_id _) as [pc|]; [|same_config].
    destruct (find_cell seller_id _) as [sc|]; [|same_config].
    destruct (negb _); [same_config|]. destruct (negb _); [same_config|].
    destruct p as [|first [|second rest]]; try same_config.
    destruct (_ || _); [same_config|].
    destruct (checkPath _ _); same_config.
  - unfold handlePathDone. destruct (joinedAs attached) as [pid|]; [|same_config].
    destruct (negb _); [same_config|].
    destruct (everyoneIn _ _); [apply alarm_after_pending|same_config].
  - unfold handleMarketBid. destruct (joinedAs attached) as [pid|]; [|same_config].
    destruct (config s) as [cfg|] eqn:Hc.
    2:{ rewrite broadcast_config, Hc. exact I. }
    rewrite <- Hc.
    destruct (negb _); [same_config|].
    destruct (_ || _); [same_config|]. destruct (amt <? _); [same_config|].
    destruct (everyoneIn _ _); [apply alarm_after_pending|same_config].
  - unfold handleMarketSkip. destruct (joinedAs attached) as [pid|]; [|same_config].
    destruct (negb _); [same_config|].
    destruct (everyoneIn _ _); [apply alarm_after_pending|same_config].
  - unfold handleMarketRecycle.
    destruct (joinedAs attached) as [pid|]; [|same_config].
    destruct (negb _); [same_config|].
    destruct (find_player _ _) as [player|]; [|same_config].
    destruct (_ || _); same_config.
  - same_config.
Qed.

(** X12.  One event changes the stored configuration in one of three ways
    only: not at all; along an arrow of the phase cycle (lobby to
    round_start; round_start to market_phase; market_phase to auction or
    buy_phase; buy_phase to auction, path_phase or round_end; auction to
    path_phase or round_end; path_phase to round_end; round_end to
    round_start or ended), where the round count stays and the round index
    moves only at round_end, by one; or by the clean-up of an ended room,
    which removes it. *)
Theorem phase_cycle (e : Env) (s : Storage) (ev : Event) :
  configStep (config s) (config (fst (step e s ev))).
Proof.
  destruct ev as [ws attached m| |]; cbn [step].
  - apply message_configStep.
  - apply alarm_configStep.
  - rewrite broadcast_config. apply configStep_refl.
Qed.

Lemma roundInStep_kept (a b : GameConfig) :
  configStep (Some a) (Some b) -> roundInStep a -> roundInStep b.
Proof.
  intros [ <- | [Hc Hs] ] Ha; [exact Ha|].
  unfold roundInStep, roundsPlayed in *. rewrite Hc.
  destruct (phase a), (phase b); try contradiction; lia.
Qed.

Lemma lastRoundEnd_reachable : reachable lastRoundEnd.
Proof. apply reachable_run, roundTwoStart_reachable. Qed.

Lemma endedRoom_reachable : reachable endedRoom.
Proof. apply reach_step, lastRoundEnd_reachable. Qed.

(** X13.  A room plays max(1, roundCount) rounds: in every reachable room
    that has not ended the round index is at least 0 and below that number,
    and in an ended room it is exactly that number. *)
Theorem rounds_played (s : Storage) (cfg : GameConfig) :
  reachable s -> config s = Some cfg -> roundInStep cfg.
Proof.
  intros H. revert cfg. induction H as [rounds|e s ev H IH]; intros cfg Hc.
  - injection Hc as <-. unfold roundInStep, roundsPlayed. cbn. lia.
  - assert (Hstep : configStep (config s) (config (fst (step e s ev)))).
    { destruct ev as [ws attached m| |]; cbn [step].
      - apply message_configStep.
      - apply alarm_configStep.
      - rewrite broadcast_config. apply configStep_refl. }
    rewrite Hc in Hstep. destruct (config s) as [a|]; [|contradiction].
    apply (roundInStep_kept a cfg Hstep). apply IH. reflexivity.
Qed.

Lemma rounds_played_witness :
  roundInStep {| roundCount := 3; phase := ended; roundIndex := 3;
                 marketDice := Some [3]; marketMinPrice := Some 1;
                 phaseEndsAt := Some 324000 |}.
Proof.
  apply (rounds_played endedRoom).
  - exact endedRoom_reachable.
  - vm_compute. reflexivity.
Defined.

(* ================================================================== *)
(** * The end of the game *)

Lemma outranks_spec (g : list Cell) (p b : Player) :
  outranks g p b = true <->
  money b < money p \/
  (money p = money b /\ myCells g (playerId b) < myCells g (playerId p)).
Proof.
  unfold outranks. rewrite orb_true_iff, andb_true_iff, !Z.gtb_lt, Z.eqb_eq.
  tauto.
Qed.

Lemma outranks_not (g : list Cell) (p b : Player) :
  outranks g p b = false <->
  ~ (money b < money p \/
     (money p = money b /\ myCells g (playerId b) < myCells g (playerId p))).
Proof. rewrite <- outranks_spec. symmetry. apply not_true_iff_false. Qed.

Lemma betterPlayer_outranks (g : list Cell) (best p : Player) :
  betterPlayer g best p = if outranks g p best then p else best.
Proof.
  unfold betterPlayer, outranks.
  destruct (money p >? money best); [reflexivity|]. cbn [orb].
  destruct (_ && _); reflexivity.
Qed.

(** The scan for the best player keeps the first of the players that no
    other player outranks. *)
Lemma best_fold (g : list Cell) (rest l1 l2 : list Player) (best : Player) :
  (forall p, In p l1 -> outranks g best p = true) ->
  (forall p, In p l2 -> outranks g p best = false) ->
  exists l1' b l2',
    l1 ++ best :: l2 ++ rest = l1' ++ b :: l2' /\
    fold_left (betterPlayer g) rest best = b /\
    (forall p, In p l1' -> outranks g b p = true) /\
    (forall p, In p l2' -> outranks g p b = false).
Proof.
  revert l1 l2 best. induction rest as [|p rest IH]; intros l1 l2 best H1 H2.
  - exists l1, best, l2. rewrite app_nil_r. auto.
  - cbn [fold_left]. rewrite betterPlayer_outranks.
    destruct (outranks g p best) eqn:Hp.
    + destruct (IH (l1 ++ best :: l2) [] p) as (l1' & b & l2' & E & F & A & B).
      * intros x Hx. apply outranks_spec in Hp. apply outranks_spec.
        apply in_app_or in Hx. destruct Hx as [Hx|[<-|Hx]].
        -- apply H1, outranks_spec in Hx. lia.
        -- exact Hp.
        -- apply H2, outranks_not in Hx. lia.
      * intros x [].
      * exists l1', b, l2'. rewrite <- E, <- app_assoc. cbn. auto.
    + destruct (IH l1 (l2 ++ [p]) best) as (l1' & b & l2' & E & F & A & B).
      * exact H1.
      * intros x Hx. apply in_app_or in Hx. destruct Hx as [Hx|[<-|[]]]; auto.
      * exists l1', b, l2'. rewrite <- E, <- app_assoc. cbn. auto.
Qed.

Lemma broadcast_winnerId (e : Env) (s : Storage) :
  winnerId (fst (broadcastState e s)) = winnerId s.
Proof.
  unfold broadcastState. destruct (ensurePlayerColors _ _).
  simpl. destruct (existsb noColor (players s)); reflexivity.
Qed.

(** X14.  When the timer fires at the round_end of the last round of a room
    with players, the room ends and the stored winner is the first, in
    joining order, of the players that nobody outranks: every player before
    the winner has less money, or the same money and fewer cells, and no
    player after the winner has more money, or the same money and more
    cells. *)
Theorem game_winner (e : Env) (s : Storage) (cfg : GameConfig) :
  config s = Some cfg -> phase cfg = round_end ->
  roundCount cfg <= roundIndex cfg + 1 -> players s <> [] ->
  exists l1 best l2,
    players s = l1 ++ best :: l2 /\
    winnerId (fst (alarm e s)) = Some (playerId best) /\
    option_map phase (config (fst (alarm e s))) = Some ended /\
    (forall p, In p l1 -> outranks (grid s) best p = true) /\
    (forall p, In p l2 -> outranks (grid s) p best = false).
Proof.
  intros Hc Hp Hlast Hps. unfold alarm. rewrite Hc, Hp.
  unfold alarm_round_end.
  destruct (roundIndex cfg + 1 >=? roundCount cfg) eqn:Hr; [|lia].
  destruct (players s) as [|p0 rest] eqn:Hplayers; [contradiction|].
  rewrite andThen_fst. cbn [fst setAlarm winnerId config].
  rewrite broadcast_winnerId, broadcast_config.
  cbn [winnerId config set_winnerId set_config option_map phase fold_left].
  rewrite betterPlayer_outranks.
  assert (Hself : outranks (grid s) p0 p0 = false) by (apply outranks_not; lia).
  rewrite Hself.
  destruct (best_fold (grid s) rest [] [] p0) as (l1 & b & l2 & E & F & A & B);
    try (intros x []).
  exists l1, b, l2. cbn [app] in E. rewrite E, F. auto.
Qed.

Lemma game_winner_witness :
  exists l1 best l2,
    players lastRoundEnd = l1 ++ best :: l2 /\
    winnerId (fst (alarm (demoEnv 24 "") lastRoundEnd)) = Some (playerId best) /\
    option_map phase (config (fst (alarm (demoEnv 24 "") lastRoundEnd)))
      = Some ended /\
    (forall p, In p l1 -> outranks (grid lastRoundEnd) best p = true) /\
    (forall p, In p l2 -> outranks (grid lastRoundEnd) p best = false).
Proof.
  apply (game_winner (demoEnv 24 "") lastRoundEnd
           {| roundCount := 3; phase := round_end; roundIndex := 2;
              marketDice := Some [3]; marketMinPrice := Some 1;
              phaseEndsAt := Some 28000 |}).
  - vm_compute. reflexivity.
  - reflexivity.
  - vm_compute. discriminate.
  - vm_compute. discriminate.
Defined.

(* ================================================================== *)
(** * Joining and starting a game *)

Lemma reachable_players_ok (s : Storage) :
  reachable s -> Forall okPlayer (players s).
Proof. intros H. exact (inv_players (reachable_inv s H)). Qed.

(** X15.  In a reachable room in the lobby, a join appends exactly one
    player - with the socket's fresh id, the given name or "Player n+1", a
    colour, no money and no dice - leaves the other players as they are,
    binds the socket to the new id and answers [joined] before the state
    broadcast; in any other phase a join does nothing and sends nothing. *)
Theorem join_in_lobby (e : Env) (ws : nat) (name : option string) (s : Storage) :
  reachable s ->
  (inPhase lobby s = true ->
     handleJoin e ws name s =
       (set_players (players s ++ [joiner e name s]) s,
        [OAttach ws (uuid e); OJoined ws (uuid e); OState]) /\
     color (joiner e name s) <> "") /\
  (inPhase lobby s = false -> handleJoin e ws name s = (s, [])).
Proof.
  intros Hr. pose proof (reachable_players_ok s Hr) as Hok.
  unfold handleJoin. split; intros Hl; rewrite Hl; [|reflexivity].
  rewrite ensurePlayerColors_same by exact Hok.
  pose proof (distinctPlayerColor_nonempty (map color (players s)) (rng e)) as Hc.
  unfold joiner.
  destruct (distinctPlayerColor (map color (players s)) (rng e)) as [c g'].
  cbn [fst] in *. split; [|exact Hc].
  unfold andThen. rewrite broadcast_ok; [reflexivity|].
  cbn [players set_players]. apply Forall_app. split; [exact Hok|].
  constructor; [|constructor].
  split; [apply noColor_false, Hc|cbn; lia].
Qed.

Lemma join_in_lobby_witness :
  handleJoin (demoEnv 1 "aaaaaaaa") 1 (Some "Ann") (initialize 3) =
    (set_players (players (initialize 3)
                    ++ [joiner (demoEnv 1 "aaaaaaaa") (Some "Ann") (initialize 3)])
                 (initialize 3),
     [OAttach 1 "aaaaaaaa"; OJoined 1 "aaaaaaaa"; OState]).
Proof.
  apply (join_in_lobby (demoEnv 1 "aaaaaaaa") 1 (Some "Ann") (initialize 3)).
  - apply reach_init.
  - reflexivity.
Defined.

Lemma randomDiceArray_fair (n : nat) (g : Rng) :
  fairDice (Z.of_nat n) (fst (randomDiceArray n g)).
Proof.
  revert g. induction n as [|n IH]; intros g.
  - split; [reflexivity|constructor].
  - cbn [randomDiceArray]. unfold randomDice, rand_below. cbv beta iota zeta.
    specialize (IH (rng_tail g)).
    destruct (randomDiceArray n (rng_tail g)) as [ds g2]. cbn [fst] in *.
    destruct IH as [L F]. unfold fairDice, len in *. split; [cbn; lia|].
    constructor; [|exact F]. pose proof (Z.mod_pos_bound (g O) 6). lia.
Qed.

Lemma dealStart_dealt (ps : list Player) (g : Rng) :
  Forall2 dealt ps (fst (dealStart ps g)).
Proof.
  revert g. induction ps as [|p t IH]; intros g; [constructor|].
  cbn [dealStart]. pose proof (randomDiceArray_fair 3 g) as Hd.
  destruct (randomDiceArray 3 g) as [d g1]. specialize (IH g1).
  destruct (dealStart t g1) as [rest g2]. cbn [fst] in *.
  constructor; [|exact IH]. unfold dealt. cbn. auto.
Qed.

(** X16.  In a reachable room in the lobby with at least two players,
    [start_game] gives every player 10 money and three dice, puts one die
    fewer than there are players on the market, generates a board with at
    least players x rounds unblocked cells, clears the buffers, enters
    round_start of round 0 and sets the timer two seconds ahead; otherwise
    it changes nothing and answers the error "Need at least 2 players". *)
Theorem start_game (e : Env) (ws : nat) (s : Storage) (cfg : GameConfig) :
  reachable s -> config s = Some cfg ->
  let r := handleStartGame e ws s in
  (phase cfg = lobby -> 2 <= len (players s) ->
     (exists md,
        config (fst r) =
          Some {| roundCount := roundCount cfg; phase := round_start;
                  roundIndex := 0; marketDice := Some md;
                  marketMinPrice := Some MARKET_MIN_PRICE;
                  phaseEndsAt := Some (now e + 2000) |} /\
        fairDice (len (players s) - 1) md) /\
     Forall2 dealt (players s) (players (fst r)) /\
     len (players s) * roundCount cfg <= len (playable (grid (fst r))) /\
     pendingActions (fst r) = emptyPendingActions /\
     submittedPaths (fst r) = [] /\
     alarmAt (fst r) = Some (now e + 2000) /\
     snd r = [OState]) /\
  (phase cfg <> lobby \/ len (players s) < 2 ->
     r = (s, [OError ws "Need at least 2 players"])).
Proof.
  intros Hr Hc r. subst r. pose proof (reachable_players_ok s Hr) as Hok.
  unfold handleStartGame. rewrite ensurePlayerColors_same by exact Hok.
  rewrite Hc. split.
  - intros Hl Htwo. rewrite Hl. cbn [phase_eqb negb orb].
    destruct (len (players s) <? 2) eqn:H2; [lia|].
    set (minCells := len (players s) * roundCount cfg).
    set (blockedCount := Z.min 15 (Z.max 5 (minCells / 10))).
    destruct (generateGrid_counts minCells blockedCount (rng e))
      as (_ & _ & _ & Hplay); [subst blockedCount; lia|].
    destruct (generateGrid minCells blockedCount (rng e)) as [grid' g2].
    cbn [fst] in Hplay.
    pose proof (randomDiceArray_fair (Z.to_nat (len (players s) - 1)) g2) as Hmd.
    rewrite Z2Nat.id in Hmd by lia.
    destruct (randomDiceArray _ g2) as [md g3]. cbn [fst] in Hmd.
    pose proof (dealStart_dealt (players s) g3) as Hdeal.
    pose proof (ok_dealStart (players s) g3 Hok) as Hok'.
    destruct (dealStart (players s) g3) as [ps' g4]. cbn [fst] in Hdeal, Hok'.
    rewrite broadcast_ok by exact Hok'. cbn.
    split; [exists md; split; [reflexivity|exact Hmd]|].
    split; [exact Hdeal|]. split; [exact Hplay|]. auto.
  - intros [Hl|Hfew].
    + destruct (phase cfg); try contradiction; reflexivity.
    + destruct (negb _); [reflexivity|]. cbn [orb].
      destruct (len (players s) <? 2) eqn:H2; [reflexivity|lia].
Qed.

Lemma start_game_witness :
  Forall2 dealt (players (run (firstn 2 opening) (initialize 3)))
          (players startedRoom).
Proof.
  refine (proj1 (proj2 (proj1
    (start_game (demoEnv 3 "") 1 (run (firstn 2 opening) (initialize 3))
       {| roundCount := 3; phase := lobby; roundIndex := 0;
          marketDice := None; marketMinPrice := Some 1; phaseEndsAt := None |}
       _ _) _ _))).
  - apply reachable_run, reach_init.
  - vm_compute. reflexivity.
  - reflexivity.
  - vm_compute. discriminate.
Defined.

(* ================================================================== *)
(** * Recycling a die *)

Lemma remove_nth_split {A : Type} (n : nat) (l : list A) :
  remove_nth n l = firstn n l ++ skipn (S n) l.
Proof.
  revert n. induction l as [|h t IH]; intros [|n]; cbn; try reflexivity.
  f_equal. apply IH.
Qed.

Lemma find_update_hit {A : Type} (p : A -> bool) (f : A -> A) (l : list A) (x : A) :
  find p l = Some x -> p (f x) = true -> find p (update_first p f l) = Some (f x).
Proof.
  induction l as [|h t IH]; cbn; [discriminate|].
  destruct (p h) eqn:Hp.
  - intros [= ->] Hf. cbn. now rewrite Hf.
  - intros Hx Hf. cbn. rewrite Hp. auto.
Qed.

Lemma find_update_miss {A : Type} (p p' : A -> bool) (f : A -> A) (l : list A) :
  (forall x, p' (f x) = p' x) ->
  (forall x, p x = true -> p' x = false) ->
  find p' (update_first p f l) = find p' l.
Proof.
  intros Hf Hd. induction l as [|h t IH]; cbn; [reflexivity|].
  destruct (p h) eqn:Hp; cbn.
  - rewrite Hf. rewrite (Hd h Hp). reflexivity.
  - destruct (p' h); [reflexivity|exact IH].
Qed.

(** X17.  In the market phase a joined player may trade any die of the hand
    for 3 money: the die at the given index leaves the hand, the money
    grows by 3, and no other player changes.  An index outside the hand is
    answered with an error and changes nothing. *)
Theorem market_recycle (e : Env) (ws : nat) (pid : string) (die : Z)
    (s : Storage) (player : Player) :
  reachable s -> pid <> "" -> inPhase market_phase s = true ->
  find_player pid (players s) = Some player ->
  let r := handleMarketRecycle e ws (Some pid) die s in
  (0 <= die < len (dice player) ->
     find_player pid (players (fst r)) =
       Some (with_money (money player + 3)
               (with_dice (firstn (Z.to_nat die) (dice player)
                             ++ skipn (S (Z.to_nat die)) (dice player)) player)) /\
     (forall other, other <> pid ->
        find_player other (players (fst r)) = find_player other (players s)) /\
     snd r = [OState]) /\
  (die < 0 \/ len (dice player) <= die ->
     r = (s, [OError ws "Invalid die selected for recycle."])).
Proof.
  intros Hr Hpid Hph Hf r. subst r. unfold handleMarketRecycle, joinedAs.
  apply String.eqb_neq in Hpid as Hne. rewrite Hne, Hph, Hf. cbn [negb].
  split.
  - intros Hin.
    destruct ((die <? 0) || (die >=? len (dice player))) eqn:Hb;
      [apply orb_true_iff in Hb; lia|].
    assert (Hok : Forall okPlayer
              (update_player pid
                 (fun p => with_money (money p + 3)
                             (with_dice (splice1 die (dice p)) p)) (players s))).
    { apply Forall_update_first; [exact (reachable_players_ok s Hr)|].
      intros x [Hc Hm] _. split; [exact Hc|]. cbn. lia. }
    rewrite broadcast_ok by exact Hok. cbn [fst snd players set_players].
    split; [|split; [|reflexivity]].
    + unfold find_player, update_player in *.
      rewrite (find_update_hit _ _ _ player Hf).
      * unfold splice1. destruct (die <? 0) eqn:Hd; [lia|].
        now rewrite remove_nth_split.
      * apply find_some in Hf. exact (proj2 Hf).
    + intros other Hother. unfold find_player, update_player.
      apply find_update_miss; [reflexivity|].
      intros x Hx. unfold is_player in *. apply String.eqb_eq in Hx.
      apply String.eqb_neq. congruence.
  - intros Hout.
    destruct ((die <? 0) || (die >=? len (dice player))) eqn:Hb; [reflexivity|].
    apply orb_false_iff in Hb. lia.
Qed.

Lemma market_recycle_witness :
  find_player "bbbbbbbb"
    (players (fst (handleMarketRecycle (demoEnv 13 "") 2 (Some "bbbbbbbb") 1
                     roundOneMarket))) =
  Some {| playerId := "bbbbbbbb"; displayName := "Player 2"; color := "#0000fe";
          money := 15; dice := [4; 6] |}.
Proof.
  refine (proj1 (proj1
    (market_recycle (demoEnv 13 "") 2 "bbbbbbbb" 1 roundOneMarket
       {| playerId := "bbbbbbbb"; displayName := "Player 2"; color := "#0000fe";
          money := 12; dice := [4; 4; 6] |}
       roundOneMarket_reachable _ _ _) _)).
  - discriminate.
  - vm_compute. reflexivity.
  - vm_compute. reflexivity.
  - cbn. lia.
Defined.

(* ================================================================== *)
(** * The timer and the tick message *)

(** X18.  A tick message runs the timer routine when the room is in a timed
    phase whose deadline has passed, and then leaves the room exactly as
    [alarm] does; in the lobby, in an ended room or before the deadline it
    changes nothing and only triggers the state broadcast. *)
Theorem tick_message (e : Env) (ws : nat) (attached : option string)
    (s : Storage) (cfg : GameConfig) :
  reachable s -> config s = Some cfg ->
  (phase cfg <> lobby -> phase cfg <> ended -> deadlinePassed e cfg = true ->
     fst (webSocketMessage e ws attached Tick s) = fst (alarm e s)) /\
  (phase cfg = lobby \/ phase cfg = ended \/ deadlinePassed e cfg = false ->
     webSocketMessage e ws attached Tick s = (s, [OState])).
Proof.
  intros Hr Hc. pose proof (reachable_inv s Hr) as Hinv.
  cbn [webSocketMessage]. unfold maybeAdvanceTimedPhase. rewrite Hc. split.
  - intros Hl He Hd. rewrite Hd, andb_true_r.
    destruct (phase cfg); try contradiction;
      rewrite andThen_fst, inv_broadcast by (apply inv_alarm, Hinv);
      reflexivity.
  - intros H.
    assert (Hno : (match phase cfg with
                   | round_start | market_phase | buy_phase | auction
                   | path_phase | round_end => true
                   | _ => false
                   end && deadlinePassed e cfg) = false).
    { destruct H as [-> | [-> | ->]]; [reflexivity|reflexivity|].
      apply andb_false_r. }
    rewrite Hno. unfold andThen.
    rewrite broadcast_ok by exact (inv_players Hinv). reflexivity.
Qed.

Lemma tick_message_witness :
  webSocketMessage (demoEnv 13 "") 1 ann Tick roundOneMarket
  = (roundOneMarket, [OState]).
Proof.
  refine (proj2 (tick_message (demoEnv 13 "") 1 ann roundOneMarket
     {| roundCount := 3; phase := market_phase; roundIndex := 1;
        marketDice := Some [1]; marketMinPrice := Some 1;
        phaseEndsAt := Some 42000 |} roundOneMarket_reachable _) _).
  - vm_compute. reflexivity.
  - right. right. vm_compute. reflexivity.
Defined.

(* ================================================================== *)
(** * The path phase *)

Lemma dealHands_rehanded (ps : list Player) (g : Rng) :
  Forall2 rehanded ps (fst (dealHands ps g)).
Proof.
  revert g. induction ps as [|p t IH]; intros g; [constructor|].
  cbn [dealHands]. destruct (dice p) as [|d0 ds] eqn:Hd.
  - pose proof (randomDiceArray_fair 3 g) as Hf.
    destruct (randomDiceArray 3 g) as [d g1]. specialize (IH g1).
    destruct (dealHands t g1) as [rest g2]. cbn [fst] in *.
    constructor; [|exact IH]. unfold rehanded. rewrite Hd. cbn. auto.
  - specialize (IH g). destruct (dealHands t g) as [rest g2]. cbn [fst] in *.
    constructor; [|exact IH]. unfold rehanded. rewrite Hd. auto.
Qed.

(** X19.  When the timer fires in the path phase of a reachable room, every
    player whose hand is empty draws three dice and every other record is
    kept; the board and the submitted paths stay, and round_end begins with
    a timer of five seconds. *)
Theorem path_phase_ends (e : Env) (s : Storage) (cfg : GameConfig) :
  reachable s -> config s = Some cfg -> phase cfg = path_phase ->
  Forall2 rehanded (players s) (players (fst (alarm e s))) /\
  config (fst (alarm e s)) =
    Some (with_phase round_end (marketDice cfg) (Some (now e + 5000)) cfg) /\
  alarmAt (fst (alarm e s)) = Some (now e + 5000) /\
  grid (fst (alarm e s)) = grid s /\
  submittedPaths (fst (alarm e s)) = submittedPaths s /\
  snd (alarm e s) = [OState].
Proof.
  intros Hr Hc Hp. unfold alarm. rewrite Hc, Hp. unfold alarm_path.
  pose proof (dealHands_rehanded (players s) (rng e)) as Hd.
  pose proof (ok_dealHands (players s) (rng e) (reachable_players_ok s Hr)) as Hok.
  destruct (dealHands (players s) (rng e)) as [ps g]. cbn [fst] in Hd, Hok.
  rewrite broadcast_ok by exact Hok. cbn. auto 10.
Qed.

Lemma path_phase_ends_witness :
  option_map phase
    (config (fst (alarm (demoEnv 23 "") (run (firstn 3 lastRound) roundTwoStart))))
  = Some round_end.
Proof.
  destruct (path_phase_ends (demoEnv 23 "") (run (firstn 3 lastRound) roundTwoStart)
     {| roundCount := 3; phase := path_phase; roundIndex := 2;
        marketDice := Some [3]; marketMinPrice := Some 1;
        phaseEndsAt := Some 112000 |}) as (_ & H & _).
  - apply reachable_run, roundTwoStart_reachable.
  - vm_compute. reflexivity.
  - reflexivity.
  - rewrite H. reflexivity.
Defined.

Lemma rget_app {V : Type} (k : string) (d1 d2 : Rec V) :
  rget k (d1 ++ d2) =
  match rget k d1 with Some v => Some v | None => rget k d2 end.
Proof.
  unfold rget. induction d1 as [|[k' v'] t IH]; cbn; [reflexivity|].
  destruct (String.eqb k' k); [reflexivity|exact IH].
Qed.

Lemma rset_absent {V : Type} (k : string) (v : V) (d : Rec V) :
  rget k d = None -> rset k v d = d ++ [(k, v)].
Proof.
  unfold rget, rset. induction d as [|[k' v'] t IH]; cbn; [reflexivity|].
  destruct (String.eqb k' k); [discriminate|].
  intros H. now rewrite IH.
Qed.

Lemma autoReady_test (g : list Cell) (p : Player) :
  negb (existsb (fun c => existsb (hasRole (playerId p) Producer) (owners c)) g)
  || negb (existsb (fun c => existsb (hasRole (playerId p) Seller) (owners c)) g)
  = negb (canRoute g (playerId p)).
Proof. unfold canRoute, ownsRole. now rewrite negb_andb. Qed.

Lemma autoReady_fold (g : list Cell) (ps : list Player) (acc : Rec unit)
    (pid : string) :
  rget pid
    (fold_left
       (fun ready player =>
          if negb (canRoute g (playerId player))
          then rset (playerId player) tt ready else ready) ps acc) = Some tt <->
  rget pid acc = Some tt \/
  ((exists p, In p ps /\ playerId p = pid) /\ canRoute g pid = false).
Proof.
  revert acc. induction ps as [|p t IH]; intros acc; cbn [fold_left].
  - split; [auto|]. intros [H|[(p & [] & _) _]]. exact H.
  - rewrite IH. destruct (canRoute g (playerId p)) eqn:Hc; cbn [negb].
    + split.
      * intros [H|[(x & Hx & <-) Hr]]; [auto|]. right. split; [|exact Hr].
        exists x. cbn; auto.
      * intros [H|[(x & [<-|Hx] & <-) Hr]]; [auto|congruence|].
        right. split; [|exact Hr]. exists x. auto.
    + destruct (String.eqb_spec (playerId p) pid) as [E|E].
      * subst pid. rewrite rget_rset_same. split; [|auto].
        intros _. right. split; [|exact Hc]. exists p. cbn; auto.
      * rewrite rget_rset_other by exact E. split.
        -- intros [H|[(x & Hx & <-) Hr]]; [auto|]. right. split; [|exact Hr].
           exists x. cbn; auto.
        -- intros [H|[(x & [<-|Hx] & <-) Hr]]; [auto|congruence|].
           right. split; [|exact Hr]. exists x. auto.
Qed.

Lemma computeAutoPathReady_fold (ps : list Player) (g : list Cell)
    (acc : Rec unit) :
  fold_left
    (fun ready player =>
       let hasProducer :=
         existsb (fun c => existsb (hasRole (playerId player) Producer) (owners c)) g in
       let hasSeller :=
         existsb (fun c => existsb (hasRole (playerId player) Seller) (owners c)) g in
       if negb hasProducer || negb hasSeller
       then rset (playerId player) tt ready else ready) ps acc =
  fold_left
    (fun ready player =>
       if negb (canRoute g (playerId player))
       then rset (playerId player) tt ready else ready) ps acc.
Proof.
  revert acc. induction ps as [|p t IH]; intros acc; [reflexivity|].
  cbn [fold_left]. cbv zeta. rewrite autoReady_test. apply IH.
Qed.

Lemma autoReady_get (ps : list Player) (g : list Cell) (pid : string) :
  rget pid (computeAutoPathReady ps g) = Some tt <->
  (exists p, In p ps /\ playerId p = pid) /\ canRoute g pid = false.
Proof.
  unfold computeAutoPathReady.
  rewrite computeAutoPathReady_fold, autoReady_fold. cbn. split; [|auto].
  intros [H|H]; [discriminate|exact H].
Qed.

(** With pairwise different player ids the ready set holds one entry per
    player that cannot lay a path, in the order of the players. *)
Lemma autoReady_exact (g : list Cell) (ps : list Player) (acc : Rec unit) :
  NoDup (map playerId ps) ->
  (forall p, In p ps -> rget (playerId p) acc = None) ->
  fold_left
    (fun ready player =>
       if negb (canRoute g (playerId player))
       then rset (playerId player) tt ready else ready) ps acc =
  acc ++ map (fun p => (playerId p, tt))
             (filter (fun p => negb (canRoute g (playerId p))) ps).
Proof.
  revert acc. induction ps as [|p t IH]; intros acc Hnd Hacc; cbn [fold_left].
  - cbn. now rewrite app_nil_r.
  - cbn [map] in Hnd. apply NoDup_cons_iff in Hnd. destruct Hnd as [Hp Hnd].
    cbn [filter]. destruct (negb (canRoute g (playerId p))).
    + rewrite rset_absent by (apply Hacc; cbn; auto).
      rewrite IH; [cbn; now rewrite <- app_assoc|exact Hnd|].
      intros x Hx. rewrite rget_app, Hacc by (cbn; auto).
      unfold rget. cbn. destruct (String.eqb_spec (playerId p) (playerId x)) as [E|E];
        [|reflexivity].
      exfalso. apply Hp. rewrite E. apply in_map, Hx.
    + apply IH; [exact Hnd|]. intros x Hx. apply Hacc. cbn; auto.
Qed.

Lemma filter_all_length {A : Type} (f : A -> bool) (l : list A) :
  (List.length l <= List.length (filter f l))%nat <-> forallb f l = true.
Proof.
  induction l as [|x l IH]; cbn; [split; auto|].
  pose proof (filter_length_le f l) as Hle.
  destruct (f x); cbn.
  - rewrite <- IH. lia.
  - split; [lia|discriminate].
Qed.

(** X20.  [computeAutoPathReady] marks exactly the players that cannot lay
    a path: an id is in the ready set if and only if it is the id of a
    player and that player lacks a producer cell or lacks a seller cell. *)
Theorem auto_path_ready (ps : list Player) (g : list Cell) (pid : string) :
  rget pid (computeAutoPathReady ps g) = Some tt <->
  (exists p, In p ps /\ playerId p = pid) /\
  (ownsRole g pid Producer = false \/ ownsRole g pid Seller = false).
Proof.
  rewrite autoReady_get. unfold canRoute. now rewrite andb_false_iff.
Qed.

Lemma broadcast_alarmAt (e : Env) (s : Storage) :
  alarmAt (fst (broadcastState e s)) = alarmAt s.
Proof.
  unfold broadcastState. destruct (ensurePlayerColors _ _).
  simpl. destruct (existsb noColor (players s)); reflexivity.
Qed.

(** X21.  At the end of the buy and auction branches of [alarm], in a room
    whose players have pairwise different ids: when there are players and
    none of them can lay a path, the path phase is passed over and the room
    is in round_end at once; otherwise the room enters the path phase with
    the 90 second timer and with the players that cannot lay a path marked
    ready. *)
Theorem path_phase_entry (e : Env) (s : Storage) (cfg : GameConfig)
    (md : option (list Z)) :
  NoDup (map playerId (players s)) ->
  let idle :=
    forallb (fun p => negb (canRoute (grid s) (playerId p))) (players s) in
  (players s <> [] -> idle = true ->
     option_map phase (config (fst (enterPathPhase e s cfg md)))
       = Some round_end) /\
  (players s = [] \/ idle = false ->
     option_map phase (config (fst (enterPathPhase e s cfg md)))
       = Some path_phase /\
     alarmAt (fst (enterPathPhase e s cfg md))
       = Some (now e + PATH_DURATION_MS) /\
     pathReady (pendingActions (fst (enterPathPhase e s cfg md)))
       = computeAutoPathReady (players s) (grid s)).
Proof.
  intros Hnd idle.
  assert (Hlen : len (players s) <= len (computeAutoPathReady (players s) (grid s))
                 <-> idle = true).
  { unfold computeAutoPathReady.
    rewrite computeAutoPathReady_fold, autoReady_exact by (auto; intros; reflexivity).
    cbn [app]. unfold len. rewrite length_map, <- Nat2Z.inj_le.
    apply filter_all_length. }
  unfold enterPathPhase.
  rewrite andThen_fst, broadcast_config, broadcast_alarmAt, broadcast_pending.
  split.
  - intros Hps Hidle.
    assert (H0 : (0 <? len (players s)) = true).
    { apply Z.ltb_lt. unfold len. destruct (players s); [contradiction|cbn; lia]. }
    assert (H1 : (len (players s)
                    <=? len (computeAutoPathReady (players s) (grid s))) = true) by (apply Z.leb_le, Hlen, Hidle).
    rewrite H0, H1. cbn [andb]. rewrite alarm_path_config. reflexivity.
  - intros Hcase.
    assert (H : (0 <? len (players s))
                && (len (players s)
                      <=? len (computeAutoPathReady (players s) (grid s))) = false).
    { destruct Hcase as [Hps|Hidle].
      - rewrite Hps. reflexivity.
      - apply andb_false_iff. right. apply Z.leb_gt.
        destruct (Z.le_gt_cases (len (players s))
                    (len (computeAutoPathReady (players s) (grid s)))) as [L|L];
          [|lia].
        apply Hlen in L. congruence. }
    rewrite H. cbn. auto.
Qed.

Lemma path_phase_entry_witness :
  option_map phase
    (config (fst (enterPathPhase (demoEnv 8 "") startedRoom
                    {| roundCount := 3; phase := buy_phase; roundIndex := 0;
                       marketDice := None; marketMinPrice := Some 1;
                       phaseEndsAt := None |} None)))
  = Some round_end.
Proof.
  refine (proj1 (path_phase_entry (demoEnv 8 "") startedRoom _ None _) _ _).
  - vm_compute. repeat constructor; cbn; intuition discriminate.
  - vm_compute. discriminate.
  - vm_compute. reflexivity.
Defined.

(* ================================================================== *)
(** * Submitting a path *)

Lemma neighbour_test (a b : Axial) :
  existsb (fun n => (aq n =? aq b) && (ar n =? ar b)) (axialNeighbors a)
  = (axialDistance a b =? 1).
Proof.
  apply eq_true_iff_eq. rewrite existsb_exists, Z.eqb_eq, <- axialNeighbors_In.
  split.
  - intros (n & Hn & E). apply (axialEquals_true n b) in E. now subst.
  - intros H. exists b. split; [exact H|]. now apply (axialEquals_true b b).
Qed.

Lemma blocked_test (g : list Cell) (b : Axial) :
  existsb (String.eqb (axialKey b)) (blockedKeys g) = onBlocked g b.
Proof.
  apply eq_true_iff_eq. unfold onBlocked, blockedKeys.
  rewrite !existsb_exists. split.
  - intros (k & Hk & E). apply in_map_iff in Hk. destruct Hk as (c & <- & Hc).
    apply filter_In in Hc. destruct Hc as [Hc Hb].
    apply String.eqb_eq in E. exists c. split; [exact Hc|].
    rewrite Hb. cbn [andb]. apply axialEquals_true. symmetry.
    apply axialKey_inj, E.
  - intros (c & Hc & E). apply andb_true_iff in E. destruct E as [Hb E].
    exists (axialKey (cellAxial c)). split.
    + apply in_map_iff. exists c. split; [reflexivity|]. apply filter_In. auto.
    + apply String.eqb_eq. apply axialEquals_true in E. now rewrite E.
Qed.

Lemma checkPath_cases (g : list Cell) (p : list Axial) :
  (validSteps g p = true -> checkPath (blockedKeys g) p = None) /\
  (validSteps g p = false ->
     exists msg, checkPath (blockedKeys g) p = Some msg /\
       (msg = "Path not contiguous" \/ msg = "Path crosses blocked cell")).
Proof.
  induction p as [|a p IH]; [split; [reflexivity|discriminate]|].
  destruct p as [|b rest]; [split; [reflexivity|discriminate]|].
  cbn [checkPath validSteps]. rewrite neighbour_test, blocked_test.
  destruct (axialDistance a b =? 1); cbn [negb andb].
  - destruct (onBlocked g b); cbn [negb andb].
    + split; [discriminate|]. intros _. eauto.
    + exact IH.
  - split; [discriminate|]. intros _. eauto.
Qed.

Lemma rget_rdel_same {V : Type} (k : string) (d : Rec V) :
  rget k (rdel k d) = None.
Proof.
  unfold rget, rdel, ddel. induction d as [|[k' v'] t IH]; cbn; [reflexivity|].
  destruct (String.eqb k' k) eqn:E; cbn; [exact IH|]. now rewrite E.
Qed.

(** X22.  A path message from a joined player in the path phase, naming a
    producer cell and a seller cell that the player owns in those roles:
    - is answered "Invalid path endpoints" unless the path has at least two
      hexes, starts on the producer cell and ends on the seller cell;
    - is answered "Path not contiguous" or "Path crosses blocked cell" when
      some step leaves the neighbourhood of the hex before it or lands on a
      blocked cell;
    - otherwise is stored for the player with the revenue
      [computePathRevenue] gives, takes the player's ready mark away and is
      answered with that revenue.
    A rejected path changes nothing. *)
Theorem path_submission (e : Env) (ws : nat) (pid producer_id seller_id : string)
    (p : list Axial) (s : Storage) (pc sc : Cell) :
  pid <> "" -> inPhase path_phase s = true ->
  find_cell producer_id (grid s) = Some pc ->
  find_cell seller_id (grid s) = Some sc ->
  existsb (hasRole pid Producer) (owners pc) = true ->
  existsb (hasRole pid Seller) (owners sc) = true ->
  let r := handlePath e ws (Some pid) producer_id seller_id p s in
  let rev := computePathRevenue (grid s) pid pc sc p in
  (endpointsOk p pc sc = false ->
     r = (s, [OError ws "Invalid path endpoints"])) /\
  (endpointsOk p pc sc = true -> validSteps (grid s) p = false ->
     fst r = s /\
     (snd r = [OError ws "Path not contiguous"] \/
      snd r = [OError ws "Path crosses blocked cell"])) /\
  (endpointsOk p pc sc = true -> validSteps (grid s) p = true ->
     rget pid (submittedPaths (fst r)) =
       Some {| producerId := producer_id; sellerId := seller_id; path := p;
               revenue := rev |} /\
     rget pid (pathReady (pendingActions (fst r))) = None /\
     grid (fst r) = grid s /\ config (fst r) = config s /\
     snd r = [OPathRevenue ws rev; OState]).
Proof.
  intros Hpid Hph Hpc Hsc Hpo Hso r rev. subst r rev.
  unfold handlePath, joinedAs. apply String.eqb_neq in Hpid. rewrite Hpid.
  rewrite Hph, Hpc, Hsc, Hpo, Hso. cbn [negb].
  destruct p as [|first [|second rest]];
    try (split; [reflexivity|split; intros H; discriminate H]).
  assert (Hlen : (2 <=? len (first :: second :: rest)) = true).
  { apply Z.leb_le. unfold len. cbn [List.length]. lia. }
  unfold endpointsOk. rewrite Hlen. cbn [andb hd].
  fold (blockedKeys (grid s)).
  destruct (checkPath_cases (grid s) (first :: second :: rest)) as [Hgood Hbad].
  destruct (axialEquals first (cellAxial pc)); cbn [negb orb andb];
    [|split; [reflexivity|split; intros H; discriminate H]].
  change {| aq := 0; ar := 0 |} with origin.
  destruct (axialEquals (last (first :: second :: rest) origin) (cellAxial sc));
    cbn [negb];
    [|split; [reflexivity|split; intros H; discriminate H]].
  split; [discriminate|]. split; intros _ Hv.
  - destruct (Hbad Hv) as (msg & -> & Hmsg). cbn [sendTo fst snd].
    split; [reflexivity|]. destruct Hmsg as [-> | ->]; auto.
  - rewrite (Hgood Hv). rewrite andThen_fst, andThen_snd. cbn [fst snd].
    rewrite broadcast_submittedPaths, broadcast_pending, broadcast_grid,
      broadcast_config, broadcast_snd.
    cbn [submittedPaths set_submittedPaths pendingActions set_pending pathReady
         set_pathReady grid config app].
    rewrite rget_rset_same, rget_rdel_same. auto.
Qed.

Lemma buyRoom_reachable : reachable buyRoom.
Proof. apply reachable_run, startedRoom_reachable. Qed.

Lemma pathRoom_reachable : reachable pathRoom.
Proof. apply reachable_run, startedRoom_reachable. Qed.

Lemma path_submission_witness :
  snd (handlePath (demoEnv 9 "") 1 (Some "aaaaaaaa") "cell-0--1" "cell-0--2"
         [hexAt 0 (-1); hexAt 0 (-2)] pathRoom)
  = [OPathRevenue 1 7; OState].
Proof.
  refine (proj2 (proj2 (proj2 (proj2 (proj2 (proj2
    (path_submission (demoEnv 9 "") 1 "aaaaaaaa" "cell-0--1" "cell-0--2"
       [hexAt 0 (-1); hexAt 0 (-2)] pathRoom annProducer annSeller
       _ _ _ _ _ _)) _ _))))).
  - discriminate.
  - vm_compute. reflexivity.
  - vm_compute. reflexivity.
  - vm_compute. reflexivity.
  - vm_compute. reflexivity.
  - vm_compute. reflexivity.
  - vm_compute. reflexivity.
  - vm_compute. reflexivity.
Defined.

(* ================================================================== *)
(** * Queuing a buy *)

Lemma needs_app (byId : Rec Cell) (v : Z) (q1 q2 : list BuyAct) :
  needs byId v (q1 ++ q2) = needs byId v q1 + needs byId v q2.
Proof. unfold needs. rewrite filter_app. apply len_app. Qed.

(** One turn of the re-validation loop: a die of the pool is set aside for
    each act that is kept. *)
Lemma queueStep_pool (byId : Rec Cell) (pool : list (Z * Z))
    (kept : list BuyAct) (a : BuyAct) :
  (forall v, 0 <= orElse (dget Z.eqb v pool) 0) ->
  Forall (targetsOpen byId) kept ->
  let pool' := fst (queueStep byId (pool, kept) a) in
  let kept' := snd (queueStep byId (pool, kept) a) in
  (forall v, 0 <= orElse (dget Z.eqb v pool') 0) /\
  (forall v, orElse (dget Z.eqb v pool') 0 + needs byId v kept'
             = orElse (dget Z.eqb v pool) 0 + needs byId v kept) /\
  Forall (targetsOpen byId) kept' /\
  (kept' = kept \/ kept' = kept ++ [a]).
Proof.
  intros Hpos Hopen. unfold queueStep.
  destruct (rget (cellId a) byId) as [target|] eqn:Ht; cbn [fst snd]; [|auto].
  destruct (blocked target) eqn:Hb; cbn [fst snd]; [auto|].
  destruct (orElse (dget Z.eqb (diceValue target) pool) 0 <=? 0) eqn:Hleft;
    cbn [fst snd]; [auto|].
  apply Z.leb_gt in Hleft.
  split; [|split; [|split]].
  - intros v. destruct (Z.eq_dec (diceValue target) v) as [<-|Hne].
    + rewrite (dget_dset_same Z.eqb Zeqb_spec). cbn [orElse]. lia.
    + rewrite (dget_dset_other Z.eqb Zeqb_spec) by exact Hne. apply Hpos.
  - intros v. rewrite needs_app.
    replace (needs byId v [a]) with (if diceValue target =? v then 1 else 0)
      by (unfold needs, needsDie; cbn [filter]; rewrite Ht;
          destruct (diceValue target =? v); reflexivity).
    destruct (Z.eq_dec (diceValue target) v) as [<-|Hne].
    + rewrite (dget_dset_same Z.eqb Zeqb_spec), Z.eqb_refl. cbn. lia.
    + rewrite (dget_dset_other Z.eqb Zeqb_spec) by exact Hne.
      apply Z.eqb_neq in Hne. rewrite Hne. cbn. lia.
  - apply Forall_app. split; [exact Hopen|].
    constructor; [|constructor]. exists target. auto.
  - auto.
Qed.

Lemma queue_fold (byId : Rec Cell) (acts : list BuyAct) (pool : list (Z * Z))
    (kept : list BuyAct) :
  (forall v, 0 <= orElse (dget Z.eqb v pool) 0) ->
  Forall (targetsOpen byId) kept ->
  let kept' := snd (fold_left (queueStep byId) acts (pool, kept)) in
  (forall v, needs byId v kept'
             <= orElse (dget Z.eqb v pool) 0 + needs byId v kept) /\
  Forall (targetsOpen byId) kept' /\
  (forall a, In a kept' -> In a kept \/ In a acts).
Proof.
  revert pool kept. induction acts as [|a acts IH]; intros pool kept Hpos Hopen.
  - cbn. split; [intros v; specialize (Hpos v); lia|]. auto.
  - cbn [fold_left].
    destruct (queueStep_pool byId pool kept a Hpos Hopen) as (P & E & O & K).
    destruct (queueStep byId (pool, kept) a) as [pool1 kept1]. cbn [fst snd] in *.
    destruct (IH pool1 kept1 P O) as (N & O' & I). cbv zeta.
    split; [|split; [exact O'|]].
    + intros v. specialize (N v). specialize (E v). lia.
    + intros x Hx. destruct (I x Hx) as [H|H]; [|cbn; auto].
      destruct K as [-> | ->]; [auto|].
      apply in_app_or in H. destruct H as [H|[<-|[]]]; cbn; auto.
Qed.

(** X23.  A buy request from a joined player in the buy phase either is
    answered with an error and changes nothing, or stores a queue for the
    player in which: the requested cell stands exactly once, with the
    requested role; every other entry was queued before; every entry
    targets a cell that is not blocked; for each face, no more entries need
    a die of that face than the player holds; the player's "done" mark is
    cleared and the queues of the other players are untouched. *)
Theorem buy_queue (e : Env) (ws : nat) (pid cell_id : string) (ro : Role)
    (s : Storage) (player : Player) :
  pid <> "" -> inPhase buy_phase s = true ->
  find_player pid (players s) = Some player ->
  let r := handleBuyCell e ws (Some pid) cell_id ro s in
  let byId := cellById (grid s) in
  let request := {| cellId := cell_id; role := ro |} in
  (snd r = [OState] ->
     exists queue,
       rget pid (buy (pendingActions (fst r))) = Some queue /\
       In request queue /\
       (forall a, In a queue -> cellId a = cell_id -> a = request) /\
       (forall a, In a queue ->
          a = request \/ In a (orElse (rget pid (buy (pendingActions s))) [])) /\
       Forall (targetsOpen byId) queue /\
       (forall v, needs byId v queue
                  <= Z.of_nat (count_occ Z.eq_dec (dice player) v)) /\
       rget pid (buyDone (pendingActions (fst r))) = None /\
       (forall other, other <> pid ->
          rget other (buy (pendingActions (fst r)))
          = rget other (buy (pendingActions s)))) /\
  (snd r <> [OState] -> fst r = s /\ exists msg, snd r = [OError ws msg]).
Proof.
  intros Hpid Hph Hplayer r byId request. subst r.
  unfold handleBuyCell, joinedAs. apply String.eqb_neq in Hpid as Hne.
  rewrite Hne, Hph, Hplayer. cbn [negb].
  destruct (find_cell cell_id (grid s)) as [cell|];
    [|cbn [sendTo fst snd]; split; [discriminate|eauto]].
  destruct (blocked cell || negb (holdsDie (diceValue cell) player));
    [cbn [sendTo fst snd]; split; [discriminate|eauto]|].
  fold byId. fold request.
  set (current := orElse (rget pid (buy (pendingActions s))) []).
  set (withoutCell := filter (fun a => negb (sameCell cell_id a)) current).
  destruct (queue_fold byId (withoutCell ++ [request]) (countDice (dice player)) [])
    as (N & O & I).
  { intros v. rewrite countDice_get. lia. }
  { constructor. }
  set (nextQueued := snd (fold_left (queueStep byId) (withoutCell ++ [request])
                            (countDice (dice player), []))) in *.
  destruct (existsb (sameCell cell_id) nextQueued) eqn:Hin; cbn [negb];
    [|cbn [sendTo fst snd]; split; [discriminate|eauto]].
  rewrite broadcast_snd, broadcast_pending.
  cbn [pendingActions set_pending buy set_buy buyDone set_buyDone].
  split; [|intros H; contradiction].
  intros _. exists nextQueued.
  assert (Hsrc : forall a, In a nextQueued -> a = request \/ In a withoutCell).
  { intros a Ha. destruct (I a Ha) as [[]|H].
    apply in_app_or in H. destruct H as [H|[<-|[]]]; auto. }
  assert (Hone : forall a, In a nextQueued -> cellId a = cell_id -> a = request).
  { intros a Ha Hc. destruct (Hsrc a Ha) as [H|H]; [exact H|].
    apply filter_In in H. destruct H as [_ H]. unfold sameCell in H.
    rewrite Hc, String.eqb_refl in H. discriminate. }
  split; [apply rget_rset_same|]. split; [|split; [exact Hone|]].
  { apply existsb_exists in Hin. destruct Hin as (a & Ha & Hc).
    unfold sameCell in Hc. apply String.eqb_eq in Hc.
    now rewrite <- (Hone a Ha Hc). }
  split.
  { intros a Ha. destruct (Hsrc a Ha) as [H|H]; [auto|].
    right. apply filter_In in H. exact (proj1 H). }
  split; [exact O|]. split.
  { intros v. specialize (N v). rewrite countDice_get in N.
    unfold needs in N at 2. cbn in N. lia. }
  split; [apply rget_rdel_same|].
  intros other Hother. apply rget_rset_other. congruence.
Qed.

Lemma buy_queue_witness :
  exists queue,
    rget "aaaaaaaa"
      (buy (pendingActions
              (fst (handleBuyCell (demoEnv 6 "") 1 (Some "aaaaaaaa")
                      "cell-0--1" Producer buyRoom)))) = Some queue /\
    In {| cellId := "cell-0--1"; role := Producer |} queue.
Proof.
  destruct (proj1 (buy_queue (demoEnv 6 "") 1 "aaaaaaaa" "cell-0--1" Producer
      buyRoom
      {| playerId := "aaaaaaaa"; displayName := "Ann"; color := "#00000d";
         money := 11; dice := [4; 4; 6] |}
      ltac:(discriminate) ltac:(vm_compute; reflexivity)
      ltac:(vm_compute; reflexivity)) ltac:(vm_compute; reflexivity))
    as (queue & H1 & H2 & _).
  exists queue. split; assumption.
Defined.

(* ================================================================== *)
(** * Dice in circulation *)

Lemma randomDiceArray_faces (n : nat) (g : Rng) :
  Forall face (fst (randomDiceArray n g)).
Proof.
  destruct (randomDiceArray_fair n g) as [_ H]. exact H.
Qed.

Lemma Forall_remove_nth {A : Type} (P : A -> Prop) (n : nat) (l : list A) :
  Forall P l -> Forall P (remove_nth n l).
Proof.
  intros H. revert n. induction H as [|h t Hh Ht IH]; intros [|n]; cbn; auto.
Qed.

Lemma Forall_splice1 {A : Type} (P : A -> Prop) (i : Z) (l : list A) :
  Forall P l -> Forall P (splice1 i l).
Proof.
  intros H. unfold splice1. destruct (i <? 0); [exact H|].
  apply Forall_remove_nth, H.
Qed.

Lemma fairHand_spendDie (v : Z) (p : Player) : fairHand p -> fairHand (spendDie v p).
Proof.
  intros H. unfold spendDie. destruct (_ >=? 0); [|exact H].
  unfold fairHand. cbn. apply Forall_splice1, H.
Qed.

Lemma fairHand_awardDie (bestBid die : Z) (p : Player) :
  fairHand p -> face die -> fairHand (awardDie bestBid die p).
Proof.
  intros H Hd. unfold fairHand, awardDie. cbn. apply Forall_app.
  split; [exact H|]. constructor; [exact Hd|constructor].
Qed.

Lemma fair_payRevenue (ps : list Player) (entry : string * SubmittedPath) :
  Forall fairHand ps -> Forall fairHand (payRevenue ps entry).
Proof.
  intros H. unfold payRevenue. destruct entry as [pid sp].
  destruct (find_player pid ps); [|exact H].
  apply Forall_update_first; [exact H|]. intros x Hx _. exact Hx.
Qed.

Lemma fair_dealHands (ps : list Player) (g : Rng) :
  Forall fairHand ps -> Forall fairHand (fst (dealHands ps g)).
Proof.
  intros H. pose proof (dealHands_rehanded ps g) as Hd.
  revert H. induction Hd as [|p p' t t' Hp Ht IH]; intros H; [constructor|].
  inversion H as [|? ? Hh Hrest]; subst. constructor; [|apply IH, Hrest].
  destruct Hp as (_ & _ & _ & _ & Hdice). unfold fairHand in *.
  destruct (dice p); [exact (proj2 Hdice)|rewrite Hdice; exact Hh].
Qed.

Lemma fair_dealStart (ps : list Player) (g : Rng) :
  Forall fairHand (fst (dealStart ps g)).
Proof.
  pose proof (dealStart_dealt ps g) as Hd.
  induction Hd as [|p p' t t' Hp Ht IH]; constructor; [|exact IH].
  destruct Hp as (_ & _ & _ & _ & _ & Hf). exact Hf.
Qed.

Lemma fair_recoloured (ps ps' : list Player) :
  Forall2 sameButColour ps ps' -> Forall fairHand ps -> Forall fairHand ps'.
Proof.
  intros H. induction H as [|p p' t t' Hp Ht IH]; intros Hf; [constructor|].
  inversion Hf; subst. constructor; [|auto].
  destruct Hp as (_ & _ & _ & Hd). unfold fairHand. now rewrite Hd.
Qed.

Lemma dice_broadcast (e : Env) (s : Storage) :
  DiceOk s -> DiceOk (fst (broadcastState e s)).
Proof.
  intros [H1 H2]. constructor.
  - exact (fair_recoloured _ _ (broadcast_players e s) H1).
  - rewrite broadcast_config. exact H2.
Qed.

Lemma face_slot (md : list Z) : Forall face md -> Forall poolSlot md.
Proof. apply Forall_impl. intros v H. left. exact H. Qed.

Lemma filter_taken (md : list Z) :
  Forall poolSlot md -> Forall face (filter (fun v => negb (isTaken v)) md).
Proof.
  intros H. induction H as [|v t Hv Ht IH]; cbn; [constructor|].
  unfold isTaken at 1. destruct (v =? -1) eqn:E; cbn; [exact IH|].
  constructor; [|exact IH]. apply Z.eqb_neq in E. destruct Hv; [assumption|lia].
Qed.

Lemma groups_NoDup (minPrice : Z) (mk : Rec MarketAct) :
  NoDup (dkeys (bidsByDieIndex minPrice mk)).
Proof.
  unfold bidsByDieIndex.
  apply (fold_left_invariant (groupStep minPrice)
           (fun m => NoDup (dkeys m)) (fun _ => True)).
  - constructor.
  - apply Forall_True.
  - intros m [pid act] Hm _. unfold groupStep.
    destruct (amount act <? minPrice); [exact Hm|].
    apply (NoDup_dset Z.eqb Zeqb_spec), Hm.
Qed.

Lemma Forall_set_idx {A : Type} (P : A -> Prop) (l : list A) (i : Z) (v : A) :
  P v -> Forall P l -> Forall P (set_idx l i v).
Proof.
  intros Hv Hl. unfold set_idx. destruct (i <? 0); [exact Hl|].
  apply Forall_set_nth; assumption.
Qed.

Lemma marketStep_dice (t : Z) (ps : list Player) (md : list Z)
    (cs : list Conflict) (k : Z) (bids : list Bid) :
  Forall fairHand ps -> Forall poolSlot md ->
  (forall v, idx md k = Some v -> face v) ->
  Forall fairHand (fst (fst (marketStep t (ps, md, cs) (k, bids)))) /\
  Forall poolSlot (snd (fst (marketStep t (ps, md, cs) (k, bids)))) /\
  (forall k', k' <> k ->
     idx (snd (fst (marketStep t (ps, md, cs) (k, bids)))) k' = idx md k').
Proof.
  intros Hps Hmd Hfresh. unfold marketStep.
  destruct ((k <? 0) || (k >=? len md)) eqn:Hrange; [cbn; auto|].
  destruct bids as [|b bs]; [cbn; auto|].
  set (bestBid := bestOf (-1) (map snd (b :: bs))).
  destruct (topBidders bestBid (b :: bs)) as [|w [|w2 ws]];
    try (cbn; auto; fail).
  destruct (find_player w ps) as [player|]; [|cbn; auto].
  destruct (money player >=? bestBid); [|cbn; auto].
  apply orb_false_iff in Hrange. destruct Hrange as [H0 H1].
  destruct (idx_in_range md k) as [v Hv]; [lia|].
  cbn [fst snd]. split; [|split].
  - apply Forall_update_first; [exact Hps|]. intros x Hx _.
    apply fairHand_awardDie; [exact Hx|]. rewrite Hv. cbn [orElse].
    apply Hfresh, Hv.
  - apply Forall_set_idx; [right; reflexivity|exact Hmd].
  - intros k' Hk'. apply idx_set_other. congruence.
Qed.

(** The market resolution hands out only dice that are still in the pool:
    each die index is resolved once. *)
Lemma market_fold_dice (t : Z) (groups : list (Z * list Bid))
    (ps : list Player) (md : list Z) (cs : list Conflict) :
  NoDup (dkeys groups) -> Forall fairHand ps -> Forall poolSlot md ->
  (forall k v, In k (dkeys groups) -> idx md k = Some v -> face v) ->
  Forall fairHand (fst (fst (fold_left (marketStep t) groups (ps, md, cs)))) /\
  Forall poolSlot (snd (fst (fold_left (marketStep t) groups (ps, md, cs)))).
Proof.
  revert ps md cs. induction groups as [|[k bids] rest IH];
    intros ps md cs Hnd Hps Hmd Hfresh; [cbn; auto|].
  cbn [dkeys map fst] in Hnd. apply NoDup_cons_iff in Hnd.
  destruct Hnd as [Hk Hnd].
  cbn [fold_left].
  destruct (marketStep_dice t ps md cs k bids Hps Hmd) as (S1 & S2 & S3).
  { intros v. apply Hfresh. cbn. auto. }
  destruct (marketStep t (ps, md, cs) (k, bids)) as [[ps' md'] cs'].
  cbn [fst snd] in S1, S2, S3. apply IH; try assumption.
  intros k' v Hin. rewrite S3 by (intros ->; contradiction).
  apply Hfresh. cbn. auto.
Qed.

Lemma alarm_market_dice (e : Env) (s : Storage) (cfg : GameConfig) :
  config s = Some cfg -> phase cfg = market_phase ->
  DiceOk s -> DiceOk (fst (alarm_market e s cfg)).
Proof.
  intros Hc Hp [Hh Hpool]. specialize (Hpool cfg Hc).
  unfold fairPool in Hpool. rewrite Hp in Hpool.
  unfold alarm_market.
  assert (Hmd : Forall face (orElse (marketDice cfg) [])).
  { destruct (marketDice cfg); [exact Hpool|constructor]. }
  destruct (market_fold_dice (now e)
              (bidsByDieIndex (orElse (marketMinPrice cfg) MARKET_MIN_PRICE)
                              (market (pendingActions s)))
              (players s) (orElse (marketDice cfg) []) [])
    as [F1 F2].
  - apply groups_NoDup.
  - exact Hh.
  - apply face_slot, Hmd.
  - intros k v _ Hv. rewrite Forall_forall in Hmd. apply Hmd.
    unfold idx in Hv. destruct (k <? 0); [discriminate|].
    eapply nth_error_In, Hv.
  - destruct (fold_left _ _ _) as [[ps md] cs]. cbn [fst snd] in F1, F2.
    destruct cs; apply dice_broadcast; constructor; cbn; try exact F1;
      intros cfg' [= <-]; unfold fairPool; cbn.
    + apply filter_taken, F2.
    + exact F2.
Qed.

Lemma fair_cellWinner (pending : PendingActions) (cell_id : string) (bestBid : Z)
    (acc : list Player * list Cell) (pid : string) :
  Forall fairHand (fst acc) ->
  Forall fairHand (fst (cellWinner pending cell_id bestBid acc pid)).
Proof.
  destruct acc as [ps g]. cbn [fst]. intros H. unfold cellWinner.
  destruct (find_cell cell_id g) as [cell|]; [|exact H].
  destruct (find_player pid ps) as [player|]; [|exact H].
  destruct (declaredRole pending pid cell_id); [|exact H].
  destruct (money player <? bestBid); [exact H|].
  destruct (findIndex _ _ <? 0); [exact H|].
  cbn [fst]. apply Forall_update_first; [exact H|].
  intros x Hx _. apply fairHand_spendDie. exact Hx.
Qed.

Lemma auctionStep_dice (pending : PendingActions) (acc : AuctionAcc)
    (c : Conflict) :
  Forall fairHand (fst (fst acc)) /\ Forall poolSlot (snd acc) ->
  Forall fairHand (fst (fst (auctionStep pending acc c))) /\
  Forall poolSlot (snd (auctionStep pending acc c)).
Proof.
  destruct acc as [[ps g] md]. cbn [fst snd]. intros [Hps Hmd].
  unfold auctionStep. destruct c as [cid cell_id pids|cid dieIdx pids].
  - destruct (find_cell cell_id g); [|cbn; auto].
    match goal with
    | |- context [fold_left ?f ?l ?a] =>
        assert (Hf : Forall fairHand (fst (fold_left f l a)))
    end.
    { apply fold_left_invariant
        with (P := fun a : list Player * list Cell => Forall fairHand (fst a))
             (Q := fun _ : string => True).
      - exact Hps.
      - apply Forall_True.
      - intros x y Hx _. apply fair_cellWinner, Hx. }
    destruct (fold_left _ _ _) as [ps' g']. cbn [fst snd] in *. auto.
  - match goal with
    | |- context [match ?b with Some _ => _ | None => _ end] =>
        destruct b as [w|] end; [|cbn; auto].
    destruct (find_player w ps) as [player|]; [|cbn; auto].
    destruct (idx md dieIdx) as [die|] eqn:Hdie; [|cbn; auto].
    destruct (isTaken die) eqn:Htaken; cbn [negb andb]; [cbn; auto|].
    destruct (money player >=? _); [|cbn; auto].
    cbn [fst snd]. split.
    + apply Forall_update_first; [exact Hps|]. intros x Hx _.
      apply fairHand_awardDie; [exact Hx|].
      unfold idx in Hdie. destruct (dieIdx <? 0); [discriminate|].
      apply nth_error_In in Hdie. rewrite Forall_forall in Hmd.
      destruct (Hmd die Hdie) as [H|H]; [exact H|].
      unfold isTaken in Htaken. apply Z.eqb_neq in Htaken. contradiction.
    + apply Forall_set_idx; [right; reflexivity|exact Hmd].
Qed.

Lemma alarm_path_dice (e : Env) (s : Storage) (cfg : GameConfig) :
  Forall fairHand (players s) ->
  (forall l, marketDice cfg = Some l -> Forall face l) ->
  DiceOk (fst (alarm_path e s cfg)).
Proof.
  intros Hh Hmd. unfold alarm_path.
  pose proof (fair_dealHands (players s) (rng e) Hh) as Hd.
  destruct (dealHands _ _) as [ps g]. cbn [fst] in Hd.
  apply dice_broadcast. constructor; cbn; [exact Hd|].
  intros cfg' [= <-]. unfold fairPool. cbn.
  destruct (marketDice cfg) as [l|]; [apply Hmd; reflexivity|exact I].
Qed.

Lemma enterPathPhase_dice (e : Env) (s : Storage) (cfg : GameConfig)
    (md : option (list Z)) :
  Forall fairHand (players s) ->
  (forall l, md = Some l -> Forall face l) ->
  DiceOk (fst (enterPathPhase e s cfg md)).
Proof.
  intros Hh Hmd. unfold enterPathPhase. rewrite andThen_fst.
  apply dice_broadcast. destruct (_ && _).
  - apply alarm_path_dice; [exact Hh|]. cbn. exact Hmd.
  - constructor; cbn; [exact Hh|].
    intros cfg' [= <-]. unfold fairPool. cbn.
    destruct md as [l|]; [apply Hmd; reflexivity|exact I].
Qed.

Lemma fair_applyClaim (acc : list Player * list Cell) (act : Claim) :
  Forall fairHand (fst acc) -> Forall fairHand (fst (applyClaim acc act)).
Proof.
  destruct acc as [ps g]. cbn [fst]. intros H. unfold applyClaim.
  destruct (find_cell _ g); [|exact H]. cbn [fst].
  apply Forall_update_first; [exact H|]. intros x Hx _.
  apply fairHand_spendDie, Hx.
Qed.

Lemma pool_of_phase (cfg : GameConfig) :
  fairPool cfg -> phase cfg <> auction ->
  forall l, marketDice cfg = Some l -> Forall face l.
Proof.
  unfold fairPool. intros H Hp l Hl. rewrite Hl in H.
  destruct (phase cfg); try exact H. contradiction.
Qed.

Lemma alarm_dice (e : Env) (s : Storage) : DiceOk s -> DiceOk (fst (alarm e s)).
Proof.
  intros H. unfold alarm. destruct (config s) as [cfg|] eqn:Hc; [|exact H].
  pose proof (dice_pool H Hc) as Hpool.
  pose proof (dice_hands H) as Hh.
  destruct (phase cfg) eqn:Hp.
  - exact H.
  - (* round_start *)
    unfold alarm_round_start.
    destruct (randomDiceArray _ _) as [md g] eqn:Hmd.
    apply dice_broadcast. constructor; cbn.
    + apply (fold_left_invariant payRevenue (Forall fairHand) (fun _ => True)).
      * apply Forall_map. eapply Forall_impl; [|exact Hh]. intros p Hx. exact Hx.
      * apply Forall_True.
      * intros x y Hx _. apply fair_payRevenue, Hx.
    + intros cfg' [= <-]. unfold fairPool. cbn.
      pose proof (randomDiceArray_faces
                    (Z.to_nat (len (fold_left payRevenue (submittedPaths s)
                       (map (fun p => with_money (money p + 1) p) (players s))) - 1))
                    (rng e)) as Hf.
      rewrite Hmd in Hf. exact Hf.
  - apply alarm_market_dice; assumption.
  - (* buy_phase *)
    unfold alarm_buy.
    destruct (indexBuys _) as [roles byCell].
    destruct (fold_left _ byCell _) as [cs toApply].
    match goal with
    | |- context [fold_left applyClaim ?l ?a] =>
        assert (Hf : Forall fairHand (fst (fold_left applyClaim l a)))
    end.
    { apply fold_left_invariant
        with (P := fun a : list Player * list Cell => Forall fairHand (fst a))
             (Q := fun _ : Claim => True).
      - exact Hh.
      - apply Forall_True.
      - intros x y Hx _. apply fair_applyClaim, Hx. }
    destruct (fold_left applyClaim _ _) as [ps g]. cbn [fst] in Hf.
    assert (Hmd : forall l, marketDice cfg = Some l -> Forall face l).
    { apply pool_of_phase; [exact Hpool|]. rewrite Hp. discriminate. }
    destruct cs.
    + apply enterPathPhase_dice; [exact Hf|exact Hmd].
    + apply dice_broadcast. constructor; cbn; [exact Hf|].
      intros cfg' [= <-]. unfold fairPool. cbn.
      destruct (marketDice cfg) as [l|]; [|exact I].
      apply face_slot, Hmd. reflexivity.
  - (* path_phase *)
    apply alarm_path_dice; [exact Hh|].
    apply pool_of_phase; [exact Hpool|]. rewrite Hp. discriminate.
  - (* auction *)
    unfold alarm_auction.
    match goal with
    | |- context [fold_left (auctionStep ?pa) ?l ?a] =>
        assert (Hf : Forall fairHand (fst (fst (fold_left (auctionStep pa) l a))) /\
                     Forall poolSlot (snd (fold_left (auctionStep pa) l a)))
    end.
    { apply fold_left_invariant
        with (P := fun a : AuctionAcc =>
                     Forall fairHand (fst (fst a)) /\ Forall poolSlot (snd a))
             (Q := fun _ : Conflict => True).
      - cbn [fst snd]. split; [exact Hh|].
        unfold fairPool in Hpool. rewrite Hp in Hpool.
        destruct (marketDice cfg); [exact Hpool|constructor].
      - apply Forall_True.
      - intros x y Hx _. apply auctionStep_dice, Hx. }
    destruct (fold_left _ _ _) as [[ps g] md]. cbn [fst snd] in Hf.
    destruct Hf as [F1 F2].
    apply enterPathPhase_dice; [exact F1|].
    intros l [= <-]. apply filter_taken, F2.
  - (* round_end *)
    assert (Hmd : forall l, marketDice cfg = Some l -> Forall face l).
    { apply pool_of_phase; [exact Hpool|]. rewrite Hp. discriminate. }
    unfold alarm_round_end. destruct (_ >=? _).
    + destruct (players s) eqn:Hps.
      * constructor; cbn; [rewrite Hps; constructor|].
        intros cfg' [= <-]. unfold fairPool. cbn.
        destruct (marketDice cfg) as [l|]; [apply Hmd; reflexivity|exact I].
      * rewrite andThen_fst. cbn [fst].
        assert (Hb : DiceOk (fst (broadcastState e
                        (set_winnerId (Some (playerId
                           (fold_left (betterPlayer (grid s)) (p :: l) p)))
                           (set_config (Some
                             {| roundCount := roundCount cfg; phase := ended;
                                roundIndex := roundIndex cfg + 1;
                                marketDice := marketDice cfg;
                                marketMinPrice := marketMinPrice cfg;
                                phaseEndsAt := Some (now e + ROOM_CLEANUP_DELAY_MS) |})
                             s))))).
        { apply dice_broadcast. constructor; cbn; [rewrite Hps; exact Hh|].
          intros cfg' [= <-]. unfold fairPool. cbn.
          destruct (marketDice cfg) as [l0|]; [apply Hmd; reflexivity|exact I]. }
        destruct Hb as [B1 B2]. constructor; cbn; assumption.
    + destruct (randomDiceArray _ _) as [md g] eqn:Hr.
      apply dice_broadcast. constructor; cbn; [exact Hh|].
      intros cfg' [= <-]. unfold fairPool. cbn.
      pose proof (randomDiceArray_faces (Z.to_nat (len (players s) - 1)) (rng e)) as Hf.
      rewrite Hr in Hf. exact Hf.
  - (* ended *)
    destruct (deadlinePassed e cfg); [|exact H].
    constructor; cbn; [constructor|discriminate].
Qed.

Lemma dice_pending (s : Storage) (pa : PendingActions) :
  DiceOk s -> DiceOk (set_pending pa s).
Proof. intros [H1 H2]. constructor; assumption. Qed.

Lemma dice_paths (s : Storage) (sp : Rec SubmittedPath) :
  DiceOk s -> DiceOk (set_submittedPaths sp s).
Proof. intros [H1 H2]. constructor; assumption. Qed.

Ltac dice_same :=
  try unfold notJoined; rewrite ?andThen_fst; cbn [fst sendTo];
  repeat first [ assumption | apply dice_broadcast | apply dice_pending
               | apply dice_paths | apply alarm_dice ].

Lemma handleJoin_dice (e : Env) (ws : nat) (name : option string) (s : Storage) :
  DiceOk s -> DiceOk (fst (handleJoin e ws name s)).
Proof.
  intros H. unfold handleJoin. destruct (inPhase lobby s); [|exact H].
  pose proof (ensureColorsFrom_sameButColour [] (players s) (rng e)) as Hps.
  unfold ensurePlayerColors.
  destruct (ensureColorsFrom [] (players s) (rng e)) as [ps g1]. cbn [fst] in Hps.
  destruct (distinctPlayerColor _ _) as [c g2].
  rewrite andThen_fst. cbn [fst]. apply dice_broadcast.
  constructor; cbn; [|exact (dice_pool H)].
  apply Forall_app. split; [exact (fair_recoloured _ _ Hps (dice_hands H))|].
  constructor; [constructor|constructor].
Qed.

Lemma message_dice (e : Env) (ws : nat) (attached : option string) (m : Msg)
    (s : Storage) :
  DiceOk s -> DiceOk (fst (webSocketMessage e ws attached m s)).
Proof.
  intros H. destruct m; cbn [webSocketMessage].
  - rewrite andThen_fst. apply dice_broadcast. unfold maybeAdvanceTimedPhase.
    destruct (config s) as [cfg|]; [|exact H].
    destruct (_ && _); [apply alarm_dice, H|exact H].
  - apply handleJoin_dice, H.
  - unfold handleRejoin. destruct (existsb _ _); [dice_same|].
    destruct (inPhase lobby s); [apply handleJoin_dice, H|dice_same].
  - (* start_game *)
    unfold handleStartGame. destruct (ensurePlayerColors _ _) as [ps g1].
    destruct (config s) as [cfg|]; [|exact H].
    destruct (_ || _); [exact H|].
    destruct (generateGrid _ _ _) as [grid' g2].
    destruct (randomDiceArray _ g2) as [md g3] eqn:Hmd.
    pose proof (fair_dealStart ps g3) as Hd.
    destruct (dealStart ps g3) as [ps' g4]. cbn [fst] in Hd.
    apply dice_broadcast. constructor; cbn; [exact Hd|].
    intros cfg' [= <-]. unfold fairPool. cbn.
    pose proof (randomDiceArray_faces (Z.to_nat (len ps - 1)) g2) as Hf.
    rewrite Hmd in Hf. exact Hf.
  - unfold handleBuyCell. destruct (joinedAs attached) as [pid|]; [|dice_same].
    destruct (negb _); [dice_same|].
    destruct (find_cell _ _) as [cell|]; [|dice_same].
    destruct (find_player _ _) as [player|]; [|dice_same].
    destruct (_ || _); [dice_same|].
    destruct (negb _); dice_same.
  - unfold handleBuyCellCancel.
    destruct (joinedAs attached) as [pid|]; [|dice_same].
    destruct (negb _); dice_same.
  - unfold handleBuyDone. destruct (joinedAs attached) as [pid|]; [|dice_same].
    destruct (negb _); [dice_same|].
    destruct (everyoneIn _ _); dice_same.
  - unfold handleAuctionBid.
    destruct (joinedAs attached) as [pid|]; [|dice_same].
    destruct (negb _); [dice_same|].
    destruct (find _ _); dice_same.
  - unfold handlePath. destruct (joinedAs attached) as [pid|]; [|dice_same].
    destruct (negb _); [dice_same|].
    destruct (find_cell producer_id _) as [pc|]; [|dice_same].
    destruct (find_cell seller_id _) as [sc|]; [|dice_same].
    destruct (negb _); [dice_same|]. destruct (negb _); [dice_same|].
    destruct p as [|first [|second rest]]; try dice_same.
    destruct (_ || _); [dice_same|].
    destruct (checkPath _ _); dice_same.
  - unfold handlePathDone. destruct (joinedAs attached) as [pid|]; [|dice_same].
    destruct (negb _); [dice_same|].
    destruct (everyoneIn _ _); dice_same.
  - unfold handleMarketBid. destruct (joinedAs attached) as [pid|]; [|dice_same].
    destruct (config s) as [cfg|] eqn:Hc; [|dice_same].
    destruct (negb _); [dice_same|].
    destruct (_ || _); [dice_same|]. destruct (amt <? _); [dice_same|].
    destruct (everyoneIn _ _); dice_same.
  - unfold handleMarketSkip. destruct (joinedAs attached) as [pid|]; [|dice_same].
    destruct (negb _); [dice_same|].
    destruct (everyoneIn _ _); dice_same.
  - unfold handleMarketRecycle.
    destruct (joinedAs attached) as [pid|]; [|dice_same].
    destruct (negb _); [dice_same|].
    destruct (find_player _ _) as [player|]; [|dice_same].
    destruct (_ || _); [dice_same|].
    apply dice_broadcast. constructor; cbn; [|exact (dice_pool H)].
    apply Forall_update_first; [exact (dice_hands H)|].
    intros x Hx _. unfold fairHand. cbn. apply Forall_splice1, Hx.
  - dice_same.
Qed.

(** The dice invariant of the rooms reached through the typed messages
    of [Msg]: hands and pool hold faces only, the pool also the mark -1
    during an auction. *)
Lemma dice_invariant (s : Storage) : reachable s -> DiceOk s.
Proof.
  intros H. induction H as [rounds|e s ev H IH].
  - constructor; cbn; [constructor|].
    intros cfg [= <-]. exact I.
  - destruct ev as [ws attached m| |]; cbn [step].
    + apply message_dice, IH.
    + apply alarm_dice, IH.
    + apply dice_broadcast, IH.
Qed.

(** X24.  The market pool holds dice faces only: in every reachable room
    each entry of [marketDice] is a number from 1 to 6, except that during
    an auction an entry may be the mark -1 that stands in the place of a
    die already handed out.  (The pool is filled by [randomDiceArray] and
    only ever changed by writing that mark and by dropping marked
    entries.) *)
Theorem market_pool_faces (s : Storage) (cfg : GameConfig) (md : list Z) :
  reachable s -> config s = Some cfg -> marketDice cfg = Some md ->
  Forall (fun v => 1 <= v <= 6 \/ (phase cfg = auction /\ v = -1)) md.
Proof.
  intros Hr Hc Hmd. pose proof (dice_pool (dice_invariant s Hr) Hc) as Hp.
  unfold fairPool in Hp. rewrite Hmd in Hp.
  destruct (phase cfg) eqn:Hph;
    try (eapply Forall_impl; [|exact Hp]; intros v Hv; left; exact Hv).
  eapply Forall_impl; [|exact Hp]. intros v [Hv|Hv]; [left; exact Hv|].
  right. split; [reflexivity|exact Hv].
Qed.

Lemma market_pool_faces_witness :
  Forall (fun v => 1 <= v <= 6 \/ (buy_phase = auction /\ v = -1)) [5].
Proof.
  apply (market_pool_faces buyRoom
           {| roundCount := 3; phase := buy_phase; roundIndex := 0;
              marketDice := Some [5]; marketMinPrice := Some 1;
              phaseEndsAt := Some 95000 |}).
  - exact buyRoom_reachable.
  - vm_compute. reflexivity.
  - reflexivity.
Defined.

(* ================================================================== *)
(** * The pending actions stay in step with the phase *)

Lemma rget_rdel {V : Type} (k k' : string) (d : Rec V) :
  rget k (rdel k' d) = if String.eqb k' k then None else rget k d.
Proof.
  unfold rget, rdel, ddel. induction d as [|[k0 v0] t IH]; cbn.
  - now destruct (String.eqb k' k).
  - destruct (String.eqb k0 k') eqn:E0; cbn.
    + apply String.eqb_eq in E0. subst k0. rewrite IH.
      now destruct (String.eqb k' k).
    + destruct (String.eqb k0 k) eqn:E1; [|exact IH].
      apply String.eqb_eq in E1. subst k0.
      rewrite String.eqb_sym in E0. now rewrite E0.
Qed.

Lemma buffers_same (s s' : Storage) :
  pendingActions s' = pendingActions s -> config s' = config s ->
  BuffersOk s -> BuffersOk s'.
Proof.
  intros Hp Hc [B1 B2 B3 B4 B5 B6]. unfold phaseOf in *.
  constructor; unfold phaseOf; rewrite ?Hp, ?Hc; assumption.
Qed.

Lemma buffers_broadcast (e : Env) (s : Storage) :
  BuffersOk s -> BuffersOk (fst (broadcastState e s)).
Proof.
  apply buffers_same; [apply broadcast_pending|apply broadcast_config].
Qed.

Lemma buffers_empty (s : Storage) :
  market (pendingActions s) = [] -> marketSkip (pendingActions s) = [] ->
  buy (pendingActions s) = [] -> buyDone (pendingActions s) = [] ->
  conflicts (pendingActions s) = [] -> auctionBids (pendingActions s) = [] ->
  BuffersOk s.
Proof.
  intros H1 H2 H3 H4 H5 H6. constructor; rewrite ?H1, ?H2, ?H3, ?H4, ?H5, ?H6;
    auto; try discriminate.
Qed.

(** The six buffers of a room outside the market phase, the buy phase and
    the auction are empty. *)
Lemma buffers_idle (s : Storage) :
  BuffersOk s -> phaseOf s <> Some market_phase -> phaseOf s <> Some buy_phase ->
  phaseOf s <> Some auction ->
  market (pendingActions s) = [] /\ marketSkip (pendingActions s) = [] /\
  buy (pendingActions s) = [] /\ buyDone (pendingActions s) = [] /\
  conflicts (pendingActions s) = [] /\ auctionBids (pendingActions s) = [].
Proof.
  intros B Hm Hb Ha.
  destruct (buf_market B Hm Ha) as [-> ->].
  destruct (buf_buy B Hb Ha) as [-> ->].
  destruct (buf_auction B Ha) as [-> ->]. auto 10.
Qed.

(** Entering the auction: the conflicts are stored and the auction bids
    start empty; the other buffers are kept. *)
Lemma buffers_auction (s s' : Storage) (cs : list Conflict) :
  BuffersOk s ->
  pendingActions s' = set_auctionBids [] (set_conflicts cs (pendingActions s)) ->
  phaseOf s' = Some auction -> BuffersOk s'.
Proof.
  intros B Hp Ha. constructor; rewrite ?Hp, ?Ha; cbn; try congruence.
  - exact (buf_exclusive B).
  - intros cfg pid act Hc Hph. unfold phaseOf in Ha. rewrite Hc in Ha.
    cbn in Ha. congruence.
Qed.

Lemma enterPathPhase_buffers (e : Env) (s : Storage) (cfg : GameConfig)
    (md : option (list Z)) :
  BuffersOk (fst (enterPathPhase e s cfg md)).
Proof.
  unfold enterPathPhase. rewrite andThen_fst. apply buffers_broadcast.
  destruct (_ && _).
  - unfold alarm_path. destruct (dealHands _ _) as [ps g].
    apply buffers_broadcast, buffers_empty; reflexivity.
  - apply buffers_empty; reflexivity.
Qed.

Ltac idle_room B Hph :=
  let I1 := fresh in let I2 := fresh in let I3 := fresh in
  let I4 := fresh in let I5 := fresh in let I6 := fresh in
  destruct (buffers_idle _ B) as (I1 & I2 & I3 & I4 & I5 & I6);
  [rewrite Hph; discriminate ..|];
  try apply buffers_broadcast; apply buffers_empty; cbn; assumption.

Lemma alarm_buffers (e : Env) (s : Storage) :
  BuffersOk s -> BuffersOk (fst (alarm e s)).
Proof.
  intros B. unfold alarm. destruct (config s) as [cfg|] eqn:Hc; [|exact B].
  destruct (phase cfg) eqn:Hp;
    assert (Hph : phaseOf s = Some (phase cfg))
      by (unfold phaseOf; rewrite Hc; reflexivity);
    rewrite Hp in Hph.
  - exact B.
  - unfold alarm_round_start. destruct (randomDiceArray _ _) as [md g].
    idle_room B Hph.
  - unfold alarm_market. destruct (fold_left _ _ _) as [[ps md] cs].
    destruct cs.
    + apply buffers_broadcast, buffers_empty; reflexivity.
    + apply buffers_broadcast.
      eapply buffers_auction; [exact B|reflexivity|reflexivity].
  - unfold alarm_buy.
    destruct (indexBuys _) as [roles byCell].
    destruct (fold_left _ byCell _) as [cs toApply].
    destruct (fold_left applyClaim _ _) as [ps g].
    destruct cs.
    + apply enterPathPhase_buffers.
    + apply buffers_broadcast.
      eapply buffers_auction; [exact B|reflexivity|reflexivity].
  - unfold alarm_path. destruct (dealHands _ _) as [ps g]. idle_room B Hph.
  - unfold alarm_auction. destruct (fold_left _ _ _) as [[ps g] md].
    apply enterPathPhase_buffers.
  - unfold alarm_round_end. destruct (_ >=? _).
    + destruct (players s).
      * idle_room B Hph.
      * rewrite andThen_fst. cbn [fst].
        destruct (buffers_idle _ B) as (I1 & I2 & I3 & I4 & I5 & I6);
          [rewrite Hph; discriminate ..|].
        apply buffers_empty; cbn [pendingActions setAlarm];
          rewrite broadcast_pending; cbn; assumption.
    + destruct (randomDiceArray _ _) as [md g]. idle_room B Hph.
  - destruct (deadlinePassed e cfg); [|exact B].
    apply buffers_empty; reflexivity.
Qed.

Lemma inPhase_phaseOf (ph : GamePhase) (s : Storage) :
  inPhase ph s = true -> phaseOf s = Some ph.
Proof.
  unfold inPhase, phaseOf. destruct (config s) as [cfg|]; [|discriminate].
  cbn. destruct (phase cfg), ph; now try discriminate.
Qed.

Lemma buffers_pathReady (s : Storage) (ready : Rec unit) :
  BuffersOk s ->
  BuffersOk (set_pending (set_pathReady ready (pendingActions s)) s).
Proof. intros [B1 B2 B3 B4 B5 B6]. constructor; assumption. Qed.

Lemma buffers_paths (s : Storage) (sp : Rec SubmittedPath) :
  BuffersOk s -> BuffersOk (set_submittedPaths sp s).
Proof. intros [B1 B2 B3 B4 B5 B6]. constructor; assumption. Qed.

Lemma buffers_players (s : Storage) (ps : list Player) :
  BuffersOk s -> BuffersOk (set_players ps s).
Proof. intros [B1 B2 B3 B4 B5 B6]. constructor; assumption. Qed.

(** In the buy phase the queue and the done marks may change freely. *)
Lemma buffers_buy (s : Storage) (b : Rec (list BuyAct)) (done : Rec unit) :
  inPhase buy_phase s = true -> BuffersOk s ->
  BuffersOk (set_pending (set_buyDone done (set_buy b (pendingActions s))) s).
Proof.
  intros Hph [B1 B2 B3 B4 B5 B6]. apply inPhase_phaseOf in Hph.
  constructor; cbn; try assumption.
  intros H. exfalso. apply H. exact Hph.
Qed.

Lemma buffers_market_bid (s : Storage) (cfg : GameConfig) (pid : string)
    (act : MarketAct) :
  config s = Some cfg -> phase cfg = market_phase -> validBid cfg act ->
  BuffersOk s ->
  BuffersOk
    (set_pending
       (set_marketSkip (rdel pid (marketSkip (pendingActions s)))
          (set_market (rset pid act (market (pendingActions s)))
                      (pendingActions s))) s).
Proof.
  intros Hc Hp Hv [B1 B2 B3 B4 B5 B6].
  assert (Hph : phaseOf s = Some market_phase)
    by (unfold phaseOf; rewrite Hc; cbn; now rewrite Hp).
  constructor; cbn; unfold phaseOf; cbn; fold (phaseOf s);
    try assumption; try congruence.
  - intros pid' H. fold (rget pid' (rdel pid (marketSkip (pendingActions s)))).
    rewrite rget_rdel. destruct (String.eqb_spec pid pid') as [E|E]; [reflexivity|].
    apply B1. fold (rget pid' (rset pid act (market (pendingActions s)))) in H.
    now rewrite rget_rset_other in H.
  - intros cfg' pid' act' Hc' _ Hget. rewrite Hc in Hc'. injection Hc' as <-.
    fold (rget pid' (rset pid act (market (pendingActions s)))) in Hget.
    destruct (String.eqb_spec pid pid') as [E|E].
    + subst pid'. rewrite rget_rset_same in Hget. now injection Hget as <-.
    + rewrite rget_rset_other in Hget by exact E. eapply B3; eauto.
Qed.

Lemma buffers_market_skip (s : Storage) (pid : string) :
  inPhase market_phase s = true -> BuffersOk s ->
  BuffersOk
    (set_pending
       (set_marketSkip (rset pid tt (marketSkip (pendingActions s)))
          (set_market (rdel pid (market (pendingActions s)))
                      (pendingActions s))) s).
Proof.
  intros Hph [B1 B2 B3 B4 B5 B6]. apply inPhase_phaseOf in Hph.
  constructor; cbn; unfold phaseOf; cbn; fold (phaseOf s);
    try assumption; try congruence.
  - intros pid' H. fold (rget pid' (rdel pid (market (pendingActions s)))) in H.
    rewrite rget_rdel in H.
    fold (rget pid' (rset pid tt (marketSkip (pendingActions s)))).
    destruct (String.eqb_spec pid pid') as [E|E]; [congruence|].
    rewrite rget_rset_other by exact E. apply B1, H.
  - intros cfg' pid' act' Hc' Hp' Hget.
    fold (rget pid' (rdel pid (market (pendingActions s)))) in Hget.
    rewrite rget_rdel in Hget.
    destruct (String.eqb pid pid'); [discriminate|]. eapply B3; eauto.
Qed.

Lemma buffers_auction_bid (s : Storage) (c : Conflict) (cid pid : string)
    (amt : Z) :
  inPhase auction s = true ->
  In c (conflicts (pendingActions s)) -> conflictId c = cid ->
  In pid (playerIds c) -> BuffersOk s ->
  BuffersOk
    (set_pending
       (set_auctionBids
          (rset cid (rset pid (Z.max 0 amt)
                       (orElse (rget cid (auctionBids (pendingActions s))) []))
                (auctionBids (pendingActions s)))
          (pendingActions s)) s).
Proof.
  intros Hph Hin Hcid Hpid [B1 B2 B3 B4 B5 B6]. apply inPhase_phaseOf in Hph.
  constructor; cbn; unfold phaseOf; cbn; fold (phaseOf s);
    try assumption; try congruence.
  intros cid' bids pid' amt' Hb Hp.
  match type of Hb with dget _ _ ?d = _ => change (rget cid' d = Some bids) in Hb end.
  destruct (String.eqb_spec cid cid') as [E|E].
  - subst cid'. rewrite rget_rset_same in Hb. injection Hb as <-.
    destruct (String.eqb_spec pid pid') as [E'|E'].
    + subst pid'. rewrite rget_rset_same in Hp. injection Hp as <-.
      split; [lia|]. exists c. auto.
    + rewrite rget_rset_other in Hp by exact E'.
      destruct (rget cid (auctionBids (pendingActions s))) as [old|] eqn:Hold;
        cbn [orElse] in Hp; [|discriminate].
      eapply B2; eauto.
  - rewrite rget_rset_other in Hb by exact E. eapply B2; eauto.
Qed.

Lemma negb_inPhase (ph : GamePhase) (s : Storage) :
  negb (inPhase ph s) = false -> inPhase ph s = true.
Proof. now destruct (inPhase ph s). Qed.

Ltac buffers_same_tac B :=
  try unfold notJoined; rewrite ?andThen_fst; cbn [fst sendTo];
  repeat first [ exact B | apply buffers_broadcast | apply buffers_paths
               | apply buffers_pathReady | apply buffers_players ].

Lemma message_buffers (e : Env) (ws : nat) (attached : option string) (m : Msg)
    (s : Storage) :
  BuffersOk s -> BuffersOk (fst (webSocketMessage e ws attached m s)).
Proof.
  intros B. destruct m; cbn [webSocketMessage].
  - rewrite andThen_fst. apply buffers_broadcast. unfold maybeAdvanceTimedPhase.
    destruct (config s) as [cfg|]; [|exact B].
    destruct (_ && _); [apply alarm_buffers, B|exact B].
  - unfold handleJoin. destruct (inPhase lobby s); [|exact B].
    destruct (ensurePlayerColors _ _) as [ps g1].
    destruct (distinctPlayerColor _ _) as [c g2]. buffers_same_tac B.
  - unfold handleRejoin. destruct (existsb _ _); [buffers_same_tac B|].
    destruct (inPhase lobby s); [|buffers_same_tac B].
    unfold handleJoin. destruct (inPhase lobby s); [|exact B].
    destruct (ensurePlayerColors _ _) as [ps g1].
    destruct (distinctPlayerColor _ _) as [c g2]. buffers_same_tac B.
  - unfold handleStartGame. destruct (ensurePlayerColors _ _) as [ps g1].
    destruct (config s) as [cfg|]; [|exact B].
    destruct (_ || _); [exact B|].
    destruct (generateGrid _ _ _) as [grid' g2].
    destruct (randomDiceArray _ g2) as [md g3].
    destruct (dealStart ps g3) as [ps' g4].
    apply buffers_broadcast, buffers_empty; reflexivity.
  - unfold handleBuyCell.
    destruct (joinedAs attached) as [pid|]; [|buffers_same_tac B].
    destruct (negb (inPhase buy_phase s)) eqn:Hph; [buffers_same_tac B|].
    apply negb_inPhase in Hph.
    destruct (find_cell _ _) as [cell|]; [|buffers_same_tac B].
    destruct (find_player _ _) as [player|]; [|buffers_same_tac B].
    destruct (_ || _); [buffers_same_tac B|].
    destruct (negb _); [buffers_same_tac B|].
    apply buffers_broadcast, buffers_buy; assumption.
  - unfold handleBuyCellCancel.
    destruct (joinedAs attached) as [pid|]; [|buffers_same_tac B].
    destruct (negb (inPhase buy_phase s)) eqn:Hph; [buffers_same_tac B|].
    apply negb_inPhase in Hph.
    apply buffers_broadcast, buffers_buy; assumption.
  - unfold handleBuyDone.
    destruct (joinedAs attached) as [pid|]; [|buffers_same_tac B].
    destruct (negb (inPhase buy_phase s)) eqn:Hph; [buffers_same_tac B|].
    apply negb_inPhase in Hph.
    assert (B' : BuffersOk
              (set_pending (set_buyDone (rset pid tt (buyDone (pendingActions s)))
                              (pendingActions s)) s)).
    { exact (buffers_buy s (buy (pendingActions s))
               (rset pid tt (buyDone (pendingActions s))) Hph B). }
    destruct (everyoneIn _ _); [apply alarm_buffers|apply buffers_broadcast];
      exact B'.
  - unfold handleAuctionBid.
    destruct (joinedAs attached) as [pid|]; [|buffers_same_tac B].
    destruct (negb (inPhase auction s)) eqn:Hph; [buffers_same_tac B|].
    apply negb_inPhase in Hph.
    destruct (find _ _) as [c|] eqn:Hfind; [|buffers_same_tac B].
    apply find_some in Hfind. destruct Hfind as [Hin Hc].
    apply andb_true_iff in Hc. destruct Hc as [Hcid Hpid].
    apply String.eqb_eq in Hcid. apply existsb_exists in Hpid.
    destruct Hpid as (x & Hx & E). apply String.eqb_eq in E. subst x.
    apply buffers_broadcast. eapply buffers_auction_bid; eauto.
  - unfold handlePath.
    destruct (joinedAs attached) as [pid|]; [|buffers_same_tac B].
    destruct (negb _); [buffers_same_tac B|].
    destruct (find_cell producer_id _) as [pc|]; [|buffers_same_tac B].
    destruct (find_cell seller_id _) as [sc|]; [|buffers_same_tac B].
    destruct (negb _); [buffers_same_tac B|].
    destruct (negb _); [buffers_same_tac B|].
    destruct p as [|first [|second rest]]; try buffers_same_tac B.
    destruct (_ || _); [buffers_same_tac B|].
    destruct (checkPath _ _); buffers_same_tac B.
  - unfold handlePathDone.
    destruct (joinedAs attached) as [pid|]; [|buffers_same_tac B].
    destruct (negb _); [buffers_same_tac B|].
    destruct (everyoneIn _ _);
      [apply alarm_buffers|apply buffers_broadcast]; apply buffers_pathReady, B.
  - unfold handleMarketBid.
    destruct (joinedAs attached) as [pid|]; [|buffers_same_tac B].
    destruct (config s) as [cfg|] eqn:Hc; [|buffers_same_tac B].
    destruct (phase_eqb (phase cfg) market_phase) eqn:Hp; cbn [negb];
      [|buffers_same_tac B].
    destruct ((die <? 0) || (die >=? len (orElse (marketDice cfg) []))) eqn:Hr;
      [buffers_same_tac B|].
    destruct (amt <? orElse (marketMinPrice cfg) MARKET_MIN_PRICE) eqn:Ha;
      [buffers_same_tac B|].
    assert (B' : BuffersOk
              (set_pending
                 (set_marketSkip (rdel pid (marketSkip (pendingActions s)))
                    (set_market (rset pid {| dieIndex := die; amount := amt |}
                                      (market (pendingActions s)))
                                (pendingActions s))) s)).
    { apply (buffers_market_bid s cfg); try assumption.
      - destruct (phase cfg); now try discriminate.
      - apply orb_false_iff in Hr. unfold validBid. cbn. lia. }
    destruct (everyoneIn _ _); [apply alarm_buffers|apply buffers_broadcast];
      exact B'.
  - unfold handleMarketSkip.
    destruct (joinedAs attached) as [pid|]; [|buffers_same_tac B].
    destruct (negb (inPhase market_phase s)) eqn:Hph; [buffers_same_tac B|].
    apply negb_inPhase in Hph.
    pose proof (buffers_market_skip s pid Hph B) as B'.
    destruct (everyoneIn _ _); [apply alarm_buffers|apply buffers_broadcast];
      exact B'.
  - unfold handleMarketRecycle.
    destruct (joinedAs attached) as [pid|]; [|buffers_same_tac B].
    destruct (negb _); [buffers_same_tac B|].
    destruct (find_player _ _) as [player|]; [|buffers_same_tac B].
    destruct (_ || _); buffers_same_tac B.
  - buffers_same_tac B.
Qed.

(** The buffer invariant of the rooms reached through the typed messages
    of [Msg]. *)
Lemma buffers_invariant (s : Storage) : reachable s -> BuffersOk s.
Proof.
  intros H. induction H as [rounds|e s ev H IH].
  - apply buffers_empty; reflexivity.
  - destruct ev as [ws attached m| |]; cbn [step].
    + apply message_buffers, IH.
    + apply alarm_buffers, IH.
    + apply buffers_broadcast, IH.
Qed.

(** X25.  In every reachable room the pending actions are in step with the
    phase: nobody has both a market bid and a skip on record; every auction
    bid on record comes from a contender of the conflict it is filed
    under; bids and skips exist only in the market phase and the auction,
    queued buys and done marks only in the buy phase and the auction,
    conflicts and auction bids only in the auction. *)
Theorem buffers_in_step (s : Storage) :
  reachable s ->
  let pending := pendingActions s in
  (forall pid, rget pid (market pending) <> None ->
     rget pid (marketSkip pending) = None) /\
  (forall cid bids pid amt,
     rget cid (auctionBids pending) = Some bids -> rget pid bids = Some amt ->
     contender (conflicts pending) cid pid) /\
  (phaseOf s <> Some market_phase -> phaseOf s <> Some auction ->
     market pending = [] /\ marketSkip pending = []) /\
  (phaseOf s <> Some buy_phase -> phaseOf s <> Some auction ->
     buy pending = [] /\ buyDone pending = []) /\
  (phaseOf s <> Some auction ->
     conflicts pending = [] /\ auctionBids pending = []).
Proof.
  intros Hr pending. pose proof (buffers_invariant s Hr) as B.
  split; [exact (buf_exclusive B)|].
  split; [intros cid bids pid amt Hc Hp; exact (proj2 (buf_bids B _ _ Hc Hp))|].
  split; [exact (buf_market B)|]. split; [exact (buf_buy B)|exact (buf_auction B)].
Qed.

Lemma buffers_in_step_witness :
  rget "aaaaaaaa" (marketSkip (pendingActions overbidRoom)) = None /\
  buy (pendingActions overbidRoom) = [] /\
  conflicts (pendingActions overbidRoom) = [].
Proof.
  pose proof (buffers_in_step overbidRoom
                (reachable_run _ _ startedRoom_reachable)) as H.
  cbv zeta in H. destruct H as (Hx & _ & _ & Hb & Ha).
  split; [apply Hx; vm_compute; discriminate|].
  split; [apply Hb; vm_compute; discriminate|apply Ha; vm_compute; discriminate].
Defined.

(* ================================================================== *)
(** * The state object sent to a socket *)

Lemma rget_rset {V : Type} (k k' : string) (v : V) (d : Rec V) :
  rget k' (rset k v d) = if String.eqb k k' then Some v else rget k' d.
Proof.
  destruct (String.eqb_spec k k') as [<-|E].
  - apply rget_rset_same.
  - apply rget_rset_other, E.
Qed.

Lemma markAll_get (pid : string) (keys : list string) (status : Rec bool) :
  rget pid (markAll keys status) =
  if existsb (String.eqb pid) keys then Some true else rget pid status.
Proof.
  unfold markAll. revert status.
  induction keys as [|k keys IH]; intros status; cbn [fold_left existsb];
    [reflexivity|].
  rewrite IH, rget_rset, (String.eqb_sym pid k).
  destruct (existsb (String.eqb pid) keys); [now rewrite orb_true_r|].
  rewrite orb_false_r. reflexivity.
Qed.

Lemma base_get (pid : string) (ps : list Player) (init : Rec bool) :
  rget pid (fold_left (fun m p => rset (playerId p) false m) ps init) =
  if existsb (is_player pid) ps then Some false else rget pid init.
Proof.
  revert init. induction ps as [|p ps IH]; intros init; cbn [fold_left existsb];
    [reflexivity|].
  rewrite IH, rget_rset. unfold is_player at 2.
  destruct (existsb (is_player pid) ps); [now rewrite orb_true_r|].
  rewrite orb_false_r. reflexivity.
Qed.

Lemma auction_marks_get (pid : string) (bids : Rec (Rec Z)) (status : Rec bool) :
  rget pid (fold_left (fun m byPlayer => markAll (dkeys (snd byPlayer)) m)
                      bids status) =
  if existsb (fun byPlayer => hasKey pid (snd byPlayer)) bids
  then Some true else rget pid status.
Proof.
  revert status. induction bids as [|b bids IH]; intros status;
    cbn [fold_left existsb]; [reflexivity|].
  rewrite IH, markAll_get. unfold hasKey at 2.
  destruct (existsb (fun byPlayer => hasKey pid (snd byPlayer)) bids);
    [now rewrite orb_true_r|].
  rewrite orb_false_r. reflexivity.
Qed.

Lemma recoloured_ids (pid : string) (ps ps' : list Player) :
  Forall2 sameButColour ps ps' ->
  existsb (is_player pid) ps' = existsb (is_player pid) ps.
Proof.
  intros H. induction H as [|p p' t t' Hp Ht IH]; [reflexivity|].
  cbn [existsb]. rewrite IH. unfold is_player.
  destruct Hp as (-> & _). reflexivity.
Qed.

(** X26.  The selection status a socket is sent tells, for every id,
    whether that player has made the move the phase waits for: [true] for
    an id with a done mark (buy phase), a bid or a skip (market phase), a
    bid in some conflict (auction) or a ready mark (path phase); [false]
    for the id of any other player; no entry for any other id. *)
Theorem selection_status (e : Env) (s : Storage) (attached : option string)
    (pid : string) :
  rget pid (st_selectionStatus (stateFor e s attached)) =
  if acted s pid then Some true
  else if existsb (is_player pid) (players s) then Some false else None.
Proof.
  cbn [stateFor st_selectionStatus]. unfold selectionStatus, acted.
  assert (Hids : existsb (is_player pid)
                   (fst (ensurePlayerColors (players s) (paint e)))
                 = existsb (is_player pid) (players s)).
  { apply recoloured_ids, ensureColorsFrom_sameButColour. }
  destruct (phaseOf s) as [[]|];
    rewrite ?markAll_get, ?auction_marks_get, base_get, Hids;
    unfold hasKey; cbn [rget dget];
    repeat match goal with
           | |- context [existsb ?f ?l] =>
               lazymatch l with
               | players s => fail
               | _ => destruct (existsb f l)
               end
           end; reflexivity.
Qed.

Lemma veilRec_keys {V : Type} (me : option string) (blank : V) (d : Rec V) :
  dkeys (veilRec me blank d) = dkeys d.
Proof. unfold dkeys, veilRec. rewrite map_map. reflexivity. Qed.

Lemma veilRec_get {V : Type} (pid : string) (blank : V) (d : Rec V) :
  rget pid (veilRec (Some pid) blank d) = rget pid d.
Proof.
  unfold rget, veilRec. induction d as [|[k v] t IH]; cbn; [reflexivity|].
  rewrite (String.eqb_sym pid k).
  destruct (String.eqb k pid); [reflexivity|exact IH].
Qed.

Lemma filter_mine_get {V : Type} (pid : string) (d : Rec V) :
  rget pid (filter (fun entry => isMe (Some pid) (fst entry)) d) = rget pid d.
Proof.
  unfold rget. induction d as [|[k v] t IH]; cbn; [reflexivity|].
  rewrite (String.eqb_sym pid k).
  destruct (String.eqb k pid) eqn:E; cbn; [now rewrite E|exact IH].
Qed.

Lemma myAuctionBids_veil (pid : string) (bids : Rec (Rec Z)) (init : Rec Z) :
  fold_left
    (fun m entry =>
       match rget pid (snd entry) with
       | Some amt => rset (fst entry) amt m
       | None => m
       end)
    (map (fun entry => (fst entry, veilRec (Some pid) 0 (snd entry))) bids) init
  = fold_left
      (fun m entry =>
         match rget pid (snd entry) with
         | Some amt => rset (fst entry) amt m
         | None => m
         end)
      bids init.
Proof.
  revert init. induction bids as [|[cid byPlayer] t IH]; intros init;
    cbn [map fold_left fst snd]; [reflexivity|].
  rewrite veilRec_get. apply IH.
Qed.

Lemma auction_marks_veil (me : option string) (bids : Rec (Rec Z))
    (status : Rec bool) :
  fold_left (fun m byPlayer => markAll (dkeys (snd byPlayer)) m)
    (map (fun entry => (fst entry, veilRec me 0 (snd entry))) bids) status
  = fold_left (fun m byPlayer => markAll (dkeys (snd byPlayer)) m) bids status.
Proof.
  revert status. induction bids as [|[cid byPlayer] t IH]; intros status;
    cbn [map fold_left fst snd]; [reflexivity|].
  rewrite veilRec_keys. apply IH.
Qed.

Lemma stateFor_veil (e : Env) (s : Storage) (attached : option string) :
  stateFor e (veil (joinedAs attached) s) attached = stateFor e s attached.
Proof.
  unfold stateFor.
  assert (Hsel : forall ps,
            selectionStatus (veil (joinedAs attached) s) ps = selectionStatus s ps).
  { intros ps. unfold selectionStatus, veil, phaseOf.
    cbn [config set_submittedPaths set_pending pendingActions buyDone pathReady
         market marketSkip auctionBids set_auctionBids set_market].
    rewrite veilRec_keys, auction_marks_veil. reflexivity. }
  rewrite Hsel. unfold veil at 1 2 3 4 5 6.
  cbn [config grid players winnerId set_submittedPaths set_pending
       pendingActions buy set_auctionBids set_market].
  f_equal.
  - unfold veil. destruct (joinedAs attached) as [pid|]; [|reflexivity].
    cbn [pendingActions set_submittedPaths set_pending market set_auctionBids
         set_market].
    apply veilRec_get.
  - unfold veil. destruct (joinedAs attached) as [pid|]; [|reflexivity].
    cbn [pendingActions set_submittedPaths set_pending auctionBids
         set_auctionBids set_market].
    apply myAuctionBids_veil.
  - unfold veil. destruct (joinedAs attached) as [pid|]; [|reflexivity].
    cbn [submittedPaths set_submittedPaths]. apply filter_mine_get.
Qed.

(** X27.  What a socket is sent does not depend on what the other players
    bid or routed: two rooms that differ only in the market bids of other
    players (the die and the amount of each), in the amounts of their
    auction bids and in their submitted paths are sent as the same state
    object to that socket. *)
Theorem state_hides_other_bids (e : Env) (s1 s2 : Storage)
    (attached : option string) :
  veil (joinedAs attached) s1 = veil (joinedAs attached) s2 ->
  stateFor e s1 attached = stateFor e s2 attached.
Proof.
  intros H. rewrite <- (stateFor_veil e s1), <- (stateFor_veil e s2), H.
  reflexivity.
Qed.

Lemma state_hides_other_bids_witness :
  stateFor (demoEnv 6 "") overbidRoom bob = stateFor (demoEnv 6 "") modestBidRoom bob.
Proof.
  apply (state_hides_other_bids (demoEnv 6 "") overbidRoom modestBidRoom bob).
  vm_compute. reflexivity.
Defined.

(* ================================================================== *)
(** * The lobby *)

Lemma existsb_str_In (n : string) (l : list string) :
  existsb (String.eqb n) l = true <-> In n l.
Proof.
  rewrite existsb_exists. split.
  - intros (x & Hx & E). apply String.eqb_eq in E. now subst.
  - intros H. exists n. split; [exact H|apply String.eqb_refl].
Qed.

Lemma distinctFrom_In (seen names : list string) (x : string) :
  In x (distinctFrom seen names) <-> In x names /\ ~ In x seen.
Proof.
  revert seen. induction names as [|n rest IH]; intros seen; cbn.
  - tauto.
  - destruct (existsb (String.eqb n) seen) eqn:E.
    + apply existsb_str_In in E. rewrite IH. split.
      * tauto.
      * intros [[<-|H] Hs]; [contradiction|tauto].
    + assert (Hn : ~ In n seen).
      { intros H. apply existsb_str_In in H. congruence. }
      cbn. rewrite IH. cbn. split.
      * intros [<-|[H Hs]]; [tauto|]. tauto.
      * intros [[<-|H] Hs]; [tauto|].
        destruct (String.eqb_spec n x) as [->|Hne]; [tauto|]. right.
        split; [exact H|]. intros [E'|E']; [congruence|contradiction].
Qed.

Lemma distinctFrom_NoDup (seen names : list string) :
  NoDup (distinctFrom seen names).
Proof.
  revert seen. induction names as [|n rest IH]; intros seen; cbn.
  - constructor.
  - destruct (existsb (String.eqb n) seen); [apply IH|].
    constructor; [|apply IH].
    rewrite distinctFrom_In. cbn. tauto.
Qed.

(** Adding a name at the end of a list without repetitions. *)
Lemma distinctFrom_snoc (seen names : list string) (n : string) :
  NoDup names -> (forall x, In x names -> ~ In x seen) ->
  distinctFrom seen (names ++ [n]) =
  names ++ (if existsb (String.eqb n) names || existsb (String.eqb n) seen
            then [] else [n]).
Proof.
  revert seen. induction names as [|h t IH]; intros seen Hnd Hsep.
  - cbn. destruct (existsb (String.eqb n) seen); reflexivity.
  - apply NoDup_cons_iff in Hnd. destruct Hnd as [Hh Hnd].
    cbn [app distinctFrom].
    assert (Hs : existsb (String.eqb h) seen = false).
    { apply not_true_is_false. intros H. apply existsb_str_In in H.
      apply (Hsep h); cbn; auto. }
    rewrite Hs, IH; [|exact Hnd|].
    + f_equal. f_equal. cbn [existsb].
      rewrite (String.eqb_sym n h).
      destruct (String.eqb h n); cbn;
        destruct (existsb (String.eqb n) t); reflexivity.
    + intros x Hx [<-|Hin]; [contradiction|]. apply (Hsep x); cbn; auto.
Qed.

Lemma rset_rset {V : Type} (k : string) (v v' : V) (d : Rec V) :
  rset k v (rset k v' d) = rset k v d.
Proof.
  unfold rset. induction d as [|[k0 v0] t IH]; cbn.
  - now rewrite String.eqb_refl.
  - destruct (String.eqb k0 k) eqn:E; cbn.
    + now rewrite String.eqb_refl.
    + now rewrite E, IH.
Qed.

Lemma rdel_absent {V : Type} (k : string) (d : Rec V) :
  rget k d = None -> rdel k d = d.
Proof.
  unfold rget, rdel, ddel. induction d as [|[k0 v0] t IH]; cbn; [reflexivity|].
  destruct (String.eqb k0 k); [discriminate|]. cbn. intros H. now rewrite IH.
Qed.

Lemma rdel_rset_absent {V : Type} (k : string) (v : V) (d : Rec V) :
  rget k d = None -> rdel k (rset k v d) = d.
Proof.
  intros H. rewrite rset_absent by exact H.
  unfold rdel, ddel. rewrite filter_app. cbn. rewrite String.eqb_refl. cbn.
  rewrite app_nil_r. apply rdel_absent, H.
Qed.

Lemma filter_others_snoc (roomId : string) (l : list string) :
  ~ In roomId l ->
  filter (fun i => negb (String.eqb i roomId)) (l ++ [roomId]) = l.
Proof.
  intros H. rewrite filter_app. cbn. rewrite String.eqb_refl. cbn.
  rewrite app_nil_r. induction l as [|h t IH]; cbn; [reflexivity|].
  destruct (String.eqb_spec h roomId) as [->|Hne]; [exfalso; apply H; cbn; auto|].
  cbn. f_equal. apply IH. intros Hin. apply H. cbn; auto.
Qed.

Lemma rset_same {V : Type} (k : string) (v : V) (d : Rec V) :
  rget k d = Some v -> rset k v d = d.
Proof.
  unfold rget, rset. induction d as [|[k0 v0] t IH]; cbn; [discriminate|].
  destruct (String.eqb_spec k0 k) as [->|Hne].
  - intros H. now inversion H.
  - intros H. now rewrite IH.
Qed.

Lemma distinct_snoc_In (names : list string) (n : string) (x : string) :
  In x (distinct (names ++ [n])) <-> In x names \/ x = n.
Proof.
  unfold distinct. rewrite distinctFrom_In, in_app_iff. cbn. intuition.
Qed.

(** Joining again under a name that is already on the list. *)
Lemma distinct_again (names : list string) (n : string) :
  distinct (distinct (names ++ [n]) ++ [n]) = distinct (names ++ [n]).
Proof.
  unfold distinct at 1.
  rewrite distinctFrom_snoc; [|apply distinctFrom_NoDup|intros x _ []].
  assert (H : existsb (String.eqb n) (distinct (names ++ [n])) = true).
  { apply existsb_str_In, distinct_snoc_In. now right. }
  rewrite H. cbn. apply app_nil_r.
Qed.

Lemma joinRoom_found (trim : string -> string) (roomId : string)
    (playerName : option string) (l : LobbyStore) (current : RoomMeta) :
  rget roomId (metas l) = Some current ->
  joinRoom trim roomId playerName l =
  ((if String.eqb (trim (orElse playerName "")) "" then l
    else {| rooms := rooms l;
            metas :=
              rset roomId
                {| m_roomId := m_roomId current;
                   m_roundCount := m_roundCount current;
                   m_playerCount :=
                     Z.max (m_playerCount current)
                       (len (distinct (m_playerNames current
                                       ++ [trim (orElse playerName "")])));
                   m_playerNames :=
                     distinct (m_playerNames current
                               ++ [trim (orElse playerName "")]) |}
                (metas l) |}),
   JoinOk ("https://game2.example.com/room/" +++ roomId)).
Proof. intros H. unfold joinRoom. rewrite H. reflexivity. Qed.

(** X28. [joinRoom] on a room that has a record answers with the address
    [https://game2.example.com/room/<id>] and touches neither the room
    list nor the record of another room.  An empty trimmed name leaves the
    store as it is; otherwise the record keeps [roomId] and [roundCount],
    its names have no repetition and are the old names together with the
    trimmed name (appended at the end when the old names had no repetition
    and did not hold it), and [playerCount] is the larger of the old count
    and the number of names.  Joining a second time under the same name
    changes nothing more. *)
Theorem lobby_join (trim : string -> string) (roomId : string)
    (playerName : option string) (l : LobbyStore) (current : RoomMeta) :
  rget roomId (metas l) = Some current ->
  let name := trim (orElse playerName "") in
  let after := fst (joinRoom trim roomId playerName l) in
  snd (joinRoom trim roomId playerName l)
    = JoinOk ("https://game2.example.com/room/" +++ roomId) /\
  rooms after = rooms l /\
  (forall other, other <> roomId ->
     rget other (metas after) = rget other (metas l)) /\
  (name = "" -> after = l) /\
  (name <> "" ->
     exists next,
       rget roomId (metas after) = Some next /\
       m_roomId next = m_roomId current /\
       m_roundCount next = m_roundCount current /\
       NoDup (m_playerNames next) /\
       (forall n, In n (m_playerNames next) <->
                  In n (m_playerNames current) \/ n = name) /\
       (NoDup (m_playerNames current) ->
        m_playerNames next =
        m_playerNames current ++
        (if existsb (String.eqb name) (m_playerNames current)
         then [] else [name])) /\
       m_playerCount next =
       Z.max (m_playerCount current) (len (m_playerNames next))) /\
  fst (joinRoom trim roomId playerName after) = after.
Proof.
  intros Hrec name after. subst after.
  rewrite (joinRoom_found trim roomId playerName l current Hrec). fold name. cbn [fst snd].
  destruct (String.eqb_spec name "") as [E|E].
  - split; [reflexivity|]. split; [reflexivity|]. split; [reflexivity|].
    split; [reflexivity|]. split; [intros H; contradiction|].
    rewrite (joinRoom_found trim roomId playerName l current Hrec). fold name. cbn [fst].
    destruct (String.eqb_spec name ""); [reflexivity|contradiction].
  - split; [reflexivity|]. split; [reflexivity|].
    split; [intros other Ho; cbn; apply rget_rset_other; congruence|].
    split; [intros H; contradiction|]. split.
    + intros _. eexists. split; [cbn; apply rget_rset_same|]. cbn.
      split; [reflexivity|]. split; [reflexivity|].
      split; [apply distinctFrom_NoDup|].
      split; [intros n; apply distinct_snoc_In|].
      split; [|reflexivity].
      intros Hnd. unfold distinct. rewrite distinctFrom_snoc.
      * cbn. now rewrite orb_false_r.
      * exact Hnd.
      * intros x _ [].
    + erewrite joinRoom_found; [|cbn; apply rget_rset_same]. fold name.
      cbn [fst rooms metas m_roomId m_roundCount m_playerCount m_playerNames].
      destruct (String.eqb_spec name ""); [contradiction|].
      rewrite rset_rset, distinct_again. f_equal. f_equal. f_equal. lia.
Qed.

Lemma lobby_join_witness :
  let l := fst (createRoom "ab12cd34" 3 emptyLobby) in
  rget "ab12cd34" (metas l)
    = Some {| m_roomId := "ab12cd34"; m_roundCount := 3; m_playerCount := 0;
              m_playerNames := [] |} /\
  rget "ab12cd34" (metas (fst (joinRoom (fun s => s) "ab12cd34" (Some "Ann") l)))
    = Some {| m_roomId := "ab12cd34"; m_roundCount := 3; m_playerCount := 1;
              m_playerNames := ["Ann"] |} /\
  fst (joinRoom (fun s => s) "ab12cd34" (Some "Ann")
         (fst (joinRoom (fun s => s) "ab12cd34" (Some "Ann") l)))
    = fst (joinRoom (fun s => s) "ab12cd34" (Some "Ann") l).
Proof.
  split; [reflexivity|]. split; [reflexivity|].
  apply (lobby_join (fun s => s) "ab12cd34" (Some "Ann")
           (fst (createRoom "ab12cd34" 3 emptyLobby))
           {| m_roomId := "ab12cd34"; m_roundCount := 3; m_playerCount := 0;
              m_playerNames := [] |}).
  reflexivity.
Defined.

Lemma joinRoom_missing (trim : string -> string) (roomId : string)
    (playerName : option string) (l : LobbyStore) :
  rget roomId (metas l) = None ->
  joinRoom trim roomId playerName l = (l, JoinError "Room not found").
Proof. intros H. unfold joinRoom. now rewrite H. Qed.

Lemma filter_others_not_In (roomId : string) (l : list string) :
  ~ In roomId (filter (fun i => negb (String.eqb i roomId)) l).
Proof.
  rewrite filter_In. intros [_ H]. now rewrite String.eqb_refl in H.
Qed.

(** X29. The life of a room in the lobby, for an id the lobby does not
    know yet: [joinRoom] answers [Room not found] and changes nothing;
    [createRoom] puts the id last on the room list with a record of no
    players, leaves the other records alone and makes [joinRoom] succeed;
    [deleteRoom] then restores the store exactly, so [joinRoom] fails
    again.  A player report of the room that arrives after [deleteRoom]
    ([syncLobbyMeta], sent with every state broadcast) stores a record with
    [roundCount] 0 again: the id stays off the room list, but [joinRoom]
    accepts it. *)
Theorem lobby_room_lifecycle (trim : string -> string) (roomId : string)
    (rounds : Z) (l : LobbyStore) :
  roomId <> "" -> ~ In roomId (rooms l) -> rget roomId (metas l) = None ->
  let made := fst (createRoom roomId rounds l) in
  let gone := deleteRoom roomId made in
  (forall name, joinRoom trim roomId name l = (l, JoinError "Room not found")) /\
  snd (createRoom roomId rounds l) = roomId /\
  rooms made = rooms l ++ [roomId] /\
  rget roomId (metas made)
    = Some {| m_roomId := roomId; m_roundCount := rounds; m_playerCount := 0;
              m_playerNames := [] |} /\
  (forall other, other <> roomId ->
     rget other (metas made) = rget other (metas l)) /\
  (forall name, snd (joinRoom trim roomId name made)
                = JoinOk ("https://game2.example.com/room/" +++ roomId)) /\
  gone = l /\
  (forall name, snd (joinRoom trim roomId name gone)
                = JoinError "Room not found") /\
  (forall ps,
     let late := syncLobbyMeta (Some roomId) ps gone in
     rooms late = rooms l /\
     rget roomId (metas late)
       = Some {| m_roomId := roomId; m_roundCount := 0;
                 m_playerCount := len ps;
                 m_playerNames := map displayName ps |} /\
     forall name, snd (joinRoom trim roomId name late)
                  = JoinOk ("https://game2.example.com/room/" +++ roomId)).
Proof.
  intros Hid Hfresh Hnone made gone.
  assert (Hgone : gone = l).
  { subst gone made. unfold deleteRoom, createRoom. cbn [fst rooms metas].
    rewrite filter_others_snoc by exact Hfresh.
    rewrite rdel_rset_absent by exact Hnone. now destruct l. }
  split; [intros name; apply joinRoom_missing, Hnone|].
  split; [reflexivity|]. split; [reflexivity|].
  split; [apply rget_rset_same|].
  split; [intros other Ho; cbn; apply rget_rset_other; congruence|].
  split.
  { intros name. erewrite joinRoom_found; [reflexivity|]. apply rget_rset_same. }
  split; [exact Hgone|]. rewrite Hgone.
  split; [intros name; now rewrite joinRoom_missing|].
  intros ps late. subst late. unfold syncLobbyMeta.
  destruct (String.eqb_spec roomId "") as [E|_]; [contradiction|].
  unfold setRoomPlayerCount. rewrite Hnone. cbn [orElse rooms metas m_roomId m_roundCount].
  split; [reflexivity|]. split; [apply rget_rset_same|].
  intros name. erewrite joinRoom_found; [reflexivity|]. cbn. apply rget_rset_same.
Qed.

Lemma lobby_room_lifecycle_witness :
  deleteRoom "ab12cd34" (fst (createRoom "ab12cd34" 3 emptyLobby)) = emptyLobby /\
  rget "ab12cd34"
    (metas (syncLobbyMeta (Some "ab12cd34") (players (fst (cleanupRoom endedRoom)))
              (deleteRoom "ab12cd34" (fst (createRoom "ab12cd34" 3 emptyLobby)))))
    = Some {| m_roomId := "ab12cd34"; m_roundCount := 0; m_playerCount := 0;
              m_playerNames := [] |}.
Proof.
  assert (Hid : "ab12cd34" <> "") by discriminate.
  assert (Hfresh : ~ In "ab12cd34" (rooms emptyLobby)) by (intros []).
  assert (Hnone : rget "ab12cd34" (metas emptyLobby) = None) by reflexivity.
  destruct (lobby_room_lifecycle (fun s => s) "ab12cd34" 3 emptyLobby
              Hid Hfresh Hnone) as (_ & _ & _ & _ & _ & _ & Hgone & _ & Hlate).
  split; [exact Hgone|].
  exact (proj1 (proj2 (Hlate (players (fst (cleanupRoom endedRoom)))))).
Defined.

Lemma nextMeta_again (live : option LiveMeta) (meta : option RoomMeta)
    (roomId : string) :
  nextMeta live (Some (nextMeta live meta roomId)) roomId
  = nextMeta live meta roomId.
Proof. unfold nextMeta. destruct live, meta; reflexivity. Qed.

Lemma refreshRoom_eq (live : string -> option LiveMeta) (cur : LobbyStore)
    (out : list RoomMeta) (roomId : string) :
  refreshRoom live (cur, out) roomId =
  ({| rooms := rooms cur;
      metas := rset roomId (nextMeta (live roomId) (rget roomId (metas cur)) roomId)
                 (metas cur) |},
   out ++ [nextMeta (live roomId) (rget roomId (metas cur)) roomId]).
Proof. reflexivity. Qed.

Lemma refreshRoom_fold (live : string -> option LiveMeta) (l : LobbyStore)
    (ids : list string) :
  forall (cur : LobbyStore) (out : list RoomMeta),
  (forall i, rget i (metas cur) = rget i (metas l) \/
             rget i (metas cur)
               = Some (nextMeta (live i) (rget i (metas l)) i)) ->
  let r := fold_left (refreshRoom live) ids (cur, out) in
  snd r = out ++ map (fun i => nextMeta (live i) (rget i (metas l)) i) ids /\
  rooms (fst r) = rooms cur /\
  (forall i, In i ids ->
     rget i (metas (fst r))
       = Some (nextMeta (live i) (rget i (metas l)) i)) /\
  (forall i, ~ In i ids -> rget i (metas (fst r)) = rget i (metas cur)).
Proof.
  induction ids as [|h t IH]; intros cur out Hcur; cbv zeta;
    cbn [fold_left map].
  - cbn. rewrite app_nil_r. split; [reflexivity|]. split; [reflexivity|].
    split; [intros i []|reflexivity].
  - assert (Hnext : nextMeta (live h) (rget h (metas cur)) h
                    = nextMeta (live h) (rget h (metas l)) h).
    { destruct (Hcur h) as [E|E]; rewrite E; [reflexivity|apply nextMeta_again]. }
    rewrite refreshRoom_eq, Hnext.
    destruct (IH {| rooms := rooms cur;
                    metas := rset h (nextMeta (live h) (rget h (metas l)) h)
                               (metas cur) |}
                 (out ++ [nextMeta (live h) (rget h (metas l)) h]))
      as (Ho & Hr & Hin & Hout).
    { intros i. cbn [metas]. rewrite rget_rset.
      destruct (String.eqb_spec h i) as [<-|Hne]; [now right|apply Hcur]. }
    split; [rewrite Ho, <- app_assoc; reflexivity|].
    split; [rewrite Hr; reflexivity|]. split.
    + intros i [<-|Hi]; [|now apply Hin].
      destruct (in_dec string_dec h t) as [Ht|Ht]; [now apply Hin|].
      rewrite Hout by exact Ht. cbn [metas]. apply rget_rset_same.
    + intros i Hi. rewrite Hout by (intros H; apply Hi; now right).
      cbn [metas]. apply rget_rset_other. intros ->. apply Hi. now left.
Qed.

Lemma refreshRoom_fold_fixed (live : string -> option LiveMeta)
    (cur : LobbyStore) (entry : string -> RoomMeta) (ids : list string) :
  (forall i, In i ids ->
     rget i (metas cur) = Some (entry i) /\
     nextMeta (live i) (Some (entry i)) i = entry i) ->
  forall out,
  fold_left (refreshRoom live) ids (cur, out) = (cur, out ++ map entry ids).
Proof.
  intros H. induction ids as [|h t IH]; intros out; cbn [fold_left map].
  - now rewrite app_nil_r.
  - destruct (H h) as [Hg Hn]; [now left|].
    rewrite refreshRoom_eq, Hg, Hn, rset_same by exact Hg.
    replace {| rooms := rooms cur; metas := metas cur |} with cur
      by now destruct cur.
    rewrite IH by (intros i Hi; apply H; now right).
    now rewrite <- app_assoc.
Qed.

(** X30. [listRooms] returns one entry per id of the room list, in list
    order: the answer of the room's [getRoomMeta] where the room answers,
    else the stored record, else zeros - each computed from the store as
    it was before the call.  It keeps the room list, stores every entry
    under its id and leaves the records of unlisted ids alone; a second
    call with the same answers returns the same entries and changes
    nothing. *)
Theorem lobby_list (live : string -> option LiveMeta) (l : LobbyStore) :
  let entry := fun i => nextMeta (live i) (rget i (metas l)) i in
  let after := fst (listRooms live l) in
  snd (listRooms live l) = map entry (rooms l) /\
  rooms after = rooms l /\
  (forall i, In i (rooms l) -> rget i (metas after) = Some (entry i)) /\
  (forall i, ~ In i (rooms l) -> rget i (metas after) = rget i (metas l)) /\
  (forall i s, live i = Some (getRoomMeta s) ->
     entry i = {| m_roomId := i;
                  m_roundCount := match config s with
                                  | Some cfg => roundCount cfg
                                  | None => 0
                                  end;
                  m_playerCount := len (players s);
                  m_playerNames := map displayName (players s) |}) /\
  (forall i, live i = None ->
     entry i = match rget i (metas l) with
               | Some m => {| m_roomId := i; m_roundCount := m_roundCount m;
                              m_playerCount := m_playerCount m;
                              m_playerNames := m_playerNames m |}
               | None => {| m_roomId := i; m_roundCount := 0;
                            m_playerCount := 0; m_playerNames := [] |}
               end) /\
  listRooms live after = (after, map entry (rooms l)).
Proof.
  intros entry after.
  destruct (refreshRoom_fold live l (rooms l) l [])
    as (Ho & Hr & Hin & Hout); [now left|].
  cbv zeta in Ho, Hr, Hin, Hout. fold (listRooms live l) in Ho, Hr, Hin, Hout.
  fold after in Hr, Hin, Hout.
  split; [exact Ho|]. split; [exact Hr|]. split; [exact Hin|].
  split; [exact Hout|]. split.
  { intros i s E. subst entry. cbv beta. rewrite E. reflexivity. }
  split.
  { intros i E. subst entry. cbv beta. rewrite E.
    now destruct (rget i (metas l)). }
  unfold listRooms at 1. rewrite Hr.
  apply (refreshRoom_fold_fixed live after entry (rooms l)).
  intros i Hi. split; [now apply Hin|]. apply nextMeta_again.
Qed.

(* ================================================================== *)
(** * The auction as [alarm] resolves it (C3, C4) *)

Lemma Forall2_compose {A B C} (R1 : A -> B -> Prop) (R2 : B -> C -> Prop)
    (R : A -> C -> Prop) (l1 : list A) (l2 : list B) (l3 : list C) :
  (forall a b c, R1 a b -> R2 b c -> R a c) ->
  Forall2 R1 l1 l2 -> Forall2 R2 l2 l3 -> Forall2 R l1 l3.
Proof.
  intros HR H1. revert l3. induction H1 as [|a b t1 t2 Hab _ IH]; intros l3 H2.
  - inversion H2. constructor.
  - inversion H2 as [|b' c t2' t3 Hbc Ht]; subst. constructor; [eauto|].
    apply IH, Ht.
Qed.

Lemma Forall2_same {A} (R : A -> A -> Prop) (l : list A) :
  (forall a, R a a) -> Forall2 R l l.
Proof. intros H. induction l; constructor; auto. Qed.

Lemma find_player_related (R : Player -> Player -> Prop) (pid : string)
    (ps ps' : list Player) :
  (forall p p', R p p' -> playerId p' = playerId p) ->
  Forall2 R ps ps' ->
  match find_player pid ps, find_player pid ps' with
  | Some p, Some p' => R p p'
  | None, None => True
  | _, _ => False
  end.
Proof.
  intros Hid H. induction H as [|p p' t t' Hp _ IH]; [exact I|].
  unfold find_player, is_player in *. cbn [find].
  rewrite (Hid _ _ Hp).
  destruct (String.eqb (playerId p) pid); [exact Hp|exact IH].
Qed.

Lemma sameOrRehanded_refl (p : Player) : sameOrRehanded p p.
Proof. unfold sameOrRehanded. auto. Qed.

Lemma rehanded_sameOrRehanded (p p' : Player) :
  rehanded p p' -> sameOrRehanded p p'.
Proof.
  intros (Hi & _ & _ & Hm & Hd). split; [exact Hi|]. split; [exact Hm|].
  destruct (dice p); [right|left; exact Hd].
  destruct Hd as [Hl Hf]. auto.
Qed.

Lemma sameOrRehanded_recoloured (p p1 p' : Player) :
  sameOrRehanded p p1 -> sameButColour p1 p' -> sameOrRehanded p p'.
Proof.
  intros (Hi & Hm & Hd) (Hi' & _ & Hm' & Hd').
  split; [congruence|]. split; [congruence|]. rewrite Hd'. exact Hd.
Qed.

(** Entering the path phase keeps every player record but for the colour
    and, when the phase is skipped, the empty hands. *)
Lemma enterPathPhase_players (e : Env) (s : Storage) (cfg : GameConfig)
    (md : option (list Z)) :
  Forall2 sameOrRehanded (players s) (players (fst (enterPathPhase e s cfg md))).
Proof.
  unfold enterPathPhase. rewrite andThen_fst.
  match goal with
  | |- context [broadcastState e (fst ?x)] => set (inner := x)
  end.
  apply Forall2_compose with (R1 := sameOrRehanded) (R2 := sameButColour)
                             (l2 := players (fst inner));
    [apply sameOrRehanded_recoloured| |apply broadcast_players].
  subst inner. destruct (_ && _); cbn [fst].
  - unfold alarm_path. cbn [players set_config set_pending].
    pose proof (dealHands_rehanded (players s) (rng e)) as Hd.
    destruct (dealHands (players s) (rng e)) as [ps g]. cbn [fst] in Hd.
    match goal with
    | |- context [broadcastState e ?x] => set (s3 := x)
    end.
    apply Forall2_compose with (R1 := sameOrRehanded) (R2 := sameButColour)
                               (l2 := players s3);
      [apply sameOrRehanded_recoloured| |apply broadcast_players].
    subst s3. cbn [players setAlarm set_config set_players].
    eapply Forall2_impl; [|exact Hd]. apply rehanded_sameOrRehanded.
  - cbn [players setAlarm set_config set_pending].
    apply Forall2_same, sameOrRehanded_refl.
Qed.

(** What [alarm] stores at the end of an auction, in terms of the loop
    over the conflicts. *)
Lemma alarm_auction_result (e : Env) (s : Storage) (cfg : GameConfig) :
  config s = Some cfg -> phase cfg = auction ->
  let final := auctionAfter s cfg (conflicts (pendingActions s)) in
  let s' := fst (alarm e s) in
  grid s' = snd (fst final) /\
  Forall2 sameOrRehanded (fst (fst final)) (players s') /\
  option_map marketDice (config s')
  = Some (Some (filter (fun v => negb (isTaken v)) (snd final))) /\
  (option_map phase (config s') = Some path_phase \/
   option_map phase (config s') = Some round_end).
Proof.
  intros Hc Hph final s'. subst s' final. unfold alarm. rewrite Hc, Hph.
  unfold alarm_auction, auctionAfter.
  destruct (fold_left _ _ _) as [[ps g] md]. cbn [fst snd].
  split; [rewrite enterPathPhase_grid; reflexivity|].
  split.
  { match goal with
    | |- context [enterPathPhase e ?x cfg ?m] =>
        exact (enterPathPhase_players e x cfg m)
    end. }
  match goal with
  | |- context [enterPathPhase e ?x cfg ?m] =>
      destruct (enterPathPhase_config e x cfg m) as [H|H]; rewrite H
  end; cbn; auto.
Qed.

Lemma auctionAfter_snoc (s : Storage) (cfg : GameConfig) (pre : list Conflict)
    (c : Conflict) :
  auctionAfter s cfg (pre ++ [c])
  = auctionStep (pendingActions s) (auctionAfter s cfg pre) c.
Proof. unfold auctionAfter. rewrite fold_left_app. reflexivity. Qed.

Lemma auctionAfter_split (s : Storage) (cfg : GameConfig)
    (pre post : list Conflict) (c : Conflict) :
  auctionAfter s cfg (pre ++ c :: post)
  = fold_left (auctionStep (pendingActions s)) post
      (auctionAfter s cfg (pre ++ [c])).
Proof.
  unfold auctionAfter. rewrite !fold_left_app. reflexivity.
Qed.

(** The auction bids matter only through the amount each contender has on
    record for the conflict. *)
Lemma auctionStep_bids_ext (pending : PendingActions) (ab' : Rec (Rec Z))
    (acc : AuctionAcc) (c : Conflict) :
  (forall pid, In pid (playerIds c) ->
     bidOf (orElse (rget (conflictId c) ab') []) pid
     = bidOf (orElse (rget (conflictId c) (auctionBids pending)) []) pid) ->
  auctionStep (set_auctionBids ab' pending) acc c = auctionStep pending acc c.
Proof.
  intros H. destruct acc as [[ps g] md]. unfold auctionStep.
  cbn [auctionBids set_auctionBids].
  set (bids' := orElse (rget (conflictId c) ab') []) in *.
  set (bids := orElse (rget (conflictId c) (auctionBids pending)) []) in *.
  rewrite (bestOf_bids_ext bids bids' (playerIds c) H).
  set (best := bestOf 0 (map (bidOf bids) (playerIds c))).
  destruct c as [cid cell_id pids|cid dieIdx pids]; cbn [playerIds] in *.
  - destruct (find_cell cell_id g); [|reflexivity].
    assert (Hf : filter (fun pid => bidOf bids' pid =? best) pids
                 = filter (fun pid => bidOf bids pid =? best) pids).
    { apply filter_ext_in. intros pid Hp. now rewrite (H pid Hp). }
    rewrite Hf. reflexivity.
  - assert (Hf : find (fun pid => bidOf bids' pid =? best) pids
                 = find (fun pid => bidOf bids pid =? best) pids).
    { apply find_ext_in. intros pid Hp. now rewrite (H pid Hp). }
    rewrite Hf. reflexivity.
Qed.

Lemma fold_left_ext_in {A B} (f f' : A -> B -> A) (l : list B) (a : A) :
  (forall x y, In y l -> f x y = f' x y) -> fold_left f l a = fold_left f' l a.
Proof.
  revert a. induction l as [|y t IH]; intros a H; [reflexivity|].
  cbn [fold_left]. rewrite (H a y (or_introl eq_refl)).
  apply IH. intros x z Hz. apply H. now right.
Qed.

Lemma enterPathPhase_any_pending (e : Env) (s : Storage) (pa : PendingActions)
    (cfg : GameConfig) (md : option (list Z)) :
  enterPathPhase e (set_pending pa s) cfg md = enterPathPhase e s cfg md.
Proof. reflexivity. Qed.

(** The order in which the auction bids arrived plays no role: two
    buffers that record the same amount for every contender of every
    conflict resolve alike. *)
Lemma alarm_auction_bids_ext (e : Env) (s : Storage) (cfg : GameConfig)
    (ab' : Rec (Rec Z)) :
  config s = Some cfg -> phase cfg = auction ->
  (forall c pid,
     In c (conflicts (pendingActions s)) -> In pid (playerIds c) ->
     bidOf (orElse (rget (conflictId c) ab') []) pid
     = bidOf (orElse (rget (conflictId c) (auctionBids (pendingActions s))) []) pid) ->
  alarm e (set_pending (set_auctionBids ab' (pendingActions s)) s) = alarm e s.
Proof.
  intros Hc Hph H. unfold alarm. cbn [config set_pending]. rewrite Hc, Hph.
  unfold alarm_auction.
  cbn [pendingActions set_pending conflicts set_auctionBids players grid].
  rewrite (fold_left_ext_in
             (auctionStep (set_auctionBids ab' (pendingActions s)))
             (auctionStep (pendingActions s))).
  - destruct (fold_left _ _ _) as [[ps g] md]. reflexivity.
  - intros acc c Hin. apply auctionStep_bids_ext. intros pid Hp. now apply H.
Qed.

(** C4, amended.  When [alarm] resolves the auction and comes to a market
    conflict whose die is still in the pool (at least one contender,
    recorded bids non-negative as [handleAuctionBid] stores them), the
    designated winner [w] is the first contender in the order of the
    conflict's stored list [playerIds] whose auction bid equals the highest
    bid [best], a contender without a bid counting as 0.  If [w] is a
    player with money at least [best], [w] pays [best], the die is
    appended to [w]'s dice and its slot is marked taken; otherwise the
    conflict changes nothing.  No other player's record and no cell
    changes.  The loop goes on from there, and what [alarm] stores is the
    grid, the players and the unmarked dice it ends with; when the conflict
    is the last one, that is [w] with the die and [best] less money and
    everybody else with the money they had.  The order in which the
    auction bids arrived plays no role: [alarm] gives the same result for
    any bid buffer that records the same amount for every contender. *)
Theorem C4_market_conflict_winner (e : Env) (s : Storage) (cfg : GameConfig)
    (pre post : list Conflict) (cid : string) (dieIdx : Z)
    (pids : list string) (die : Z) :
  config s = Some cfg -> phase cfg = auction ->
  conflicts (pendingActions s) = pre ++ MarketConflict cid dieIdx pids :: post ->
  let pending := pendingActions s in
  let bids := orElse (rget cid (auctionBids pending)) [] in
  let best := bestOf 0 (map (bidOf bids) pids) in
  let before := auctionAfter s cfg pre in
  let after := auctionAfter s cfg (pre ++ [MarketConflict cid dieIdx pids]) in
  let final := fold_left (auctionStep pending) post after in
  let s' := fst (alarm e s) in
  (forall pid, In pid pids -> 0 <= bidOf bids pid) ->
  pids <> [] -> idx (snd before) dieIdx = Some die -> die <> -1 ->
  exists w earlier later,
    pids = earlier ++ w :: later /\
    bidOf bids w = best /\
    (forall x, In x earlier -> bidOf bids x <> best) /\
    (forall x, In x pids -> bidOf bids x <= best) /\
    snd (fst after) = snd (fst before) /\
    (forall pid, pid <> w ->
       find_player pid (fst (fst after)) = find_player pid (fst (fst before))) /\
    (forall player,
       find_player w (fst (fst before)) = Some player -> best <= money player ->
       exists player',
         find_player w (fst (fst after)) = Some player' /\
         money player' = money player - best /\
         dice player' = dice player ++ [die] /\
         snd after = set_idx (snd before) dieIdx (-1)) /\
    (forall player,
       find_player w (fst (fst before)) = Some player -> money player < best ->
       after = before) /\
    (find_player w (fst (fst before)) = None -> after = before) /\
    grid s' = snd (fst final) /\
    Forall2 sameOrRehanded (fst (fst final)) (players s') /\
    option_map marketDice (config s')
    = Some (Some (filter (fun v => negb (isTaken v)) (snd final))) /\
    (post = [] ->
     (forall player,
        find_player w (fst (fst before)) = Some player -> best <= money player ->
        exists p',
          find_player w (players s') = Some p' /\
          money p' = money player - best /\
          dice p' = dice player ++ [die]) /\
     (forall pid p,
        pid <> w -> find_player pid (fst (fst before)) = Some p ->
        exists p', find_player pid (players s') = Some p' /\
                   money p' = money p)) /\
    (forall ab',
       (forall c pid,
          In c (conflicts pending) -> In pid (playerIds c) ->
          bidOf (orElse (rget (conflictId c) ab') []) pid
          = bidOf (orElse (rget (conflictId c) (auctionBids pending)) []) pid) ->
       alarm e (set_pending (set_auctionBids ab' pending) s) = alarm e s).
Proof.
  intros Hc Hph Hcs pending bids best before after final s' Hnn Hne Hidx Hdie.
  pose proof (alarm_auction_result e s cfg Hc Hph) as Hres. cbv zeta in Hres.
  fold s' in Hres. rewrite Hcs, auctionAfter_split in Hres.
  fold pending in Hres. fold after in Hres. fold final in Hres.
  destruct Hres as (Hg & Hps & Hmd & _).
  assert (Hafter : after = auctionStep pending before (MarketConflict cid dieIdx pids)).
  { subst after before pending. apply auctionAfter_snoc. }
  destruct before as [[ps g] md] eqn:Hb. cbn [fst snd] in *.
  destruct (market_conflict_step pending ps g md cid dieIdx pids die
              Hnn Hne Hidx Hdie)
    as (w & earlier & later & Hsplit & Hbest & Hearly & Hupper & Hgrid & Hothers
        & Hwin & Hpoor & Hnone & _).
  fold bids in Hsplit, Hbest, Hearly, Hupper. fold best in Hbest, Hearly, Hupper.
  rewrite <- Hafter in Hgrid, Hothers, Hwin, Hpoor, Hnone.
  exists w, earlier, later.
  split; [exact Hsplit|]. split; [exact Hbest|]. split; [exact Hearly|].
  split; [exact Hupper|]. split; [exact Hgrid|]. split; [exact Hothers|].
  split.
  { intros player Hp Hm. destruct (Hwin player Hp Hm) as (p' & H1 & H2 & H3 & H4 & _).
    exists p'. auto. }
  split; [exact Hpoor|]. split; [exact Hnone|].
  split; [exact Hg|]. split; [exact Hps|]. split; [exact Hmd|].
  split.
  { intros ->. cbn [fold_left] in final. subst final. split.
    - intros player Hp Hm.
      destruct (Hwin player Hp Hm) as (p1 & H1 & H2 & H3 & _).
      pose proof (find_player_related sameOrRehanded w _ _
                    (fun p p' H => proj1 H) Hps) as Hr.
      rewrite H1 in Hr. destruct (find_player w (players s')) as [p'|]; [|contradiction].
      destruct Hr as (_ & Hm' & Hd'). exists p'. split; [reflexivity|].
      split; [rewrite Hm'; exact H2|].
      destruct Hd' as [Hd'|[Hd' _]]; [rewrite Hd'; exact H3|].
      rewrite H3 in Hd'. destruct (dice player); discriminate Hd'.
    - intros pid p Hpid Hp.
      pose proof (find_player_related sameOrRehanded pid _ _
                    (fun p p' H => proj1 H) Hps) as Hr.
      rewrite (Hothers pid Hpid), Hp in Hr.
      destruct (find_player pid (players s')) as [p'|]; [|contradiction].
      exists p'. split; [reflexivity|]. exact (proj1 (proj2 Hr)). }
  intros ab' Hsame. apply (alarm_auction_bids_ext e s cfg ab' Hc Hph Hsame).
Qed.

Lemma bothBidRoom_reachable : reachable bothBidRoom.
Proof.
  unfold bothBidRoom, bobFirstRoom. do 2 apply reach_step.
  apply reachable_run, startedRoom_reachable.
Qed.

(** The claim as written fails.  In the example game Ann and Bob tie in
    the market phase, which makes them, in this order, the contenders of
    the conflict over the die.  In the auction Bob is the first to bid 5
    and Ann bids 5 after him; 5 is the highest bid.  The die goes to Ann,
    who pays 5, and Bob, the first bidder to reach the maximum, gets
    nothing. *)
Lemma C4_first_to_bid_does_not_win :
  reachable bothBidRoom /\
  conflicts (pendingActions tieAuctionRoom)
  = [MarketConflict "market-0-6000" 0 ["aaaaaaaa"; "bbbbbbbb"]] /\
  auctionBids (pendingActions tieAuctionRoom) = [] /\
  auctionBids (pendingActions bobFirstRoom)
  = [("market-0-6000", [("bbbbbbbb", 5)])] /\
  auctionBids (pendingActions bothBidRoom)
  = [("market-0-6000", [("bbbbbbbb", 5); ("aaaaaaaa", 5)])] /\
  option_map marketDice (config bothBidRoom) = Some (Some [5]) /\
  map (fun p => (playerId p, money p, dice p)) (players bothBidRoom)
  = [("aaaaaaaa", 11, [4; 4; 6]); ("bbbbbbbb", 11, [4; 4; 6])] /\
  map (fun p => (playerId p, money p, dice p))
      (players (fst (alarm (demoEnv 9 "") bothBidRoom)))
  = [("aaaaaaaa", 6, [4; 4; 6; 5]); ("bbbbbbbb", 11, [4; 4; 6])].
Proof.
  split; [exact bothBidRoom_reachable|].
  do 6 (split; [vm_compute; reflexivity|]). vm_compute. reflexivity.
Qed.

(** The same auction as an instance of the theorem: Ann, the first
    contender of the list with the highest bid, pays 5 and gets the 5. *)
Lemma C4_market_conflict_winner_witness :
  exists p',
    find_player "aaaaaaaa" (players (fst (alarm (demoEnv 9 "") bothBidRoom)))
    = Some p' /\
    money p' = 11 - 5 /\ dice p' = [4; 4; 6] ++ [5].
Proof.
  destruct (C4_market_conflict_winner (demoEnv 9 "") bothBidRoom
              (orElse (config bothBidRoom) (configAt lobby []))
              [] [] "market-0-6000" 0 ["aaaaaaaa"; "bbbbbbbb"] 5)
    as (w & earlier & later & Hsplit & _ & Hearly & _ & _ & _ & _ & _ & _ & _
        & _ & _ & Hlast & _).
  - vm_compute. reflexivity.
  - vm_compute. reflexivity.
  - vm_compute. reflexivity.
  - intros pid [<-|[<-|[]]]; vm_compute; discriminate.
  - discriminate.
  - vm_compute. reflexivity.
  - discriminate.
  - assert (Hw : w = "aaaaaaaa").
    { destruct earlier as [|x rest].
      - cbn in Hsplit. now injection Hsplit as <-.
      - cbn in Hsplit. injection Hsplit as <- _.
        exfalso. apply (Hearly "aaaaaaaa"); [now left|]. vm_compute. reflexivity. }
    subst w.
    destruct (proj1 (Hlast eq_refl)
                (nth 0 (players bothBidRoom) (plainPlayer "" 0 [])))
      as (p' & Hp & Hm & Hd).
    + vm_compute. reflexivity.
    + vm_compute. discriminate.
    + exists p'. split; [exact Hp|]. split; [exact Hm|exact Hd].
Defined.

(* ------------------------------------------------------------------ *)
(** ** Cell conflicts *)

Lemma moreOwners_refl (c : Cell) : moreOwners c c.
Proof. exists []. symmetry. apply with_owners_same. Qed.

Lemma moreOwners_trans (c1 c2 c3 : Cell) :
  moreOwners c1 c2 -> moreOwners c2 c3 -> moreOwners c1 c3.
Proof.
  intros [m1 ->] [m2 ->]. exists (m1 ++ m2). unfold with_owners. cbn.
  now rewrite app_assoc.
Qed.

Lemma cellWinner_grows (pending : PendingActions) (cell_id : string) (best : Z)
    (ps : list Player) (g : list Cell) (pid cid : string) (c : Cell) :
  find_cell cid g = Some c ->
  exists c', find_cell cid (snd (cellWinner pending cell_id best (ps, g) pid))
             = Some c' /\ moreOwners c c'.
Proof.
  intros Hc. unfold cellWinner.
  destruct (find_cell cell_id g) as [cell|] eqn:Hcell;
    [|exists c; split; [exact Hc|apply moreOwners_refl]].
  destruct (find_player pid ps) as [player|];
    [|exists c; split; [exact Hc|apply moreOwners_refl]].
  destruct (declaredRole pending pid cell_id) as [ro|];
    [|exists c; split; [exact Hc|apply moreOwners_refl]].
  destruct (money player <? best);
    [exists c; split; [exact Hc|apply moreOwners_refl]|].
  destruct (_ <? 0); [exists c; split; [exact Hc|apply moreOwners_refl]|].
  cbn [snd]. destruct (String.eqb_spec cell_id cid) as [->|Hne].
  - rewrite (find_cell_update_same cid (addOwner pid ro) g c (fun y => eq_refl) Hc).
    eexists. split; [reflexivity|]. eexists. reflexivity.
  - rewrite (find_cell_update_other cell_id cid (addOwner pid ro) g Hne
               (fun y => eq_refl)).
    exists c. split; [exact Hc|apply moreOwners_refl].
Qed.

Lemma cellWinners_grow (pending : PendingActions) (cell_id : string) (best : Z)
    (ws : list string) (cid : string) :
  forall (ps : list Player) (g : list Cell) (c : Cell),
  find_cell cid g = Some c ->
  exists c', find_cell cid
               (snd (fold_left (cellWinner pending cell_id best) ws (ps, g)))
             = Some c' /\ moreOwners c c'.
Proof.
  induction ws as [|w t IH]; intros ps g c Hc; cbn [fold_left].
  - exists c. split; [exact Hc|apply moreOwners_refl].
  - destruct (cellWinner_grows pending cell_id best ps g w cid c Hc)
      as (c1 & Hc1 & M1).
    destruct (cellWinner pending cell_id best (ps, g) w) as [ps1 g1].
    cbn [snd] in Hc1. destruct (IH ps1 g1 c1 Hc1) as (c' & Hc' & M').
    exists c'. split; [exact Hc'|]. eapply moreOwners_trans; eassumption.
Qed.

Lemma auctionStep_grows (pending : PendingActions) (acc : AuctionAcc)
    (k : Conflict) (cid : string) (c : Cell) :
  find_cell cid (snd (fst acc)) = Some c ->
  exists c', find_cell cid (snd (fst (auctionStep pending acc k))) = Some c'
             /\ moreOwners c c'.
Proof.
  destruct acc as [[ps g] md]. cbn [fst snd]. intros Hc. unfold auctionStep.
  destruct k as [kid cell_id pids|kid dieIdx pids].
  - destruct (find_cell cell_id g);
      [|exists c; split; [exact Hc|apply moreOwners_refl]].
    match goal with
    | |- context [fold_left (cellWinner pending cell_id ?b) ?ws (ps, g)] =>
        destruct (cellWinners_grow pending cell_id b ws cid ps g c Hc)
          as (c' & Hc' & M);
        destruct (fold_left (cellWinner pending cell_id b) ws (ps, g))
          as [ps' g']
    end.
    exists c'. split; [exact Hc'|exact M].
  - match goal with
    | |- context [match ?x with Some _ => _ | None => _ end] => destruct x as [w|]
    end; [|exists c; split; [exact Hc|apply moreOwners_refl]].
    destruct (find_player w ps);
      [|exists c; split; [exact Hc|apply moreOwners_refl]].
    destruct (idx md dieIdx);
      [|exists c; split; [exact Hc|apply moreOwners_refl]].
    destruct (_ && _); exists c; (split; [exact Hc|apply moreOwners_refl]).
Qed.

Lemma auctionSteps_grow (pending : PendingActions) (ks : list Conflict)
    (cid : string) :
  forall (acc : AuctionAcc) (c : Cell),
  find_cell cid (snd (fst acc)) = Some c ->
  exists c', find_cell cid (snd (fst (fold_left (auctionStep pending) ks acc)))
             = Some c' /\ moreOwners c c'.
Proof.
  induction ks as [|k t IH]; intros acc c Hc; cbn [fold_left].
  - exists c. split; [exact Hc|apply moreOwners_refl].
  - destruct (auctionStep_grows pending acc k cid c Hc) as (c1 & Hc1 & M1).
    destruct (IH _ c1 Hc1) as (c' & Hc' & M').
    exists c'. split; [exact Hc'|]. eapply moreOwners_trans; eassumption.
Qed.


Lemma cellBidRoom_reachable : reachable cellBidRoom.
Proof. apply reachable_run, startedRoom_reachable. Qed.


(* ================================================================== *)
(** * The layout of the board is fixed *)

Lemma sites_update_cell (cid : string) (f : Cell -> Cell) (g : list Cell) :
  (forall c, site (f c) = site c) ->
  map site (update_cell cid f g) = map site g.
Proof. intros H. unfold update_cell. apply update_first_map. exact H. Qed.

Lemma sites_aging (g : list Cell) :
  map site (applyOwnershipAging g) = map site g.
Proof.
  unfold applyOwnershipAging. rewrite map_map. apply map_ext.
  intros c. unfold ageCell. destruct (noOwners c); reflexivity.
Qed.

Lemma sites_applyClaim (acc : list Player * list Cell) (act : Claim) :
  map site (snd (applyClaim acc act)) = map site (snd acc).
Proof.
  destruct acc as [ps g]. unfold applyClaim.
  destruct (find_cell _ g); [|reflexivity].
  cbn [snd]. apply sites_update_cell. reflexivity.
Qed.

Lemma sites_applyClaims (claims : list Claim) (acc : list Player * list Cell) :
  map site (snd (fold_left applyClaim claims acc)) = map site (snd acc).
Proof.
  revert acc. induction claims as [|a t IH]; intros acc; [reflexivity|].
  cbn [fold_left]. rewrite IH. apply sites_applyClaim.
Qed.

Lemma sites_cellWinner (pending : PendingActions) (cell_id : string) (best : Z)
    (acc : list Player * list Cell) (pid : string) :
  map site (snd (cellWinner pending cell_id best acc pid)) = map site (snd acc).
Proof.
  destruct acc as [ps g]. unfold cellWinner.
  destruct (find_cell _ g); [|reflexivity].
  destruct (find_player _ _); [|reflexivity].
  destruct (declaredRole _ _ _); [|reflexivity].
  destruct (_ <? best); [reflexivity|]. destruct (_ <? 0); [reflexivity|].
  cbn [snd]. apply sites_update_cell. reflexivity.
Qed.

Lemma sites_cellWinners (pending : PendingActions) (cell_id : string) (best : Z)
    (ws : list string) (acc : list Player * list Cell) :
  map site (snd (fold_left (cellWinner pending cell_id best) ws acc))
  = map site (snd acc).
Proof.
  revert acc. induction ws as [|w t IH]; intros acc; [reflexivity|].
  cbn [fold_left]. rewrite IH. apply sites_cellWinner.
Qed.

Lemma sites_auctionStep (pending : PendingActions) (acc : AuctionAcc)
    (c : Conflict) :
  map site (snd (fst (auctionStep pending acc c))) = map site (snd (fst acc)).
Proof.
  destruct acc as [[ps g] md]. unfold auctionStep. cbn [fst snd].
  destruct c as [cid cell_id pids|cid dieIdx pids].
  - destruct (find_cell cell_id g); [|reflexivity].
    match goal with
    | |- context [fold_left (cellWinner pending cell_id ?b) ?ws (ps, g)] =>
        pose proof (sites_cellWinners pending cell_id b ws (ps, g)) as H;
        destruct (fold_left (cellWinner pending cell_id b) ws (ps, g))
    end.
    exact H.
  - match goal with
    | |- context [match ?x with Some _ => _ | None => _ end] => destruct x as [w|]
    end; [|reflexivity].
    destruct (find_player w ps); [|reflexivity].
    destruct (idx md dieIdx); [|reflexivity].
    destruct (_ && _); reflexivity.
Qed.

Lemma sites_auctionSteps (pending : PendingActions) (cs : list Conflict)
    (acc : AuctionAcc) :
  map site (snd (fst (fold_left (auctionStep pending) cs acc)))
  = map site (snd (fst acc)).
Proof.
  revert acc. induction cs as [|c t IH]; intros acc; [reflexivity|].
  cbn [fold_left]. rewrite IH. apply sites_auctionStep.
Qed.

Lemma alarm_market_grid (e : Env) (s : Storage) (cfg : GameConfig) :
  grid (fst (alarm_market e s cfg)) = grid s.
Proof.
  unfold alarm_market. destruct (fold_left _ _ _) as [[ps md] cs].
  destruct cs; rewrite broadcast_grid; reflexivity.
Qed.

Lemma alarm_round_end_grid (e : Env) (s : Storage) (cfg : GameConfig) :
  grid (fst (alarm_round_end e s cfg)) = grid s.
Proof.
  unfold alarm_round_end. destruct (_ >=? _).
  - destruct (players s); [reflexivity|].
    rewrite andThen_fst. cbn [fst grid setAlarm]. rewrite broadcast_grid.
    reflexivity.
  - destruct (randomDiceArray _ _). rewrite broadcast_grid. reflexivity.
Qed.

(** The timer leaves the layout alone, or empties the board when the room
    is cleaned up. *)
Lemma alarm_sites (e : Env) (s : Storage) :
  map site (grid (fst (alarm e s))) = map site (grid s) \/
  grid (fst (alarm e s)) = [].
Proof.
  unfold alarm. destruct (config s) as [cfg|]; [|left; reflexivity].
  destruct (phase cfg).
  - left. reflexivity.
  - left. rewrite alarm_round_start_grid. apply sites_aging.
  - left. rewrite alarm_market_grid. reflexivity.
  - left. rewrite alarm_buy_grid. apply sites_applyClaims.
  - left. rewrite alarm_path_grid. reflexivity.
  - left. unfold alarm_auction.
    pose proof (sites_auctionSteps (pendingActions s) (conflicts (pendingActions s))
                  (players s, grid s, orElse (marketDice cfg) [])) as H.
    destruct (fold_left _ _ _) as [[ps g] md]. cbn [fst snd] in H.
    rewrite enterPathPhase_grid. exact H.
  - left. rewrite alarm_round_end_grid. reflexivity.
  - destruct (deadlinePassed e cfg); [right|left]; reflexivity.
Qed.

Lemma notJoined_grid (e : Env) (ws : nat) (s : Storage) :
  grid (fst (notJoined e ws s)) = grid s.
Proof. unfold notJoined. rewrite andThen_fst, broadcast_grid. reflexivity. Qed.

Lemma handleJoin_grid (e : Env) (ws : nat) (name : option string) (s : Storage) :
  grid (fst (handleJoin e ws name s)) = grid s.
Proof.
  unfold handleJoin. destruct (inPhase lobby s); [|reflexivity].
  destruct (ensurePlayerColors _ _) as [ps g1].
  destruct (distinctPlayerColor _ _) as [c g2].
  rewrite andThen_fst, broadcast_grid. reflexivity.
Qed.

Lemma alarm_boardStep (e : Env) (s : Storage) (pa : PendingActions) :
  boardStep (grid s) (grid (fst (alarm e (set_pending pa s)))).
Proof.
  destruct (alarm_sites e (set_pending pa s)) as [H|H]; [left|right; left];
    exact H.
Qed.

Ltac same_board :=
  rewrite ?andThen_fst, ?broadcast_grid, ?notJoined_grid, ?handleJoin_grid;
  cbn [fst sendTo grid set_pending set_players set_submittedPaths];
  left; reflexivity.

Lemma message_boardStep (e : Env) (ws : nat) (attached : option string)
    (m : Msg) (s : Storage) :
  boardStep (grid s) (grid (fst (webSocketMessage e ws attached m s))).
Proof.
  destruct m; cbn [webSocketMessage].
  - (* tick *)
    rewrite andThen_fst, broadcast_grid. unfold maybeAdvanceTimedPhase.
    destruct (config s) as [cfg|]; [|left; reflexivity].
    destruct (_ && _); [|left; reflexivity].
    destruct (alarm_sites e s) as [H|H]; [left|right; left]; exact H.
  - same_board.
  - unfold handleRejoin. destruct (existsb _ _); [same_board|].
    destruct (inPhase lobby s); same_board.
  - (* start_game *)
    unfold handleStartGame. destruct (ensurePlayerColors _ _) as [ps g1].
    destruct (config s) as [cfg|]; [|same_board].
    destruct (_ || _); [same_board|].
    pose proof (eq_refl (generateGrid (len ps * roundCount cfg)
                  (Z.min 15 (Z.max 5 (len ps * roundCount cfg / 10))) g1)) as Hg.
    destruct (generateGrid _ _ g1) as [grid' g2] in Hg at 1 |- *.
    destruct (randomDiceArray _ g2) as [md g3].
    destruct (dealStart ps g3) as [ps' g4].
    rewrite broadcast_grid. cbn [grid setAlarm set_submittedPaths set_pending set_grid].
    right. right. eexists _, _, g1. rewrite <- Hg. reflexivity.
  - (* buy_cell *)
    unfold handleBuyCell. destruct (joinedAs attached) as [pid|]; [|same_board].
    destruct (negb _); [same_board|].
    destruct (find_cell _ _) as [cell|]; [|same_board].
    destruct (find_player _ _) as [player|]; [|same_board].
    destruct (_ || _); [same_board|].
    destruct (negb _); same_board.
  - unfold handleBuyCellCancel.
    destruct (joinedAs attached) as [pid|]; [|same_board].
    destruct (negb _); same_board.
  - unfold handleBuyDone. destruct (joinedAs attached) as [pid|]; [|same_board].
    destruct (negb _); [same_board|].
    destruct (everyoneIn _ _); [apply alarm_boardStep|same_board].
  - unfold handleAuctionBid.
    destruct (joinedAs attached) as [pid|]; [|same_board].
    destruct (negb _); [same_board|].
    destruct (find _ _); same_board.
  - (* path *)
    unfold handlePath. destruct (joinedAs attached) as [pid|]; [|same_board].
    destruct (negb _); [same_board|].
    destruct (find_cell producer_id _) as [pc|]; [|same_board].
    destruct (find_cell seller_id _) as [sc|]; [|same_board].
    destruct (negb _); [same_board|]. destruct (negb _); [same_board|].
    destruct p as [|first [|second rest]]; try same_board.
    destruct (_ || _); [same_board|].
    destruct (checkPath _ _); same_board.
  - unfold handlePathDone. destruct (joinedAs attached) as [pid|]; [|same_board].
    destruct (negb _); [same_board|].
    destruct (everyoneIn _ _); [apply alarm_boardStep|same_board].
  - unfold handleMarketBid. destruct (joinedAs attached) as [pid|]; [|same_board].
    destruct (config s) as [cfg|]; [|same_board].
    destruct (negb _); [same_board|].
    destruct (_ || _); [same_board|]. destruct (amt <? _); [same_board|].
    destruct (everyoneIn _ _); [apply alarm_boardStep|same_board].
  - unfold handleMarketSkip. destruct (joinedAs attached) as [pid|]; [|same_board].
    destruct (negb _); [same_board|].
    destruct (everyoneIn _ _); [apply alarm_boardStep|same_board].
  - unfold handleMarketRecycle.
    destruct (joinedAs attached) as [pid|]; [|same_board].
    destruct (negb _); [same_board|].
    destruct (find_player _ _) as [player|]; [|same_board].
    destruct (_ || _); same_board.
  - same_board.
Qed.

Lemma step_boardStep (e : Env) (s : Storage) (ev : Event) :
  boardStep (grid s) (grid (fst (step e s ev))).
Proof.
  destruct ev as [ws attached m| |]; cbn [step].
  - apply message_boardStep.
  - destruct (alarm_sites e s) as [H|H]; [left|right; left]; exact H.
  - left. rewrite broadcast_grid. reflexivity.
Qed.

Lemma gridOk_sites (g g' : list Cell) :
  map site g' = map site g -> GridOk g -> GridOk g'.
Proof.
  intros H [Hc Hi Hn].
  assert (Ha : map cellAxial g' = map cellAxial g).
  { transitivity (map (fun x => snd (fst (fst x))) (map site g'));
      [rewrite map_map; reflexivity|rewrite H, map_map; reflexivity]. }
  assert (Hid : map id g' = map id g).
  { transitivity (map (fun x => fst (fst (fst x))) (map site g'));
      [rewrite map_map; reflexivity|rewrite H, map_map; reflexivity]. }
  constructor.
  - rewrite Ha. exact Hc.
  - rewrite Hid. exact Hi.
  - clear Hc Hi Ha Hid. revert g' H.
    induction Hn as [|c t Hc _ IH]; intros [|c' t'] H; try discriminate H;
      constructor.
    + cbn [map] in H. injection H as H1 H2 H3 _ _.
      unfold cellName. rewrite H1, H2, H3. exact Hc.
    + apply IH. cbn [map] in H. now injection H.
Qed.

Lemma generateGrid_gridOk (minCells blockedCount : Z) (g : Rng) :
  GridOk (fst (generateGrid minCells blockedCount g)).
Proof.
  set (cells := fst (generateGrid minCells blockedCount g)).
  destruct (generateGrid_parts minCells blockedCount g)
    as (si & dv & g3 & _ & _ & _ & _ & Hgen).
  set (coords := hexRegion _) in *. set (bs := firstn _ si) in *.
  destruct (buildCells_maps coords 0 dv bs g3) as (M1 & _ & _ & M4).
  rewrite <- Hgen in M1, M4. fold cells in M1, M4.
  assert (Hnames : Forall (fun c => id c = cellName c) cells).
  { eapply Forall_impl; [|exact M4]. intros c (_ & _ & I). exact I. }
  constructor; [rewrite M1; apply hexRegion_NoDup| |exact Hnames].
  set (idOf := fun a : Axial => "cell-" +++ zstr (aq a) +++ "-" +++ zstr (ar a)).
  assert (E : map id cells = map idOf (map cellAxial cells)).
  { rewrite map_map. apply map_ext_in. intros c Hc.
    rewrite Forall_forall in Hnames. exact (Hnames c Hc). }
  rewrite E, M1. apply NoDup_map_inj; [|apply hexRegion_NoDup].
  intros [x y] [x' y'] _ _ H. unfold idOf in H. cbn [aq ar] in H.
  apply cellId_inj in H. destruct H as [-> ->]. reflexivity.
Qed.

(** Every reachable room has a board laid out as [generateGrid] lays it
    out (or none yet). *)
Lemma reachable_gridOk (s : Storage) : reachable s -> GridOk (grid s).
Proof.
  intros H. induction H as [rounds|e s ev H IH].
  - constructor; cbn; constructor.
  - destruct (step_boardStep e s ev) as [Hs|[Hs|(m & b & g & Hs)]].
    + exact (gridOk_sites _ _ Hs IH).
    + rewrite Hs. constructor; cbn; constructor.
    + rewrite Hs. apply generateGrid_gridOk.
Qed.

(* ================================================================== *)
(** * Path revenue (C1) *)

Lemma onHex_coords (hex : Axial) (c : Cell) :
  onHex hex c = true <-> cellAxial c = hex.
Proof.
  unfold onHex, cellAxial. destruct hex as [x y]. cbn [aq ar].
  rewrite andb_true_iff, !Z.eqb_eq. split.
  - intros [-> ->]. reflexivity.
  - intros [= -> ->]. auto.
Qed.

Lemma enemyHex_spec (g : list Cell) (pid : string) (hex : Axial) :
  enemyHex g pid hex = true <->
  exists c o, In c g /\ q c = aq hex /\ r c = ar hex /\
              In o (owners c) /\ o_playerId o <> pid.
Proof.
  unfold enemyHex, hasStranger, onHex. rewrite existsb_exists. split.
  - intros (c & Hc & H). apply andb_true_iff in H. destruct H as [Hon Hs].
    apply andb_true_iff in Hon. destruct Hon as [Hq Hr].
    apply existsb_exists in Hs. destruct Hs as (o & Ho & Hne).
    exists c, o. apply Z.eqb_eq in Hq, Hr.
    apply negb_true_iff, String.eqb_neq in Hne. auto.
  - intros (c & o & Hc & Hq & Hr & Ho & Hne). exists c. split; [exact Hc|].
    apply andb_true_iff. split.
    + apply andb_true_iff. split; apply Z.eqb_eq; assumption.
    + apply existsb_exists. exists o. split; [exact Ho|].
      apply negb_true_iff, String.eqb_neq. exact Hne.
Qed.

(** On a board without two cells on one hex, the cell the code looks up
    with [find] is the only cell of the hex. *)
Lemma enemyAt_enemyHex (g : list Cell) (pid : string) (hex : Axial) :
  NoDup (map cellAxial g) -> enemyAt g pid hex = enemyHex g pid hex.
Proof.
  unfold enemyAt, cellAt, enemyHex. induction g as [|c t IH]; intros Hn;
    [reflexivity|].
  cbn [map] in Hn. apply NoDup_cons_iff in Hn. destruct Hn as [Hc Hn].
  cbn [find existsb]. fold (onHex hex c).
  destruct (onHex hex c) eqn:Hon; cbn [andb].
  - apply onHex_coords in Hon.
    assert (Hrest : existsb (fun c0 => onHex hex c0 && hasStranger pid c0) t = false).
    { apply not_true_is_false. intros H. apply existsb_exists in H.
      destruct H as (c' & Hc' & H). apply andb_true_iff in H.
      destruct H as [H _]. apply onHex_coords in H.
      apply Hc. rewrite Hon, <- H. apply in_map, Hc'. }
    rewrite Hrest, orb_false_r. reflexivity.
  - exact (IH Hn).
Qed.

Lemma enemyTerritory_counted (g : list Cell) (pid : string) (p : list Axial) :
  NoDup (map cellAxial g) ->
  len (filter (enemyAt g pid) (interior p)) = enemyTerritory g pid p.
Proof.
  intros Hn. unfold enemyTerritory. f_equal. apply filter_ext.
  intros hex. apply enemyAt_enemyHex, Hn.
Qed.

Lemma len_filter_le {A} (f : A -> bool) (l : list A) : len (filter f l) <= len l.
Proof. unfold len. pose proof (filter_length_le f l). lia. Qed.

(** C1.  In a reachable room, a path of [N + 1] hexes that [handlePath]
    accepts (sender joined, path phase, producer and seller cells owned in
    those roles, at least two hexes with matching endpoints, contiguous
    and off blocked cells) is stored for the submitter with revenue
    [P.producer * max 0 (min (S.seller - N - 2 * enemyTerritory) 1)], which
    is also reported to the sender.  Here [enemyTerritory] is the number of
    hexes strictly between the two endpoints on which the grid has a cell
    with an owner other than the submitter.  With producer 9, seller 9 and
    no enemy territory, path length 3 gives 9 and path length 9 gives
    0. *)
Theorem C1_path_revenue (e : Env) (ws : nat) (attached : option string)
    (pid producer_id seller_id : string) (first second : Axial)
    (rest : list Axial) (s : Storage) (P S : Cell) :
  let p := first :: second :: rest in
  reachable s ->
  joinedAs attached = Some pid ->
  inPhase path_phase s = true ->
  find_cell producer_id (grid s) = Some P ->
  existsb (hasRole pid Producer) (owners P) = true ->
  find_cell seller_id (grid s) = Some S ->
  existsb (hasRole pid Seller) (owners S) = true ->
  axialEquals first (cellAxial P) = true ->
  axialEquals (last p {| aq := 0; ar := 0 |}) (cellAxial S) = true ->
  checkPath (blockedKeys (grid s)) p = None ->
  let out := handlePath e ws attached producer_id seller_id p s in
  let rev := producer P *
             Z.max 0 (Z.min (seller S - (len p - 1)
                             - 2 * enemyTerritory (grid s) pid p) 1) in
  rget pid (submittedPaths (fst out))
    = Some {| producerId := producer_id; sellerId := seller_id; path := p;
              revenue := rev |} /\
  snd out = [OPathRevenue ws rev; OState] /\
  0 <= enemyTerritory (grid s) pid p <= len p - 2 /\
  (forall hex, In hex (filter (enemyHex (grid s) pid) (interior p)) <->
     In hex (interior p) /\
     exists c o, In c (grid s) /\ q c = aq hex /\ r c = ar hex /\
                 In o (owners c) /\ o_playerId o <> pid) /\
  (producer P = 9 -> seller S = 9 -> enemyTerritory (grid s) pid p = 0 ->
     (len p - 1 = 3 -> rev = 9) /\ (len p - 1 = 9 -> rev = 0)).
Proof.
  intros p Hr Hj Hph HP HoP HS HoS Hfirst Hlast Hcheck out rev.
  pose proof (grid_coords (reachable_gridOk s Hr)) as Hn.
  assert (Hout : out = andThen
            (set_submittedPaths
               (rset pid {| producerId := producer_id; sellerId := seller_id;
                            path := p; revenue := rev |} (submittedPaths s))
               (set_pending
                  (set_pathReady (rdel pid (pathReady (pendingActions s)))
                                 (pendingActions s)) s),
             [OPathRevenue ws rev]) (broadcastState e)).
  { unfold out, handlePath. rewrite Hj, Hph, HP, HS, HoP, HoS.
    cbn [negb]. fold p. unfold p at 1. fold p.
    rewrite Hfirst, Hlast. cbn [negb orb].
    fold (blockedKeys (grid s)). rewrite Hcheck.
    rewrite computePathRevenue_spec, (enemyTerritory_counted _ _ _ Hn).
    reflexivity. }
  split.
  { rewrite Hout, andThen_fst. cbn [fst]. rewrite broadcast_submittedPaths.
    cbn [submittedPaths set_submittedPaths]. apply rget_rset_same. }
  split.
  { rewrite Hout, andThen_snd, broadcast_snd. reflexivity. }
  split.
  { unfold enemyTerritory. split; [apply len_nonneg|].
    etransitivity; [apply len_filter_le|].
    rewrite interior_slice. unfold len. rewrite length_firstn, length_skipn.
    unfold p. cbn [List.length]. lia. }
  split.
  { intros hex. rewrite filter_In, enemyHex_spec. reflexivity. }
  intros Hp9 Hs9 He. unfold rev. rewrite Hp9, Hs9, He.
  split; intros Hl; rewrite Hl; reflexivity.
Qed.

Lemma enemyRoom_reachable : reachable enemyRoom.
Proof. apply reachable_run, startedRoom_reachable. Qed.

(** The witness of C1.  Ann's producer cell (0,-1) has producer value 7
    and her seller cell (2,-1) seller value 3; Bob's cell (1,-1) lies
    between them.  The three-hex path has length 2 and one hex of enemy
    territory, so it is stored with revenue 7 * max 0 (3 - 2 - 2) = 0;
    without Bob's cell it would have earned 7. *)
Lemma C1_path_revenue_witness :
  reachable enemyRoom /\
  enemyTerritory (grid enemyRoom) "aaaaaaaa" enemyPath = 1 /\
  rget "aaaaaaaa"
    (submittedPaths (fst (handlePath (demoEnv 10 "") 1 ann
                            "cell-0--1" "cell-2--1" enemyPath enemyRoom)))
  = Some {| producerId := "cell-0--1"; sellerId := "cell-2--1";
            path := enemyPath; revenue := 7 * Z.max 0 (Z.min (3 - 2 - 2 * 1) 1) |}.
Proof.
  split; [exact enemyRoom_reachable|]. split; [vm_compute; reflexivity|].
  destruct (C1_path_revenue (demoEnv 10 "") 1 ann "aaaaaaaa"
              "cell-0--1" "cell-2--1" (hexAt 0 (-1)) (hexAt 1 (-1)) [hexAt 2 (-1)]
              enemyRoom
              (orElse (find_cell "cell-0--1" (grid enemyRoom)) (rowCell 0 []))
              (orElse (find_cell "cell-2--1" (grid enemyRoom)) (rowCell 0 [])))
    as (Hstored & _).
  - exact enemyRoom_reachable.
  - reflexivity.
  - vm_compute. reflexivity.
  - vm_compute. reflexivity.
  - vm_compute. reflexivity.
  - vm_compute. reflexivity.
  - vm_compute. reflexivity.
  - vm_compute. reflexivity.
  - vm_compute. reflexivity.
  - vm_compute. reflexivity.
  - fold enemyPath in Hstored. rewrite Hstored. vm_compute. reflexivity.
Defined.

(* ================================================================== *)
(** * Buy-phase resolution in a reachable room (C5) *)

(** ** The table of cells by identifier *)

Lemma find_cell_id (k : string) (g : list Cell) (c : Cell) :
  find_cell k g = Some c -> id c = k /\ In c g.
Proof.
  unfold find_cell, is_cell. intros H. split.
  - apply find_some in H. apply String.eqb_eq, H.
  - apply find_some in H. apply H.
Qed.

Lemma find_cell_none (k : string) (g : list Cell) :
  ~ In k (map id g) -> find_cell k g = None.
Proof.
  intros H. unfold find_cell. destruct (find (is_cell k) g) as [c|] eqn:E;
    [|reflexivity].
  exfalso. apply H. destruct (find_cell_id k g c E) as [<- Hin].
  apply in_map, Hin.
Qed.

Lemma cellById_from (k : string) (g : list Cell) (m0 : Rec Cell) :
  NoDup (map id g) ->
  rget k (fold_left (fun m c => rset (id c) c m) g m0)
  = match find_cell k g with
    | Some c => Some c
    | None => rget k m0
    end.
Proof.
  revert m0. induction g as [|c t IH]; intros m0 Hn; [reflexivity|].
  cbn [map] in Hn. apply NoDup_cons_iff in Hn. destruct Hn as [Hc Hn].
  cbn [fold_left]. rewrite (IH _ Hn).
  assert (Hc0 : find_cell k (c :: t)
                = if String.eqb (id c) k then Some c else find_cell k t)
    by reflexivity.
  rewrite Hc0. destruct (String.eqb_spec (id c) k) as [E|E].
  - subst k. rewrite (find_cell_none _ _ Hc). apply rget_rset_same.
  - destruct (find_cell k t); [reflexivity|].
    apply rget_rset_other. intros E'. apply E. now symmetry.
Qed.

(** On a board with pairwise distinct identifiers the [Map] of
    [handleBuyCell] and [grid.find] agree. *)
Lemma cellById_find (k : string) (g : list Cell) :
  NoDup (map id g) -> rget k (cellById g) = find_cell k g.
Proof.
  intros Hn. unfold cellById. rewrite (cellById_from k g [] Hn).
  destruct (find_cell k g); reflexivity.
Qed.

(** ** The index of the queued buys *)

Lemma orElse_listOpt (l : list string) : orElse (listOpt l) [] = l.
Proof. destruct l; reflexivity. Qed.

Lemma listOpt_snoc (l : list string) (x : string) :
  listOpt (l ++ [x]) = Some (l ++ [x]).
Proof. destruct l; reflexivity. Qed.

Lemma existsb_sameCell (cell : string) (acts : list BuyAct) :
  existsb (sameCell cell) acts = true <-> In cell (map cellId acts).
Proof.
  rewrite existsb_exists, in_map_iff. unfold sameCell. split.
  - intros (a & Ha & E). apply String.eqb_eq in E. eauto.
  - intros (a & E & Ha). exists a. split; [exact Ha|]. now apply String.eqb_eq.
Qed.

(** One queue, indexed from the accumulator [(roles, byCell)]: every cell
    of the queue gets [pid] appended to its list of claimants. *)
Lemma indexActs_byCell (pid : string) (acts : list BuyAct) :
  forall (roles : Rec Role) (byCell : Rec (list string)) (seen : list string),
  NoDup (map cellId acts) ->
  (forall a, In a acts -> cellId a <> "" /\ ~ In (cellId a) seen) ->
  (forall a l, In a acts -> rget (cellId a) byCell = Some l -> ~ In pid l) ->
  forall cell,
    rget cell (snd (fst (fold_left (indexAct pid) acts ((roles, byCell), seen))))
    = if existsb (sameCell cell) acts
      then Some (orElse (rget cell byCell) [] ++ [pid])
      else rget cell byCell.
Proof.
  induction acts as [|a t IH]; intros roles byCell seen Hn Hseen Hfresh cell;
    [reflexivity|].
  cbn [map] in Hn. apply NoDup_cons_iff in Hn. destruct Hn as [Ha Hn].
  cbn [fold_left]. unfold indexAct at 2.
  destruct (Hseen a (or_introl eq_refl)) as [Hne Hns].
  apply String.eqb_neq in Hne. rewrite Hne. cbn [orb].
  rewrite (existsb_absent _ _ Hns).
  assert (Hlist : existsb (String.eqb pid) (orElse (rget (cellId a) byCell) []) = false).
  { destruct (rget (cellId a) byCell) as [l|] eqn:El; [|reflexivity].
    apply existsb_absent. exact (Hfresh a l (or_introl eq_refl) El). }
  rewrite Hlist. rewrite IH; clear IH.
  - assert (Hc0 : existsb (sameCell cell) (a :: t)
                  = String.eqb (cellId a) cell || existsb (sameCell cell) t)
      by reflexivity.
    rewrite Hc0. destruct (String.eqb_spec (cellId a) cell) as [E|E].
    + subst cell. cbn [orb].
      assert (Ht : existsb (sameCell (cellId a)) t = false).
      { apply not_true_is_false. intros H. apply existsb_sameCell in H.
        contradiction. }
      rewrite Ht. apply rget_rset_same.
    + cbn [orb]. rewrite (rget_rset_other _ _ _ _ E). reflexivity.
  - exact Hn.
  - intros x Hx. destruct (Hseen x (or_intror Hx)) as [H1 H2].
    split; [exact H1|]. intros [E|H3]; [|contradiction].
    apply Ha. rewrite E. apply in_map, Hx.
  - intros x l Hx Hl. rewrite rget_rset_other in Hl.
    + exact (Hfresh x l (or_intror Hx) Hl).
    + intros E. apply Ha. rewrite E. apply in_map, Hx.
Qed.

Lemma claimants_cons (pid : string) (acts : list BuyAct) (b : Rec (list BuyAct))
    (cell : string) :
  claimants ((pid, acts) :: b) cell
  = (if existsb (sameCell cell) acts then [pid] else []) ++ claimants b cell.
Proof.
  unfold claimants. cbn [filter snd].
  destruct (existsb (sameCell cell) acts); reflexivity.
Qed.

Lemma claimants_In (b : Rec (list BuyAct)) (cell pid : string) :
  In pid (claimants b cell) <->
  exists queue, In (pid, queue) b /\ In cell (map cellId queue).
Proof.
  unfold claimants. rewrite in_map_iff. split.
  - intros ([p queue] & E & H). cbn in E. subst p.
    apply filter_In in H. destruct H as [H1 H2]. cbn [snd] in H2.
    exists queue. split; [exact H1|]. now apply existsb_sameCell.
  - intros (queue & H1 & H2). exists (pid, queue). split; [reflexivity|].
    apply filter_In. split; [exact H1|]. now apply existsb_sameCell.
Qed.

Lemma indexBuys_from (b : Rec (list BuyAct)) :
  forall (acc : BuyIndex) (L : string -> list string),
  tidyBuys b ->
  (forall cell, rget cell (snd acc) = listOpt (L cell)) ->
  (forall cell pid, In pid (L cell) -> ~ In pid (dkeys b)) ->
  forall cell,
    rget cell (snd (fold_left indexPlayer b acc))
    = listOpt (L cell ++ claimants b cell).
Proof.
  induction b as [|[pid acts] t IH]; intros [roles byCell] L [Hk Hq] HL Hfresh cell.
  - cbn. rewrite app_nil_r. apply HL.
  - cbn [dkeys map fst] in Hk. apply NoDup_cons_iff in Hk. destruct Hk as [Hp Hk].
    apply Forall_cons_iff in Hq. destruct Hq as [[Hcells Hne] Hq]. cbn [snd] in *.
    cbn [fold_left]. unfold indexPlayer at 2.
    set (L1 := fun c => L c ++ (if existsb (sameCell c) acts then [pid] else [])).
    rewrite (IH _ L1).
    + unfold L1. rewrite claimants_cons, app_assoc. reflexivity.
    + split; assumption.
    + intros c.
      pose proof (indexActs_byCell pid acts roles byCell [] Hcells) as Hi.
      cbn [snd] in HL. rewrite Hi.
      * unfold L1. rewrite HL, orElse_listOpt.
        destruct (existsb (sameCell c) acts);
          [symmetry; apply listOpt_snoc|now rewrite app_nil_r].
      * intros a Ha. rewrite Forall_forall in Hne. split; [auto|intros []].
      * intros a l Ha Hl Hin. rewrite HL in Hl.
        apply (Hfresh (cellId a) pid); [|now left].
        destruct (L (cellId a)); [discriminate|]. now injection Hl as ->.
    + intros c p Hin. unfold L1 in Hin. apply in_app_or in Hin.
      destruct Hin as [Hin|Hin].
      * intros H. apply (Hfresh c p Hin). now right.
      * destruct (existsb (sameCell c) acts); [|destruct Hin].
        destruct Hin as [<-|[]]. exact Hp.
Qed.

(** For every cell, the index lists the players that queued it, in the
    order of the buffer. *)
Lemma indexBuys_byCell (b : Rec (list BuyAct)) (cell : string) :
  tidyBuys b -> rget cell (snd (indexBuys b)) = listOpt (claimants b cell).
Proof.
  intros H. unfold indexBuys.
  exact (indexBuys_from b ([], []) (fun _ => []) H (fun _ => eq_refl)
           (fun _ _ F => match F with end) cell).
Qed.

(** ** The declared roles *)

Lemma hasChar_app_sep (sep : ascii) (a b : string) :
  hasChar sep (a +++ String sep b) = true.
Proof.
  induction a as [|c t IH]; cbn.
  - now rewrite Ascii.eqb_refl.
  - rewrite IH. apply orb_true_r.
Qed.

(** Two strings that agree once a separator and a tail are appended agree
    piecewise, provided the separator does not occur in the tails. *)
Lemma app_sep_inj_tail (sep : ascii) (a a' b b' : string) :
  hasChar sep b = false -> hasChar sep b' = false ->
  a +++ String sep b = a' +++ String sep b' -> a = a' /\ b = b'.
Proof.
  intros Hb Hb'. revert a'. induction a as [|c t IH]; intros [|c' t'] H; cbn in H.
  - injection H as ->. auto.
  - injection H as <- H. rewrite H, hasChar_app_sep in Hb. discriminate.
  - injection H as -> H. rewrite <- H, hasChar_app_sep in Hb'. discriminate.
  - injection H as -> H. destruct (IH t' H) as [-> ->]. auto.
Qed.

Lemma append_cancel_l (a x y : string) : a +++ x = a +++ y -> x = y.
Proof.
  induction a as [|c t IH]; cbn; [auto|]. intros H. injection H as H. auto.
Qed.

Lemma roleKey_inj (pid pid' cell cell' : string) :
  hasChar ":" cell = false -> hasChar ":" cell' = false ->
  roleKey pid cell = roleKey pid' cell' -> pid = pid' /\ cell = cell'.
Proof. intros H H'. unfold roleKey. apply app_sep_inj_tail; assumption. Qed.

Lemma hasChar_app (c : ascii) (a b : string) :
  hasChar c (a +++ b) = hasChar c a || hasChar c b.
Proof.
  induction a as [|x t IH]; cbn; [reflexivity|]. rewrite IH. apply orb_assoc.
Qed.

Lemma uint_no_colon (d : Decimal.uint) :
  hasChar ":" (NilEmpty.string_of_uint d) = false.
Proof. induction d; cbn; auto. Qed.

Lemma zstr_no_colon (z : Z) : hasChar ":" (zstr z) = false.
Proof.
  unfold zstr. destruct (Z.to_int z) as [d|d]; cbn;
    destruct d; cbn; auto using uint_no_colon.
Qed.

Lemma cellName_no_colon (c : Cell) : hasChar ":" (cellName c) = false.
Proof.
  unfold cellName. rewrite !hasChar_app, !zstr_no_colon. reflexivity.
Qed.

Lemma cellName_not_empty (c : Cell) : cellName c <> "".
Proof. unfold cellName. cbn. discriminate. Qed.

(** The inner loop stores the role of every act of the queue under the key
    of the player and the cell, and touches no other key. *)
Lemma indexActs_roles (pid : string) (acts : list BuyAct) :
  forall (roles : Rec Role) (byCell : Rec (list string)) (seen : list string),
  NoDup (map cellId acts) ->
  (forall a, In a acts -> cellId a <> "" /\ ~ In (cellId a) seen) ->
  let roles' := fst (fst (fold_left (indexAct pid) acts ((roles, byCell), seen))) in
  (forall a, In a acts -> rget (roleKey pid (cellId a)) roles' = Some (role a)) /\
  (forall k, (forall a, In a acts -> roleKey pid (cellId a) <> k) ->
             rget k roles' = rget k roles).
Proof.
  induction acts as [|a t IH]; intros roles byCell seen Hn Hseen; cbv zeta.
  - cbn. split; [intros a []|reflexivity].
  - cbn [map] in Hn. apply NoDup_cons_iff in Hn. destruct Hn as [Ha Hn].
    cbn [fold_left]. unfold indexAct at 2. unfold indexAct at 3.
    destruct (Hseen a (or_introl eq_refl)) as [Hne Hns].
    apply String.eqb_neq in Hne. rewrite Hne. cbn [orb].
    rewrite (existsb_absent _ _ Hns).
    match goal with
    | |- context [fold_left (indexAct pid) t (?r, ?b, ?sn)] =>
        destruct (IH r b sn Hn) as [I1 I2]
    end.
    { intros x Hx. destruct (Hseen x (or_intror Hx)) as [H1 H2].
      split; [exact H1|]. intros [E|H3]; [|contradiction].
      apply Ha. rewrite E. apply in_map, Hx. }
    split.
    + intros x [<-|Hx]; [|exact (I1 x Hx)].
      rewrite I2; [apply rget_rset_same|].
      intros y Hy E. unfold roleKey in E. apply append_cancel_l in E.
      apply Ha. injection E as <-. apply in_map, Hy.
    + intros k Hk. rewrite I2 by (intros y Hy; apply Hk; now right).
      apply rget_rset_other. apply Hk. now left.
Qed.

Lemma indexBuys_roles_from (b : Rec (list BuyAct)) :
  forall acc : BuyIndex,
  tidyBuys b ->
  (forall pid queue a, In (pid, queue) b -> In a queue ->
                       hasChar ":" (cellId a) = false) ->
  let roles' := fst (fold_left indexPlayer b acc) in
  (forall pid queue a, In (pid, queue) b -> In a queue ->
     rget (roleKey pid (cellId a)) roles' = Some (role a)) /\
  (forall k, (forall pid queue a, In (pid, queue) b -> In a queue ->
                                  roleKey pid (cellId a) <> k) ->
             rget k roles' = rget k (fst acc)).
Proof.
  induction b as [|[pid acts] t IH]; intros [roles byCell] [Hk Hq] Hcol; cbv zeta.
  - cbn. split; [intros ? ? ? []|reflexivity].
  - cbn [dkeys map fst] in Hk. apply NoDup_cons_iff in Hk. destruct Hk as [Hp Hk].
    apply Forall_cons_iff in Hq. destruct Hq as [[Hcells Hne] Hq]. cbn [snd] in *.
    cbn [fold_left]. unfold indexPlayer at 2. unfold indexPlayer at 3.
    destruct (indexActs_roles pid acts roles byCell [] Hcells) as [A1 A2].
    { intros a Ha. rewrite Forall_forall in Hne. split; [auto|intros []]. }
    match goal with
    | |- context [fold_left indexPlayer t ?a] => destruct (IH a) as [I1 I2]
    end.
    { split; assumption. }
    { intros p q a Hin Ha. apply (Hcol p q a); [now right|exact Ha]. }
    split.
    + intros p q a [E|Hin] Ha.
      * injection E as <- <-. rewrite I2; [exact (A1 a Ha)|].
        intros p' q' a' Hin' Ha' E.
        apply roleKey_inj in E.
        -- destruct E as [E _]. apply Hp. rewrite <- E. unfold dkeys.
           change p' with (fst (p', q')). apply in_map, Hin'.
        -- apply (Hcol p' q' a'); [now right|exact Ha'].
        -- apply (Hcol pid acts a); [now left|exact Ha].
      * exact (I1 p q a Hin Ha).
    + intros k Hkey. rewrite I2.
      * cbn [fst]. apply A2. intros a Ha. apply (Hkey pid acts a); [now left|exact Ha].
      * intros p q a Hin Ha. apply (Hkey p q a); [now right|exact Ha].
Qed.

(** The index of roles holds, for every queued act, the role it declares. *)
Lemma indexBuys_roles (b : Rec (list BuyAct)) (pid : string)
    (queue : list BuyAct) (a : BuyAct) :
  tidyBuys b ->
  (forall pid queue a, In (pid, queue) b -> In a queue ->
                       hasChar ":" (cellId a) = false) ->
  In (pid, queue) b -> In a queue ->
  rget (roleKey pid (cellId a)) (fst (indexBuys b)) = Some (role a).
Proof.
  intros Ht Hcol Hin Ha.
  exact (proj1 (indexBuys_roles_from b ([], []) Ht Hcol) pid queue a Hin Ha).
Qed.

Lemma NoDup_rset {V} (k : string) (v : V) (d : Rec V) :
  NoDup (dkeys d) -> NoDup (dkeys (rset k v d)).
Proof. apply NoDup_dset, Seqb_spec. Qed.

Lemma indexActs_keys (pid : string) (acts : list BuyAct)
    (acc : BuyIndex * list string) :
  NoDup (dkeys (snd (fst acc))) ->
  NoDup (dkeys (snd (fst (fold_left (indexAct pid) acts acc)))).
Proof.
  revert acc. induction acts as [|a t IH]; intros [[roles byCell] seen] H;
    [exact H|].
  cbn [fold_left]. apply IH. unfold indexAct.
  destruct (_ || _); [exact H|]. cbn [fst snd] in *. apply NoDup_rset, H.
Qed.

Lemma indexBuys_keys_from (b : Rec (list BuyAct)) (acc : BuyIndex) :
  NoDup (dkeys (snd acc)) -> NoDup (dkeys (snd (fold_left indexPlayer b acc))).
Proof.
  revert acc. induction b as [|[pid acts] t IH]; intros acc H; [exact H|].
  cbn [fold_left]. apply IH. unfold indexPlayer.
  exact (indexActs_keys pid acts (acc, []) H).
Qed.

(** No cell stands twice in [byCell]. *)
Lemma indexBuys_keys (b : Rec (list BuyAct)) : NoDup (dkeys (snd (indexBuys b))).
Proof. apply indexBuys_keys_from. constructor. Qed.

(** ** The list of single-claimant claims *)

Lemma classifyCell_claims (t : Z) (g : list Cell) (ps : list Player)
    (roles : Rec Role) (acc : list Conflict * list Claim)
    (entry : string * list string) :
  snd (classifyCell t g ps roles acc entry)
  = snd acc ++ entryClaims g ps roles entry.
Proof.
  destruct acc as [cs toApply], entry as [cell pids].
  unfold classifyCell, entryClaims. cbn [fst snd].
  destruct pids as [|p0 [|p1 rest]]; cbn [snd]; try (now rewrite app_nil_r).
  destruct (find_cell cell g) as [c|]; [|now rewrite app_nil_r].
  destruct (find_player p0 ps) as [player|]; [|now rewrite app_nil_r].
  destruct (rget (roleKey p0 cell) roles) as [ro|]; [|now rewrite app_nil_r].
  destruct (negb (blocked c) && holdsDie (diceValue c) player);
    [reflexivity|now rewrite app_nil_r].
Qed.

Lemma classify_claims (t : Z) (g : list Cell) (ps : list Player)
    (roles : Rec Role) (byCell : Rec (list string))
    (acc : list Conflict * list Claim) :
  snd (fold_left (classifyCell t g ps roles) byCell acc)
  = snd acc ++ flat_map (entryClaims g ps roles) byCell.
Proof.
  revert acc. induction byCell as [|entry rest IH]; intros acc.
  - cbn. now rewrite app_nil_r.
  - cbn [fold_left flat_map]. rewrite IH, classifyCell_claims, app_assoc.
    reflexivity.
Qed.

Lemma buyClaims_entries (t : Z) (s : Storage) :
  buyClaims t s
  = flat_map (entryClaims (grid s) (players s)
                (fst (indexBuys (buy (pendingActions s)))))
             (snd (indexBuys (buy (pendingActions s)))).
Proof.
  unfold buyClaims. destruct (indexBuys _) as [roles byCell]. cbn [fst snd].
  apply classify_claims.
Qed.

Lemma entryClaims_cell (g : list Cell) (ps : list Player) (roles : Rec Role)
    (entry : string * list string) (cl : Claim) :
  In cl (entryClaims g ps roles entry) ->
  c_cellId cl = fst entry /\ snd entry = [c_playerId cl] /\
  entryClaims g ps roles entry = [cl].
Proof.
  destruct entry as [cell pids]. unfold entryClaims. cbn [fst snd].
  destruct pids as [|p0 [|p1 rest]]; try (intros []).
  destruct (find_cell cell g) as [c|]; [|intros []].
  destruct (find_player p0 ps) as [player|]; [|intros []].
  destruct (rget (roleKey p0 cell) roles) as [ro|]; [|intros []].
  destruct (negb (blocked c) && holdsDie (diceValue c) player); [|intros []].
  intros [<-|[]]. cbn. auto.
Qed.

(** No cell is claimed twice in the list of single-claimant claims. *)
Lemma entries_claim_once (g : list Cell) (ps : list Player) (roles : Rec Role)
    (byCell : Rec (list string)) :
  NoDup (dkeys byCell) ->
  NoDup (map c_cellId (flat_map (entryClaims g ps roles) byCell)).
Proof.
  induction byCell as [|entry rest IH]; intros Hn; [constructor|].
  cbn [dkeys map] in Hn. apply NoDup_cons_iff in Hn. destruct Hn as [Hk Hn].
  cbn [flat_map]. rewrite map_app.
  destruct (entryClaims g ps roles entry) as [|cl more] eqn:E; [exact (IH Hn)|].
  destruct (entryClaims_cell g ps roles entry cl) as (Hc & _ & Hone).
  { rewrite E. now left. }
  rewrite E in Hone. injection Hone as ->. cbn [map app].
  constructor; [|exact (IH Hn)].
  intros Hin. apply in_map_iff in Hin. destruct Hin as (cl' & Hc' & Hin).
  apply in_flat_map in Hin. destruct Hin as (entry' & He' & Hcl').
  apply entryClaims_cell in Hcl'. destruct Hcl' as (Hc'' & _).
  apply Hk. rewrite <- Hc, <- Hc', Hc''. unfold dkeys. apply in_map, He'.
Qed.

(** ** The dice-pool filter when the queues respect the hands *)

Lemma claimCount_cons (g : list Cell) (pid : string) (v : Z) (a : Claim)
    (t : list Claim) :
  claimCount g pid v (a :: t)
  = (if claimOf g pid v a then 1 else 0) + claimCount g pid v t.
Proof.
  unfold claimCount, claimsFor. cbn [filter].
  destruct (claimOf g pid v a); [|lia].
  unfold len. cbn [List.length]. lia.
Qed.

Lemma claimCount_nonneg (g : list Cell) (pid : string) (v : Z) (l : list Claim) :
  0 <= claimCount g pid v l.
Proof. apply len_nonneg. Qed.

Lemma claimOf_self (g : list Cell) (a : Claim) (c : Cell) :
  find_cell (c_cellId a) g = Some c ->
  claimOf g (c_playerId a) (diceValue c) a = true.
Proof.
  intros H. unfold claimOf. rewrite H, String.eqb_refl, Z.eqb_refl. reflexivity.
Qed.

Lemma claimOf_other (g : list Cell) (pid : string) (v : Z) (a : Claim) (c : Cell) :
  find_cell (c_cellId a) g = Some c ->
  c_playerId a <> pid \/ diceValue c <> v -> claimOf g pid v a = false.
Proof.
  intros H Hne. unfold claimOf. rewrite H.
  destruct Hne as [Hne|Hne].
  - apply String.eqb_neq in Hne. now rewrite Hne.
  - apply Z.eqb_neq in Hne. rewrite Hne. apply andb_false_r.
Qed.

(** When no player has more claims on cells of a face than dice of that
    face in the pool, the filter keeps every claim. *)
Lemma filter_keeps_all (g : list Cell) (l : list Claim) :
  forall (pool : DicePool) (kept : list Claim),
  (forall cl, In cl l -> find_cell (c_cellId cl) g <> None) ->
  (forall pid v, 0 < claimCount g pid v l ->
                 claimCount g pid v l <= poolLeft pool pid v) ->
  snd (fold_left (filterClaim g) l (pool, kept)) = kept ++ l.
Proof.
  induction l as [|a t IH]; intros pool kept Hfound Hcount.
  - cbn. now rewrite app_nil_r.
  - cbn [fold_left]. unfold filterClaim at 2.
    destruct (find_cell (c_cellId a) g) as [c|] eqn:Hc;
      [|exfalso; apply (Hfound a); [now left|exact Hc]].
    pose proof (Hcount (c_playerId a) (diceValue c)) as Hself.
    rewrite claimCount_cons, (claimOf_self g a c Hc) in Hself.
    pose proof (claimCount_nonneg g (c_playerId a) (diceValue c) t) as Hpos.
    specialize (Hself ltac:(lia)).
    destruct (rget (c_playerId a) pool) as [counts|] eqn:Hpool;
      [|rewrite (poolLeft_none _ _ _ Hpool) in Hself; lia].
    rewrite (poolLeft_some _ _ _ _ Hpool) in Hself.
    assert (Hleft : (orElse (dget Z.eqb (diceValue c) counts) 0 <=? 0) = false)
      by (apply Z.leb_gt; lia).
    rewrite Hleft. rewrite IH.
    + rewrite <- app_assoc. reflexivity.
    + intros cl Hcl. apply Hfound. now right.
    + intros pid v Hsome.
      destruct (String.eqb_spec (c_playerId a) pid) as [Ep|Ep];
        [destruct (Z.eq_dec (diceValue c) v) as [Ev|Ev]|].
      * subst pid v. rewrite poolLeft_used. lia.
      * rewrite (poolLeft_other _ _ _ _ _ _ _ Hpool) by (right; exact Ev).
        specialize (Hcount pid v). rewrite claimCount_cons in Hcount.
        rewrite (claimOf_other g pid v a c Hc) in Hcount by (right; exact Ev).
        lia.
      * rewrite (poolLeft_other _ _ _ _ _ _ _ Hpool) by (left; exact Ep).
        specialize (Hcount pid v). rewrite claimCount_cons in Hcount.
        rewrite (claimOf_other g pid v a c Hc) in Hcount by (left; exact Ep).
        lia.
Qed.

(** ** Committing the claims *)

Lemma addOwner_id (pid : string) (ro : Role) (c : Cell) :
  id (addOwner pid ro c) = id c.
Proof. reflexivity. Qed.

Lemma claimOn_none (k : string) (claims : list Claim) :
  ~ In k (map c_cellId claims) -> claimOn k claims = None.
Proof.
  intros H. unfold claimOn. destruct (find _ claims) as [cl|] eqn:E; [|reflexivity].
  apply find_some in E. destruct E as [Hin E]. apply String.eqb_eq in E.
  exfalso. apply H. rewrite <- E. apply in_map, Hin.
Qed.

Lemma claimOn_some (k : string) (claims : list Claim) (cl : Claim) :
  claimOn k claims = Some cl -> In cl claims /\ c_cellId cl = k.
Proof.
  unfold claimOn. intros E. apply find_some in E. destruct E as [Hin E].
  apply String.eqb_eq in E. auto.
Qed.

Lemma claimOn_in (claims : list Claim) (cl : Claim) :
  NoDup (map c_cellId claims) -> In cl claims ->
  claimOn (c_cellId cl) claims = Some cl.
Proof.
  induction claims as [|a t IH]; intros Hn Hin; [destruct Hin|].
  cbn [map] in Hn. apply NoDup_cons_iff in Hn. destruct Hn as [Ha Hn].
  unfold claimOn. cbn [find]. destruct Hin as [->|Hin].
  - now rewrite String.eqb_refl.
  - destruct (String.eqb_spec (c_cellId a) (c_cellId cl)) as [E|E].
    + exfalso. apply Ha. rewrite E. apply in_map, Hin.
    + exact (IH Hn Hin).
Qed.

(** The board after the committing loop: the cell of every claim has the
    claimant as a further owner, in the claimed role; every other cell is
    as before. *)
Lemma applyClaims_grid (claims : list Claim) (k : string) :
  forall (ps : list Player) (g : list Cell),
  NoDup (map c_cellId claims) ->
  find_cell k (snd (fold_left applyClaim claims (ps, g)))
  = match claimOn k claims with
    | Some cl => option_map (addOwner (c_playerId cl) (c_role cl)) (find_cell k g)
    | None => find_cell k g
    end.
Proof.
  induction claims as [|a t IH]; intros ps g Hn; [reflexivity|].
  cbn [map] in Hn. apply NoDup_cons_iff in Hn. destruct Hn as [Ha Hn].
  cbn [fold_left].
  assert (Hon : claimOn k (a :: t)
                = if String.eqb (c_cellId a) k then Some a else claimOn k t)
    by reflexivity.
  rewrite Hon. unfold applyClaim at 2.
  destruct (String.eqb_spec (c_cellId a) k) as [E|E].
  - subst k. destruct (find_cell (c_cellId a) g) as [c|] eqn:Hc.
    + rewrite (IH _ _ Hn), (claimOn_none _ _ Ha).
      apply find_cell_update_same; [apply addOwner_id|exact Hc].
    + rewrite (IH _ _ Hn), (claimOn_none _ _ Ha). exact Hc.
  - destruct (find_cell (c_cellId a) g) as [c|] eqn:Hc.
    + rewrite (IH _ _ Hn).
      rewrite (find_cell_update_other _ _ _ _ E (addOwner_id _ _)). reflexivity.
    + exact (IH _ _ Hn).
Qed.

Lemma count_occ_middle (l1 l2 : list Z) (v w : Z) :
  Z.of_nat (count_occ Z.eq_dec (l1 ++ v :: l2) w)
  = Z.of_nat (count_occ Z.eq_dec (l1 ++ l2) w) + (if v =? w then 1 else 0).
Proof.
  rewrite !count_occ_app. cbn [count_occ].
  destruct (Z.eq_dec v w) as [->|Hne].
  - rewrite Z.eqb_refl. lia.
  - apply Z.eqb_neq in Hne. rewrite Hne. lia.
Qed.

Lemma holdsDie_count (v : Z) (p : Player) :
  0 < Z.of_nat (count_occ Z.eq_dec (dice p) v) -> holdsDie v p = true.
Proof.
  intros H. unfold holdsDie. apply existsb_exists. exists v.
  split; [|apply Z.eqb_refl].
  apply (count_occ_In Z.eq_dec). lia.
Qed.

(** The hands after the committing loop: every claim has used up one die
    of the face of its cell, and nothing else has changed. *)
Lemma applyClaims_players (g0 : list Cell) (claims : list Claim) (pid : string) :
  forall (ps : list Player) (g : list Cell) (p : Player),
  (forall k, option_map diceValue (find_cell k g)
             = option_map diceValue (find_cell k g0)) ->
  find_player pid ps = Some p ->
  (forall v, claimCount g0 pid v claims
             <= Z.of_nat (count_occ Z.eq_dec (dice p) v)) ->
  exists p',
    find_player pid (fst (fold_left applyClaim claims (ps, g))) = Some p' /\
    playerId p' = playerId p /\ money p' = money p /\
    forall v, Z.of_nat (count_occ Z.eq_dec (dice p') v)
              = Z.of_nat (count_occ Z.eq_dec (dice p) v)
                - claimCount g0 pid v claims.
Proof.
  induction claims as [|a t IH]; intros ps g p Hval Hp Hcount.
  - exists p. cbn [fold_left fst]. repeat split; try assumption.
    intros v. unfold claimCount, claimsFor. cbn. lia.
  - cbn [fold_left]. unfold applyClaim at 2.
    pose proof (Hval (c_cellId a)) as Hva.
    destruct (find_cell (c_cellId a) g) as [c|] eqn:Hc.
    + destruct (find_cell (c_cellId a) g0) as [c0|] eqn:Hc0; [|discriminate].
      cbn in Hva. injection Hva as Hva.
      assert (Hval' : forall k,
                 option_map diceValue
                   (find_cell k (update_cell (c_cellId a)
                                   (addOwner (c_playerId a) (c_role a)) g))
                 = option_map diceValue (find_cell k g0)).
      { intros k. rewrite <- Hval.
        destruct (String.eqb_spec (c_cellId a) k) as [E|E].
        - subst k.
          rewrite (find_cell_update_same _ _ _ _ (addOwner_id _ _) Hc), Hc.
          reflexivity.
        - rewrite (find_cell_update_other _ _ _ _ E (addOwner_id _ _)).
          reflexivity. }
      destruct (String.eqb_spec (c_playerId a) pid) as [Ep|Ep].
      * assert (Hmine : claimOf g0 pid (diceValue c0) a = true)
          by (rewrite <- Ep; apply claimOf_self, Hc0).
        pose proof (Hcount (diceValue c0)) as H1.
        rewrite claimCount_cons, Hmine in H1.
        pose proof (claimCount_nonneg g0 pid (diceValue c0) t) as H0.
        assert (Hh : holdsDie (diceValue c) p = true)
          by (rewrite Hva; apply holdsDie_count; lia).
        destruct (spendDie_removes _ _ Hh) as (l1 & l2 & Hd & _ & Hd' & Hm).
        assert (Hdice : forall w,
                   Z.of_nat (count_occ Z.eq_dec (dice p) w)
                   = Z.of_nat (count_occ Z.eq_dec
                                 (dice (spendDie (diceValue c) p)) w)
                     + (if diceValue c0 =? w then 1 else 0)).
        { intros w. rewrite Hd, Hd', <- Hva. apply count_occ_middle. }
        assert (Hother : forall w, diceValue c0 <> w ->
                   claimOf g0 pid w a = false).
        { intros w Hw. apply (claimOf_other g0 pid w a c0 Hc0). now right. }
        destruct (IH (update_player (c_playerId a) (spendDie (diceValue c)) ps) _
                    (spendDie (diceValue c) p) Hval') as (p' & F & I & M & C).
        { subst pid. apply find_player_update_same; [apply spendDie_id|exact Hp]. }
        { intros w. specialize (Hcount w). specialize (Hdice w).
          rewrite claimCount_cons in Hcount.
          destruct (Z.eq_dec (diceValue c0) w) as [Ew|Ew].
          - subst w. rewrite Hmine in Hcount. rewrite Z.eqb_refl in Hdice. lia.
          - rewrite (Hother w Ew) in Hcount. apply Z.eqb_neq in Ew.
            rewrite Ew in Hdice. lia. }
        exists p'. split; [exact F|]. rewrite I, M, spendDie_id, Hm.
        split; [reflexivity|]. split; [reflexivity|].
        intros w. rewrite C, claimCount_cons. specialize (Hdice w).
        destruct (Z.eq_dec (diceValue c0) w) as [Ew|Ew].
        -- subst w. rewrite Hmine. rewrite Z.eqb_refl in Hdice. lia.
        -- rewrite (Hother w Ew). apply Z.eqb_neq in Ew. rewrite Ew in Hdice. lia.
      * assert (Hnot : forall w, claimOf g0 pid w a = false).
        { intros w. apply (claimOf_other g0 pid w a c0 Hc0). now left. }
        destruct (IH (update_player (c_playerId a) (spendDie (diceValue c)) ps) _
                    p Hval') as (p' & F & I & M & C).
        { rewrite (find_player_update_other _ _ _ _ Ep (spendDie_id _)).
          exact Hp. }
        { intros w. specialize (Hcount w).
          rewrite claimCount_cons, Hnot in Hcount. lia. }
        exists p'. split; [exact F|]. split; [exact I|]. split; [exact M|].
        intros w. rewrite C, claimCount_cons, Hnot. lia.
    + assert (Hnot : forall w, claimOf g0 pid w a = false).
      { intros w. unfold claimOf.
        destruct (find_cell (c_cellId a) g0); [discriminate|].
        apply andb_false_r. }
      destruct (IH ps g p Hval Hp) as (p' & F & I & M & C).
      { intros w. specialize (Hcount w).
        rewrite claimCount_cons, Hnot in Hcount. lia. }
      exists p'. split; [exact F|]. split; [exact I|]. split; [exact M|].
      intros w. rewrite C, claimCount_cons, Hnot. lia.
Qed.

(* ------------------------------------------------------------------ *)
(** ** The buy queues of a reachable room *)

Lemma buyOk_idle (s : Storage) : phaseOf s <> Some buy_phase -> BuyOk s.
Proof. intros H. constructor; intros Hp; contradiction. Qed.

Lemma buyOk_empty (s : Storage) : buy (pendingActions s) = [] -> BuyOk s.
Proof. intros H. constructor; intros _; rewrite H; constructor. Qed.

Lemma sameButColour_refl (p : Player) : sameButColour p p.
Proof. unfold sameButColour. auto. Qed.

Lemma queueOk_same (s s' : Storage) (pid : string) (queue : list BuyAct) :
  grid s' = grid s -> Forall2 sameButColour (players s) (players s') ->
  QueueOk s pid queue -> QueueOk s' pid queue.
Proof.
  intros Hg Hps [Q1 Q2 (player & Hp & Q3)]. constructor; rewrite ?Hg; try assumption.
  pose proof (find_player_recoloured pid _ _ Hps) as Hf. rewrite Hp in Hf.
  destruct (find_player pid (players s')) as [p'|]; [|destruct Hf].
  exists p'. split; [reflexivity|]. destruct Hf as (_ & _ & _ & ->). exact Q3.
Qed.

Lemma buyOk_same (s s' : Storage) :
  config s' = config s ->
  buy (pendingActions s') = buy (pendingActions s) ->
  grid s' = grid s -> Forall2 sameButColour (players s) (players s') ->
  BuyOk s -> BuyOk s'.
Proof.
  intros Hc Hb Hg Hps [B1 B2]. unfold phaseOf in *.
  constructor; unfold phaseOf; rewrite Hc, Hb; intros Hp.
  - exact (B1 Hp).
  - eapply Forall_impl; [|exact (B2 Hp)].
    intros [pid queue]. apply queueOk_same; assumption.
Qed.

Lemma buyOk_broadcast (e : Env) (s : Storage) :
  BuyOk s -> BuyOk (fst (broadcastState e s)).
Proof.
  apply buyOk_same;
    [apply broadcast_config|now rewrite broadcast_pending|apply broadcast_grid
    |apply broadcast_players].
Qed.

Lemma enterPathPhase_buyOk (e : Env) (s : Storage) (cfg : GameConfig)
    (md : option (list Z)) :
  BuyOk (fst (enterPathPhase e s cfg md)).
Proof.
  apply buyOk_idle. unfold phaseOf.
  destruct (enterPathPhase_config e s cfg md) as [-> | ->]; discriminate.
Qed.

(** Whatever the timer routine finds, it leaves the buy queues in order:
    it enters the buy phase with an empty buffer only. *)
Lemma alarm_buyOk (e : Env) (s : Storage) : BuyOk s -> BuyOk (fst (alarm e s)).
Proof.
  intros B. unfold alarm. destruct (config s) as [cfg|] eqn:Hc; [|exact B].
  destruct (phase cfg) eqn:Hp.
  - exact B.
  - unfold alarm_round_start. destruct (randomDiceArray _ _) as [md g].
    apply buyOk_idle. unfold phaseOf. rewrite broadcast_config. discriminate.
  - unfold alarm_market. destruct (fold_left _ _ _) as [[ps md] cs].
    destruct cs.
    + apply buyOk_broadcast, buyOk_empty. reflexivity.
    + apply buyOk_idle. unfold phaseOf. rewrite broadcast_config. discriminate.
  - unfold alarm_buy.
    destruct (indexBuys _) as [roles byCell].
    destruct (fold_left _ byCell _) as [cs toApply].
    destruct (fold_left applyClaim _ _) as [ps g].
    destruct cs.
    + apply enterPathPhase_buyOk.
    + apply buyOk_idle. unfold phaseOf. rewrite broadcast_config. discriminate.
  - apply buyOk_idle. unfold phaseOf. rewrite alarm_path_config. discriminate.
  - unfold alarm_auction. destruct (fold_left _ _ _) as [[ps g] md].
    apply enterPathPhase_buyOk.
  - unfold alarm_round_end. destruct (_ >=? _).
    + destruct (players s).
      * apply buyOk_idle. unfold phaseOf. discriminate.
      * rewrite andThen_fst. cbn [fst]. apply buyOk_idle. unfold phaseOf.
        cbn [config setAlarm]. rewrite broadcast_config. discriminate.
    + destruct (randomDiceArray _ _) as [md g].
      apply buyOk_idle. unfold phaseOf. rewrite broadcast_config. discriminate.
  - destruct (deadlinePassed e cfg); [|exact B].
    apply buyOk_empty. reflexivity.
Qed.

Lemma rdel_rset_same {V} (k : string) (v : V) (d : Rec V) :
  rdel k (rset k v d) = rdel k d.
Proof.
  unfold rdel, rset, ddel. induction d as [|[k' v'] t IH]; cbn.
  - now rewrite String.eqb_refl.
  - destruct (String.eqb k' k) eqn:E; cbn.
    + rewrite String.eqb_refl. cbn. reflexivity.
    + rewrite E. cbn. now rewrite IH.
Qed.

(** Dropping elements keeps the keys of a list pairwise distinct. *)
Lemma distinct_keys_filter {X K : Type} (keep : X -> bool) (key : X -> K)
    (xs : list X) :
  NoDup (map key xs) -> NoDup (map key (filter keep xs)).
Proof.
  intros Hn. induction xs as [|x rest IH]; [constructor|].
  cbn [map] in Hn. apply NoDup_cons_iff in Hn. destruct Hn as [Hx Hn].
  cbn [filter]. destruct (keep x); [|exact (IH Hn)].
  cbn [map]. constructor; [|exact (IH Hn)].
  intros Hin. apply Hx. apply in_map_iff in Hin. destruct Hin as (y & E & Hy).
  apply filter_In in Hy. rewrite <- E. apply in_map, Hy.
Qed.

Lemma NoDup_rdel {V} (k : string) (d : Rec V) :
  NoDup (dkeys d) -> NoDup (dkeys (rdel k d)).
Proof. apply distinct_keys_filter. Qed.

Lemma len_filter_filter {A} (p f : A -> bool) (l : list A) :
  len (filter p (filter f l)) <= len (filter p l).
Proof.
  induction l as [|h t IH]; [cbn; lia|].
  cbn [filter]. destruct (f h); cbn [filter]; destruct (p h); unfold len in *;
    cbn [List.length]; lia.
Qed.

(** A queue with some acts taken out is a queue still. *)
Lemma queueOk_filter (s : Storage) (pid : string) (f : BuyAct -> bool)
    (queue : list BuyAct) :
  QueueOk s pid queue -> QueueOk s pid (filter f queue).
Proof.
  intros [Q1 Q2 (player & Hp & Q3)]. constructor.
  - apply distinct_keys_filter, Q1.
  - rewrite Forall_forall in *. intros a Ha. apply filter_In in Ha. apply Q2, Ha.
  - exists player. split; [exact Hp|]. intros v. specialize (Q3 v).
    pose proof (len_filter_filter (needsDie (cellById (grid s)) v) f queue).
    unfold needs in *. lia.
Qed.

(** The re-validation loop keeps a queue free of repeated cells. *)
Lemma queue_fold_cells (byId : Rec Cell) (acts : list BuyAct) :
  forall (pool : list (Z * Z)) (kept : list BuyAct),
  NoDup (map cellId (kept ++ acts)) ->
  NoDup (map cellId (snd (fold_left (queueStep byId) acts (pool, kept)))).
Proof.
  induction acts as [|a t IH]; intros pool kept Hn.
  - cbn. now rewrite app_nil_r in Hn.
  - cbn [fold_left].
    assert (Hskip : NoDup (map cellId (kept ++ t))).
    { rewrite map_app in *. cbn [map] in Hn. exact (NoDup_remove_1 _ _ _ Hn). }
    assert (Htake : NoDup (map cellId ((kept ++ [a]) ++ t)))
      by (rewrite <- app_assoc; exact Hn).
    unfold queueStep at 2.
    destruct (rget (cellId a) byId) as [target|]; [|exact (IH _ _ Hskip)].
    destruct (blocked target); [exact (IH _ _ Hskip)|].
    destruct (_ <=? 0); [exact (IH _ _ Hskip)|exact (IH _ _ Htake)].
Qed.

Lemma queue_without_cell (cell_id : string) (ro : Role) (current : list BuyAct) :
  NoDup (map cellId current) ->
  NoDup (map cellId (filter (fun a => negb (sameCell cell_id a)) current
                     ++ [{| cellId := cell_id; role := ro |}])).
Proof.
  intros Hn. rewrite map_app. cbn [map cellId]. apply NoDup_app.
  - apply distinct_keys_filter, Hn.
  - repeat constructor. intros [].
  - intros x Hx [<-|[]]. apply in_map_iff in Hx. destruct Hx as (a & E & Ha).
    apply filter_In in Ha. destruct Ha as [_ Ha]. unfold sameCell in Ha.
    rewrite E, String.eqb_refl in Ha. discriminate.
Qed.

Lemma buyOk_pending (s : Storage) (pa : PendingActions) :
  buy pa = buy (pendingActions s) -> BuyOk s -> BuyOk (set_pending pa s).
Proof.
  intros H. apply buyOk_same;
    [reflexivity|exact H|reflexivity|apply Forall2_same, sameButColour_refl].
Qed.

Lemma buyOk_paths (s : Storage) (sp : Rec SubmittedPath) :
  BuyOk s -> BuyOk (set_submittedPaths sp s).
Proof.
  apply buyOk_same;
    [reflexivity|reflexivity|reflexivity|apply Forall2_same, sameButColour_refl].
Qed.

Lemma buyOk_queue (s : Storage) (b' : Rec (list BuyAct)) (done : Rec unit) :
  NoDup (dkeys b') ->
  Forall (fun entry => QueueOk s (fst entry) (snd entry)) b' ->
  BuyOk (set_pending (set_buyDone done (set_buy b' (pendingActions s))) s).
Proof.
  intros Hk Hq. constructor; intros _; cbn [pendingActions set_pending buy
                                              set_buyDone set_buy].
  - exact Hk.
  - eapply Forall_impl; [|exact Hq]. intros [pid queue].
    apply queueOk_same; [reflexivity|apply Forall2_same, sameButColour_refl].
Qed.

Lemma current_queue (s : Storage) (pid : string) :
  BuyOk s -> phaseOf s = Some buy_phase ->
  let current := orElse (rget pid (buy (pendingActions s))) [] in
  NoDup (map cellId current) /\ (current <> [] -> QueueOk s pid current).
Proof.
  intros [B1 B2] Hp. cbv zeta.
  destruct (rget pid (buy (pendingActions s))) as [current|] eqn:E; cbn [orElse].
  - apply rget_In in E. specialize (B2 Hp). rewrite Forall_forall in B2.
    pose proof (B2 _ E) as Q. cbn [fst snd] in Q. split; [apply Q|auto].
  - split; [constructor|intros H; contradiction].
Qed.

Ltac buy_same_tac B :=
  try unfold notJoined; rewrite ?andThen_fst; cbn [fst sendTo];
  repeat first [ exact B | apply buyOk_broadcast | apply buyOk_paths
               | apply buyOk_pending; [reflexivity|] ].

Lemma message_buyOk (e : Env) (ws : nat) (attached : option string) (m : Msg)
    (s : Storage) :
  BuyOk s -> BuyOk (fst (webSocketMessage e ws attached m s)).
Proof.
  intros B. destruct m; cbn [webSocketMessage].
  - rewrite andThen_fst. apply buyOk_broadcast. unfold maybeAdvanceTimedPhase.
    destruct (config s) as [cfg|]; [|exact B].
    destruct (_ && _); [apply alarm_buyOk, B|exact B].
  - unfold handleJoin. destruct (inPhase lobby s) eqn:Hph; [|exact B].
    destruct (ensurePlayerColors _ _) as [ps g1].
    destruct (distinctPlayerColor _ _) as [c g2].
    apply inPhase_phaseOf in Hph. apply buyOk_idle. unfold phaseOf in *.
    rewrite andThen_fst, broadcast_config. cbn [fst config set_players].
    rewrite Hph. discriminate.
  - unfold handleRejoin. destruct (existsb _ _); [buy_same_tac B|].
    destruct (inPhase lobby s) eqn:Hph; [|buy_same_tac B].
    unfold handleJoin. rewrite Hph.
    destruct (ensurePlayerColors _ _) as [ps g1].
    destruct (distinctPlayerColor _ _) as [c g2].
    apply inPhase_phaseOf in Hph. apply buyOk_idle. unfold phaseOf in *.
    rewrite andThen_fst, broadcast_config. cbn [fst config set_players].
    rewrite Hph. discriminate.
  - unfold handleStartGame. destruct (ensurePlayerColors _ _) as [ps g1].
    destruct (config s) as [cfg|]; [|exact B].
    destruct (_ || _); [exact B|].
    destruct (generateGrid _ _ _) as [grid' g2].
    destruct (randomDiceArray _ g2) as [md g3].
    destruct (dealStart ps g3) as [ps' g4].
    apply buyOk_broadcast, buyOk_empty; reflexivity.
  - unfold handleBuyCell.
    destruct (joinedAs attached) as [pid|]; [|buy_same_tac B].
    destruct (negb (inPhase buy_phase s)) eqn:Hph; [buy_same_tac B|].
    apply negb_inPhase, inPhase_phaseOf in Hph.
    destruct (find_cell _ _) as [cell|]; [|buy_same_tac B].
    destruct (find_player _ _) as [player|] eqn:Hplayer; [|buy_same_tac B].
    destruct (_ || _); [buy_same_tac B|].
    destruct (current_queue s pid B Hph) as [Hcur _].
    set (current := orElse (rget pid (buy (pendingActions s))) []) in *.
    set (candidate := filter (fun a => negb (sameCell cell_id a)) current
                      ++ [{| cellId := cell_id; role := ro |}]).
    destruct (queue_fold (cellById (grid s)) candidate (countDice (dice player)) [])
      as (N & O & _).
    { intros v. rewrite countDice_get. lia. }
    { constructor. }
    pose proof (queue_fold_cells (cellById (grid s)) candidate
                  (countDice (dice player)) []
                  (queue_without_cell cell_id ro current Hcur)) as Hcells.
    set (nextQueued := snd (fold_left (queueStep (cellById (grid s))) candidate
                              (countDice (dice player), []))) in *.
    destruct (negb _); [buy_same_tac B|].
    apply buyOk_broadcast, buyOk_queue.
    + apply NoDup_rset, (buy_keys B Hph).
    + apply Forall_rset; [exact (buy_queues B Hph)|]. cbn [fst snd].
      constructor; [exact Hcells|exact O|].
      exists player. split; [exact Hplayer|]. intros v. specialize (N v).
      rewrite countDice_get in N. unfold needs in N at 2. cbn in N. lia.
  - unfold handleBuyCellCancel.
    destruct (joinedAs attached) as [pid|]; [|buy_same_tac B].
    destruct (negb (inPhase buy_phase s)) eqn:Hph; [buy_same_tac B|].
    apply negb_inPhase, inPhase_phaseOf in Hph.
    destruct (current_queue s pid B Hph) as [_ Hcur].
    set (current := orElse (rget pid (buy (pendingActions s))) []) in *.
    apply buyOk_broadcast, buyOk_queue.
    + destruct (filter _ current);
        [apply NoDup_rdel|]; apply NoDup_rset, (buy_keys B Hph).
    + destruct (filter _ current) as [|a rest] eqn:Hrest.
      * rewrite rdel_rset_same. apply Forall_rdel, (buy_queues B Hph).
      * apply Forall_rset; [exact (buy_queues B Hph)|]. cbn [fst snd].
        rewrite <- Hrest. apply queueOk_filter, Hcur.
        intros E. rewrite E in Hrest. discriminate.
  - unfold handleBuyDone.
    destruct (joinedAs attached) as [pid|]; [|buy_same_tac B].
    destruct (negb (inPhase buy_phase s)) eqn:Hph; [buy_same_tac B|].
    assert (B' : BuyOk
              (set_pending (set_buyDone (rset pid tt (buyDone (pendingActions s)))
                              (pendingActions s)) s))
      by (apply buyOk_pending; [reflexivity|exact B]).
    destruct (everyoneIn _ _); [apply alarm_buyOk|apply buyOk_broadcast];
      exact B'.
  - unfold handleAuctionBid.
    destruct (joinedAs attached) as [pid|]; [|buy_same_tac B].
    destruct (negb (inPhase auction s)); [buy_same_tac B|].
    destruct (find _ _) as [c|]; buy_same_tac B.
  - unfold handlePath.
    destruct (joinedAs attached) as [pid|]; [|buy_same_tac B].
    destruct (negb _); [buy_same_tac B|].
    destruct (find_cell producer_id _) as [pc|]; [|buy_same_tac B].
    destruct (find_cell seller_id _) as [sc|]; [|buy_same_tac B].
    destruct (negb _); [buy_same_tac B|].
    destruct (negb _); [buy_same_tac B|].
    destruct p as [|first [|second rest]]; try buy_same_tac B.
    destruct (_ || _); [buy_same_tac B|].
    destruct (checkPath _ _); buy_same_tac B.
  - unfold handlePathDone.
    destruct (joinedAs attached) as [pid|]; [|buy_same_tac B].
    destruct (negb _); [buy_same_tac B|].
    destruct (everyoneIn _ _);
      [apply alarm_buyOk|apply buyOk_broadcast];
      (apply buyOk_pending; [reflexivity|exact B]).
  - unfold handleMarketBid.
    destruct (joinedAs attached) as [pid|]; [|buy_same_tac B].
    destruct (config s) as [cfg|] eqn:Hc; [|buy_same_tac B].
    destruct (phase_eqb (phase cfg) market_phase) eqn:Hp; cbn [negb];
      [|buy_same_tac B].
    destruct (_ || _); [buy_same_tac B|].
    destruct (_ <? _); [buy_same_tac B|].
    destruct (everyoneIn _ _);
      [apply alarm_buyOk|apply buyOk_broadcast];
      (apply buyOk_pending; [reflexivity|exact B]).
  - unfold handleMarketSkip.
    destruct (joinedAs attached) as [pid|]; [|buy_same_tac B].
    destruct (negb (inPhase market_phase s)) eqn:Hph; [buy_same_tac B|].
    destruct (everyoneIn _ _);
      [apply alarm_buyOk|apply buyOk_broadcast];
      (apply buyOk_pending; [reflexivity|exact B]).
  - unfold handleMarketRecycle.
    destruct (joinedAs attached) as [pid|]; [|buy_same_tac B].
    destruct (negb (inPhase market_phase s)) eqn:Hph; [buy_same_tac B|].
    apply negb_inPhase, inPhase_phaseOf in Hph.
    destruct (find_player _ _) as [player|]; [|buy_same_tac B].
    destruct (_ || _); [buy_same_tac B|].
    apply buyOk_idle. unfold phaseOf in *. rewrite broadcast_config.
    cbn [config set_players]. rewrite Hph. discriminate.
  - buy_same_tac B.
Qed.

(** In every reachable room the buy queues are in order. *)
Lemma reachable_buyOk (s : Storage) : reachable s -> BuyOk s.
Proof.
  induction 1 as [rounds|e s ev _ IH].
  - apply buyOk_empty. reflexivity.
  - destruct ev as [ws attached m| |]; cbn [step].
    + apply message_buyOk, IH.
    + apply alarm_buyOk, IH.
    + apply buyOk_broadcast, IH.
Qed.

(* ------------------------------------------------------------------ *)
(** ** Resolution of the buy phase in a room with orderly queues *)

Lemma In_rget {V} (k : string) (v : V) (d : Rec V) :
  NoDup (dkeys d) -> In (k, v) d -> rget k d = Some v.
Proof.
  unfold rget, dkeys. induction d as [|[k' v'] t IH]; intros Hn Hin; [destruct Hin|].
  cbn [map fst] in Hn. apply NoDup_cons_iff in Hn. destruct Hn as [Hk Hn].
  cbn [dget]. destruct Hin as [E|Hin].
  - injection E as -> ->. now rewrite String.eqb_refl.
  - destruct (String.eqb_spec k' k) as [E|E]; [|exact (IH Hn Hin)].
    exfalso. apply Hk. subst k'. change k with (fst (k, v)). apply in_map, Hin.
Qed.

Lemma find_cell_In (g : list Cell) (c : Cell) :
  NoDup (map id g) -> In c g -> find_cell (id c) g = Some c.
Proof.
  unfold find_cell, is_cell. induction g as [|h t IH]; intros Hn Hin; [destruct Hin|].
  cbn [map] in Hn. apply NoDup_cons_iff in Hn. destruct Hn as [Hh Hn].
  cbn [find]. destruct Hin as [->|Hin].
  - now rewrite String.eqb_refl.
  - destruct (String.eqb_spec (id h) (id c)) as [E|E]; [|exact (IH Hn Hin)].
    exfalso. apply Hh. rewrite E. apply in_map, Hin.
Qed.

Lemma len_pos_In {A} (x : A) (l : list A) : In x l -> 0 < len l.
Proof. destruct l; [intros []|]. intros _. unfold len. cbn. lia. Qed.

Lemma soleClaimant_true (b : Rec (list BuyAct)) (pid cell : string) :
  soleClaimant b pid cell = true <-> claimants b cell = [pid].
Proof.
  unfold soleClaimant. destruct (claimants b cell) as [|p [|p' rest]].
  - split; discriminate.
  - rewrite String.eqb_eq. split; [now intros ->|now intros [= ->]].
  - split; discriminate.
Qed.

Section Resolution.

Variable s : Storage.
Hypothesis G : GridOk (grid s).
Hypothesis B : BuyOk s.
Hypothesis Hph : phaseOf s = Some buy_phase.

Lemma queue_of (pid : string) (queue : list BuyAct) :
  In (pid, queue) (buy (pendingActions s)) -> QueueOk s pid queue.
Proof.
  intros Hin. pose proof (buy_queues B Hph) as H. rewrite Forall_forall in H.
  exact (H _ Hin).
Qed.

(** What a queued act aims at: a cell of the board, not blocked, under its
    rendered name. *)
Lemma queued_target (pid : string) (queue : list BuyAct) (a : BuyAct) :
  In (pid, queue) (buy (pendingActions s)) -> In a queue ->
  exists c, find_cell (cellId a) (grid s) = Some c /\ In c (grid s) /\
            id c = cellId a /\ blocked c = false /\ cellId a = cellName c.
Proof.
  intros Hin Ha. pose proof (queue_open (queue_of pid queue Hin)) as Ho.
  rewrite Forall_forall in Ho. destruct (Ho a Ha) as (c & Hc & Hb).
  rewrite (cellById_find _ _ (grid_ids G)) in Hc.
  destruct (find_cell_id _ _ _ Hc) as [Hid Hg].
  exists c. repeat split; try assumption.
  pose proof (grid_names G) as Hnames. rewrite Forall_forall in Hnames.
  rewrite <- Hid. apply Hnames, Hg.
Qed.

Lemma buys_colon_free (pid : string) (queue : list BuyAct) (a : BuyAct) :
  In (pid, queue) (buy (pendingActions s)) -> In a queue ->
  hasChar ":" (cellId a) = false.
Proof.
  intros Hin Ha. destruct (queued_target pid queue a Hin Ha) as (c & _ & _ & _ & _ & ->).
  apply cellName_no_colon.
Qed.

Lemma buys_tidy : tidyBuys (buy (pendingActions s)).
Proof.
  split; [exact (buy_keys B Hph)|]. apply Forall_forall. intros [pid queue] Hin.
  cbn [snd]. split; [exact (queue_cells (queue_of pid queue Hin))|].
  apply Forall_forall. intros a Ha.
  destruct (queued_target pid queue a Hin Ha) as (c & _ & _ & _ & _ & ->).
  apply cellName_not_empty.
Qed.

Lemma byCell_entry (cell : string) (pids : list string) :
  In (cell, pids) (snd (indexBuys (buy (pendingActions s)))) <->
  pids <> [] /\ claimants (buy (pendingActions s)) cell = pids.
Proof.
  pose proof (indexBuys_byCell (buy (pendingActions s)) cell buys_tidy) as H.
  split.
  - intros Hin. apply (In_rget _ _ _ (indexBuys_keys _)) in Hin.
    rewrite H in Hin. destruct (claimants _ cell); [discriminate|].
    injection Hin as <-. split; [discriminate|reflexivity].
  - intros [Hne E]. apply rget_In. rewrite H, E. now destruct pids.
Qed.

(** A cell that one player alone has queued yields a claim of that player,
    in the role the player queued. *)
Lemma sole_claim (t : Z) (pid cell : string) :
  claimants (buy (pendingActions s)) cell = [pid] ->
  exists queue a c,
    In (pid, queue) (buy (pendingActions s)) /\ In a queue /\ cellId a = cell /\
    find_cell cell (grid s) = Some c /\ In c (grid s) /\
    In {| c_playerId := pid; c_cellId := cell; c_role := role a |}
       (buyClaims t s).
Proof.
  intros Hsole.
  assert (Hpid : In pid (claimants (buy (pendingActions s)) cell))
    by (rewrite Hsole; now left).
  apply claimants_In in Hpid. destruct Hpid as (queue & Hin & Hcell).
  apply in_map_iff in Hcell. destruct Hcell as (a & Hcell & Ha).
  destruct (queued_target pid queue a Hin Ha) as (c & Hc & Hg & Hid & Hb & _).
  rewrite Hcell in Hc.
  exists queue, a, c. repeat split; try assumption.
  rewrite buyClaims_entries. apply in_flat_map. exists (cell, [pid]).
  split; [apply byCell_entry; split; [discriminate|exact Hsole]|].
  unfold entryClaims. cbn [fst snd]. rewrite Hc.
  destruct (queue_dice (queue_of pid queue Hin)) as (player & Hp & Hdice).
  rewrite Hp.
  pose proof (indexBuys_roles _ pid queue a buys_tidy buys_colon_free Hin Ha) as Hr.
  rewrite Hcell in Hr. rewrite Hr, Hb. cbn [negb andb].
  assert (Hh : holdsDie (diceValue c) player = true).
  { apply holdsDie_count. specialize (Hdice (diceValue c)).
    assert (0 < needs (cellById (grid s)) (diceValue c) queue); [|lia].
    apply (len_pos_In a). apply filter_In. split; [exact Ha|].
    unfold needsDie. rewrite Hcell, (cellById_find _ _ (grid_ids G)), Hc.
    apply Z.eqb_refl. }
  rewrite Hh. now left.
Qed.

(** Every single-claimant claim is for a cell of the board that the
    claimant alone has queued, in the role the claimant queued. *)
Lemma claim_sole (t : Z) (cl : Claim) :
  In cl (buyClaims t s) ->
  claimants (buy (pendingActions s)) (c_cellId cl) = [c_playerId cl] /\
  queuedAs (buy (pendingActions s)) (c_playerId cl) (c_cellId cl) (c_role cl) /\
  exists c, find_cell (c_cellId cl) (grid s) = Some c /\ In c (grid s).
Proof.
  intros Hin. rewrite buyClaims_entries in Hin. apply in_flat_map in Hin.
  destruct Hin as ([cell pids] & Hentry & Hcl).
  destruct (entryClaims_cell _ _ _ _ _ Hcl) as (Hc & Hp & Hone).
  cbn [fst snd] in Hc, Hp. subst cell pids.
  apply byCell_entry in Hentry. destruct Hentry as [_ Hsole].
  split; [exact Hsole|].
  destruct (sole_claim t _ _ Hsole) as (queue & a & c & Hq & Ha & Hcell & Hfc & Hg & _).
  split; [|exists c; auto].
  exists queue. split; [exact Hq|].
  pose proof (indexBuys_roles _ _ queue a buys_tidy buys_colon_free Hq Ha) as Hr.
  rewrite Hcell in Hr. unfold entryClaims in Hcl. cbn [fst snd] in Hcl.
  rewrite Hr in Hcl.
  destruct (find_cell (c_cellId cl) (grid s)); [|destruct Hcl].
  destruct (find_player (c_playerId cl) (players s)); [|destruct Hcl].
  destruct (_ && _); [|destruct Hcl].
  destruct Hcl as [<-|[]]. cbn [c_role c_cellId]. rewrite <- Hcell.
  destruct a. exact Ha.
Qed.

Lemma claims_once (t : Z) : NoDup (map c_cellId (buyClaims t s)).
Proof. rewrite buyClaims_entries. apply entries_claim_once, indexBuys_keys. Qed.

(** The claims of a player on cells of one face are as many as the cells
    of that face which the player alone has queued. *)
Lemma claimCount_won (t : Z) (pid : string) (v : Z) :
  claimCount (grid s) pid v (buyClaims t s) = wonWith s pid v.
Proof.
  unfold claimCount, wonWith.
  set (L := claimsFor (grid s) pid v (buyClaims t s)).
  set (R := soleCells s pid v).
  assert (HL : NoDup (map c_cellId L)) by apply distinct_keys_filter, claims_once.
  assert (HR : NoDup (map id R)) by apply distinct_keys_filter, (grid_ids G).
  assert (H1 : incl (map c_cellId L) (map id R)).
  { intros x Hx. apply in_map_iff in Hx. destruct Hx as (cl & <- & Hcl).
    apply filter_In in Hcl. destruct Hcl as [Hcl Hof].
    destruct (claimOf_true _ _ _ _ Hof) as (Hp & c & Hc & Hv).
    destruct (claim_sole t cl Hcl) as (Hsole & _ & _).
    destruct (find_cell_id _ _ _ Hc) as [Hid Hg].
    apply in_map_iff. exists c. split; [exact Hid|].
    apply filter_In. split; [exact Hg|].
    apply andb_true_iff. split; [now apply Z.eqb_eq|].
    apply soleClaimant_true. rewrite Hid, <- Hp. exact Hsole. }
  assert (H2 : incl (map id R) (map c_cellId L)).
  { intros x Hx. apply in_map_iff in Hx. destruct Hx as (c & <- & Hc).
    apply filter_In in Hc. destruct Hc as [Hg Hc].
    apply andb_true_iff in Hc. destruct Hc as [Hv Hsole].
    apply Z.eqb_eq in Hv. apply soleClaimant_true in Hsole.
    destruct (sole_claim t _ _ Hsole) as (queue & a & c' & _ & _ & _ & Hc' & _ & Hin).
    apply in_map_iff. eexists. split; [|apply filter_In; split; [exact Hin|]].
    - reflexivity.
    - unfold claimOf. cbn [c_playerId c_cellId].
      rewrite String.eqb_refl, (find_cell_In _ _ (grid_ids G) Hg).
      now apply Z.eqb_eq. }
  pose proof (NoDup_incl_length HL H1) as L1.
  pose proof (NoDup_incl_length HR H2) as L2.
  rewrite !length_map in L1, L2. unfold len. lia.
Qed.

(** No player is the sole claimant of more cells of a face than the player
    holds dice of that face. *)
Lemma won_within_hand (pid : string) (p : Player) (v : Z) :
  find_player pid (players s) = Some p ->
  wonWith s pid v <= Z.of_nat (count_occ Z.eq_dec (dice p) v).
Proof.
  intros Hp. unfold wonWith.
  assert (Hq : forall c, In c (soleCells s pid v) ->
             exists queue a, In (pid, queue) (buy (pendingActions s)) /\
                             In a queue /\ cellId a = id c /\ In c (grid s) /\
                             diceValue c = v).
  { intros c Hc. apply filter_In in Hc. destruct Hc as [Hg Hc].
    apply andb_true_iff in Hc. destruct Hc as [Hv Hsole].
    apply Z.eqb_eq in Hv. apply soleClaimant_true in Hsole.
    destruct (sole_claim 0 _ _ Hsole) as (queue & a & c' & H1 & H2 & H3 & _).
    exists queue, a. auto. }
  destruct (rget pid (buy (pendingActions s))) as [queue|] eqn:Hget.
  - pose proof (rget_In _ _ _ Hget) as Hin.
    destruct (queue_dice (queue_of pid queue Hin)) as (player & Hp' & Hdice).
    rewrite Hp in Hp'. injection Hp' as <-.
    specialize (Hdice v).
    assert (HR : NoDup (map id (soleCells s pid v)))
      by apply distinct_keys_filter, (grid_ids G).
    assert (Hincl : incl (map id (soleCells s pid v))
                      (map cellId (filter (needsDie (cellById (grid s)) v) queue))).
    { intros x Hx. apply in_map_iff in Hx. destruct Hx as (c & <- & Hc).
      destruct (Hq c Hc) as (queue' & a & Hin' & Ha & Hcell & Hg & Hv).
      pose proof (In_rget _ _ _ (buy_keys B Hph) Hin') as Hget'.
      rewrite Hget in Hget'. injection Hget' as <-.
      apply in_map_iff. exists a. split; [exact Hcell|].
      apply filter_In. split; [exact Ha|].
      unfold needsDie.
      rewrite Hcell, (cellById_find _ _ (grid_ids G)),
        (find_cell_In _ _ (grid_ids G) Hg).
      now apply Z.eqb_eq. }
    pose proof (NoDup_incl_length HR Hincl) as Hlen.
    rewrite !length_map in Hlen. unfold needs, len in *. lia.
  - destruct (soleCells s pid v) as [|c0 R0]; [unfold len; cbn; lia|].
    destruct (Hq c0 (or_introl eq_refl)) as (queue & a & Hin & _).
    rewrite (In_rget _ _ _ (buy_keys B Hph) Hin) in Hget. discriminate.
Qed.

(** The dice-pool filter of the resolution has nothing to drop. *)
Lemma nothing_dropped (t : Z) :
  NoDup (map playerId (players s)) ->
  filteredToApply (grid s) (players s) (buyClaims t s) = buyClaims t s.
Proof.
  intros Hn. unfold filteredToApply.
  rewrite filter_keeps_all; [reflexivity| |].
  - intros cl Hcl. destruct (claim_sole t cl Hcl) as (_ & _ & c & -> & _).
    discriminate.
  - intros pid v Hsome. rewrite claimCount_won in *.
    assert (Hc : exists c, In c (soleCells s pid v)).
    { unfold wonWith in Hsome. destruct (soleCells s pid v) as [|c l];
        [unfold len in Hsome; cbn in Hsome; lia|exists c; now left]. }
    destruct Hc as (c & Hc). apply filter_In in Hc. destruct Hc as [Hg Hc].
    apply andb_true_iff in Hc. destruct Hc as [_ Hsole].
    apply soleClaimant_true in Hsole.
    destruct (sole_claim t _ _ Hsole) as (queue & _ & _ & Hin & _).
    destruct (queue_dice (queue_of pid queue Hin)) as (player & Hp & _).
    pose proof (won_within_hand pid player v Hp) as Hw.
    assert (Hmem : In player (players s) /\ playerId player = pid).
    { unfold find_player in Hp. apply find_some in Hp. destruct Hp as [H1 H2].
      split; [exact H1|]. now apply String.eqb_eq in H2. }
    destruct Hmem as [Hmem Hid].
    unfold poolLeft. rewrite <- Hid, (pool_get _ _ Hn Hmem), countDice_get.
    rewrite Hid. exact Hw.
Qed.

End Resolution.

(* ------------------------------------------------------------------ *)
(** ** What [alarm] stores and sends at the end of the buy phase *)

Lemma sameButColour_sameOrRehanded (p p' : Player) :
  sameButColour p p' -> sameOrRehanded p p'.
Proof. intros (Hi & _ & Hm & Hd). unfold sameOrRehanded. auto. Qed.

Lemma alarm_buy_players (e : Env) (s : Storage) (cfg : GameConfig) :
  Forall2 sameOrRehanded
    (fst (fold_left applyClaim
            (filteredToApply (grid s) (players s) (buyClaims (now e) s))
            (players s, grid s)))
    (players (fst (alarm_buy e s cfg))).
Proof.
  unfold alarm_buy, buyClaims.
  destruct (indexBuys (buy (pendingActions s))) as [roles byCell].
  destruct (fold_left (classifyCell _ _ _ _) byCell ([], [])) as [cs toApply].
  cbn [snd].
  destruct (fold_left applyClaim _ _) as [ps g]. cbn [fst].
  destruct cs.
  - match goal with
    | |- context [enterPathPhase e ?x cfg ?m] =>
        exact (enterPathPhase_players e x cfg m)
    end.
  - eapply Forall2_impl; [apply sameButColour_sameOrRehanded|].
    match goal with
    | |- context [broadcastState e ?x] => exact (broadcast_players e x)
    end.
Qed.

Lemma enterPathPhase_out (e : Env) (s : Storage) (cfg : GameConfig)
    (md : option (list Z)) :
  Forall (eq OState) (snd (enterPathPhase e s cfg md)).
Proof.
  unfold enterPathPhase. rewrite andThen_snd, broadcast_snd.
  apply Forall_app. split; [|repeat constructor].
  destruct (_ && _); [|constructor].
  unfold alarm_path. destruct (dealHands _ _) as [ps g].
  rewrite broadcast_snd. repeat constructor.
Qed.

(** The timer routine sends nothing but state broadcasts at the end of the
    buy phase. *)
Lemma alarm_buy_out (e : Env) (s : Storage) (cfg : GameConfig) :
  Forall (eq OState) (snd (alarm_buy e s cfg)).
Proof.
  unfold alarm_buy.
  destruct (indexBuys (buy (pendingActions s))) as [roles byCell].
  destruct (fold_left (classifyCell _ _ _ _) byCell ([], [])) as [cs toApply].
  destruct (fold_left applyClaim _ _) as [ps g].
  destruct cs.
  - apply enterPathPhase_out.
  - rewrite broadcast_snd. repeat constructor.
Qed.

(** The re-validation loop of [handleBuyCell] keeps the whole of a queue
    whose needs the pool covers, and takes one die out of the pool for every
    act. *)
Lemma queue_fold_keeps (byId : Rec Cell) (acts : list BuyAct) :
  forall (pool : list (Z * Z)) (kept : list BuyAct),
  Forall (targetsOpen byId) acts ->
  (forall v, needs byId v acts <= orElse (dget Z.eqb v pool) 0) ->
  snd (fold_left (queueStep byId) acts (pool, kept)) = kept ++ acts /\
  forall v, orElse (dget Z.eqb v (fst (fold_left (queueStep byId) acts (pool, kept)))) 0
            = orElse (dget Z.eqb v pool) 0 - needs byId v acts.
Proof.
  induction acts as [|a t IH]; intros pool kept Hopen Hneeds.
  - cbn [fold_left fst snd]. rewrite app_nil_r. split; [reflexivity|].
    intros v. unfold needs. cbn. lia.
  - apply Forall_cons_iff in Hopen. destruct Hopen as [(target & Ht & Hb) Hopen].
    assert (Hcons : forall v, needs byId v (a :: t)
                              = (if diceValue target =? v then 1 else 0)
                                + needs byId v t).
    { intros v. unfold needs. cbn [filter]. unfold needsDie at 1. rewrite Ht.
      destruct (diceValue target =? v); [|lia].
      unfold len. cbn [List.length]. lia. }
    assert (Hpos : forall v, 0 <= needs byId v t) by (intros v; apply len_nonneg).
    cbn [fold_left]. unfold queueStep at 2. unfold queueStep at 3.
    rewrite Ht, Hb.
    pose proof (Hneeds (diceValue target)) as Hself.
    rewrite Hcons, Z.eqb_refl in Hself. specialize (Hpos (diceValue target)) as Hp0.
    assert (Hleft : (orElse (dget Z.eqb (diceValue target) pool) 0 <=? 0) = false)
      by (apply Z.leb_gt; lia).
    rewrite Hleft.
    destruct (IH (dset Z.eqb (diceValue target)
                    (orElse (dget Z.eqb (diceValue target) pool) 0 - 1) pool)
                 (kept ++ [a]) Hopen) as [I1 I2].
    { intros v. specialize (Hneeds v). rewrite Hcons in Hneeds.
      destruct (Z.eq_dec (diceValue target) v) as [<-|Hne].
      - rewrite (dget_dset_same Z.eqb Zeqb_spec). rewrite Z.eqb_refl in Hneeds.
        cbn [orElse]. lia.
      - rewrite (dget_dset_other Z.eqb Zeqb_spec) by exact Hne.
        apply Z.eqb_neq in Hne. rewrite Hne in Hneeds. lia. }
    split; [rewrite I1, <- app_assoc; reflexivity|].
    intros v. rewrite I2, Hcons.
    destruct (Z.eq_dec (diceValue target) v) as [<-|Hne].
    + rewrite (dget_dset_same Z.eqb Zeqb_spec), Z.eqb_refl. cbn [orElse]. lia.
    + rewrite (dget_dset_other Z.eqb Zeqb_spec) by exact Hne.
      apply Z.eqb_neq in Hne. rewrite Hne. lia.
Qed.

Lemma filter_keeps_others (cell_id : string) (queue : list BuyAct) :
  ~ In cell_id (map cellId queue) ->
  filter (fun a => negb (sameCell cell_id a)) queue = queue /\
  existsb (sameCell cell_id) queue = false.
Proof.
  induction queue as [|a t IH]; intros Hn; [split; reflexivity|].
  cbn [map] in Hn. cbn [filter existsb].
  assert (Ha : sameCell cell_id a = false).
  { unfold sameCell. apply String.eqb_neq. intros E. apply Hn. now left. }
  destruct IH as [I1 I2]; [intros H; apply Hn; now right|].
  rewrite Ha, I1, I2. split; reflexivity.
Qed.

(** A player whose queue already uses every die of a face is refused a
    further cell of that face, with an error and no change to the room. *)
Lemma full_queue_refuses (e : Env) (ws : nat) (attached : option string)
    (s : Storage) (pid cell_id : string) (ro : Role) (queue : list BuyAct)
    (p : Player) (c : Cell) :
  GridOk (grid s) -> BuyOk s -> phaseOf s = Some buy_phase ->
  joinedAs attached = Some pid ->
  In (pid, queue) (buy (pendingActions s)) ->
  find_player pid (players s) = Some p ->
  find_cell cell_id (grid s) = Some c -> blocked c = false ->
  ~ In cell_id (map cellId queue) ->
  0 < Z.of_nat (count_occ Z.eq_dec (dice p) (diceValue c)) ->
  needs (cellById (grid s)) (diceValue c) queue
  = Z.of_nat (count_occ Z.eq_dec (dice p) (diceValue c)) ->
  handleBuyCell e ws attached cell_id ro s
  = (s, [OError ws ("You can only queue as many " +++ zstr (diceValue c)
                    +++ "s as dice you own.")]).
Proof.
  intros G B Hph Hj Hin Hp Hc Hb Hnew Hsome Hfull.
  unfold handleBuyCell. rewrite Hj.
  assert (Hin_phase : inPhase buy_phase s = true).
  { unfold phaseOf in Hph. unfold inPhase.
    destruct (config s) as [cfg|]; [|discriminate].
    cbn in Hph. injection Hph as ->. reflexivity. }
  rewrite Hin_phase, Hc, Hp, Hb, (holdsDie_count _ _ Hsome). cbn [negb orb].
  rewrite (In_rget _ _ _ (buy_keys B Hph) Hin). cbn [orElse].
  destruct (filter_keeps_others cell_id queue Hnew) as [-> Hnot].
  pose proof (queue_of s B Hph pid queue Hin) as [Q1 Q2 (p0 & Hp0 & Q3)].
  rewrite Hp in Hp0. injection Hp0 as <-.
  rewrite fold_left_app.
  destruct (queue_fold_keeps (cellById (grid s)) queue (countDice (dice p)) [] Q2)
    as [K1 K2].
  { intros v. rewrite countDice_get. apply Q3. }
  destruct (fold_left (queueStep (cellById (grid s))) queue
              (countDice (dice p), [])) as [pool1 kept1].
  cbn [fst snd] in K1, K2. cbn [app] in K1. subst kept1.
  cbn [fold_left]. unfold queueStep. cbn [cellId].
  rewrite (cellById_find _ _ (grid_ids G)), Hc, Hb.
  rewrite K2, countDice_get, Hfull, Z.sub_diag. cbn [Z.leb Z.compare snd].
  rewrite Hnot. reflexivity.
Qed.


Lemma twoQueuedRoom_reachable : reachable twoQueuedRoom.
Proof. do 2 apply reachable_run. exact startedRoom_reachable. Qed.


